(** * Optimizers of marian (optimizers.h / optimizers.cpp): a shallow embedding

    The file embeds [OptimizerBase::update], the three update rules
    ([Sgd], [Adagrad], [Adam]), their positional hyper-parameter setters and
    the checkpoint protocol ([load] / [save]) as functions over an explicit
    world: a heap of tensors (so that aliasing between [params], [grads],
    [pm_] and [gd_] is visible), a store of optimizer objects (the shards),
    a file system of checkpoint items and the stream of operations issued. *)

From Stdlib Require Import ZArith NArith QArith Reals Lra Lia String List Bool.
From Stdlib Require Import Floats.SpecFloat.
From stdpp Require Import base option list gmap strings.

Set Default Proof Using "Type".
Local Open Scope string_scope.

(** ** Numbers

    The source computes with [float] (tensor cells, hyper-parameters) and
    [double] (Adam's denominators).  The embedding is generic in both: the
    operations are those the source applies, and the casts it writes are
    kept.  Two machines are given further down: exact real arithmetic and
    IEEE-754 binary32/binary64. *)

Class Arith (A : Type) := {
  flit : Q -> A;            (* the value of a decimal literal at this type *)
  fadd : A -> A -> A;
  fsub : A -> A -> A;
  fmul : A -> A -> A;
  fdiv : A -> A -> A;
  fsqrt : A -> A;
  fltb : A -> A -> bool;    (* operator< *)
  fneqb : A -> A -> bool;   (* operator!= *)
}.

Declare Scope fl_scope.
Delimit Scope fl_scope with fl.
Notation "x + y" := (fadd x y) : fl_scope.
Notation "x - y" := (fsub x y) : fl_scope.
Notation "x * y" := (fmul x y) : fl_scope.
Notation "x / y" := (fdiv x y) : fl_scope.

(** [std::max(a, b)] is [(a < b) ? b : a]. *)
Definition std_max {A} `{Arith A} (a b : A) : A := if fltb a b then b else a.

Class Machine := {
  float : Type;
  double : Type;
  #[global] float_arith :: Arith float;
  #[global] double_arith :: Arith double;
  to_float : double -> float;            (* (float)x *)
  to_double : float -> double;           (* float to double promotion *)
  double_of_size : N -> double;          (* (double)n, n a size_t *)
  (* a raw buffer written with one element type and read through a pointer
     to the other one *)
  floats_of_doubles : list double -> list float;
  doubles_of_floats : list float -> list double;
}.

(** The literals of the source. *)
Definition q_0_9 : Q := 9 # 10.
Definition q_0_999 : Q := 999 # 1000.
Definition q_1e_8 : Q := 1 # 100000000.

(** ** Machine integers *)

Definition SIZE_MAX : N := 2 ^ 64 - 1.

(** [(size_t)z]: reduction modulo 2^64. *)
Definition size_of_Z (z : Z) : N := Z.to_N (z mod 2 ^ 64).

(** [(int)n] for a [size_t] n: the low 32 bits, read as two's complement. *)
Definition int_of_size (n : N) : Z :=
  (Z.of_N n + 2 ^ 31) mod 2 ^ 32 - 2 ^ 31.

(** ** Data model *)

(** [enum class Type], as the dispatch macros of tensor.h enumerate it. *)
Inductive Type_ :=
| int8 | int16 | int32 | int64
| uint8 | uint16 | uint32 | uint64
| float32 | float64.

#[global] Instance Type__eq_dec : EqDecision Type_.
Proof. solve_decision. Defined.

(** A backend is identified by its device. *)
Definition Backend := nat.

(** A tensor object is addressed by its place in the heap; [Tensor] is the
    intrusive pointer to it, [None] being the null pointer. *)
Definition loc := nat.
Definition Tensor := option loc.

(** A shape is a list of [int] dimensions; [Shape_elements] is its
    [elements()]. *)
Definition Shape := list Z.
Definition Shape_elements (s : Shape) : N := Z.to_N (fold_right Z.mul 1%Z s).

Inductive LogLevel := info | warn.

#[global] Instance LogLevel_eq_dec : EqDecision LogLevel.
Proof. solve_decision. Defined.

(** [TensorAllocator]: the backend it allocates on, the [reserveExact]
    requests it received (oldest first) and the tensors carved out of it. *)
Record TensorAllocator := {
  ta_backend : Backend;
  ta_reserved : list N;
  ta_tensors : list loc;
}.

(** [Ptr<TensorAllocator>]: the place of the allocator among the allocators
    of the world, or null. *)
Definition Ptr_TensorAllocator := option nat.

(** The operations issued, in the order in which they are issued. *)
Inductive Op :=
| OpReserveExact (bytes : N)
| OpAllocate (t : loc) (n : nat) (ty : Type_)
| OpCopyCast (dst src : loc)
| OpElement (out : loc) (ins : list loc)
| OpSet (t : loc)
| OpGet (t : loc)
| OpClip (t : loc)
| OpUpdateAvgParams (avg pm : loc) (batches mbSize : N)
| OpSynchronize (b : Backend)
| OpLog (level : LogLevel) (msg : string)
| OpScatter
| OpGather
| OpSaveItems (name : string).

#[global] Instance Op_eq_dec : EqDecision Op.
Proof. solve_decision. Defined.

Module TensorBase.
Section Fields.
Context `{Machine}.
(** [TensorBase]: the element type, the backend and the cells of the
    memory piece; [size()] is the number of cells. *)
Record t := {
  type_ : Type_;
  backend_ : Backend;
  data : list float;
}.
Definition size (x : t) : N := N.of_nat (length (data x)).
Definition with_data (v : list float) (x : t) : t :=
  {| type_ := type_ x; backend_ := backend_ x; data := v |}.
End Fields.
End TensorBase.

Module Item.
Section Fields.
Context `{Machine}.
(** The bytes of an item, by the element type they were written with. *)
Inductive Bytes :=
| FloatBytes (v : list float)
| DoubleBytes (v : list double).
(** [(float* )item.data()] and [(double* )item.data()]. *)
Definition as_floats (b : Bytes) : list float :=
  match b with FloatBytes v => v | DoubleBytes v => floats_of_doubles v end.
Definition as_doubles (b : Bytes) : list double :=
  match b with DoubleBytes v => v | FloatBytes v => doubles_of_floats v end.
(** [io::Item]. *)
Record t := {
  name : string;
  shape : Shape;
  type : Type_;
  bytes : Bytes;
}.
End Fields.
End Item.

Module Adagrad.
Section Fields.
Context `{Machine}.
Record state := {
  eps_ : float;
  alloc_ : Ptr_TensorAllocator;
  gt_ : Tensor;
}.
Definition set_eps_ v s := {| eps_ := v; alloc_ := alloc_ s; gt_ := gt_ s |}.
Definition set_alloc_ v s := {| eps_ := eps_ s; alloc_ := v; gt_ := gt_ s |}.
Definition set_gt_ v s := {| eps_ := eps_ s; alloc_ := alloc_ s; gt_ := v |}.
(** The member initialisers of the class. *)
Definition init : state :=
  {| eps_ := flit q_1e_8; alloc_ := None; gt_ := None |}.
End Fields.
End Adagrad.

Module Adam.
Section Fields.
Context `{Machine}.
Record state := {
  beta1_ : float;
  beta2_ : float;
  eps_ : float;
  w_ : float;
  t_ : N;
  denom1_ : double;
  denom2_ : double;
  alloc_ : Ptr_TensorAllocator;
  mt_ : Tensor;
  vt_ : Tensor;
}.
Definition set_beta1_ v s :=
  {| beta1_ := v; beta2_ := beta2_ s; eps_ := eps_ s; w_ := w_ s; t_ := t_ s;
     denom1_ := denom1_ s; denom2_ := denom2_ s; alloc_ := alloc_ s;
     mt_ := mt_ s; vt_ := vt_ s |}.
Definition set_beta2_ v s :=
  {| beta1_ := beta1_ s; beta2_ := v; eps_ := eps_ s; w_ := w_ s; t_ := t_ s;
     denom1_ := denom1_ s; denom2_ := denom2_ s; alloc_ := alloc_ s;
     mt_ := mt_ s; vt_ := vt_ s |}.
Definition set_eps_ v s :=
  {| beta1_ := beta1_ s; beta2_ := beta2_ s; eps_ := v; w_ := w_ s; t_ := t_ s;
     denom1_ := denom1_ s; denom2_ := denom2_ s; alloc_ := alloc_ s;
     mt_ := mt_ s; vt_ := vt_ s |}.
Definition set_w_ v s :=
  {| beta1_ := beta1_ s; beta2_ := beta2_ s; eps_ := eps_ s; w_ := v; t_ := t_ s;
     denom1_ := denom1_ s; denom2_ := denom2_ s; alloc_ := alloc_ s;
     mt_ := mt_ s; vt_ := vt_ s |}.
Definition set_denom1_ v s :=
  {| beta1_ := beta1_ s; beta2_ := beta2_ s; eps_ := eps_ s; w_ := w_ s; t_ := t_ s;
     denom1_ := v; denom2_ := denom2_ s; alloc_ := alloc_ s;
     mt_ := mt_ s; vt_ := vt_ s |}.
Definition set_denom2_ v s :=
  {| beta1_ := beta1_ s; beta2_ := beta2_ s; eps_ := eps_ s; w_ := w_ s; t_ := t_ s;
     denom1_ := denom1_ s; denom2_ := v; alloc_ := alloc_ s;
     mt_ := mt_ s; vt_ := vt_ s |}.
Definition set_alloc_ v s :=
  {| beta1_ := beta1_ s; beta2_ := beta2_ s; eps_ := eps_ s; w_ := w_ s; t_ := t_ s;
     denom1_ := denom1_ s; denom2_ := denom2_ s; alloc_ := v;
     mt_ := mt_ s; vt_ := vt_ s |}.
Definition set_mt_ v s :=
  {| beta1_ := beta1_ s; beta2_ := beta2_ s; eps_ := eps_ s; w_ := w_ s; t_ := t_ s;
     denom1_ := denom1_ s; denom2_ := denom2_ s; alloc_ := alloc_ s;
     mt_ := v; vt_ := vt_ s |}.
Definition set_vt_ v s :=
  {| beta1_ := beta1_ s; beta2_ := beta2_ s; eps_ := eps_ s; w_ := w_ s; t_ := t_ s;
     denom1_ := denom1_ s; denom2_ := denom2_ s; alloc_ := alloc_ s;
     mt_ := mt_ s; vt_ := v |}.
(** The member initialisers of the class and [t_{0}]. *)
Definition init : state :=
  {| beta1_ := flit q_0_9; beta2_ := flit q_0_999; eps_ := flit q_1e_8;
     w_ := flit 0; t_ := 0%N; denom1_ := flit 0; denom2_ := flit 0;
     alloc_ := None; mt_ := None; vt_ := None |}.
End Fields.
End Adam.

Module OptimizerBase.
Section Fields.
Context `{Machine}.
(** The members of [OptimizerBase]; [mvAvg_] is the one of
    [ExponentialSmoothing] that [update] reads, and [clipper_] holds the
    norm of the [Clipper<Norm>] when there is one. *)
Record state := {
  eta_ : float;
  refMBWordsParam_ : N;
  costScale_ : float;
  batchesSeen_ : N;
  clipper_ : option float;
  mvAvg_ : bool;
  optimizerType_ : Type_;
  optAlloc_ : Ptr_TensorAllocator;
  avg_ : Tensor;
  pm_ : Tensor;
  gd_ : Tensor;
}.
Definition set_optAlloc_ v s :=
  {| eta_ := eta_ s; refMBWordsParam_ := refMBWordsParam_ s;
     costScale_ := costScale_ s; batchesSeen_ := batchesSeen_ s;
     clipper_ := clipper_ s; mvAvg_ := mvAvg_ s;
     optimizerType_ := optimizerType_ s; optAlloc_ := v;
     avg_ := avg_ s; pm_ := pm_ s; gd_ := gd_ s |}.
Definition set_avg_ v s :=
  {| eta_ := eta_ s; refMBWordsParam_ := refMBWordsParam_ s;
     costScale_ := costScale_ s; batchesSeen_ := batchesSeen_ s;
     clipper_ := clipper_ s; mvAvg_ := mvAvg_ s;
     optimizerType_ := optimizerType_ s; optAlloc_ := optAlloc_ s;
     avg_ := v; pm_ := pm_ s; gd_ := gd_ s |}.
Definition set_pm_ v s :=
  {| eta_ := eta_ s; refMBWordsParam_ := refMBWordsParam_ s;
     costScale_ := costScale_ s; batchesSeen_ := batchesSeen_ s;
     clipper_ := clipper_ s; mvAvg_ := mvAvg_ s;
     optimizerType_ := optimizerType_ s; optAlloc_ := optAlloc_ s;
     avg_ := avg_ s; pm_ := v; gd_ := gd_ s |}.
Definition set_gd_ v s :=
  {| eta_ := eta_ s; refMBWordsParam_ := refMBWordsParam_ s;
     costScale_ := costScale_ s; batchesSeen_ := batchesSeen_ s;
     clipper_ := clipper_ s; mvAvg_ := mvAvg_ s;
     optimizerType_ := optimizerType_ s; optAlloc_ := optAlloc_ s;
     avg_ := avg_ s; pm_ := pm_ s; gd_ := v |}.
End Fields.
End OptimizerBase.

(** ** The world and the monad of the embedding *)

(** What stops a call: [ABORT] / [ABORT_IF] of the source, or behaviour that
    C++ leaves undefined (a null or dangling pointer dereferenced, an index
    out of range, a copy past the end of a buffer). *)
Inductive failure :=
| Abort (msg : string)
| Undefined (what : string).

Definition oid := nat.

Section World.
Context `{Machine}.

Inductive Rule :=
| RuleSgd
| RuleAdagrad (s : Adagrad.state)
| RuleAdam (s : Adam.state).

(** An optimizer object: the members of the base class and those of its
    dynamic class. *)
Record Optimizer := {
  base : OptimizerBase.state;
  rule : Rule;
}.

Record World := {
  heap : list TensorBase.t;
  allocators : list TensorAllocator;
  objs : list Optimizer;
  fs : gmap string (list Item.t);
  stream : list Op;
}.

Definition set_heap v w :=
  {| heap := v; allocators := allocators w; objs := objs w; fs := fs w;
     stream := stream w |}.
Definition set_allocators v w :=
  {| heap := heap w; allocators := v; objs := objs w; fs := fs w;
     stream := stream w |}.
Definition set_objs v w :=
  {| heap := heap w; allocators := allocators w; objs := v; fs := fs w;
     stream := stream w |}.
Definition set_fs v w :=
  {| heap := heap w; allocators := allocators w; objs := objs w; fs := v;
     stream := stream w |}.
Definition set_stream v w :=
  {| heap := heap w; allocators := allocators w; objs := objs w; fs := fs w;
     stream := v |}.

(** A computation returns a value or fails, and in both cases leaves the
    world as it is at that point. *)
Definition M (A : Type) : Type := World -> (failure + A) * World.

Definition ret {A} (a : A) : M A := fun w => (inr a, w).

Definition bind {A B} (m : M A) (k : A -> M B) : M B :=
  fun w => match m w with
           | (inl e, w') => (inl e, w')
           | (inr a, w') => k a w'
           end.

Definition fail {A} (e : failure) : M A := fun w => (inl e, w).

Definition gets {A} (f : World -> A) : M A := fun w => (inr (f w), w).

Definition modify (f : World -> World) : M unit := fun w => (inr tt, f w).
End World.

Declare Scope m_scope.
Delimit Scope m_scope with m.
Notation "x <- c1 ;; c2" := (bind c1 (fun x => c2))
  (at level 100, c1 at next level, right associativity) : m_scope.
Notation "e1 ;; e2" := (bind e1 (fun _ => e2))
  (at level 100, right associativity) : m_scope.
Local Open Scope m_scope.

Section Primitives.
Context `{Machine}.

Definition ABORT {A} (msg : string) : M A := fail (Abort msg).

Definition ABORT_IF (c : bool) (msg : string) : M unit :=
  if c then ABORT msg else ret tt.

Definition undefined {A} (what : string) : M A := fail (Undefined what).

Definition when (c : bool) (m : M unit) : M unit := if c then m else ret tt.

Definition is_null {A} (p : option A) : bool :=
  match p with None => true | Some _ => false end.

(** [v.empty()]. *)
Definition empty {A} (v : list A) : bool :=
  match v with [] => true | _ :: _ => false end.

(** [for(auto x : xs) body], threading the locals the body assigns. *)
Fixpoint foldM {A S} (body : S -> A -> M S) (xs : list A) (s : S) : M S :=
  match xs with
  | [] => ret s
  | x :: xs' => s' <- body s x ;; foldM body xs' s'
  end.

Fixpoint forM {A B} (xs : list A) (body : A -> M B) : M (list B) :=
  match xs with
  | [] => ret []
  | x :: xs' => y <- body x ;; ys <- forM xs' body ;; ret (y :: ys)
  end.

Definition issue (op : Op) : M unit :=
  modify (fun w => set_stream (stream w ++ [op]) w).

Definition LOG (level : LogLevel) (msg : string) : M unit :=
  issue (OpLog level msg).

(** *** Tensors *)

(** [t->...]: the object a tensor pointer points to. *)
Definition deref (t : Tensor) : M (loc * TensorBase.t) :=
  match t with
  | None => undefined "null Tensor dereferenced"
  | Some l =>
      h <- gets heap ;;
      match h !! l with
      | Some x => ret (l, x)
      | None => undefined "dangling Tensor dereferenced"
      end
  end.

Definition write (l : loc) (v : list float) : M unit :=
  modify (fun w =>
    set_heap (alter (TensorBase.with_data v) l (heap w)) w).

Definition type (t : Tensor) : M Type_ :=
  p <- deref t ;; ret (TensorBase.type_ (snd p)).

Definition size (t : Tensor) : M N :=
  p <- deref t ;; ret (TensorBase.size (snd p)).

Definition getBackend (t : Tensor) : M Backend :=
  p <- deref t ;; ret (TensorBase.backend_ (snd p)).

(** [matchOrAbort<float>(type_)]. *)
Definition matchOrAbort_float (ty : Type_) : M unit :=
  ABORT_IF (bool_decide (ty <> float32))
    "Requested type and underlying type do not match".

(** [t->set(value)]: every cell becomes [value]. *)
Definition set_value (t : Tensor) (value : float) : M unit :=
  p <- deref t ;; let '(l, x) := p in
  write l (replicate (length (TensorBase.data x)) value) ;;
  issue (OpSet l).

(** [t->set(v)] for a [std::vector<float>]: [v] is copied to the start of
    the memory of [t]. *)
Definition set_vector (t : Tensor) (v : list float) : M unit :=
  p <- deref t ;; let '(l, x) := p in
  matchOrAbort_float (TensorBase.type_ x) ;;
  (if bool_decide (length v <= length (TensorBase.data x))%nat
   then write l (v ++ drop (length v) (TensorBase.data x))
   else undefined "copy past the end of the tensor") ;;
  issue (OpSet l).

(** [t->get(v)]: [v] is resized to [size()] and receives the cells. *)
Definition get_vector (t : Tensor) : M (list float) :=
  p <- deref t ;; let '(l, x) := p in
  matchOrAbort_float (TensorBase.type_ x) ;;
  issue (OpGet l) ;;
  ret (TensorBase.data x).

(** [Element(functor, out)], [Element(functor, out, in1)] and
    [Element(functor, out, in1, in2)] for tensors of one shape: the functor
    is applied cell by cell and assigns [_1]. *)
Definition Element1 (f : float -> float) (out : Tensor) : M unit :=
  p <- deref out ;; let '(l, x) := p in
  write l (map f (TensorBase.data x)) ;;
  issue (OpElement l []).

Definition Element2 (f : float -> float -> float) (out in1 : Tensor)
  : M unit :=
  p <- deref out ;; let '(l, x) := p in
  p1 <- deref in1 ;; let '(l1, x1) := p1 in
  (if bool_decide (length (TensorBase.data x1) = length (TensorBase.data x))
   then write l (zip_with f (TensorBase.data x) (TensorBase.data x1))
   else undefined "Element on tensors of different shapes") ;;
  issue (OpElement l [l1]).

Definition zip_with3 {A B C D} (f : A -> B -> C -> D)
    (xs : list A) (ys : list B) (zs : list C) : list D :=
  zip_with (fun x yz => f x (fst yz) (snd yz)) xs (zip ys zs).

Definition Element3 (f : float -> float -> float -> float)
    (out in1 in2 : Tensor) : M unit :=
  p <- deref out ;; let '(l, x) := p in
  p1 <- deref in1 ;; let '(l1, x1) := p1 in
  p2 <- deref in2 ;; let '(l2, x2) := p2 in
  (if bool_decide (length (TensorBase.data x1) = length (TensorBase.data x)
                   /\ length (TensorBase.data x2) = length (TensorBase.data x))
   then write l (zip_with3 f (TensorBase.data x) (TensorBase.data x1)
                            (TensorBase.data x2))
   else undefined "Element on tensors of different shapes") ;;
  issue (OpElement l [l1; l2]).

Definition synchronize (b : Backend) : M unit := issue (OpSynchronize b).

(** *** The file system of checkpoints *)

Definition filesystem_exists (name : string) : M bool :=
  gets (fun w => bool_decide (is_Some (fs w !! name))).

Definition io_loadItems (name : string) : M (list Item.t) :=
  f <- gets fs ;;
  match f !! name with
  | Some items => ret items
  | None => ABORT "file not found"
  end.

Definition io_saveItems (name : string) (items : list Item.t) : M unit :=
  modify (fun w => set_fs (<[name := items]> (fs w)) w) ;;
  issue (OpSaveItems name).

(** [v.resize(n); std::copy(p, p + n, v.begin())]: the first [n] values
    behind [p]. *)
Definition copy_n {A} (n : N) (p : list A) : M (list A) :=
  if bool_decide (N.to_nat n <= length p)%nat
  then ret (take (N.to_nat n) p)
  else undefined "read past the end of the item".

(** *** Optimizer objects *)

Definition object (o : oid) : M Optimizer :=
  os <- gets objs ;;
  match os !! o with
  | Some x => ret x
  | None => undefined "no such optimizer"
  end.

(** A member of the base class, read and assigned. *)
Definition member {A} (this : oid) (f : OptimizerBase.state -> A) : M A :=
  x <- object this ;; ret (f (base x)).

Definition assign (this : oid)
    (f : OptimizerBase.state -> OptimizerBase.state) : M unit :=
  modify (fun w =>
    set_objs (alter (fun x => {| base := f (base x); rule := rule x |})
                    this (objs w)) w).

(** [std::dynamic_pointer_cast<Adagrad>(p)] followed by a member access:
    the cast of another kind of optimizer is null. *)
Definition as_Adagrad (o : oid) : M Adagrad.state :=
  x <- object o ;;
  match rule x with
  | RuleAdagrad s => ret s
  | _ => undefined "null Adagrad dereferenced"
  end.

Definition assign_Adagrad (o : oid)
    (f : Adagrad.state -> Adagrad.state) : M unit :=
  modify (fun w =>
    set_objs (alter (fun x =>
                match rule x with
                | RuleAdagrad s => {| base := base x; rule := RuleAdagrad (f s) |}
                | _ => x
                end) o (objs w)) w).

Definition as_Adam (o : oid) : M Adam.state :=
  x <- object o ;;
  match rule x with
  | RuleAdam s => ret s
  | _ => undefined "null Adam dereferenced"
  end.

Definition assign_Adam (o : oid) (f : Adam.state -> Adam.state) : M unit :=
  modify (fun w =>
    set_objs (alter (fun x =>
                match rule x with
                | RuleAdam s => {| base := base x; rule := RuleAdam (f s) |}
                | _ => x
                end) o (objs w)) w).

(** [v[i]] of a [std::vector]. *)
Definition at_ {A} (v : list A) (i : nat) : M A :=
  match v !! i with
  | Some x => ret x
  | None => undefined "index out of range"
  end.

(** *** Allocators *)

(** [New<TensorAllocator>(backend)]. *)
Definition New_TensorAllocator (b : Backend) : M Ptr_TensorAllocator :=
  n <- gets (fun w => length (allocators w)) ;;
  modify (fun w =>
    set_allocators
      (allocators w ++ [{| ta_backend := b; ta_reserved := []; ta_tensors := [] |}])
      w) ;;
  ret (Some n).

Definition allocator (a : Ptr_TensorAllocator) : M (nat * TensorAllocator) :=
  match a with
  | None => undefined "null TensorAllocator dereferenced"
  | Some n =>
      al <- gets allocators ;;
      match al !! n with
      | Some x => ret (n, x)
      | None => undefined "dangling TensorAllocator dereferenced"
      end
  end.

(** [a->reserveExact(bytes)]. *)
Definition reserveExact (a : Ptr_TensorAllocator) (bytes : N) : M unit :=
  p <- allocator a ;; let '(n, x) := p in
  modify (fun w =>
    set_allocators
      (<[n := {| ta_backend := ta_backend x;
                 ta_reserved := ta_reserved x ++ [bytes];
                 ta_tensors := ta_tensors x |}]> (allocators w)) w) ;;
  issue (OpReserveExact bytes).
End Primitives.

(** ** Collaborators

    What the optimizers call and the files at hand do not define is taken as
    a parameter: the byte size of an element type, the smallest positive
    value of a type, the conversion of a cell between two types, the values a
    norm clipper leaves, the values exponential smoothing leaves, and the
    contents of memory that was allocated and not yet written.  Clipping and
    smoothing work in place, so they keep the number of cells. *)
Class Collaborators `{Machine} := {
  sizeOf : Type_ -> N;
  NumericLimits_min : Type_ -> float;
  cast_value : Type_ -> Type_ -> float -> float;   (* to, from *)
  clip_values : float -> list float -> list float;
  clip_values_length : forall c v, length (clip_values c v) = length v;
  avg_values : list float -> list float -> N -> N -> list float;
  avg_values_length : forall a p b m, length (avg_values a p b m) = length a;
  arena_cell : nat -> float;
}.

(** [size_t] and [int] products. *)
Definition size_mul (a b : N) : N := ((a * b) mod 2 ^ 64)%N.
Definition int_mul (a b : Z) : Z := ((a * b + 2 ^ 31) mod 2 ^ 32 - 2 ^ 31)%Z.

(** [sizeof(float)]. *)
Definition sizeof_float : N := 4.

Section Collaborating.
Context `{Collaborators}.

(** Modelled from the spec: [TensorAllocator::allocate] (typed
    sub-allocation from the arena) is not in the files at hand.  It makes a
    new tensor of the given shape and type on the backend of the allocator,
    whose cells are whatever the arena holds, and points the handle at
    it. *)
Definition allocate (a : Ptr_TensorAllocator) (shape : Shape) (ty : Type_)
  : M Tensor :=
  p <- allocator a ;; let '(n, x) := p in
  l <- gets (fun w => length (heap w)) ;;
  let cells := N.to_nat (Shape_elements shape) in
  modify (fun w =>
    set_heap (heap w ++ [{| TensorBase.type_ := ty;
                            TensorBase.backend_ := ta_backend x;
                            TensorBase.data := map arena_cell (seq 0 cells) |}])
             w) ;;
  modify (fun w =>
    set_allocators
      (<[n := {| ta_backend := ta_backend x;
                 ta_reserved := ta_reserved x;
                 ta_tensors := ta_tensors x ++ [l] |}]> (allocators w)) w) ;;
  issue (OpAllocate l cells ty) ;;
  ret (Some l).

(** Modelled from the spec: [CopyCast(dst, src)] (cast-copy) is not in the
    files at hand.  Every cell of [src] is converted to the type of [dst]
    and stored in [dst]; the two have one shape. *)
Definition CopyCast (dst src : Tensor) : M unit :=
  p <- deref dst ;; let '(l, x) := p in
  p1 <- deref src ;; let '(l1, x1) := p1 in
  (if bool_decide (length (TensorBase.data x1) = length (TensorBase.data x))
   then write l (map (cast_value (TensorBase.type_ x) (TensorBase.type_ x1))
                     (TensorBase.data x1))
   else undefined "CopyCast on tensors of different shapes") ;;
  issue (OpCopyCast l l1).

(** Modelled from the spec: [ClipperBase::clip] (clip a tensor by its
    global norm) is not in the files at hand; it works in place. *)
Definition clip (c : float) (t : Tensor) : M unit :=
  p <- deref t ;; let '(l, x) := p in
  write l (clip_values c (TensorBase.data x)) ;;
  issue (OpClip l).

(** Modelled from the spec: [ExponentialSmoothing::updateAvgParams] (blend
    the average from the updated parameters, the batches seen and the
    minibatch size) is not in the files at hand; it works in place on the
    average. *)
Definition updateAvgParams (avg pm : Tensor) (batches mbSize : N) : M unit :=
  p <- deref avg ;; let '(l, x) := p in
  p1 <- deref pm ;; let '(l1, x1) := p1 in
  write l (avg_values (TensorBase.data x) (TensorBase.data x1) batches mbSize) ;;
  issue (OpUpdateAvgParams l l1 batches mbSize).

(** [t->memory()->size()]: the bytes of the memory piece. *)
Definition memory_size (t : Tensor) : M N :=
  p <- deref t ;;
  ret (size_mul (TensorBase.size (snd p)) (sizeOf (TensorBase.type_ (snd p)))).

(** ** The update rules *)

(** [Sgd::updateImpl]. *)
Definition Sgd_updateImpl (this : oid) (params grads : Tensor)
    (actualMBSize refMBWords : N) : M unit :=
  eta_ <- member this OptimizerBase.eta_ ;;
  Element2 (fun _1 _2 => _1 - eta_ * _2)%fl params grads.

(** [Adagrad::updateImpl]. *)
Definition Adagrad_updateImpl (this : oid) (params grads : Tensor)
    (actualMBSize refMBWords : N) : M unit :=
  ABORT_IF (negb (actualMBSize =? refMBWords)%N)
    "Adagrad does not support rational hyper-parameter adjustment" ;;
  s <- as_Adagrad this ;;
  when (is_null (Adagrad.alloc_ s))
    (b <- getBackend params ;;
     a <- New_TensorAllocator b ;;
     assign_Adagrad this (Adagrad.set_alloc_ a)) ;;
  s <- as_Adagrad this ;;
  when (is_null (Adagrad.gt_ s))
    (n <- size params ;;
     let elements := int_of_size n in
     bytes <- memory_size params ;;
     reserveExact (Adagrad.alloc_ s) bytes ;;
     ty <- type params ;;
     t <- allocate (Adagrad.alloc_ s) [1; elements]%Z ty ;;
     assign_Adagrad this (Adagrad.set_gt_ t) ;;
     set_value t (flit 0)) ;;
  s <- as_Adagrad this ;;
  Element2 (fun _1 _2 => _1 + (_2 * _2))%fl (Adagrad.gt_ s) grads ;;
  ty <- type params ;;
  assign_Adagrad this
    (fun s => Adagrad.set_eps_
                (std_max (NumericLimits_min ty * flit 2)%fl (Adagrad.eps_ s)) s) ;;
  s <- as_Adagrad this ;;
  eta_ <- member this OptimizerBase.eta_ ;;
  Element3 (fun _1 _2 _3 => _1 - (eta_ / (fsqrt _2 + Adagrad.eps_ s)) * _3)%fl
    params (Adagrad.gt_ s) grads.

(** [Adam::updateImpl]. *)
Definition Adam_updateImpl (this : oid) (params grads : Tensor)
    (actualMBSize refMBWords : N) : M unit :=
  s <- as_Adam this ;;
  when (is_null (Adam.alloc_ s))
    (b <- getBackend params ;;
     a <- New_TensorAllocator b ;;
     assign_Adam this (Adam.set_alloc_ a)) ;;
  s <- as_Adam this ;;
  when (is_null (Adam.mt_ s))
    (n <- size params ;;
     let elements := int_of_size n in
     ty <- type params ;;
     reserveExact (Adam.alloc_ s)
       (size_mul (size_of_Z (int_mul 2 elements)) (sizeOf ty)) ;;
     t <- allocate (Adam.alloc_ s) [1; elements]%Z ty ;;
     assign_Adam this (Adam.set_mt_ t) ;;
     set_value t (flit 0) ;;
     t <- allocate (Adam.alloc_ s) [1; elements]%Z ty ;;
     assign_Adam this (Adam.set_vt_ t) ;;
     set_value t (flit 0)) ;;
  let T := double_of_size actualMBSize in
  let Tref := double_of_size refMBWords in
  eta_ <- member this OptimizerBase.eta_ ;;
  s <- as_Adam this ;;
  let eta := (to_double eta_ * (T / Tref))%fl in
  let beta1 := to_double (Adam.beta1_ s) in
  let beta2 := to_double (Adam.beta2_ s) in
  let decay := to_double (Adam.w_ s) in
  assign_Adam this
    (fun s => Adam.set_denom1_
                ((beta1 * Adam.denom1_ s) + (flit 1 - beta1))%fl s) ;;
  assign_Adam this
    (fun s => Adam.set_denom2_
                ((beta2 * Adam.denom2_ s) + (flit 1 - beta2))%fl s) ;;
  s <- as_Adam this ;;
  Element2 (fun _1 _2 =>
              (to_float beta1 * _1) + to_float ((flit 1 - beta1) / T) * _2)%fl
    (Adam.mt_ s) grads ;;
  Element2 (fun _1 _2 =>
              (to_float beta2 * _1)
              + to_float ((flit 1 - beta2) / T / T) * (_2 * _2))%fl
    (Adam.vt_ s) grads ;;
  let etaf := to_float eta in
  let denom1f := to_float (Adam.denom1_ s) in
  let denom2f := to_float (Adam.denom2_ s) in
  let decayf := to_float decay in
  Element3 (fun _1 _2 _3 =>
              _1 - etaf * (((_2 / denom1f) / (fsqrt (_3 / denom2f) + Adam.eps_ s))
                           + decayf * _1))%fl
    params (Adam.mt_ s) (Adam.vt_ s).

(** ** [OptimizerBase::update] *)

Definition mbSizeNotProvided : N := SIZE_MAX.

(** [OptimizerBase::update(Tensor, Tensor, size_t)].  The base class writes
    it against the pure virtual [updateImpl], which is an argument here. *)
Definition OptimizerBase_update
    (updateImpl : oid -> Tensor -> Tensor -> N -> N -> M unit)
    (this : oid) (params grads : Tensor) (mbSize : N) : M unit :=
  refMBWords <- member this OptimizerBase.refMBWordsParam_ ;;
  sizes <-
    (if (refMBWords =? 0)%N
     then ret (1%N, 1%N)
     else
       ABORT_IF (mbSize =? mbSizeNotProvided)%N
         "Using rational optimizer auto-adjustment with trainer that does not provide MB size" ;;
       ret (refMBWords, mbSize)) ;;
  let '(refMBWords, mbSize) := sizes in
  ty <- type params ;;
  optimizerType_ <- member this OptimizerBase.optimizerType_ ;;
  let castOptimizerType := bool_decide (ty <> optimizerType_) in
  n <- size params ;;
  let elements := int_of_size n in
  mvAvg_ <- member this OptimizerBase.mvAvg_ ;;
  when mvAvg_
    (optAlloc_ <- member this OptimizerBase.optAlloc_ ;;
     when (is_null optAlloc_)
       (b <- getBackend params ;;
        a <- New_TensorAllocator b ;;
        assign this (OptimizerBase.set_optAlloc_ a) ;;
        let numAllocateShards := (if castOptimizerType then 3 else 1)%Z in
        reserveExact a
          (size_mul (size_of_Z (int_mul numAllocateShards elements))
                    (sizeOf optimizerType_)) ;;
        t <- allocate a [1; elements]%Z optimizerType_ ;;
        assign this (OptimizerBase.set_avg_ t))) ;;
  (if castOptimizerType then
     optAlloc_ <- member this OptimizerBase.optAlloc_ ;;
     when (is_null optAlloc_)
       (b <- getBackend params ;;
        a <- New_TensorAllocator b ;;
        assign this (OptimizerBase.set_optAlloc_ a) ;;
        reserveExact a
          (size_mul (size_of_Z (int_mul 2 elements)) (sizeOf optimizerType_))) ;;
     pm_ <- member this OptimizerBase.pm_ ;;
     when (is_null pm_)
       (optAlloc_ <- member this OptimizerBase.optAlloc_ ;;
        t <- allocate optAlloc_ [1; elements]%Z optimizerType_ ;;
        assign this (OptimizerBase.set_pm_ t) ;;
        t' <- allocate optAlloc_ [1; elements]%Z optimizerType_ ;;
        assign this (OptimizerBase.set_gd_ t') ;;
        CopyCast t params) ;;
     gd_ <- member this OptimizerBase.gd_ ;;
     CopyCast gd_ grads
   else
     assign this (OptimizerBase.set_pm_ params) ;;
     assign this (OptimizerBase.set_gd_ grads)) ;;
  costScale_ <- member this OptimizerBase.costScale_ ;;
  when (fneqb costScale_ (flit 1))
    (gd_ <- member this OptimizerBase.gd_ ;;
     Element1 (fun _1 => _1 / costScale_)%fl gd_) ;;
  clipper_ <- member this OptimizerBase.clipper_ ;;
  match clipper_ with
  | Some c => clip c grads
  | None => ret tt
  end ;;
  pm_ <- member this OptimizerBase.pm_ ;;
  gd_ <- member this OptimizerBase.gd_ ;;
  updateImpl this pm_ gd_ mbSize refMBWords ;;
  when mvAvg_
    (avg_ <- member this OptimizerBase.avg_ ;;
     pm_ <- member this OptimizerBase.pm_ ;;
     batchesSeen_ <- member this OptimizerBase.batchesSeen_ ;;
     updateAvgParams avg_ pm_ batchesSeen_ mbSize) ;;
  when castOptimizerType
    (pm_ <- member this OptimizerBase.pm_ ;;
     CopyCast params pm_) ;;
  b <- getBackend params ;;
  synchronize b.

(** The virtual call [updateImpl(...)]: the rule of the dynamic class. *)
Definition updateImpl (this : oid) (params grads : Tensor)
    (actualMBSize refMBWords : N) : M unit :=
  x <- object this ;;
  match rule x with
  | RuleSgd => Sgd_updateImpl this params grads actualMBSize refMBWords
  | RuleAdagrad _ => Adagrad_updateImpl this params grads actualMBSize refMBWords
  | RuleAdam _ => Adam_updateImpl this params grads actualMBSize refMBWords
  end.

(** [opt->update(params, grads, mbSize)] on an optimizer object. *)
Definition update (this : oid) (params grads : Tensor) (mbSize : N)
  : M unit :=
  OptimizerBase_update updateImpl this params grads mbSize.
End Collaborating.

(** ** The checkpoint protocol *)

(** Modelled from the spec: the scatter and gather callbacks are supplied by
    the caller and are not in the files at hand.  Towards this process a call
    of [scatterFn(data, setFn)] is the sequence of calls of [setFn] it makes
    (shard index and the values between [begin] and [end]); a call of
    [gatherFn(getFn)] calls [getFn] on the local shards it names, in order,
    and assembles the result from what they return. *)
Definition ScatterStateFunc `{Machine} : Type :=
  list float -> list (nat * list float).

Record GatherStateFunc `{Machine} := {
  gather_local : list nat;
  gather_all : list (list float) -> list float;
}.

Section Checkpoint.
Context `{Collaborators}.

Definition call_scatter (scatterFn : ScatterStateFunc) (data : list float)
    (setFn : nat -> list float -> M unit) : M unit :=
  issue OpScatter ;;
  foldM (fun _ c => setFn (fst c) (snd c)) (scatterFn data) tt.

Definition call_gather (gatherFn : GatherStateFunc)
    (getFn : nat -> M (list float)) : M (list float) :=
  issue OpGather ;;
  vs <- forM (gather_local gatherFn) getFn ;;
  ret (gather_all gatherFn vs).

(** [Adagrad::load]. *)
Definition Adagrad_load (this : oid) (name : string) (opts : list oid)
    (backends : list Backend) (scatterFn : ScatterStateFunc) : M unit :=
  ABORT_IF (negb (length opts =? length backends)%nat)
    "opts and backends of different sizes??" ;;
  exists_ <- filesystem_exists name ;;
  if negb exists_ then ret tt else
  LOG info "Loading Adagrad parameters from {}" ;;
  items <- io_loadItems name ;;
  vGt <- foldM (fun vGt item =>
                  let totalSize := Shape_elements (Item.shape item) in
                  if (Item.name item =? "adagrad_gt")%string
                  then copy_n totalSize (Item.as_floats (Item.bytes item))
                  else ret vGt)
               items [] ;;
  if empty vGt then
    LOG warn "[warn] Adagrad parameters not found in .npz file"
  else
  call_scatter scatterFn vGt (fun localDeviceIndex slice =>
    o <- at_ opts localDeviceIndex ;;
    opt <- as_Adagrad o ;;
    when (is_null (Adagrad.gt_ opt))
      (when (is_null (Adagrad.alloc_ opt))
         (b <- at_ backends localDeviceIndex ;;
          a <- New_TensorAllocator b ;;
          assign_Adagrad o (Adagrad.set_alloc_ a)) ;;
       opt <- as_Adagrad o ;;
       let size := N.of_nat (length slice) in
       reserveExact (Adagrad.alloc_ opt) (size_mul sizeof_float size) ;;
       t <- allocate (Adagrad.alloc_ opt) [1; int_of_size size]%Z float32 ;;
       assign_Adagrad o (Adagrad.set_gt_ t)) ;;
    opt <- as_Adagrad o ;;
    set_vector (Adagrad.gt_ opt) slice).

(** [Adagrad::save]. *)
Definition Adagrad_save (this : oid) (name : string) (opts : list oid)
    (gatherFn : GatherStateFunc) (isMainProcess : bool) : M unit :=
  LOG info "Saving Adagrad parameters to {}" ;;
  vGt <- call_gather gatherFn (fun localDeviceIndex =>
           o <- at_ opts localDeviceIndex ;;
           opt <- as_Adagrad o ;;
           get_vector (Adagrad.gt_ opt)) ;;
  if negb isMainProcess then ret tt else
  let item :=
    {| Item.name := "adagrad_gt";
       Item.shape := [1; int_of_size (N.of_nat (length vGt))]%Z;
       Item.type := float32;
       Item.bytes := Item.FloatBytes vGt |} in
  io_saveItems name [item].

(** [Adagrad::resetStats]. *)
Definition Adagrad_resetStats (this : oid) : M unit :=
  s <- as_Adagrad this ;;
  when (negb (is_null (Adagrad.gt_ s))) (set_value (Adagrad.gt_ s) (flit 0)).

(** [Adam::load].  [std::array<double, 2> vDenoms;] is default-initialised:
    its two cells start with indeterminate values, which the embedding
    takes as the argument [vDenoms0]. *)
Definition Adam_load (this : oid) (vDenoms0 : double * double)
    (name : string) (opts : list oid) (backends : list Backend)
    (scatterFn : ScatterStateFunc) : M unit :=
  ABORT_IF (negb (length opts =? length backends)%nat)
    "opts and backends of different sizes??" ;;
  exists_ <- filesystem_exists name ;;
  if negb exists_ then ret tt else
  LOG info "Loading Adam parameters from {}" ;;
  items <- io_loadItems name ;;
  vs <- foldM (fun (vs : list float * list float * (double * double)) item =>
                 let '(vMt, vVt, vDenoms) := vs in
                 let totalSize := Shape_elements (Item.shape item) in
                 if (Item.name item =? "adam_mt")%string then
                   vMt' <- copy_n totalSize (Item.as_floats (Item.bytes item)) ;;
                   ret (vMt', vVt, vDenoms)
                 else if (Item.name item =? "adam_vt")%string then
                   vVt' <- copy_n totalSize (Item.as_floats (Item.bytes item)) ;;
                   ret (vMt, vVt', vDenoms)
                 else if (Item.name item =? "adam_denoms")%string then
                   ABORT_IF (negb (totalSize =? 2)%N)
                     "adam_denoms should have 2 entries" ;;
                   ds <- copy_n totalSize (Item.as_doubles (Item.bytes item)) ;;
                   d0 <- at_ ds 0 ;;
                   d1 <- at_ ds 1 ;;
                   ret (vMt, vVt, (d0, d1))
                 else ret vs)
              items ([], [], vDenoms0) ;;
  let '(vMt, vVt, vDenoms) := vs in
  if empty vMt || empty vVt then
    LOG warn "[warn] Adam parameters not found in .npz file"
  else
  ABORT_IF (negb (length vMt =? length vVt)%nat)
    "mt and vt have different sizes??" ;;
  call_scatter scatterFn vMt (fun localDeviceIndex slice =>
    o <- at_ opts localDeviceIndex ;;
    opt <- as_Adam o ;;
    when (is_null (Adam.mt_ opt) || is_null (Adam.vt_ opt))
      (when (is_null (Adam.alloc_ opt))
         (b <- at_ backends localDeviceIndex ;;
          a <- New_TensorAllocator b ;;
          assign_Adam o (Adam.set_alloc_ a)) ;;
       opt <- as_Adam o ;;
       let size := N.of_nat (length slice) in
       reserveExact (Adam.alloc_ opt) (size_mul (size_mul 2 sizeof_float) size) ;;
       t <- allocate (Adam.alloc_ opt) [1; int_of_size size]%Z float32 ;;
       assign_Adam o (Adam.set_mt_ t) ;;
       t' <- allocate (Adam.alloc_ opt) [1; int_of_size size]%Z float32 ;;
       assign_Adam o (Adam.set_vt_ t')) ;;
    opt <- as_Adam o ;;
    set_vector (Adam.mt_ opt) slice) ;;
  call_scatter scatterFn vVt (fun id slice =>
    o <- at_ opts id ;;
    opt <- as_Adam o ;;
    set_vector (Adam.vt_ opt) slice) ;;
  assign_Adam this (Adam.set_denom1_ (fst vDenoms)) ;;
  assign_Adam this (Adam.set_denom2_ (snd vDenoms)).

(** [Adam::save]. *)
Definition Adam_save (this : oid) (name : string) (opts : list oid)
    (gatherFn : GatherStateFunc) (isMainProcess : bool) : M unit :=
  when isMainProcess (LOG info "Saving Adam parameters to {}") ;;
  vMt <- call_gather gatherFn (fun localDeviceIndex =>
           o <- at_ opts localDeviceIndex ;;
           opt <- as_Adam o ;;
           get_vector (Adam.mt_ opt)) ;;
  vVt <- call_gather gatherFn (fun localDeviceIndex =>
           o <- at_ opts localDeviceIndex ;;
           opt <- as_Adam o ;;
           get_vector (Adam.vt_ opt)) ;;
  if negb isMainProcess then ret tt else
  let itemMt :=
    {| Item.name := "adam_mt";
       Item.shape := [1; int_of_size (N.of_nat (length vMt))]%Z;
       Item.type := float32;
       Item.bytes := Item.FloatBytes vMt |} in
  let itemVt :=
    {| Item.name := "adam_vt";
       Item.shape := [1; int_of_size (N.of_nat (length vVt))]%Z;
       Item.type := float32;
       Item.bytes := Item.FloatBytes vVt |} in
  s <- as_Adam this ;;
  let vDenoms := [Adam.denom1_ s; Adam.denom2_ s] in
  let itemDenoms :=
    {| Item.name := "adam_denoms";
       Item.shape := [1; int_of_size (N.of_nat (length vDenoms))]%Z;
       Item.type := float64;
       Item.bytes := Item.DoubleBytes vDenoms |} in
  io_saveItems name [itemMt; itemVt; itemDenoms].

(** [Adam::resetStats]. *)
Definition Adam_resetStats (this : oid) : M unit :=
  s <- as_Adam this ;;
  when (negb (is_null (Adam.mt_ s))) (set_value (Adam.mt_ s) (flit 0)) ;;
  when (negb (is_null (Adam.vt_ s))) (set_value (Adam.vt_ s) (flit 0)) ;;
  assign_Adam this (Adam.set_denom1_ (flit 0)) ;;
  assign_Adam this (Adam.set_denom2_ (flit 0)).

(** The virtual [load] and [save]: [OptimizerBase] gives empty bodies,
    which [Sgd] inherits. *)
Definition load (this : oid) (vDenoms0 : double * double) (name : string)
    (opts : list oid) (backends : list Backend)
    (scatterFn : ScatterStateFunc) : M unit :=
  x <- object this ;;
  match rule x with
  | RuleSgd => ret tt
  | RuleAdagrad _ => Adagrad_load this name opts backends scatterFn
  | RuleAdam _ => Adam_load this vDenoms0 name opts backends scatterFn
  end.

Definition save (this : oid) (name : string) (opts : list oid)
    (gatherFn : GatherStateFunc) (isMainProcess : bool) : M unit :=
  x <- object this ;;
  match rule x with
  | RuleSgd => ret tt
  | RuleAdagrad _ => Adagrad_save this name opts gatherFn isMainProcess
  | RuleAdam _ => Adam_save this name opts gatherFn isMainProcess
  end.

(** ** Hyper-parameters *)

(** [Sgd::setParams]. *)
Definition Sgd_setParams (this : oid) (params : list float) : M unit :=
  ret tt.

(** [Adagrad::setParams]. *)
Definition Adagrad_setParams (this : oid) (params : list float) : M unit :=
  when (0 <? length params)%nat
    (p0 <- at_ params 0 ;; assign_Adagrad this (Adagrad.set_eps_ p0)).

(** [Adam::setParams]. *)
Definition Adam_setParams (this : oid) (params : list float) : M unit :=
  when (0 <? length params)%nat
    (p0 <- at_ params 0 ;; assign_Adam this (Adam.set_beta1_ p0)) ;;
  when (1 <? length params)%nat
    (p1 <- at_ params 1 ;; assign_Adam this (Adam.set_beta2_ p1)) ;;
  when (2 <? length params)%nat
    (p2 <- at_ params 2 ;; assign_Adam this (Adam.set_eps_ p2)) ;;
  when (3 <? length params)%nat
    (p3 <- at_ params 3 ;; assign_Adam this (Adam.set_w_ p3)).

Definition setParams (this : oid) (params : list float) : M unit :=
  x <- object this ;;
  match rule x with
  | RuleSgd => Sgd_setParams this params
  | RuleAdagrad _ => Adagrad_setParams this params
  | RuleAdam _ => Adam_setParams this params
  end.

(** The options the constructors and the factory read.  The decision of
    [ExponentialSmoothing] to average is taken as given. *)
Record Options := {
  optimizer : string;
  optimizer_params : option (list float);
  learn_rate : float;
  mini_batch_words_ref : N;
  cost_scaling : option float;
  clip_norm : float;
  exponential_smoothing : bool;
}.

(** The constructor of [OptimizerBase]. *)
Definition New_OptimizerBase (options : Options) : OptimizerBase.state :=
  {| OptimizerBase.eta_ := learn_rate options;
     OptimizerBase.refMBWordsParam_ := mini_batch_words_ref options;
     OptimizerBase.costScale_ := default (flit 1) (cost_scaling options);
     OptimizerBase.batchesSeen_ := 0;
     OptimizerBase.clipper_ :=
       if fltb (flit 0) (clip_norm options) then Some (clip_norm options)
       else None;
     OptimizerBase.mvAvg_ := exponential_smoothing options;
     OptimizerBase.optimizerType_ := float32;
     OptimizerBase.optAlloc_ := None;
     OptimizerBase.avg_ := None;
     OptimizerBase.pm_ := None;
     OptimizerBase.gd_ := None |}.

(** [New<Sgd>(options)], [New<Adagrad>(options)], [New<Adam>(options)]. *)
Definition New (options : Options) (r : Rule) : M oid :=
  n <- gets (fun w => length (objs w)) ;;
  modify (fun w =>
    set_objs (objs w ++ [{| base := New_OptimizerBase options; rule := r |}]) w) ;;
  ret n.

(** The factory [Optimizer(options)]. *)
Definition Optimizer_ (options : Options) : M oid :=
  let optType := optimizer options in
  let params := default [] (optimizer_params options) in
  opt <-
    (if (optType =? "sgd")%string then New options RuleSgd
     else if (optType =? "adagrad")%string then
       New options (RuleAdagrad Adagrad.init)
     else if (optType =? "adam")%string then New options (RuleAdam Adam.init)
     else ABORT "Unknown optimizer kind: {}") ;;
  setParams opt params ;;
  ret opt.
End Checkpoint.

(** ** Two machines *)

(** *** Exact arithmetic: both precisions are the real numbers and the casts
    lose nothing. *)
Definition R_arith : Arith R :=
  {| flit := Q2R;
     fadd := Rplus;
     fsub := Rminus;
     fmul := Rmult;
     fdiv := Rdiv;
     fsqrt := sqrt;
     fltb := fun x y => if Rlt_dec x y then true else false;
     fneqb := fun x y => if Req_dec_T x y then false else true |}.

Definition RealMachine : Machine :=
  {| float := R;
     double := R;
     float_arith := R_arith;
     double_arith := R_arith;
     to_float := fun x => x;
     to_double := fun x => x;
     double_of_size := fun n => IZR (Z.of_N n);
     floats_of_doubles := fun v => v;
     doubles_of_floats := fun v => v |}.

(** *** IEEE 754: [float] is binary32 and [double] is binary64, with the
    operations of [SpecFloat] (round to nearest, ties to even). *)
Module IEEE.
Definition of_Z (prec emax : Z) (z : Z) : spec_float :=
  binary_normalize prec emax z 0 false.

(** A finite value rounded into the format. *)
Definition round (prec emax : Z) (x : spec_float) : spec_float :=
  match x with
  | S754_finite s m e => binary_round prec emax s m e
  | _ => x
  end.

(** A decimal literal: the quotient of numerator and denominator, which is
    correctly rounded when both are representable, as they are for the
    literals of the source. *)
Definition lit (prec emax : Z) (q : Q) : spec_float :=
  SFdiv prec emax (of_Z prec emax (Qnum q)) (of_Z prec emax (Zpos (Qden q))).

Definition arith (prec emax : Z) : Arith spec_float :=
  {| flit := lit prec emax;
     fadd := SFadd prec emax;
     fsub := SFsub prec emax;
     fmul := SFmul prec emax;
     fdiv := SFdiv prec emax;
     fsqrt := SFsqrt prec emax;
     fltb := SFltb;
     fneqb := fun x y => negb (SFeqb x y) |}.

(** The bit pattern of a value and the value of a bit pattern. *)
Definition bits (prec emax : Z) (x : spec_float) : Z :=
  let ebits := (Z.log2 emax + 1)%Z in
  let fbits := (prec - 1)%Z in
  let sgn (s : bool) := (if s then 2 ^ (ebits + fbits) else 0)%Z in
  match x with
  | S754_zero s => sgn s
  | S754_infinity s => (sgn s + (2 ^ ebits - 1) * 2 ^ fbits)%Z
  | S754_nan => ((2 ^ ebits - 1) * 2 ^ fbits + 2 ^ (fbits - 1))%Z
  | S754_finite s m e =>
      if (Zpos m <? 2 ^ fbits)%Z then (sgn s + Zpos m)%Z
      else (sgn s + (e + fbits + emax - 1) * 2 ^ fbits + (Zpos m - 2 ^ fbits))%Z
  end.

Definition of_bits (prec emax : Z) (z : Z) : spec_float :=
  let ebits := (Z.log2 emax + 1)%Z in
  let fbits := (prec - 1)%Z in
  let s := ((z / 2 ^ (ebits + fbits)) mod 2 =? 1)%Z in
  let E := ((z / 2 ^ fbits) mod 2 ^ ebits)%Z in
  let f := (z mod 2 ^ fbits)%Z in
  if (E =? 2 ^ ebits - 1)%Z then
    (if (f =? 0)%Z then S754_infinity s else S754_nan)
  else if (E =? 0)%Z then
    match f with
    | Zpos m => S754_finite s m (3 - emax - prec)
    | _ => S754_zero s
    end
  else
    match (f + 2 ^ fbits)%Z with
    | Zpos m => S754_finite s m (E - fbits - (emax - 1))
    | _ => S754_nan
    end.

(** Eight bytes read as two floats and two floats read as eight bytes,
    little endian. *)
Definition floats_of_doubles (v : list spec_float) : list spec_float :=
  flat_map (fun d => let b := bits 53 1024 d in
                     [of_bits 24 128 (b mod 2 ^ 32); of_bits 24 128 (b / 2 ^ 32)])
           v.

Fixpoint doubles_of_floats (v : list spec_float) : list spec_float :=
  match v with
  | lo :: hi :: v' =>
      of_bits 53 1024 (bits 24 128 lo + 2 ^ 32 * bits 24 128 hi)
      :: doubles_of_floats v'
  | _ => []
  end.

(** The integer part of a value, towards zero. *)
Definition trunc (x : spec_float) : Z :=
  match x with
  | S754_finite s m e =>
      let n := (if (0 <=? e)%Z then Zpos m * 2 ^ e else Zpos m / 2 ^ (- e))%Z in
      if s then (- n)%Z else n
  | _ => 0%Z
  end.
End IEEE.

Definition IEEEMachine : Machine :=
  {| float := spec_float;
     double := spec_float;
     float_arith := IEEE.arith 24 128;
     double_arith := IEEE.arith 53 1024;
     to_float := IEEE.round 24 128;
     to_double := IEEE.round 53 1024;
     double_of_size := fun n => IEEE.of_Z 53 1024 (Z.of_N n);
     floats_of_doubles := IEEE.floats_of_doubles;
     doubles_of_floats := IEEE.doubles_of_floats |}.

(** ** Reference collaborators

    One environment for each machine, for running the embedding: byte sizes
    of the element types, a norm clipper that rescales a tensor whose norm
    reaches the bound, and smoothing with a fixed decay. *)
Definition reference_sizeOf (ty : Type_) : N :=
  match ty with
  | int8 | uint8 => 1
  | int16 | uint16 => 2
  | int32 | uint32 | float32 => 4
  | int64 | uint64 | float64 => 8
  end.

Definition is_float_type (ty : Type_) : bool :=
  match ty with float32 | float64 => true | _ => false end.

Section Reference.
Context `{Machine}.

Definition norm_clip (c : float) (v : list float) : list float :=
  let l2Norm := fsqrt (fold_right (fun x acc => x * x + acc)%fl (flit 0) v) in
  if fltb l2Norm c then v else map (fun x => (c / l2Norm) * x)%fl v.

Definition smoothing (decay : float) (avg params : list float)
    (batches mbSize : N) : list float :=
  zip_with (fun a p => ((flit 1 - decay) * a) + (decay * p))%fl avg params
  ++ drop (length params) avg.

Definition reference_collaborators (limits : Type_ -> float)
    (cast : Type_ -> Type_ -> float -> float) (arena : nat -> float)
  : Collaborators.
Proof.
  refine {| sizeOf := reference_sizeOf;
            NumericLimits_min := limits;
            cast_value := cast;
            clip_values := norm_clip;
            clip_values_length := _;
            avg_values := smoothing (flit (1 # 10000));
            avg_values_length := _;
            arena_cell := arena |}.
  - intros c v. unfold norm_clip.
    destruct (fltb _ c); [reflexivity | apply length_map].
  - intros a p b m. unfold smoothing.
    rewrite length_app, length_zip_with, length_drop. lia.
Defined.
End Reference.

Definition IEEECollaborators : @Collaborators IEEEMachine :=
  @reference_collaborators IEEEMachine
    (fun ty => match ty with
               | float32 => S754_finite false 8388608 (-149)
               | _ => S754_zero false
               end)
    (fun to_ from x =>
       if is_float_type to_ then x else IEEE.of_Z 24 128 (IEEE.trunc x))
    (fun i => IEEE.of_Z 24 128 (1000 + Z.of_nat i)).

Definition RealCollaborators : @Collaborators RealMachine :=
  @reference_collaborators RealMachine
    (fun ty => match ty with
               | float32 => Q2R (1 # 2 ^ 126)
               | _ => 0%R
               end)
    (fun to_ from x => x)
    (fun i => INR (1000 + i)).

(** ** The observers of training *)

(** What the observers read of a [TrainingState]: the learning rate, the
    number of batches and the request to reset. *)
Record TrainingState `{Machine} := {
  state_eta : float;
  state_batches : N;
  state_reset : bool;
}.

Section Observers.
Context `{Collaborators}.

Definition set_eta_ (v : float) (s : OptimizerBase.state)
  : OptimizerBase.state :=
  {| OptimizerBase.eta_ := v;
     OptimizerBase.refMBWordsParam_ := OptimizerBase.refMBWordsParam_ s;
     OptimizerBase.costScale_ := OptimizerBase.costScale_ s;
     OptimizerBase.batchesSeen_ := OptimizerBase.batchesSeen_ s;
     OptimizerBase.clipper_ := OptimizerBase.clipper_ s;
     OptimizerBase.mvAvg_ := OptimizerBase.mvAvg_ s;
     OptimizerBase.optimizerType_ := OptimizerBase.optimizerType_ s;
     OptimizerBase.optAlloc_ := OptimizerBase.optAlloc_ s;
     OptimizerBase.avg_ := OptimizerBase.avg_ s;
     OptimizerBase.pm_ := OptimizerBase.pm_ s;
     OptimizerBase.gd_ := OptimizerBase.gd_ s |}.

Definition set_batchesSeen_ (v : N) (s : OptimizerBase.state)
  : OptimizerBase.state :=
  {| OptimizerBase.eta_ := OptimizerBase.eta_ s;
     OptimizerBase.refMBWordsParam_ := OptimizerBase.refMBWordsParam_ s;
     OptimizerBase.costScale_ := OptimizerBase.costScale_ s;
     OptimizerBase.batchesSeen_ := v;
     OptimizerBase.clipper_ := OptimizerBase.clipper_ s;
     OptimizerBase.mvAvg_ := OptimizerBase.mvAvg_ s;
     OptimizerBase.optimizerType_ := OptimizerBase.optimizerType_ s;
     OptimizerBase.optAlloc_ := OptimizerBase.optAlloc_ s;
     OptimizerBase.avg_ := OptimizerBase.avg_ s;
     OptimizerBase.pm_ := OptimizerBase.pm_ s;
     OptimizerBase.gd_ := OptimizerBase.gd_ s |}.

(** The virtual [resetStats]: [Sgd] has an empty body. *)
Definition resetStats (this : oid) : M unit :=
  x <- object this ;;
  match rule x with
  | RuleSgd => ret tt
  | RuleAdagrad _ => Adagrad_resetStats this
  | RuleAdam _ => Adam_resetStats this
  end.

(** [OptimizerBase::init] and [OptimizerBase::actAfterLoaded]. *)
Definition init (this : oid) (state : TrainingState) : M unit :=
  assign this (set_eta_ (state_eta state)).

Definition actAfterLoaded (this : oid) (state : TrainingState) : M unit :=
  assign this (set_eta_ (state_eta state)).

(** [OptimizerBase::actAfterEpoch]. *)
Definition actAfterEpoch (this : oid) (state : TrainingState) : M unit :=
  assign this (set_eta_ (state_eta state)) ;;
  when (state_reset state) (resetStats this).

(** [OptimizerBase::actAfterBatches]. *)
Definition actAfterBatches (this : oid) (state : TrainingState) : M unit :=
  assign this (set_eta_ (state_eta state)) ;;
  assign this (set_batchesSeen_ (state_batches state)) ;;
  when (state_reset state) (resetStats this).

(** [OptimizerBase::actAfterStalled]. *)
Definition actAfterStalled (this : oid) (state : TrainingState) : M unit :=
  assign this (set_eta_ (state_eta state)) ;;
  when (state_reset state) (resetStats this).
End Observers.

(** ** More of [TensorBase] *)

Section Cells.
Context `{Machine}.

(** [t->get<float>(i)]: the type is checked, then cell [i] is copied out;
    there is no check of [i]. *)
Definition get_at (t : Tensor) (i : N) : M float :=
  p <- deref t ;; let '(l, x) := p in
  matchOrAbort_float (TensorBase.type_ x) ;;
  issue (OpGet l) ;;
  match TensorBase.data x !! N.to_nat i with
  | Some v => ret v
  | None => undefined "read past the end of the tensor"
  end.

(** [t->set<float>(i, value)]: the type is checked, then [value] is copied
    into cell [i]; there is no check of [i]. *)
Definition set_at (t : Tensor) (i : N) (value : float) : M unit :=
  p <- deref t ;; let '(l, x) := p in
  matchOrAbort_float (TensorBase.type_ x) ;;
  (if bool_decide (N.to_nat i < length (TensorBase.data x))%nat
   then write l (<[N.to_nat i := value]> (TensorBase.data x))
   else undefined "write past the end of the tensor") ;;
  issue (OpSet l).

(** [t->scalar<float>()] and [t->scalar()]. *)
Definition scalar (t : Tensor) : M float :=
  ty <- type t ;;
  matchOrAbort_float ty ;;
  n <- size t ;;
  ABORT_IF (negb (n =? 1)%N) "Tensor is not a scalar" ;;
  get_at t 0.

(** [t->setSparse(k, v)]: the type is checked once; then, for every index
    [i] of [k] in order, cell [k[i]] receives [v[i]].  Neither [v[i]] nor
    [k[i]] is checked. *)
Definition setSparse (t : Tensor) (k : list N) (v : list float) : M unit :=
  p <- deref t ;; let '(l, _) := p in
  ty <- type t ;;
  ABORT_IF (bool_decide (ty <> float32))
    "Requested type ({}) and underlying type ({}) do not match" ;;
  foldM (fun _ i =>
           ki <- at_ k i ;;
           vi <- at_ v i ;;
           x <- deref t ;;
           if bool_decide (N.to_nat ki < length (TensorBase.data (snd x)))%nat
           then write l (<[N.to_nat ki := vi]> (TensorBase.data (snd x)))
           else undefined "write past the end of the tensor")
        (seq 0 (length k)) tt ;;
  issue (OpSet l).
End Cells.

(** ** Definitions used by the statements *)

Local Open Scope list_scope.

Section Statements.
Context `{Collaborators}.

(** The world after the cells of [l] are replaced and [op] is issued. *)
Definition written (l : loc) (x : TensorBase.t) (v : list float) (op : Op)
    (w : World) : World :=
  set_stream (stream w ++ [op])
    (set_heap (<[l := TensorBase.with_data v x]> (heap w)) w).

(** What [setParams] leaves in a hyper-parameter: the entry of the vector
    at its position when there is one, and what it held before
    otherwise. *)
Definition positional (params : list float) (i : nat) (before : float)
  : float :=
  default before (params !! i).

(** The hyper-parameters of a rule after [setParams(params)]. *)
Definition configured (params : list float) (r : Rule) : Rule :=
  match r with
  | RuleSgd => RuleSgd
  | RuleAdagrad s =>
      RuleAdagrad
        {| Adagrad.eps_ := positional params 0 (Adagrad.eps_ s);
           Adagrad.alloc_ := Adagrad.alloc_ s;
           Adagrad.gt_ := Adagrad.gt_ s |}
  | RuleAdam s =>
      RuleAdam
        {| Adam.beta1_ := positional params 0 (Adam.beta1_ s);
           Adam.beta2_ := positional params 1 (Adam.beta2_ s);
           Adam.eps_ := positional params 2 (Adam.eps_ s);
           Adam.w_ := positional params 3 (Adam.w_ s);
           Adam.t_ := Adam.t_ s;
           Adam.denom1_ := Adam.denom1_ s;
           Adam.denom2_ := Adam.denom2_ s;
           Adam.alloc_ := Adam.alloc_ s;
           Adam.mt_ := Adam.mt_ s;
           Adam.vt_ := Adam.vt_ s |}
  end.

(** *** The steps of Adagrad *)

(** The running sum after an update: [gt += grads^2], cell by cell. *)
Definition Adagrad_gt' (gt grads : list float) : list float :=
  zip_with (fun a g => a + g * g)%fl gt grads.

(** The [eps] an update uses: the larger of twice the minimum of the type
    and the configured one. *)
Definition Adagrad_eps' (ty : Type_) (eps : float) : float :=
  std_max (NumericLimits_min ty * flit 2)%fl eps.

(** The parameters after an update:
    [params -= (eta / (sqrt(gt) + eps)) * grads], cell by cell. *)
Definition Adagrad_params' (eta eps : float) (params gt grads : list float)
  : list float :=
  zip_with3 (fun x a g => x - (eta / (fsqrt a + eps)) * g)%fl params gt grads.

(** *** The steps of Adam, as [Adam::updateImpl] computes them *)

Definition Adam_mt' (beta1 T : double) (mt grads : list float) : list float :=
  zip_with (fun _1 _2 =>
              (to_float beta1 * _1) + to_float ((flit 1 - beta1) / T) * _2)%fl
           mt grads.

Definition Adam_vt' (beta2 T : double) (vt grads : list float) : list float :=
  zip_with (fun _1 _2 =>
              (to_float beta2 * _1)
              + to_float ((flit 1 - beta2) / T / T) * (_2 * _2))%fl
           vt grads.

Definition Adam_params' (etaf denom1f denom2f eps decayf : float)
    (params mt vt : list float) : list float :=
  zip_with3 (fun _1 _2 _3 =>
               _1 - etaf * (((_2 / denom1f) / (fsqrt (_3 / denom2f) + eps))
                            + decayf * _1))%fl
            params mt vt.

Definition Adam_denom' (beta denom : double) : double :=
  ((beta * denom) + (flit 1 - beta))%fl.

(** *** Checkpoints *)

(** What [getFn] reads from shard [i]: the running statistic [sel] of the
    optimizer [opts[i]], a float32 tensor, with its place in the heap. *)
Definition shard_tensor (sel : Optimizer -> option Tensor) (w : World)
    (opts : list oid) (i : nat) : option (loc * list float) :=
  o ← opts !! i;
  x ← objs w !! o;
  t ← sel x;
  l ← t;
  tb ← heap w !! l;
  if bool_decide (TensorBase.type_ tb = float32)
  then Some (l, TensorBase.data tb) else None.

Definition Adam_stat (sel : Adam.state -> Tensor) (x : Optimizer)
  : option Tensor :=
  match rule x with RuleAdam s => Some (sel s) | _ => None end.

Definition Adagrad_stat (x : Optimizer) : option Tensor :=
  match rule x with RuleAdagrad s => Some (Adagrad.gt_ s) | _ => None end.

(** The operations one call of [gatherFn] issues: the collective itself
    and one read per local shard. *)
Definition gather_ops (read : list (loc * list float)) : list Op :=
  OpGather :: map (fun lv => OpGet (fst lv)) read.

(** The items [save] writes. *)
Definition float_item (name : string) (v : list float) : Item.t :=
  {| Item.name := name;
     Item.shape := [1; int_of_size (N.of_nat (length v))]%Z;
     Item.type := float32;
     Item.bytes := Item.FloatBytes v |}.

Definition denoms_item (denom1 denom2 : double) : Item.t :=
  {| Item.name := "adam_denoms";
     Item.shape := [1; 2]%Z;
     Item.type := float64;
     Item.bytes := Item.DoubleBytes [denom1; denom2] |}.

(** The vector the loop of [load] leaves for the items named [n]: the
    values of the last of them, and [acc] when there is none. *)
Definition parse_floats (n : string) (items : list Item.t)
    (acc : list float) : list float :=
  fold_left (fun acc it =>
               if (Item.name it =? n)%string
               then take (N.to_nat (Shape_elements (Item.shape it)))
                         (Item.as_floats (Item.bytes it))
               else acc)
            items acc.

Definition parse_denoms (items : list Item.t) (acc : double * double)
  : double * double :=
  fold_left (fun acc it =>
               if (Item.name it =? "adam_denoms")%string
               then match Item.as_doubles (Item.bytes it) with
                    | d0 :: d1 :: _ => (d0, d1)
                    | _ => acc
                    end
               else acc)
            items acc.

(** An item [load] can read: the bytes of a vector hold as many values as
    its shape says, and the denominators are two. *)
Definition readable (it : Item.t) : Prop :=
  let n := Item.name it in
  if ((n =? "adam_mt") || (n =? "adam_vt") || (n =? "adagrad_gt"))%string
  then (N.to_nat (Shape_elements (Item.shape it))
        <= length (Item.as_floats (Item.bytes it)))%nat
  else if (n =? "adam_denoms")%string
  then Shape_elements (Item.shape it) = 2%N
       /\ (2 <= length (Item.as_doubles (Item.bytes it)))%nat
  else True.

Definition lacks (n : string) (items : list Item.t) : Prop :=
  Forall (fun it => Item.name it <> n) items.

(** The members of the Adam optimizer [this]. *)
Definition Adam_members (w : World) (this : oid) : option Adam.state :=
  x ← objs w !! this;
  match rule x with
  | RuleAdam s => Some s
  | _ => None
  end.

(** [denom1_] and [denom2_] of the Adam optimizer [this]. *)
Definition denominators (w : World) (this : oid) : option (double * double) :=
  x ← objs w !! this;
  match rule x with
  | RuleAdam s => Some (Adam.denom1_ s, Adam.denom2_ s)
  | _ => None
  end.
(** *** The steps of [update] *)

(** What the arena of [update] has to hold: nothing, the average, the master
    copy and the gradient buffer, or the three. *)
Inductive Regime := NoArena | AverageOnly | CastOnly | CastAndAverage.

(** The regime of a call that averages or not and casts or not. *)
Definition regime (mvAvg cast : bool) : Regime :=
  match mvAvg, cast with
  | false, false => NoArena
  | true, false => AverageOnly
  | false, true => CastOnly
  | true, true => CastAndAverage
  end.

(** The number of shards [update] reserves in a regime. *)
Definition shards (r : Regime) : Z :=
  match r with
  | NoArena => 0
  | AverageOnly => 1
  | CastOnly => 2
  | CastAndAverage => 3
  end.

(** [numAllocateShards * elements * sizeOf(optimizerType_)]. *)
Definition arena_bytes (r : Regime) (elements : Z) (ty : Type_) : N :=
  size_mul (size_of_Z (int_mul (shards r) elements)) (sizeOf ty).

(** The reservations every allocator has received, in order. *)
Definition reservations (w : World) : list (list N) :=
  ta_reserved <$> allocators w.

(** A call casts when the type of the parameters is not the type of the
    optimizer. *)
Definition casts (o : Optimizer) (tp : TensorBase.t) : bool :=
  bool_decide (TensorBase.type_ tp <> OptimizerBase.optimizerType_ (base o)).

(** An optimizer averages when smoothing is on. *)
Definition averages (o : Optimizer) : bool := OptimizerBase.mvAvg_ (base o).

(** [(int)params->size()] and the cells of a tensor of shape
    [{1, elements}]. *)
Definition elements_of (tp : TensorBase.t) : Z :=
  int_of_size (TensorBase.size tp).

Definition cells_of (tp : TensorBase.t) : nat :=
  N.to_nat (Shape_elements [1; elements_of tp]%Z).

(** The reference and the actual minibatch size [update] goes on with. *)
Definition sizes_of (o : Optimizer) (mbSize : N) : N * N :=
  if (OptimizerBase.refMBWordsParam_ (base o) =? 0)%N
  then (1%N, 1%N)
  else (OptimizerBase.refMBWordsParam_ (base o), mbSize).

(** The operations of the allocation step: the reservation when there is
    no arena yet and the regime needs one, the average when smoothing
    finds no arena, the master copy and the gradient buffer when a cast
    finds no master copy.  [l] is the first free location. *)
Definition allocate_ops (o : Optimizer) (tp : TensorBase.t) (l : loc)
  : list Op :=
  let ty := OptimizerBase.optimizerType_ (base o) in
  let first := is_null (OptimizerBase.optAlloc_ (base o)) in
  let l' := if averages o && first then S l else l in
  match regime (averages o) (casts o tp) with
  | NoArena => []
  | r => if first then [OpReserveExact (arena_bytes r (elements_of tp) ty)]
         else []
  end
  ++ (if averages o && first then [OpAllocate l (cells_of tp) ty] else [])
  ++ (if casts o tp && is_null (OptimizerBase.pm_ (base o))
      then [OpAllocate l' (cells_of tp) ty; OpAllocate (S l') (cells_of tp) ty]
      else []).

(** The operations of the cast step: the parameters are cast when the
    master copy was just allocated, the gradients at every call. *)
Definition cast_ops (o : Optimizer) (tp : TensorBase.t)
    (lp lg lpm lgd : loc) : list Op :=
  if casts o tp
  then (if is_null (OptimizerBase.pm_ (base o)) then [OpCopyCast lpm lp] else [])
       ++ [OpCopyCast lgd lg]
  else [].

(** The operation that reverses cost scaling, on the gradient buffer. *)
Definition unscale_ops (o : Optimizer) (lgd : loc) : list Op :=
  if fneqb (OptimizerBase.costScale_ (base o)) (flit 1)
  then [OpElement lgd []] else [].

(** The clipping, on the gradients [update] was given. *)
Definition clip_ops (o : Optimizer) (lg : loc) : list Op :=
  match OptimizerBase.clipper_ (base o) with
  | Some _ => [OpClip lg]
  | None => []
  end.

(** The values the two steps leave. *)
Definition unscaled (o : Optimizer) (v : list float) : list float :=
  if fneqb (OptimizerBase.costScale_ (base o)) (flit 1)
  then map (fun x => x / OptimizerBase.costScale_ (base o))%fl v else v.

Definition clipped (o : Optimizer) (v : list float) : list float :=
  match OptimizerBase.clipper_ (base o) with
  | Some c => clip_values c v
  | None => v
  end.

(** The arena between the call of [update] in [w] and the call of the rule
    in [w1]: an arena that was there keeps its reservations, as every other
    allocator does; without one, a regime that needs an arena makes one
    with the single reservation of the regime, and no other regime makes
    any. *)
Definition reserved_once (o : Optimizer) (tp : TensorBase.t)
    (w w1 : World) (o1 : Optimizer) : Prop :=
  match OptimizerBase.optAlloc_ (base o) with
  | Some a =>
      OptimizerBase.optAlloc_ (base o1) = Some a
      /\ reservations w1 = reservations w
  | None =>
      match regime (averages o) (casts o tp) with
      | NoArena =>
          OptimizerBase.optAlloc_ (base o1) = None
          /\ reservations w1 = reservations w
      | r =>
          OptimizerBase.optAlloc_ (base o1) = Some (length (allocators w))
          /\ reservations w1 =
             reservations w
             ++ [[arena_bytes r (elements_of tp)
                    (OptimizerBase.optimizerType_ (base o))]]
      end
  end.

(** The operations after the rule: the average when smoothing is on, the
    cast back when the call casts, and the synchronization. *)
Definition finish_ops (avg cast : bool) (this : oid) (lp : loc) (mb : N)
    (w2 : World) (ops : list Op) : Prop :=
  exists ops_avg ops_back b,
    ops = ops_avg ++ ops_back ++ [OpSynchronize b]
    /\ (if avg
        then exists o2 lavg lpm,
               objs w2 !! this = Some o2
               /\ OptimizerBase.avg_ (base o2) = Some lavg
               /\ OptimizerBase.pm_ (base o2) = Some lpm
               /\ ops_avg = [OpUpdateAvgParams lavg lpm
                               (OptimizerBase.batchesSeen_ (base o2)) mb]
        else ops_avg = [])
    /\ (if cast
        then exists o2 lpm,
               objs w2 !! this = Some o2
               /\ OptimizerBase.pm_ (base o2) = Some lpm
               /\ ops_back = [OpCopyCast lp lpm]
        else ops_back = []).

(** A computation that never aborts: when it fails, the failure is not a
    reported one. *)
Definition quiet {A} (m : M A) : Prop :=
  forall w e w', m w = (inl e, w') -> exists what, e = Undefined what.
End Statements.

(** ** The scenarios of the specification, on any machine *)

Section Scenarios.
Context `{Collaborators}.

Definition cells (v : list Q) : TensorBase.t :=
  {| TensorBase.type_ := float32; TensorBase.backend_ := 0;
     TensorBase.data := map flit v |}.

Definition scenario_options (kind : string) (eta : Q) : Options :=
  {| optimizer := kind;
     optimizer_params := None;
     learn_rate := flit eta;
     mini_batch_words_ref := 0;
     cost_scaling := None;
     clip_norm := flit 0;
     exponential_smoothing := false |}.

(** Scenario A: Adam with its defaults and learning rate 0.01, parameters
    [0] at 0 and gradients [1] at 1. *)
Definition scenario_A : World :=
  {| heap := [cells [0]%Q; cells [1]%Q];
     allocators := [];
     objs := [{| base := New_OptimizerBase (scenario_options "adam" (1 # 100));
                 rule := RuleAdam Adam.init |}];
     fs := ∅;
     stream := [] |}.

(** Scenario B: Adagrad with [eps = 1e-8] and learning rate 0.1, parameters
    [1] at 0 and gradients [2] at 1. *)
Definition scenario_B : World :=
  {| heap := [cells [1]%Q; cells [2]%Q];
     allocators := [];
     objs := [{| base := New_OptimizerBase (scenario_options "adagrad" (1 # 10));
                 rule := RuleAdagrad Adagrad.init |}];
     fs := ∅;
     stream := [] |}.
End Scenarios.

(** ** Adam, as the specification states it, in exact arithmetic *)

(** [denom = beta * denom + (1 - beta)]. *)
Definition spec_denom (beta denom : R) : R := (beta * denom + (1 - beta))%R.




(** The scenarios run in exact arithmetic and on the IEEE machine, and the
    cells of a tensor after a run. *)
Definition exact_cells (w : @World RealMachine) (l : loc) : option (list R) :=
  @TensorBase.data RealMachine <$> heap w !! l.

Definition ieee_cells (w : @World IEEEMachine) (l : loc)
  : option (list spec_float) :=
  @TensorBase.data IEEEMachine <$> heap w !! l.

Definition exact_B : (failure + unit) * @World RealMachine :=
  @Adagrad_updateImpl RealMachine RealCollaborators 0 (Some 0%nat) (Some 1%nat)
    1 1 (@scenario_B RealMachine).

Definition ieee_B : (failure + unit) * @World IEEEMachine :=
  @Adagrad_updateImpl IEEEMachine IEEECollaborators 0 (Some 0%nat) (Some 1%nat)
    1 1 (@scenario_B IEEEMachine).










(** ** Example worlds, on the IEEE machine *)

Section Examples.
#[local] Existing Instance IEEEMachine.
#[local] Existing Instance IEEECollaborators.

Definition f32 (q : Q) : float := flit q.
Definition f64 (q : Q) : double := IEEE.lit 53 1024 q.

Definition tensor (ty : Type_) (v : list Q) : TensorBase.t :=
  {| TensorBase.type_ := ty; TensorBase.backend_ := 0;
     TensorBase.data := map f32 v |}.

(** Options with learning rate 0.01 and neither clipping, cost scaling,
    smoothing nor a reference minibatch size. *)
Definition plain_options (kind : string) : Options :=
  {| optimizer := kind;
     optimizer_params := None;
     learn_rate := f32 (1 # 100);
     mini_batch_words_ref := 0;
     cost_scaling := None;
     clip_norm := f32 0;
     exponential_smoothing := false |}.

Definition fresh (kind : string) (r : Rule) : Optimizer :=
  {| base := New_OptimizerBase (plain_options kind); rule := r |}.

Definition world (h : list TensorBase.t) (os : list Optimizer)
    (files : gmap string (list Item.t)) : World :=
  {| heap := h; allocators := []; objs := os; fs := files; stream := [] |}.

(** One shard: the whole vector goes to shard 0, and shard 0 is the whole
    state. *)
Definition scatter_one : ScatterStateFunc := fun data => [(0%nat, data)].
Definition gather_one : GatherStateFunc :=
  {| gather_local := [0%nat]; gather_all := fun vs => concat vs |}.

(** A checkpoint with a first moment of two entries and a second moment of
    none. *)
Definition uneven_checkpoint : list Item.t :=
  [float_item "adam_mt" [f32 1; f32 2]; float_item "adam_vt" []].

Definition uneven_world : World :=
  world [] [fresh "adam" (RuleAdam Adam.init)]
        {["model.npz.optimizer.npz" := uneven_checkpoint]}.

(** A checkpoint of the time before "adam_denoms": the two moments only. *)
Definition legacy_checkpoint : list Item.t :=
  [float_item "adam_mt" [f32 1; f32 2]; float_item "adam_vt" [f32 3; f32 4]].

Definition legacy_world : World :=
  world [] [fresh "adam" (RuleAdam Adam.init)]
        {["model.npz.optimizer.npz" := legacy_checkpoint]}.

(** An Sgd optimizer with parameters [1, 2] at 0 and gradients
    [0.5, 0.25] at 1. *)
Definition sgd_world : World :=
  world [tensor float32 [1; 2]%Q; tensor float32 [1 # 2; 1 # 4]%Q]
        [fresh "sgd" RuleSgd] ∅.

(** An Adam optimizer after some updates: moments at 0 and 1, denominators
    0.1 and 0.001. *)
Definition trained_Adam : Adam.state :=
  {| Adam.beta1_ := f32 q_0_9; Adam.beta2_ := f32 q_0_999;
     Adam.eps_ := f32 q_1e_8; Adam.w_ := f32 0; Adam.t_ := 0;
     Adam.denom1_ := f64 (1 # 10); Adam.denom2_ := f64 (1 # 1000);
     Adam.alloc_ := Some 0%nat; Adam.mt_ := Some 0%nat; Adam.vt_ := Some 1%nat |}.

Definition trained_world : World :=
  {| heap := [tensor float32 [1 # 10; 2 # 10]%Q; tensor float32 [1 # 100; 4 # 100]%Q];
     allocators := [{| ta_backend := 0; ta_reserved := [16%N];
                       ta_tensors := [0; 1]%nat |}];
     objs := [fresh "adam" (RuleAdam trained_Adam)];
     fs := ∅;
     stream := [] |}.
End Examples.

(** ** Further examples *)

Section MoreExamples.
#[local] Existing Instance IEEEMachine.
#[local] Existing Instance IEEECollaborators.

(** Options with norm clipping at 1, cost scaling by 2 and smoothing. *)
Definition mixed_options : Options :=
  {| optimizer := "sgd";
     optimizer_params := None;
     learn_rate := f32 (1 # 100);
     mini_batch_words_ref := 0;
     cost_scaling := Some (f32 2);
     clip_norm := f32 1;
     exponential_smoothing := true |}.

Definition mixed_optimizer : Optimizer :=
  {| base := New_OptimizerBase mixed_options; rule := RuleSgd |}.

(** The optimizer with float32 parameters and gradients at 0 and 1 and
    float64 parameters and gradients at 2 and 3. *)
Definition mixed_world : World :=
  world [tensor float32 [1; 2]%Q; tensor float32 [1 # 2; 1 # 4]%Q;
         tensor float64 [1; 2]%Q; tensor float64 [1 # 2; 1 # 4]%Q]
        [mixed_optimizer] ∅.

(** A first call on the float32 tensors, and a second on the float64
    ones. *)
Definition after_float32_call : World :=
  snd (update 0 (Some 0%nat) (Some 1%nat) 1 mixed_world).

Definition after_float64_call : World :=
  snd (update 0 (Some 2%nat) (Some 3%nat) 1 after_float32_call).

Definition averaging_optimizer : Optimizer :=
  default mixed_optimizer (objs after_float32_call !! 0%nat).
End MoreExamples.

(** ** Frames and cells *)

Section MoreStatements.
Context `{Collaborators}.

(** A computation keeps a relation when the world it leaves, whether it
    returns or fails, is related to the world it started in. *)
Definition keeps {A} (R : World -> World -> Prop) (m : M A) : Prop :=
  forall w, R w (snd (m w)).

(** The relations a sequence of steps can keep. *)
Definition preorder (R : World -> World -> Prop) : Prop :=
  (forall w, R w w) /\ (forall w1 w2 w3, R w1 w2 -> R w2 w3 -> R w1 w3).

(** What the constructor and the observers assign in the base class, and
    nothing else does. *)
Definition settings (b : OptimizerBase.state) :=
  (OptimizerBase.eta_ b, OptimizerBase.refMBWordsParam_ b,
   OptimizerBase.costScale_ b, OptimizerBase.batchesSeen_ b,
   OptimizerBase.clipper_ b, OptimizerBase.mvAvg_ b,
   OptimizerBase.optimizerType_ b).

(** The rule is of the same class, and the hyper-parameters of Adam are
    the same. *)
Definition rule_kept (r r' : Rule) : Prop :=
  match r, r' with
  | RuleSgd, RuleSgd => True
  | RuleAdagrad _, RuleAdagrad _ => True
  | RuleAdam s, RuleAdam s' =>
      (Adam.beta1_ s', Adam.beta2_ s', Adam.eps_ s', Adam.w_ s', Adam.t_ s')
      = (Adam.beta1_ s, Adam.beta2_ s, Adam.eps_ s, Adam.w_ s, Adam.t_ s)
  | _, _ => False
  end.

(** A frame: no file changes, no optimizer appears or goes, every optimizer
    keeps its settings and its rule as above, the optimizers outside [P] do
    not change at all, and every tensor that was there keeps its type, its
    backend and its number of cells. *)
Definition frame (P : oid -> Prop) (w w' : World) : Prop :=
  fs w' = fs w
  /\ length (objs w') = length (objs w)
  /\ (forall j o, objs w !! j = Some o ->
      exists o', objs w' !! j = Some o'
                 /\ settings (base o') = settings (base o)
                 /\ rule_kept (rule o) (rule o')
                 /\ (~ P j -> o' = o))
  /\ (forall l x, heap w !! l = Some x ->
      exists x', heap w' !! l = Some x'
                 /\ TensorBase.type_ x' = TensorBase.type_ x
                 /\ TensorBase.backend_ x' = TensorBase.backend_ x
                 /\ length (TensorBase.data x') = length (TensorBase.data x)).

(** The frame of [update] on the optimizer [this]. *)
Definition update_frame (this : oid) : World -> World -> Prop :=
  frame (fun j => j = this).

(** The cells after the stores of [setSparse(k, v)], in their order. *)
Fixpoint sparse_stores (k : list N) (v : list float) (d : list float)
  : list float :=
  match k, v with
  | ki :: k', vi :: v' => sparse_stores k' v' (<[N.to_nat ki := vi]> d)
  | _, _ => d
  end.

(** The last [v[i]] stored in cell [j], when [j] is among the [k[i]]. *)
Fixpoint last_write (k : list N) (v : list float) (j : nat) : option float :=
  match k, v with
  | ki :: k', vi :: v' =>
      match last_write k' v' j with
      | Some y => Some y
      | None => if decide (N.to_nat ki = j) then Some vi else None
      end
  | _, _ => None
  end.

(** The state of training is the same: the tensors, the allocators and the
    optimizers. *)
Definition same_state (w w' : World) : Prop :=
  heap w' = heap w /\ allocators w' = allocators w /\ objs w' = objs w.

(** The frame of [load]: of the optimizers, only those of [opts] and
    [this] may change. *)
Definition load_frame (this : oid) (opts : list oid) : World -> World -> Prop :=
  frame (fun j => j ∈ opts \/ j = this).

(** Nothing has changed. *)
Definition unchanged (w w' : World) : Prop := w' = w.
End MoreStatements.

(** ** Successive updates, restored checkpoints *)

Section RestoreStatements.
Context `{Collaborators}.

(** Successive calls of [Adam::updateImpl] on the same two tensors, one for
    each pair of an actual and a reference batch size. *)
Fixpoint Adam_updates (this : oid) (params grads : Tensor)
    (sizes : list (N * N)) : M unit :=
  match sizes with
  | [] => ret tt
  | (actualMBSize, refMBWords) :: rest =>
      Adam_updateImpl this params grads actualMBSize refMBWords ;;
      Adam_updates this params grads rest
  end.

(** The Adam optimizer [this] has the members [s], with its allocator [a]
    and its two moments at [lm] and [lv], of as many cells as the
    parameters at [p] and the gradients at [g]. *)
Definition Adam_allocated (w : World) (this : oid) (p g : loc)
    (s : Adam.state) (a : nat) (lm lv : loc) : Prop :=
  exists o tp tg tm tv,
    objs w !! this = Some o /\ rule o = RuleAdam s
    /\ Adam.alloc_ s = Some a /\ Adam.mt_ s = Some lm /\ Adam.vt_ s = Some lv
    /\ heap w !! p = Some tp /\ heap w !! g = Some tg
    /\ heap w !! lm = Some tm /\ heap w !! lv = Some tv
    /\ lm <> lv /\ lm <> p /\ lv <> p /\ lm <> g /\ lv <> g
    /\ length (TensorBase.data tg) = length (TensorBase.data tp)
    /\ length (TensorBase.data tm) = length (TensorBase.data tp)
    /\ length (TensorBase.data tv) = length (TensorBase.data tp).

(** The members of Adam after [n] calls, as far as the calls decide them
    whatever the tensors hold: the denominators. *)
Definition Adam_after (n : nat) (s : Adam.state) : Adam.state :=
  Nat.iter n
    (fun s => Adam.set_denom2_
                (Adam_denom' (to_double (Adam.beta2_ s)) (Adam.denom2_ s))
                (Adam.set_denom1_
                   (Adam_denom' (to_double (Adam.beta1_ s)) (Adam.denom1_ s))
                   s))
    s.

(** The members of Adam after [resetStats]. *)
Definition Adam_reset (s : Adam.state) : Adam.state :=
  Adam.set_denom2_ (flit 0) (Adam.set_denom1_ (flit 0) s).

(** A tensor after [set(v)]: [v], then the cells [v] does not reach. *)
Definition overwritten (v : list float) (x : TensorBase.t) : TensorBase.t :=
  TensorBase.with_data (v ++ drop (length v) (TensorBase.data x)) x.

(** Where [setFn] stores the slice [c] of a scatter: in the running
    statistic [sel] of the optimizer of its shard, a float32 tensor of at
    least as many cells as the slice. *)
Definition slice_target (sel : Optimizer -> option Tensor) (w : World)
    (opts : list oid) (c : nat * list float) : option (loc * list float) :=
  lv ← shard_tensor sel w opts (fst c);
  if bool_decide (length (snd c) <= length (snd lv))%nat
  then Some (fst lv, snd c) else None.

(** The heap after the stores of a scatter, in their order. *)
Definition scatter_stores (stores : list (loc * list float))
    (h : list TensorBase.t) : list TensorBase.t :=
  foldl (fun h lv => alter (overwritten (snd lv)) (fst lv) h) h stores.

(** The operations one call of [scatterFn] issues: the collective itself
    and one store per slice. *)
Definition scatter_ops (stores : list (loc * list float)) : list Op :=
  OpScatter :: map (fun lv => OpSet (fst lv)) stores.

(** The tensors of [h] are in [h'], of the same types and sizes. *)
Definition same_shapes (h h' : list TensorBase.t) : Prop :=
  forall l x, h !! l = Some x ->
    exists x', h' !! l = Some x'
               /\ TensorBase.type_ x' = TensorBase.type_ x
               /\ length (TensorBase.data x') = length (TensorBase.data x).

(** A float32 tensor on the backend [b]. *)
Definition float32_tensor (b : Backend) (v : list float) : TensorBase.t :=
  {| TensorBase.type_ := float32; TensorBase.backend_ := b;
     TensorBase.data := v |}.
End RestoreStatements.

(** ** Examples of checkpoints *)

Section RestoreExamples.
#[local] Existing Instance IEEEMachine.
#[local] Existing Instance IEEECollaborators.

(** A checkpoint whose denominators have one entry. *)
Definition malformed_checkpoint : list Item.t :=
  [float_item "adam_mt" [f32 1; f32 2]; float_item "adam_vt" [f32 3; f32 4];
   float_item "adam_denoms" [f32 1]].

Definition malformed_world : World :=
  world [] [fresh "adam" (RuleAdam Adam.init)]
        {["model.npz.optimizer.npz" := malformed_checkpoint]}.

(** A checkpoint with denominators. *)
Definition full_checkpoint : list Item.t :=
  [float_item "adam_mt" [f32 5; f32 6]; float_item "adam_vt" [f32 7; f32 8];
   denoms_item (f64 (1 # 2)) (f64 (1 # 4))].

(** The Adam optimizer of [trained_world], with that checkpoint at hand. *)
Definition restart_world : World :=
  set_fs {["model.npz.optimizer.npz" := full_checkpoint]} trained_world.

(** A new Adam optimizer, with that checkpoint at hand. *)
Definition cold_world : World :=
  world [] [fresh "adam" (RuleAdam Adam.init)]
        {["model.npz.optimizer.npz" := full_checkpoint]}.

(** An Adagrad optimizer after some updates: the sums of squares at 0. *)
Definition trained_Adagrad : Adagrad.state :=
  {| Adagrad.eps_ := f32 q_1e_8; Adagrad.alloc_ := Some 0%nat;
     Adagrad.gt_ := Some 0%nat |}.

Definition Adagrad_checkpoint : list Item.t :=
  [float_item "adagrad_gt" [f32 9; f32 16]].

Definition trained_Adagrad_world : World :=
  {| heap := [tensor float32 [1; 4]%Q];
     allocators := [{| ta_backend := 0; ta_reserved := [8%N];
                       ta_tensors := [0%nat] |}];
     objs := [fresh "adagrad" (RuleAdagrad trained_Adagrad)];
     fs := {["model.npz.optimizer.npz" := Adagrad_checkpoint]};
     stream := [] |}.

(** A new Adagrad optimizer, with that checkpoint at hand. *)
Definition cold_Adagrad_world : World :=
  world [] [fresh "adagrad" (RuleAdagrad Adagrad.init)]
        {["model.npz.optimizer.npz" := Adagrad_checkpoint]}.

(** An Adam optimizer after an update: parameters and gradients at 0 and
    1, moments at 2 and 3. *)
Definition allocated_Adam : Adam.state :=
  {| Adam.beta1_ := f32 q_0_9; Adam.beta2_ := f32 q_0_999;
     Adam.eps_ := f32 q_1e_8; Adam.w_ := f32 0; Adam.t_ := 0;
     Adam.denom1_ := f64 (1 # 10); Adam.denom2_ := f64 (1 # 1000);
     Adam.alloc_ := Some 0%nat; Adam.mt_ := Some 2%nat; Adam.vt_ := Some 3%nat |}.

Definition allocated_world : World :=
  {| heap := [tensor float32 [0]%Q; tensor float32 [1]%Q;
              tensor float32 [1 # 10]%Q; tensor float32 [1 # 1000]%Q];
     allocators := [{| ta_backend := 0; ta_reserved := [8%N];
                       ta_tensors := [2; 3]%nat |}];
     objs := [fresh "adam" (RuleAdam allocated_Adam)];
     fs := ∅;
     stream := [] |}.

(** A state of training that asks for a reset. *)
Definition reset_state : TrainingState :=
  {| state_eta := f32 (1 # 1000); state_batches := 7; state_reset := true |}.
End RestoreExamples.

Section ExactExamples.
#[local] Existing Instance RealMachine.
#[local] Existing Instance RealCollaborators.

(** In exact arithmetic: an Adam optimizer after one update of scenario A,
    parameters and gradients at 0 and 1, moments at 2 and 3. *)
Definition exact_trained_Adam : Adam.state :=
  {| Adam.beta1_ := Q2R q_0_9; Adam.beta2_ := Q2R q_0_999;
     Adam.eps_ := Q2R q_1e_8; Adam.w_ := 0%R; Adam.t_ := 0;
     Adam.denom1_ := (1 / 10)%R; Adam.denom2_ := (1 / 1000)%R;
     Adam.alloc_ := Some 0%nat; Adam.mt_ := Some 2%nat;
     Adam.vt_ := Some 3%nat |}.

Definition exact_trained_world : World :=
  {| heap := [cells [0]%Q; cells [1]%Q; cells [1 # 10]%Q; cells [1 # 1000]%Q];
     allocators := [{| ta_backend := 0; ta_reserved := [8%N];
                       ta_tensors := [2; 3]%nat |}];
     objs := [{| base := New_OptimizerBase (scenario_options "adam" (1 # 100));
                 rule := RuleAdam exact_trained_Adam |}];
     fs := ∅;
     stream := [] |}.

Definition exact_reset_state : TrainingState :=
  {| state_eta := (1 / 1000)%R; state_batches := 7; state_reset := true |}.
End ExactExamples.

(** ** Successive updates of Adagrad *)

Section AdagradStatements.
Context `{Collaborators}.

(** Successive calls of [Adagrad::updateImpl] on the same two tensors, each
    with its batch size as actual and as reference size. *)
Fixpoint Adagrad_updates (this : oid) (params grads : Tensor)
    (sizes : list N) : M unit :=
  match sizes with
  | [] => ret tt
  | n :: rest =>
      Adagrad_updateImpl this params grads n n ;;
      Adagrad_updates this params grads rest
  end.

(** The sums of squares after [k] calls with the gradients [g]. *)
Definition Adagrad_gt_after (k : nat) (g : list float) : list float :=
  Nat.iter k (fun acc => zip_with (fun _1 _2 => _1 + (_2 * _2))%fl acc g)
           (replicate (length g) (flit 0)).

(** The Adagrad optimizer [this] has its allocator [a] and its sums of
    squares at [lg], which hold [acc], as many cells as the parameters at
    [p] and the gradients [tg] at [g]. *)
Definition Adagrad_allocated (w : World) (this : oid) (p g : loc)
    (tg : TensorBase.t) (a : nat) (lg : loc) (acc : list float) : Prop :=
  exists o s tp tgt,
    objs w !! this = Some o /\ rule o = RuleAdagrad s
    /\ Adagrad.alloc_ s = Some a /\ Adagrad.gt_ s = Some lg
    /\ heap w !! p = Some tp /\ heap w !! g = Some tg
    /\ heap w !! lg = Some tgt /\ TensorBase.data tgt = acc
    /\ lg <> p /\ lg <> g /\ g <> p
    /\ length (TensorBase.data tg) = length (TensorBase.data tp)
    /\ length acc = length (TensorBase.data tp).
End AdagradStatements.

Section AdagradExamples.
#[local] Existing Instance IEEEMachine.
#[local] Existing Instance IEEECollaborators.

(** A new Adagrad optimizer with parameters [1, 2] at 0 and gradients
    [0.5, 0.25] at 1. *)
Definition Adagrad_world : World :=
  world [tensor float32 [1; 2]%Q; tensor float32 [1 # 2; 1 # 4]%Q]
        [fresh "adagrad" (RuleAdagrad Adagrad.init)] ∅.


End AdagradExamples.

(** * Properties of the embedding *)

(** ** Running the primitives *)

Section Running.
Context `{Collaborators}.

Lemma bind_ok {A B} (m : M A) (k : A -> M B) w a w1 :
  m w = (inr a, w1) -> bind m k w = k a w1.
Proof. unfold bind. intros ->. reflexivity. Qed.

Lemma bind_fail {A B} (m : M A) (k : A -> M B) w e w1 :
  m w = (inl e, w1) -> bind m k w = (inl e, w1).
Proof. unfold bind. intros ->. reflexivity. Qed.

Lemma alter_insert {A} (f : A -> A) (l : list A) i x :
  l !! i = Some x -> alter f i l = <[i := f x]> l.
Proof.
  revert i. induction l as [|y l IH]; intros [|i] Hi; simpl in *;
    try discriminate.
  - injection Hi as ->. reflexivity.
  - f_equal. apply IH, Hi.
Qed.

Lemma object_ok this o w :
  objs w !! this = Some o -> object this w = (inr o, w).
Proof. unfold object, bind, gets. simpl. intros ->. reflexivity. Qed.

Lemma member_ok {A} this (f : OptimizerBase.state -> A) o w :
  objs w !! this = Some o -> member this f w = (inr (f (base o)), w).
Proof.
  intros Ho. unfold member.
  erewrite bind_ok by (apply object_ok; eassumption). reflexivity.
Qed.

Lemma as_Adam_ok o x s w :
  objs w !! o = Some x -> rule x = RuleAdam s -> as_Adam o w = (inr s, w).
Proof.
  intros Ho Hr. unfold as_Adam.
  erewrite bind_ok by (apply object_ok; eassumption). rewrite Hr. reflexivity.
Qed.

Lemma as_Adagrad_ok o x s w :
  objs w !! o = Some x -> rule x = RuleAdagrad s ->
  as_Adagrad o w = (inr s, w).
Proof.
  intros Ho Hr. unfold as_Adagrad.
  erewrite bind_ok by (apply object_ok; eassumption). rewrite Hr. reflexivity.
Qed.

Lemma assign_ok this f x w :
  objs w !! this = Some x ->
  assign this f w =
  (inr tt, set_objs (<[this := {| base := f (base x); rule := rule x |}]>
                       (objs w)) w).
Proof.
  intros Ho. unfold assign, modify.
  erewrite alter_insert by eassumption. reflexivity.
Qed.

Lemma assign_Adam_ok o f x s w :
  objs w !! o = Some x -> rule x = RuleAdam s ->
  assign_Adam o f w =
  (inr tt, set_objs (<[o := {| base := base x; rule := RuleAdam (f s) |}]>
                       (objs w)) w).
Proof.
  intros Ho Hr. unfold assign_Adam, modify.
  erewrite alter_insert by eassumption. rewrite Hr. reflexivity.
Qed.

Lemma assign_Adagrad_ok o f x s w :
  objs w !! o = Some x -> rule x = RuleAdagrad s ->
  assign_Adagrad o f w =
  (inr tt, set_objs (<[o := {| base := base x; rule := RuleAdagrad (f s) |}]>
                       (objs w)) w).
Proof.
  intros Ho Hr. unfold assign_Adagrad, modify.
  erewrite alter_insert by eassumption. rewrite Hr. reflexivity.
Qed.

Lemma at_ok {A} (v : list A) i x w : v !! i = Some x -> at_ v i w = (inr x, w).
Proof. unfold at_. intros ->. reflexivity. Qed.

Lemma insert_lookup_same {A} (l : list A) i x y :
  l !! i = Some y -> <[i := x]> l !! i = Some x.
Proof. intros Hi. apply list_lookup_insert_eq. eapply lookup_lt_Some, Hi. Qed.

Lemma insert_insert_same {A} (l : list A) i x y :
  <[i := x]> (<[i := y]> l) = <[i := x]> l.
Proof.
  revert i. induction l as [|z l IH]; intros [|i]; simpl; try reflexivity.
  f_equal. apply IH.
Qed.

Lemma deref_ok l x w :
  heap w !! l = Some x -> deref (Some l) w = (inr (l, x), w).
Proof. unfold deref, bind, gets. simpl. intros ->. reflexivity. Qed.

Lemma type_ok l x w :
  heap w !! l = Some x -> type (Some l) w = (inr (TensorBase.type_ x), w).
Proof.
  intros Hl. unfold type.
  erewrite bind_ok by (apply deref_ok; eassumption). reflexivity.
Qed.

Lemma size_ok l x w :
  heap w !! l = Some x -> size (Some l) w = (inr (TensorBase.size x), w).
Proof.
  intros Hl. unfold size.
  erewrite bind_ok by (apply deref_ok; eassumption). reflexivity.
Qed.

Lemma getBackend_ok l x w :
  heap w !! l = Some x ->
  getBackend (Some l) w = (inr (TensorBase.backend_ x), w).
Proof.
  intros Hl. unfold getBackend.
  erewrite bind_ok by (apply deref_ok; eassumption). reflexivity.
Qed.

Lemma memory_size_ok l x w :
  heap w !! l = Some x ->
  memory_size (Some l) w =
  (inr (size_mul (TensorBase.size x) (sizeOf (TensorBase.type_ x))), w).
Proof.
  intros Hl. unfold memory_size.
  erewrite bind_ok by (apply deref_ok; eassumption). reflexivity.
Qed.

Lemma write_issue_ok l x v op w :
  heap w !! l = Some x ->
  (write l v ;; issue op) w = (inr tt, written l x v op w).
Proof.
  intros Hl. unfold write, issue, bind, modify, written.
  erewrite alter_insert by eassumption. reflexivity.
Qed.

Lemma set_value_ok l x value w :
  heap w !! l = Some x ->
  set_value (Some l) value w =
  (inr tt, written l x (replicate (length (TensorBase.data x)) value)
             (OpSet l) w).
Proof.
  intros Hl. unfold set_value.
  erewrite bind_ok by (apply deref_ok; eassumption). cbv beta iota.
  apply write_issue_ok, Hl.
Qed.

Lemma Element1_ok f l x w :
  heap w !! l = Some x ->
  Element1 f (Some l) w =
  (inr tt, written l x (map f (TensorBase.data x)) (OpElement l []) w).
Proof.
  intros Hl. unfold Element1.
  erewrite bind_ok by (apply deref_ok; eassumption). cbv beta iota.
  apply write_issue_ok, Hl.
Qed.

Lemma Element2_ok f l x l1 x1 w :
  heap w !! l = Some x -> heap w !! l1 = Some x1 ->
  length (TensorBase.data x1) = length (TensorBase.data x) ->
  Element2 f (Some l) (Some l1) w =
  (inr tt, written l x (zip_with f (TensorBase.data x) (TensorBase.data x1))
             (OpElement l [l1]) w).
Proof.
  intros Hl Hl1 Hlen. unfold Element2.
  erewrite bind_ok by (apply deref_ok; eassumption). cbv beta iota.
  erewrite bind_ok by (apply deref_ok; eassumption). cbv beta iota.
  rewrite bool_decide_true by assumption.
  apply write_issue_ok, Hl.
Qed.

Lemma Element3_ok f l x l1 x1 l2 x2 w :
  heap w !! l = Some x -> heap w !! l1 = Some x1 -> heap w !! l2 = Some x2 ->
  length (TensorBase.data x1) = length (TensorBase.data x) ->
  length (TensorBase.data x2) = length (TensorBase.data x) ->
  Element3 f (Some l) (Some l1) (Some l2) w =
  (inr tt, written l x (zip_with3 f (TensorBase.data x) (TensorBase.data x1)
                          (TensorBase.data x2))
             (OpElement l [l1; l2]) w).
Proof.
  intros Hl Hl1 Hl2 Hlen1 Hlen2. unfold Element3.
  erewrite bind_ok by (apply deref_ok; eassumption). cbv beta iota.
  erewrite bind_ok by (apply deref_ok; eassumption). cbv beta iota.
  erewrite bind_ok by (apply deref_ok; eassumption). cbv beta iota.
  rewrite bool_decide_true by (split; assumption).
  apply write_issue_ok, Hl.
Qed.

Lemma CopyCast_ok l x l1 x1 w :
  heap w !! l = Some x -> heap w !! l1 = Some x1 ->
  length (TensorBase.data x1) = length (TensorBase.data x) ->
  CopyCast (Some l) (Some l1) w =
  (inr tt, written l x (map (cast_value (TensorBase.type_ x) (TensorBase.type_ x1))
                          (TensorBase.data x1))
             (OpCopyCast l l1) w).
Proof.
  intros Hl Hl1 Hlen. unfold CopyCast.
  erewrite bind_ok by (apply deref_ok; eassumption). cbv beta iota.
  erewrite bind_ok by (apply deref_ok; eassumption). cbv beta iota.
  rewrite bool_decide_true by assumption.
  apply write_issue_ok, Hl.
Qed.

Lemma clip_ok c l x w :
  heap w !! l = Some x ->
  clip c (Some l) w =
  (inr tt, written l x (clip_values c (TensorBase.data x)) (OpClip l) w).
Proof.
  intros Hl. unfold clip.
  erewrite bind_ok by (apply deref_ok; eassumption). cbv beta iota.
  apply write_issue_ok, Hl.
Qed.

Lemma updateAvgParams_ok l x l1 x1 batches mbSize w :
  heap w !! l = Some x -> heap w !! l1 = Some x1 ->
  updateAvgParams (Some l) (Some l1) batches mbSize w =
  (inr tt, written l x (avg_values (TensorBase.data x) (TensorBase.data x1)
                          batches mbSize)
             (OpUpdateAvgParams l l1 batches mbSize) w).
Proof.
  intros Hl Hl1. unfold updateAvgParams.
  erewrite bind_ok by (apply deref_ok; eassumption). cbv beta iota.
  erewrite bind_ok by (apply deref_ok; eassumption). cbv beta iota.
  apply write_issue_ok, Hl.
Qed.

Lemma get_vector_ok l x w :
  heap w !! l = Some x -> TensorBase.type_ x = float32 ->
  get_vector (Some l) w =
  (inr (TensorBase.data x), set_stream (stream w ++ [OpGet l]) w).
Proof.
  intros Hl Hty. unfold get_vector.
  erewrite bind_ok by (apply deref_ok; eassumption). cbv beta iota.
  unfold matchOrAbort_float. rewrite Hty.
  rewrite bool_decide_false by (intros Hne; apply Hne; reflexivity).
  reflexivity.
Qed.

Lemma set_stream_set_stream s s' w :
  set_stream s (set_stream s' w) = set_stream s w.
Proof. reflexivity. Qed.

(** A [getFn] that reads the statistic [sel] of a shard. *)
Lemma getFn_ok (sel : Optimizer -> option Tensor)
    (getFn : nat -> M (list float)) opts :
  (forall i o x t w, opts !! i = Some o -> objs w !! o = Some x ->
                     sel x = Some t -> getFn i w = get_vector t w) ->
  forall i lv w,
    shard_tensor sel w opts i = Some lv ->
    getFn i w = (inr (snd lv), set_stream (stream w ++ [OpGet (fst lv)]) w).
Proof.
  intros Hget i lv w Hs. unfold shard_tensor in Hs.
  destruct (opts !! i) as [o|] eqn:Ho; [|discriminate]. simpl in Hs.
  destruct (objs w !! o) as [x|] eqn:Hx; [|discriminate]. simpl in Hs.
  destruct (sel x) as [t|] eqn:Ht; [|discriminate]. simpl in Hs.
  destruct t as [l|]; [|discriminate]. simpl in Hs.
  destruct (heap w !! l) as [tb|] eqn:Hl; [|discriminate]. simpl in Hs.
  destruct (bool_decide _) eqn:Hty; [|discriminate].
  apply bool_decide_eq_true in Hty. injection Hs as <-.
  erewrite Hget by eassumption. apply get_vector_ok; assumption.
Qed.

Lemma forM_getFn_ok (sel : Optimizer -> option Tensor)
    (getFn : nat -> M (list float)) opts os h idxs read :
  (forall i o x t w, opts !! i = Some o -> objs w !! o = Some x ->
                     sel x = Some t -> getFn i w = get_vector t w) ->
  Forall2 (fun i lv =>
             forall w, objs w = os -> heap w = h ->
                       shard_tensor sel w opts i = Some lv) idxs read ->
  forall w, objs w = os -> heap w = h ->
    forM idxs getFn w =
    (inr (map snd read),
     set_stream (stream w ++ map (fun lv => OpGet (fst lv)) read) w).
Proof.
  intros Hget Hall. induction Hall as [|i lv idxs read Hi _ IH];
    intros w Hos Hh; simpl.
  - unfold ret. rewrite app_nil_r. destruct w; reflexivity.
  - erewrite bind_ok by (eapply getFn_ok; eauto).
    erewrite bind_ok by (apply IH; simpl; assumption).
    unfold ret. simpl. rewrite set_stream_set_stream, <- app_assoc.
    reflexivity.
Qed.

Lemma call_gather_ok (sel : Optimizer -> option Tensor)
    (getFn : nat -> M (list float)) opts gatherFn read w :
  (forall i o x t w, opts !! i = Some o -> objs w !! o = Some x ->
                     sel x = Some t -> getFn i w = get_vector t w) ->
  Forall2 (fun i lv => shard_tensor sel w opts i = Some lv)
          (gather_local gatherFn) read ->
  call_gather gatherFn getFn w =
  (inr (gather_all gatherFn (map snd read)),
   set_stream (stream w ++ gather_ops read) w).
Proof.
  intros Hget Hall. unfold call_gather.
  erewrite bind_ok by reflexivity.
  erewrite bind_ok.
  2:{ eapply forM_getFn_ok with (os := objs w) (h := heap w);
        [exact Hget | | reflexivity | reflexivity].
      eapply Forall2_impl; [exact Hall|].
      intros i lv Hs w' Hos Hh. unfold shard_tensor in *.
      rewrite Hos, Hh. exact Hs. }
  unfold ret, gather_ops. simpl.
  rewrite set_stream_set_stream, <- app_assoc. reflexivity.
Qed.
Lemma New_TensorAllocator_run b w :
  New_TensorAllocator b w =
  (inr (Some (length (allocators w))),
   set_allocators
     (allocators w ++ [{| ta_backend := b; ta_reserved := []; ta_tensors := [] |}])
     w).
Proof. reflexivity. Qed.

Lemma reserveExact_ok n x bytes w :
  allocators w !! n = Some x ->
  reserveExact (Some n) bytes w =
  (inr tt,
   set_stream (stream w ++ [OpReserveExact bytes])
     (set_allocators
        (<[n := {| ta_backend := ta_backend x;
                   ta_reserved := ta_reserved x ++ [bytes];
                   ta_tensors := ta_tensors x |}]> (allocators w)) w)).
Proof.
  intros Hn. unfold reserveExact, allocator.
  erewrite bind_ok
    by (erewrite bind_ok by reflexivity; rewrite Hn; reflexivity).
  reflexivity.
Qed.

Lemma allocate_ok n x shape ty w :
  allocators w !! n = Some x ->
  allocate (Some n) shape ty w =
  (inr (Some (length (heap w))),
   set_stream
     (stream w ++ [OpAllocate (length (heap w)) (N.to_nat (Shape_elements shape)) ty])
     (set_allocators
        (<[n := {| ta_backend := ta_backend x;
                   ta_reserved := ta_reserved x;
                   ta_tensors := ta_tensors x ++ [length (heap w)] |}]>
           (allocators w))
        (set_heap
           (heap w ++
            [{| TensorBase.type_ := ty;
                TensorBase.backend_ := ta_backend x;
                TensorBase.data :=
                  map arena_cell (seq 0 (N.to_nat (Shape_elements shape))) |}])
           w))).
Proof.
  intros Hn. unfold allocate, allocator.
  erewrite bind_ok
    by (erewrite bind_ok by reflexivity; rewrite Hn; reflexivity).
  reflexivity.
Qed.

Lemma cells_of_size n :
  (Z.of_nat n < 2 ^ 31)%Z ->
  N.to_nat (Shape_elements [1%Z; int_of_size (N.of_nat n)]) = n.
Proof.
  intros Hn. unfold Shape_elements, int_of_size. simpl fold_right.
  rewrite nat_N_Z.
  replace ((Z.of_nat n + 2 ^ 31) mod 2 ^ 32 - 2 ^ 31)%Z with (Z.of_nat n).
  - rewrite Z.mul_1_r, Z.mul_1_l. lia.
  - rewrite Z.mod_small by lia. lia.
Qed.

Lemma lookup_app_new {A} (l : list A) x : (l ++ [x]) !! length l = Some x.
Proof. apply list_lookup_middle. reflexivity. Qed.

Lemma lookup_app_old {A} (l : list A) x i y :
  l !! i = Some y -> (l ++ [x]) !! i = Some y.
Proof. intros Hi. rewrite lookup_app_l by (eapply lookup_lt_Some, Hi). exact Hi. Qed.

Lemma insert_app_new {A} (l : list A) x y :
  <[length l := y]> (l ++ [x]) = l ++ [y].
Proof. rewrite insert_app_r_alt, Nat.sub_diag by lia. reflexivity. Qed.

Lemma lookup_new_ne {A} (l : list A) i y : l !! i = Some y -> length l <> i.
Proof. intros Hi Heq. apply lookup_lt_Some in Hi. lia. Qed.

End Running.

Ltac lk :=
  simpl;
  repeat first
    [ eassumption
    | reflexivity
    | rewrite list_lookup_insert_ne by (first [assumption | apply not_eq_sym; assumption])
    | erewrite insert_lookup_same by eassumption ].

Ltac fields :=
  cbn [base rule heap objs allocators fs stream
       set_heap set_objs set_allocators set_fs set_stream written
       TensorBase.type_ TensorBase.backend_ TensorBase.data TensorBase.with_data
       Adagrad.eps_ Adagrad.alloc_ Adagrad.gt_
       Adagrad.set_eps_ Adagrad.set_alloc_ Adagrad.set_gt_
       Adam.beta1_ Adam.beta2_ Adam.eps_ Adam.w_ Adam.t_ Adam.denom1_
       Adam.denom2_ Adam.alloc_ Adam.mt_ Adam.vt_
       Adam.set_denom1_ Adam.set_denom2_ Adam.set_alloc_ Adam.set_mt_
       Adam.set_vt_
       OptimizerBase.eta_ OptimizerBase.refMBWordsParam_
       OptimizerBase.costScale_ OptimizerBase.batchesSeen_
       OptimizerBase.clipper_ OptimizerBase.mvAvg_
       OptimizerBase.optimizerType_ OptimizerBase.optAlloc_
       OptimizerBase.avg_ OptimizerBase.pm_ OptimizerBase.gd_
       OptimizerBase.set_optAlloc_ OptimizerBase.set_avg_
       OptimizerBase.set_pm_ OptimizerBase.set_gd_
       fst snd].

(** A world is kept as a record of its parts, so that no step copies it. *)
Lemma app_lookup_0 {A} (h k : list A) x : (h ++ x :: k) !! length h = Some x.
Proof. apply list_lookup_middle. reflexivity. Qed.

Lemma app_lookup_1 {A} (h k : list A) x y :
  (h ++ x :: y :: k) !! S (length h) = Some y.
Proof.
  replace (h ++ x :: y :: k) with ((h ++ [x]) ++ y :: k)
    by (rewrite <- app_assoc; reflexivity).
  apply list_lookup_middle. rewrite length_app. simpl. lia.
Qed.

Lemma app_lookup_old {A} (h k : list A) i y :
  h !! i = Some y -> (h ++ k) !! i = Some y.
Proof. intros Hi. rewrite lookup_app_l by (eapply lookup_lt_Some, Hi). exact Hi. Qed.

Lemma app_insert_0 {A} (h k : list A) x z :
  <[length h := z]> (h ++ x :: k) = h ++ z :: k.
Proof. rewrite insert_app_r_alt, Nat.sub_diag by lia. reflexivity. Qed.

Lemma app_insert_1 {A} (h k : list A) x y z :
  <[S (length h) := z]> (h ++ x :: y :: k) = h ++ x :: z :: k.
Proof.
  rewrite insert_app_r_alt by lia.
  replace (S (length h) - length h)%nat with 1%nat by lia. reflexivity.
Qed.

Lemma old_ne_0 {A} (h : list A) i y : h !! i = Some y -> length h <> i.
Proof. intros Hi Heq. apply lookup_lt_Some in Hi. lia. Qed.

Lemma old_ne_1 {A} (h : list A) i y : h !! i = Some y -> S (length h) <> i.
Proof. intros Hi Heq. apply lookup_lt_Some in Hi. lia. Qed.

Ltac fields2 :=
  fields;
  cbn [ta_backend ta_reserved ta_tensors app length].

Ltac norm :=
  unfold written, set_heap, set_objs, set_allocators, set_fs, set_stream;
  fields2;
  rewrite <- ?app_assoc; fields2;
  rewrite ?length_app, ?length_insert, ?length_map, ?length_seq,
    ?length_replicate;
  fields2;
  rewrite ?Nat.add_succ_r, ?Nat.add_0_r;
  rewrite ?app_insert_0, ?app_insert_1, ?insert_insert_same.

Ltac ne :=
  first [ assumption
        | apply not_eq_sym; assumption
        | eapply old_ne_0; eassumption
        | eapply old_ne_1; eassumption
        | apply not_eq_sym; eapply old_ne_0; eassumption
        | apply not_eq_sym; eapply old_ne_1; eassumption
        | apply Nat.neq_succ_diag_l
        | apply Nat.neq_succ_diag_r ].

Ltac lk2 :=
  fields2;
  repeat first
    [ eassumption
    | reflexivity
    | apply app_lookup_0
    | apply app_lookup_1
    | rewrite list_lookup_insert_ne by ne
    | erewrite insert_lookup_same by lk2
    | apply app_lookup_old ].


Lemma length_zip_with_same {A B C} (f : A -> B -> C) l k :
  length k = length l -> length (zip_with f l k) = length l.
Proof. intros Hl. rewrite length_zip_with. lia. Qed.


(** ** What a call that returned tells

    The lemmas above run a step whose operands are known to be valid.
    Those below go the other way: from the fact that a step returned they
    give the operands it found and the world it left. *)
Section Inverting.
Context `{Collaborators}.

Lemma bind_inv {A B} (m : M A) (k : A -> M B) w b w' :
  bind m k w = (inr b, w') ->
  exists a w1, m w = (inr a, w1) /\ k a w1 = (inr b, w').
Proof.
  unfold bind. destruct (m w) as [[e|a] w1]; [discriminate|].
  intros Hk. exists a, w1. split; [reflexivity | exact Hk].
Qed.

Lemma ret_inv {A} (a b : A) w w' : ret a w = (inr b, w') -> b = a /\ w' = w.
Proof. unfold ret. intros [= <- <-]. split; reflexivity. Qed.

Lemma deref_inv t w p w1 :
  deref t w = (inr p, w1) ->
  w1 = w /\ t = Some (fst p) /\ heap w !! fst p = Some (snd p).
Proof.
  destruct t as [l|]; [|discriminate].
  unfold deref, bind, gets, ret, undefined, fail.
  destruct (heap w !! l) as [x|] eqn:Hl; [|discriminate].
  intros [= <- <-]. repeat split. exact Hl.
Qed.

Lemma object_inv this w o w1 :
  object this w = (inr o, w1) -> w1 = w /\ objs w !! this = Some o.
Proof.
  unfold object, bind, gets, ret, undefined, fail.
  destruct (objs w !! this) as [x|]; [|discriminate].
  intros [= <- <-]. split; reflexivity.
Qed.

Lemma member_inv {A} this (f : OptimizerBase.state -> A) w a w1 :
  member this f w = (inr a, w1) ->
  exists o, objs w !! this = Some o /\ a = f (base o) /\ w1 = w.
Proof.
  unfold member. intros Hm.
  apply bind_inv in Hm as (o & w0 & Ho & Hr).
  apply object_inv in Ho as [-> Ho]. apply ret_inv in Hr as [-> ->].
  exists o. repeat split. exact Ho.
Qed.

Lemma type_inv t w ty w1 :
  type t w = (inr ty, w1) ->
  exists l x, t = Some l /\ heap w !! l = Some x
              /\ ty = TensorBase.type_ x /\ w1 = w.
Proof.
  unfold type. intros Hm.
  apply bind_inv in Hm as ([l x] & w0 & Hd & Hr).
  apply deref_inv in Hd as (-> & -> & Hl). apply ret_inv in Hr as [-> ->].
  exists l, x. repeat split. exact Hl.
Qed.

Lemma size_inv t w n w1 :
  size t w = (inr n, w1) ->
  exists l x, t = Some l /\ heap w !! l = Some x
              /\ n = TensorBase.size x /\ w1 = w.
Proof.
  unfold size. intros Hm.
  apply bind_inv in Hm as ([l x] & w0 & Hd & Hr).
  apply deref_inv in Hd as (-> & -> & Hl). apply ret_inv in Hr as [-> ->].
  exists l, x. repeat split. exact Hl.
Qed.

Lemma getBackend_inv t w b w1 :
  getBackend t w = (inr b, w1) ->
  exists l x, t = Some l /\ heap w !! l = Some x
              /\ b = TensorBase.backend_ x /\ w1 = w.
Proof.
  unfold getBackend. intros Hm.
  apply bind_inv in Hm as ([l x] & w0 & Hd & Hr).
  apply deref_inv in Hd as (-> & -> & Hl). apply ret_inv in Hr as [-> ->].
  exists l, x. repeat split. exact Hl.
Qed.

Lemma allocator_inv a w p w1 :
  allocator a w = (inr p, w1) ->
  w1 = w /\ a = Some (fst p) /\ allocators w !! fst p = Some (snd p).
Proof.
  destruct a as [n|]; [|discriminate].
  unfold allocator, bind, gets, ret, undefined, fail.
  destruct (allocators w !! n) as [x|] eqn:Hn; [|discriminate].
  intros [= <- <-]. repeat split. exact Hn.
Qed.

Lemma allocate_inv a shape ty w t w1 :
  allocate a shape ty w = (inr t, w1) ->
  exists n x, a = Some n /\ allocators w !! n = Some x
              /\ allocate a shape ty w = (inr t, w1).
Proof.
  intros Hm. generalize Hm. unfold allocate at 1. intros Hb.
  apply bind_inv in Hb as ([n x] & w0 & Ha & _).
  apply allocator_inv in Ha as (-> & Ht & Hn). simpl in Ht, Hn. subst.
  exists n, x. repeat split; assumption.
Qed.

Lemma Element1_inv f t w w1 :
  Element1 f t w = (inr tt, w1) ->
  exists l x, t = Some l /\ heap w !! l = Some x
    /\ w1 = written l x (map f (TensorBase.data x)) (OpElement l []) w.
Proof.
  intros Hm. generalize Hm. unfold Element1 at 1. intros Hb.
  apply bind_inv in Hb as ([l x] & w0 & Hd & _).
  apply deref_inv in Hd as (-> & Ht & Hl). simpl in Ht, Hl. subst.
  rewrite (Element1_ok f l x w Hl) in Hm. injection Hm as <-.
  exists l, x. repeat split. exact Hl.
Qed.

Lemma clip_inv c t w w1 :
  clip c t w = (inr tt, w1) ->
  exists l x, t = Some l /\ heap w !! l = Some x
    /\ w1 = written l x (clip_values c (TensorBase.data x)) (OpClip l) w.
Proof.
  intros Hm. generalize Hm. unfold clip at 1. intros Hb.
  apply bind_inv in Hb as ([l x] & w0 & Hd & _).
  apply deref_inv in Hd as (-> & Ht & Hl). simpl in Ht, Hl. subst.
  rewrite (clip_ok c l x w Hl) in Hm. injection Hm as <-.
  exists l, x. repeat split. exact Hl.
Qed.

Lemma CopyCast_inv dst src w w1 :
  CopyCast dst src w = (inr tt, w1) ->
  exists l x l1 x1,
    dst = Some l /\ src = Some l1
    /\ heap w !! l = Some x /\ heap w !! l1 = Some x1
    /\ length (TensorBase.data x1) = length (TensorBase.data x)
    /\ w1 = written l x
              (map (cast_value (TensorBase.type_ x) (TensorBase.type_ x1))
                   (TensorBase.data x1))
              (OpCopyCast l l1) w.
Proof.
  intros Hm. generalize Hm. unfold CopyCast at 1. intros Hb.
  apply bind_inv in Hb as ([l x] & w0 & Hd & Hb).
  apply deref_inv in Hd as (-> & Ht & Hl). simpl in Ht, Hl. subst.
  apply bind_inv in Hb as ([l1 x1] & w0 & Hd & Hb).
  apply deref_inv in Hd as (-> & Ht & Hl1). simpl in Ht, Hl1. subst.
  apply bind_inv in Hb as ([] & w0 & Hc & _).
  destruct (bool_decide_reflect
              (length (TensorBase.data x1) = length (TensorBase.data x)))
    as [Hlen|Hlen]; [|discriminate].
  rewrite (CopyCast_ok l x l1 x1 w Hl Hl1 Hlen) in Hm. injection Hm as <-.
  exists l, x, l1, x1. repeat split; assumption.
Qed.

Lemma updateAvgParams_inv avg pm batches mbSize w w1 :
  updateAvgParams avg pm batches mbSize w = (inr tt, w1) ->
  exists l x l1 x1,
    avg = Some l /\ pm = Some l1
    /\ heap w !! l = Some x /\ heap w !! l1 = Some x1
    /\ w1 = written l x
              (avg_values (TensorBase.data x) (TensorBase.data x1)
                          batches mbSize)
              (OpUpdateAvgParams l l1 batches mbSize) w.
Proof.
  intros Hm. generalize Hm. unfold updateAvgParams at 1. intros Hb.
  apply bind_inv in Hb as ([l x] & w0 & Hd & Hb).
  apply deref_inv in Hd as (-> & Ht & Hl). simpl in Ht, Hl. subst.
  apply bind_inv in Hb as ([l1 x1] & w0 & Hd & _).
  apply deref_inv in Hd as (-> & Ht & Hl1). simpl in Ht, Hl1. subst.
  rewrite (updateAvgParams_ok l x l1 x1 batches mbSize w Hl Hl1) in Hm.
  injection Hm as <-.
  exists l, x, l1, x1. repeat split; assumption.
Qed.
End Inverting.

(** ** Hyper-parameters *)

Section SetParams.
Context `{Collaborators}.

Lemma insert_same_object o (x : Optimizer) w :
  objs w !! o = Some x ->
  set_objs (<[o := {| base := base x; rule := rule x |}]> (objs w)) w = w.
Proof.
  intros Ho. destruct x as [b r]. simpl.
  rewrite list_insert_id by assumption. destruct w; reflexivity.
Qed.

Lemma when_positional_Adam (params : list float) i o x s w
    (set_ : float -> Adam.state -> Adam.state) :
  objs w !! o = Some x -> rule x = RuleAdam s ->
  when (i <? length params)%nat
    (p <- at_ params i ;; assign_Adam o (set_ p)) w =
  (inr tt,
   set_objs (<[o := {| base := base x;
                        rule := RuleAdam (match params !! i with
                                          | Some p => set_ p s
                                          | None => s
                                          end) |}]> (objs w)) w).
Proof.
  intros Ho Hr. destruct (params !! i) as [p|] eqn:Hp.
  - pose proof (lookup_lt_Some _ _ _ Hp) as Hlt.
    apply Nat.ltb_lt in Hlt. rewrite Hlt. simpl.
    erewrite bind_ok by (apply at_ok; eassumption).
    erewrite assign_Adam_ok by eassumption. reflexivity.
  - pose proof (lookup_ge_None_1 _ _ Hp) as Hge.
    apply Nat.ltb_ge in Hge. rewrite Hge. simpl. unfold ret.
    rewrite <- Hr, insert_same_object by assumption. reflexivity.
Qed.

Lemma Adam_setParams_run this x s params w :
  objs w !! this = Some x -> rule x = RuleAdam s ->
  Adam_setParams this params w =
  (inr tt,
   set_objs (<[this := {| base := base x;
                           rule := configured params (RuleAdam s) |}]>
               (objs w)) w).
Proof.
  intros Ho Hr. unfold Adam_setParams.
  erewrite bind_ok by (eapply when_positional_Adam; eassumption).
  erewrite bind_ok
    by (eapply when_positional_Adam;
        [simpl; eapply insert_lookup_same; eassumption | reflexivity]).
  erewrite bind_ok
    by (eapply when_positional_Adam;
        [simpl; eapply insert_lookup_same; eapply insert_lookup_same; eassumption
        | reflexivity]).
  erewrite when_positional_Adam
    by (first [ reflexivity
              | simpl; do 3 eapply insert_lookup_same; eassumption ]).
  simpl. rewrite !insert_insert_same. unfold set_objs. simpl.
  do 3 f_equal. unfold positional.
  destruct s, (params !! 0), (params !! 1), (params !! 2), (params !! 3);
    reflexivity.
Qed.

Lemma Adagrad_setParams_run this x s params w :
  objs w !! this = Some x -> rule x = RuleAdagrad s ->
  Adagrad_setParams this params w =
  (inr tt,
   set_objs (<[this := {| base := base x;
                           rule := configured params (RuleAdagrad s) |}]>
               (objs w)) w).
Proof.
  intros Ho Hr. unfold Adagrad_setParams, configured, positional.
  destruct (params !! 0) as [p|] eqn:Hp.
  - pose proof (lookup_lt_Some _ _ _ Hp) as Hlt.
    apply Nat.ltb_lt in Hlt. rewrite Hlt. simpl.
    erewrite bind_ok by (apply at_ok; eassumption).
    erewrite assign_Adagrad_ok by eassumption. reflexivity.
  - pose proof (lookup_ge_None_1 _ _ Hp) as Hge.
    apply Nat.ltb_ge in Hge. rewrite Hge. simpl. unfold ret.
    destruct s. simpl. rewrite <- Hr, insert_same_object by assumption.
    reflexivity.
Qed.

Lemma setParams_run this x params w :
  objs w !! this = Some x ->
  setParams this params w =
  (inr tt,
   set_objs (<[this := {| base := base x; rule := configured params (rule x) |}]>
               (objs w)) w).
Proof.
  intros Ho. unfold setParams.
  erewrite bind_ok by (apply object_ok; eassumption).
  destruct (rule x) as [|s|s] eqn:Hr.
  - simpl. unfold Sgd_setParams, ret.
    rewrite <- Hr, insert_same_object by assumption. reflexivity.
  - eapply Adagrad_setParams_run; eassumption.
  - eapply Adam_setParams_run; eassumption.
Qed.
End SetParams.

Section Factory.
Context `{Collaborators}.

Lemma Optimizer_run options r w :
  (if (optimizer options =? "sgd")%string then New options RuleSgd
   else if (optimizer options =? "adagrad")%string then
     New options (RuleAdagrad Adagrad.init)
   else if (optimizer options =? "adam")%string then
     New options (RuleAdam Adam.init)
   else ABORT "Unknown optimizer kind: {}") = New options r ->
  Optimizer_ options w =
  (inr (length (objs w)),
   set_objs (objs w ++
             [{| base := New_OptimizerBase options;
                 rule := configured (default [] (optimizer_params options)) r |}])
            w).
Proof.
  intros Hkind. unfold Optimizer_. rewrite Hkind.
  erewrite bind_ok by reflexivity.
  erewrite bind_ok
    by (apply setParams_run; simpl; apply list_lookup_middle; reflexivity).
  unfold ret, set_objs. simpl. do 2 f_equal.
  rewrite insert_app_r_alt, Nat.sub_diag by lia. reflexivity.
Qed.

(** C10.  [setParams] overwrites exactly the hyper-parameters whose
    position the vector has and leaves the others as they are: [Sgd]
    ignores the vector, [Adagrad] reads position 0 into [eps_], [Adam]
    reads positions 0 to 3 into [beta1_], [beta2_], [eps_] and [w_] and
    nothing beyond them.  For an optimizer the factory builds, what is left
    is the default of the class: 1e-8 for [eps_] of [Adagrad]; 0.9, 0.999,
    1e-8 and 0 for [Adam]. *)
Theorem setParams_positional (w : World) (this : oid) (x : Optimizer)
    (params : list float) :
  objs w !! this = Some x ->
  (rule x = RuleSgd -> setParams this params w = (inr tt, w))
  /\ (forall s, rule x = RuleAdagrad s ->
        setParams this params w =
        (inr tt,
         set_objs
           (<[this :=
                {| base := base x;
                   rule := RuleAdagrad
                     {| Adagrad.eps_ := default (Adagrad.eps_ s) (params !! 0);
                        Adagrad.alloc_ := Adagrad.alloc_ s;
                        Adagrad.gt_ := Adagrad.gt_ s |} |}]> (objs w)) w))
  /\ (forall s, rule x = RuleAdam s ->
        setParams this params w =
        (inr tt,
         set_objs
           (<[this :=
                {| base := base x;
                   rule := RuleAdam
                     {| Adam.beta1_ := default (Adam.beta1_ s) (params !! 0);
                        Adam.beta2_ := default (Adam.beta2_ s) (params !! 1);
                        Adam.eps_ := default (Adam.eps_ s) (params !! 2);
                        Adam.w_ := default (Adam.w_ s) (params !! 3);
                        Adam.t_ := Adam.t_ s;
                        Adam.denom1_ := Adam.denom1_ s;
                        Adam.denom2_ := Adam.denom2_ s;
                        Adam.alloc_ := Adam.alloc_ s;
                        Adam.mt_ := Adam.mt_ s;
                        Adam.vt_ := Adam.vt_ s |} |}]> (objs w)) w)
        /\ setParams this (take 4 params) w = setParams this params w)
  /\ (forall options,
        let given := default [] (optimizer_params options) in
        let built r :=
          (inr (length (objs w)),
           set_objs (objs w ++ [{| base := New_OptimizerBase options;
                                   rule := r |}]) w) in
        (optimizer options = "sgd" -> Optimizer_ options w = built RuleSgd)
        /\ (optimizer options = "adagrad" ->
            Optimizer_ options w =
            built (RuleAdagrad
                     {| Adagrad.eps_ := default (flit (1 # 100000000)) (given !! 0);
                        Adagrad.alloc_ := None;
                        Adagrad.gt_ := None |}))
        /\ (optimizer options = "adam" ->
            Optimizer_ options w =
            built (RuleAdam
                     {| Adam.beta1_ := default (flit (9 # 10)) (given !! 0);
                        Adam.beta2_ := default (flit (999 # 1000)) (given !! 1);
                        Adam.eps_ := default (flit (1 # 100000000)) (given !! 2);
                        Adam.w_ := default (flit 0) (given !! 3);
                        Adam.t_ := 0;
                        Adam.denom1_ := flit 0;
                        Adam.denom2_ := flit 0;
                        Adam.alloc_ := None;
                        Adam.mt_ := None;
                        Adam.vt_ := None |}))).
Proof.
  intros Ho. repeat split.
  - intros Hr. rewrite (setParams_run _ _ _ _ Ho), Hr. simpl.
    rewrite <- Hr, insert_same_object by assumption. reflexivity.
  - intros s Hr. rewrite (setParams_run _ _ _ _ Ho), Hr. reflexivity.
  - rewrite (setParams_run _ _ _ _ Ho), H1. reflexivity.
  - rewrite !(setParams_run _ _ _ _ Ho), H1. simpl. unfold positional.
    rewrite !lookup_take_lt by lia. reflexivity.
  - intros Hk. erewrite Optimizer_run by (rewrite Hk; reflexivity).
    reflexivity.
  - intros Hk. erewrite Optimizer_run by (rewrite Hk; reflexivity).
    reflexivity.
  - intros Hk. erewrite Optimizer_run by (rewrite Hk; reflexivity).
    reflexivity.
Qed.
End Factory.

(** ** The update rules *)

Section Rules.
Context `{Collaborators}.

Lemma Sgd_updateImpl_run w this o p g tp tg mb ref :
  objs w !! this = Some o ->
  heap w !! p = Some tp ->
  heap w !! g = Some tg ->
  length (TensorBase.data tg) = length (TensorBase.data tp) ->
  Sgd_updateImpl this (Some p) (Some g) mb ref w =
  (inr tt,
   written p tp
     (zip_with (fun x y => x - OptimizerBase.eta_ (base o) * y)%fl
               (TensorBase.data tp) (TensorBase.data tg))
     (OpElement p [g]) w).
Proof.
  intros Ho Hp Hg Hlen. unfold Sgd_updateImpl.
  erewrite bind_ok by (apply member_ok; eassumption).
  erewrite Element2_ok by eassumption. reflexivity.
Qed.

(** C9.  [Sgd::updateImpl] replaces the parameters by
    [params - eta * grads], cell by cell, and does nothing else: the
    optimizer objects, the allocators and the other tensors are as before,
    no tensor is created, and the two minibatch sizes do not matter.  Two
    updates, in any two worlds, from the same parameters, gradients and
    learning rate therefore leave the same parameters. *)
Theorem Sgd_update_exact (w : World) (this : oid) (o : Optimizer)
    (p g : loc) (tp tg : TensorBase.t) (mb ref : N) :
  objs w !! this = Some o ->
  heap w !! p = Some tp ->
  heap w !! g = Some tg ->
  length (TensorBase.data tg) = length (TensorBase.data tp) ->
  let eta := OptimizerBase.eta_ (base o) in
  let params' :=
    zip_with (fun x y => x - eta * y)%fl (TensorBase.data tp) (TensorBase.data tg) in
  let after := Sgd_updateImpl this (Some p) (Some g) mb ref w in
  fst after = inr tt
  /\ heap (snd after) = <[p := TensorBase.with_data params' tp]> (heap w)
  /\ objs (snd after) = objs w
  /\ allocators (snd after) = allocators w
  /\ fs (snd after) = fs w
  /\ stream (snd after) = stream w ++ [OpElement p [g]]
  /\ (forall mb' ref',
        Sgd_updateImpl this (Some p) (Some g) mb' ref' w = after)
  /\ (forall w2 this2 o2 p2 g2 tp2 tg2 mb2 ref2,
        objs w2 !! this2 = Some o2 ->
        heap w2 !! p2 = Some tp2 ->
        heap w2 !! g2 = Some tg2 ->
        OptimizerBase.eta_ (base o2) = eta ->
        TensorBase.data tp2 = TensorBase.data tp ->
        TensorBase.data tg2 = TensorBase.data tg ->
        TensorBase.data <$>
          heap (snd (Sgd_updateImpl this2 (Some p2) (Some g2) mb2 ref2 w2)) !! p2
        = Some params').
Proof.
  intros Ho Hp Hg Hlen eta params' after. subst after.
  rewrite (Sgd_updateImpl_run _ _ _ _ _ _ _ mb ref Ho Hp Hg Hlen).
  repeat split; try reflexivity.
  - intros mb' ref'. apply Sgd_updateImpl_run; assumption.
  - intros w2 this2 o2 p2 g2 tp2 tg2 mb2 ref2 Ho2 Hp2 Hg2 Heta Hdp Hdg.
    erewrite Sgd_updateImpl_run; try eassumption; [|congruence].
    simpl. erewrite insert_lookup_same by eassumption. simpl.
    subst params' eta. rewrite Heta, Hdp, Hdg. reflexivity.
Qed.
Lemma Adagrad_updateImpl_run w this o s a p g lg tp tg tgt n :
  objs w !! this = Some o ->
  rule o = RuleAdagrad s ->
  Adagrad.alloc_ s = Some a ->
  Adagrad.gt_ s = Some lg ->
  heap w !! p = Some tp ->
  heap w !! g = Some tg ->
  heap w !! lg = Some tgt ->
  lg <> p -> lg <> g ->
  length (TensorBase.data tg) = length (TensorBase.data tp) ->
  length (TensorBase.data tgt) = length (TensorBase.data tp) ->
  let gt' := zip_with (fun _1 _2 => _1 + _2 * _2)%fl
               (TensorBase.data tgt) (TensorBase.data tg) in
  let eps' := std_max (NumericLimits_min (TensorBase.type_ tp) * flit 2)%fl
                (Adagrad.eps_ s) in
  let params' :=
    zip_with3 (fun _1 _2 _3 =>
                 _1 - (OptimizerBase.eta_ (base o) / (fsqrt _2 + eps')) * _3)%fl
      (TensorBase.data tp) gt' (TensorBase.data tg) in
  Adagrad_updateImpl this (Some p) (Some g) n n w =
  (inr tt,
   {| heap := <[p := TensorBase.with_data params' tp]>
                (<[lg := TensorBase.with_data gt' tgt]> (heap w));
      allocators := allocators w;
      objs := <[this := {| base := base o;
                           rule := RuleAdagrad (Adagrad.set_eps_ eps' s) |}]>
                (objs w);
      fs := fs w;
      stream := stream w ++ [OpElement lg [g]; OpElement p [lg; g]] |}).
Proof.
  intros Ho Hr Ha Hgt Hp Hg Hlg Hlp Hlgg Hleng Hlent gt' eps' params'.
  destruct w as [h al os f st]. fields. cbn [heap objs] in Ho, Hp, Hg, Hlg.
  unfold Adagrad_updateImpl. rewrite N.eqb_refl. simpl.
  erewrite bind_ok by reflexivity.
  erewrite bind_ok by (eapply as_Adagrad_ok; eassumption). norm.
  rewrite Ha. simpl. erewrite bind_ok by reflexivity.
  erewrite bind_ok by (eapply as_Adagrad_ok; eassumption). norm.
  rewrite Hgt. simpl. erewrite bind_ok by reflexivity.
  erewrite bind_ok by (eapply as_Adagrad_ok; eassumption). norm.
  rewrite Hgt.
  erewrite bind_ok by (eapply Element2_ok; first [eassumption | congruence]). norm.
  erewrite bind_ok by (eapply type_ok; lk). norm.
  erewrite bind_ok by (eapply assign_Adagrad_ok; lk). norm.
  erewrite bind_ok by (eapply as_Adagrad_ok; lk). norm.
  erewrite bind_ok by (eapply member_ok; lk). norm.
  fields. rewrite Hgt.
  erewrite Element3_ok; [ | lk | lk | lk | | ]; fields.
  - unfold written, set_objs, set_heap, set_stream. fields.
    rewrite <- app_assoc. reflexivity.
  - rewrite length_zip_with_same by congruence. assumption.
  - assumption.
Qed.

Lemma Adagrad_updateImpl_first w this o s p g tp tg n :
  objs w !! this = Some o ->
  rule o = RuleAdagrad s ->
  Adagrad.alloc_ s = None ->
  Adagrad.gt_ s = None ->
  heap w !! p = Some tp ->
  heap w !! g = Some tg ->
  length (TensorBase.data tg) = length (TensorBase.data tp) ->
  (Z.of_nat (length (TensorBase.data tp)) < 2 ^ 31)%Z ->
  let l0 := length (heap w) in
  let a0 := length (allocators w) in
  let bytes := size_mul (TensorBase.size tp) (sizeOf (TensorBase.type_ tp)) in
  let gt' := zip_with (fun _1 _2 => _1 + _2 * _2)%fl
               (replicate (length (TensorBase.data tp)) (flit 0))
               (TensorBase.data tg) in
  let eps' := std_max (NumericLimits_min (TensorBase.type_ tp) * flit 2)%fl
                (Adagrad.eps_ s) in
  let params' :=
    zip_with3 (fun _1 _2 _3 =>
                 _1 - (OptimizerBase.eta_ (base o) / (fsqrt _2 + eps')) * _3)%fl
      (TensorBase.data tp) gt' (TensorBase.data tg) in
  Adagrad_updateImpl this (Some p) (Some g) n n w =
  (inr tt,
   {| heap := <[p := TensorBase.with_data params' tp]>
                (heap w ++ [{| TensorBase.type_ := TensorBase.type_ tp;
                               TensorBase.backend_ := TensorBase.backend_ tp;
                               TensorBase.data := gt' |}]);
      allocators := allocators w ++
                    [{| ta_backend := TensorBase.backend_ tp;
                        ta_reserved := [bytes];
                        ta_tensors := [l0] |}];
      objs := <[this := {| base := base o;
                           rule := RuleAdagrad
                                     {| Adagrad.eps_ := eps';
                                        Adagrad.alloc_ := Some a0;
                                        Adagrad.gt_ := Some l0 |} |}]>
                (objs w);
      fs := fs w;
      stream := stream w ++
                [OpReserveExact bytes;
                 OpAllocate l0 (length (TensorBase.data tp)) (TensorBase.type_ tp);
                 OpSet l0; OpElement l0 [g]; OpElement p [l0; g]] |}).
Proof.
  intros Ho Hr Ha Hgt Hp Hg Hleng Hsmall l0 a0 bytes gt' eps' params'.
  destruct w as [h al os f st]. fields. cbn [heap objs allocators] in *.
  unfold Adagrad_updateImpl. rewrite N.eqb_refl. simpl negb.
  erewrite bind_ok by reflexivity. norm.
  erewrite bind_ok by (eapply as_Adagrad_ok; lk2). norm.
  rewrite Ha. simpl is_null. unfold when at 1.
  erewrite bind_ok.
  2:{ erewrite bind_ok by (eapply getBackend_ok; lk2). norm.
      erewrite bind_ok by apply New_TensorAllocator_run. norm.
      eapply assign_Adagrad_ok; lk2. }
  norm.
  erewrite bind_ok by (eapply as_Adagrad_ok; lk2). norm.
  rewrite Hgt. simpl is_null. unfold when at 1.
  erewrite bind_ok.
  2:{ erewrite bind_ok by (eapply size_ok; lk2). norm.
      erewrite bind_ok by (eapply memory_size_ok; lk2). norm.
      erewrite bind_ok by (eapply reserveExact_ok; lk2). norm.
      erewrite bind_ok by (eapply type_ok; lk2). norm.
      erewrite bind_ok by (eapply allocate_ok; lk2). norm.
      erewrite bind_ok by (eapply assign_Adagrad_ok; lk2). norm.
      eapply set_value_ok; lk2. }
  norm.
  unfold TensorBase.size. rewrite !cells_of_size by assumption.
  erewrite bind_ok by (eapply as_Adagrad_ok; lk2). norm.
  erewrite bind_ok
    by (eapply Element2_ok; [lk2 | lk2 | fields; rewrite length_replicate; congruence]).
  norm.
  erewrite bind_ok by (eapply type_ok; lk2). norm.
  erewrite bind_ok by (eapply assign_Adagrad_ok; lk2). norm.
  erewrite bind_ok by (eapply as_Adagrad_ok; lk2). norm.
  erewrite bind_ok by (eapply member_ok; lk2). norm.
  erewrite Element3_ok; [ | lk2 | lk2 | lk2 | | ]; norm.
  - reflexivity.
  - rewrite length_zip_with_same; rewrite ?length_replicate; congruence.
  - assumption.
Qed.
Lemma Adam_updateImpl_run w this o s a p g lm lv tp tg tm tv actualMBSize refMBWords :
  objs w !! this = Some o ->
  rule o = RuleAdam s ->
  Adam.alloc_ s = Some a ->
  Adam.mt_ s = Some lm ->
  Adam.vt_ s = Some lv ->
  heap w !! p = Some tp ->
  heap w !! g = Some tg ->
  heap w !! lm = Some tm ->
  heap w !! lv = Some tv ->
  lm <> lv -> lm <> p -> lv <> p -> lm <> g -> lv <> g ->
  length (TensorBase.data tg) = length (TensorBase.data tp) ->
  length (TensorBase.data tm) = length (TensorBase.data tp) ->
  length (TensorBase.data tv) = length (TensorBase.data tp) ->
  let T := double_of_size actualMBSize in
  let Tref := double_of_size refMBWords in
  let eta := (to_double (OptimizerBase.eta_ (base o)) * (T / Tref))%fl in
  let beta1 := to_double (Adam.beta1_ s) in
  let beta2 := to_double (Adam.beta2_ s) in
  let denom1 := Adam_denom' beta1 (Adam.denom1_ s) in
  let denom2 := Adam_denom' beta2 (Adam.denom2_ s) in
  let mt := Adam_mt' beta1 T (TensorBase.data tm) (TensorBase.data tg) in
  let vt := Adam_vt' beta2 T (TensorBase.data tv) (TensorBase.data tg) in
  let params' :=
    Adam_params' (to_float eta) (to_float denom1) (to_float denom2)
      (Adam.eps_ s) (to_float (to_double (Adam.w_ s)))
      (TensorBase.data tp) mt vt in
  Adam_updateImpl this (Some p) (Some g) actualMBSize refMBWords w =
  (inr tt,
   {| heap := <[p := TensorBase.with_data params' tp]>
                (<[lv := TensorBase.with_data vt tv]>
                   (<[lm := TensorBase.with_data mt tm]> (heap w)));
      allocators := allocators w;
      objs := <[this := {| base := base o;
                           rule := RuleAdam
                                     (Adam.set_denom2_ denom2
                                        (Adam.set_denom1_ denom1 s)) |}]>
                (objs w);
      fs := fs w;
      stream := stream w ++
                [OpElement lm [g]; OpElement lv [g]; OpElement p [lm; lv]] |}).
Proof.
  intros Ho Hr Ha Hmt Hvt Hp Hg Hlm Hlv Hmv Hmp Hvp Hmg Hvg Hleng Hlenm Hlenv
         T Tref eta beta1 beta2 denom1 denom2 mt vt params'.
  destruct w as [h al os f st]. fields. cbn [heap objs allocators] in *.
  unfold Adam_updateImpl.
  erewrite bind_ok by (eapply as_Adam_ok; lk2). norm.
  rewrite Ha. simpl is_null. unfold when at 1.
  erewrite bind_ok by reflexivity. norm.
  erewrite bind_ok by (eapply as_Adam_ok; lk2). norm.
  rewrite Hmt. simpl is_null. unfold when at 1.
  erewrite bind_ok by reflexivity. norm.
  erewrite bind_ok by (eapply member_ok; lk2). norm.
  erewrite bind_ok by (eapply as_Adam_ok; lk2). norm.
  erewrite bind_ok by (eapply assign_Adam_ok; lk2). norm.
  erewrite bind_ok by (eapply assign_Adam_ok; lk2). norm.
  erewrite bind_ok by (eapply as_Adam_ok; lk2). norm.
  rewrite Hmt, Hvt.
  erewrite bind_ok by (eapply Element2_ok; [lk2 | lk2 | fields; congruence]). norm.
  erewrite bind_ok by (eapply Element2_ok; [lk2 | lk2 | fields; congruence]). norm.
  erewrite Element3_ok; [ | lk2 | lk2 | lk2 | | ]; norm.
  - reflexivity.
  - rewrite length_zip_with_same by congruence. assumption.
  - rewrite length_zip_with_same by congruence. assumption.
Qed.

Lemma Adam_updateImpl_first w this o s p g tp tg actualMBSize refMBWords :
  objs w !! this = Some o ->
  rule o = RuleAdam s ->
  Adam.alloc_ s = None ->
  Adam.mt_ s = None ->
  heap w !! p = Some tp ->
  heap w !! g = Some tg ->
  length (TensorBase.data tg) = length (TensorBase.data tp) ->
  (Z.of_nat (length (TensorBase.data tp)) < 2 ^ 31)%Z ->
  let n := length (TensorBase.data tp) in
  let ty := TensorBase.type_ tp in
  let l0 := length (heap w) in
  let l1 := S (length (heap w)) in
  let a0 := length (allocators w) in
  let bytes := size_mul (size_of_Z (int_mul 2 (int_of_size (N.of_nat n))))
                        (sizeOf ty) in
  let T := double_of_size actualMBSize in
  let Tref := double_of_size refMBWords in
  let eta := (to_double (OptimizerBase.eta_ (base o)) * (T / Tref))%fl in
  let beta1 := to_double (Adam.beta1_ s) in
  let beta2 := to_double (Adam.beta2_ s) in
  let denom1 := Adam_denom' beta1 (Adam.denom1_ s) in
  let denom2 := Adam_denom' beta2 (Adam.denom2_ s) in
  let mt := Adam_mt' beta1 T (replicate n (flit 0)) (TensorBase.data tg) in
  let vt := Adam_vt' beta2 T (replicate n (flit 0)) (TensorBase.data tg) in
  let params' :=
    Adam_params' (to_float eta) (to_float denom1) (to_float denom2)
      (Adam.eps_ s) (to_float (to_double (Adam.w_ s)))
      (TensorBase.data tp) mt vt in
  Adam_updateImpl this (Some p) (Some g) actualMBSize refMBWords w =
  (inr tt,
   {| heap := <[p := TensorBase.with_data params' tp]>
                (heap w ++ [TensorBase.with_data mt tp;
                            TensorBase.with_data vt tp]);
      allocators := allocators w ++
                    [{| ta_backend := TensorBase.backend_ tp;
                        ta_reserved := [bytes];
                        ta_tensors := [l0; l1] |}];
      objs := <[this := {| base := base o;
                           rule := RuleAdam
                                     (Adam.set_denom2_ denom2
                                        (Adam.set_denom1_ denom1
                                           (Adam.set_vt_ (Some l1)
                                              (Adam.set_mt_ (Some l0)
                                                 (Adam.set_alloc_ (Some a0) s))))) |}]>
                (objs w);
      fs := fs w;
      stream := stream w ++
                [OpReserveExact bytes; OpAllocate l0 n ty; OpSet l0;
                 OpAllocate l1 n ty; OpSet l1;
                 OpElement l0 [g]; OpElement l1 [g]; OpElement p [l0; l1]] |}).
Proof.
  intros Ho Hr Ha Hmt Hp Hg Hleng Hsmall n ty l0 l1 a0 bytes
         T Tref eta beta1 beta2 denom1 denom2 mt vt params'.
  destruct w as [h al os f st]. fields. cbn [heap objs allocators] in *.
  unfold Adam_updateImpl.
  erewrite bind_ok by (eapply as_Adam_ok; lk2). norm.
  rewrite Ha. simpl is_null. unfold when at 1.
  erewrite bind_ok.
  2:{ erewrite bind_ok by (eapply getBackend_ok; lk2). norm.
      erewrite bind_ok by apply New_TensorAllocator_run. norm.
      eapply assign_Adam_ok; lk2. }
  norm.
  erewrite bind_ok by (eapply as_Adam_ok; lk2). norm.
  rewrite Hmt. simpl is_null. unfold when at 1.
  erewrite bind_ok.
  2:{ erewrite bind_ok by (eapply size_ok; lk2). norm.
      erewrite bind_ok by (eapply type_ok; lk2). norm.
      erewrite bind_ok by (eapply reserveExact_ok; lk2). norm.
      erewrite bind_ok by (eapply allocate_ok; lk2). norm.
      erewrite bind_ok by (eapply assign_Adam_ok; lk2). norm.
      erewrite bind_ok by (eapply set_value_ok; lk2). norm.
      erewrite bind_ok by (eapply allocate_ok; lk2). norm.
      erewrite bind_ok by (eapply assign_Adam_ok; lk2). norm.
      eapply set_value_ok; lk2. }
  norm.
  unfold TensorBase.size. rewrite !cells_of_size by assumption.
  erewrite bind_ok by (eapply member_ok; lk2). norm.
  erewrite bind_ok by (eapply as_Adam_ok; lk2). norm.
  erewrite bind_ok by (eapply assign_Adam_ok; lk2). norm.
  erewrite bind_ok by (eapply assign_Adam_ok; lk2). norm.
  erewrite bind_ok by (eapply as_Adam_ok; lk2). norm.
  erewrite bind_ok
    by (eapply Element2_ok; [lk2 | lk2 | fields; rewrite length_replicate; congruence]).
  norm.
  erewrite bind_ok
    by (eapply Element2_ok; [lk2 | lk2 | fields; rewrite length_replicate; congruence]).
  norm.
  erewrite Element3_ok; [ | lk2 | lk2 | lk2 | | ]; norm.
  - reflexivity.
  - rewrite length_zip_with_same; rewrite ?length_replicate; congruence.
  - rewrite length_zip_with_same; rewrite ?length_replicate; congruence.
Qed.

End Rules.

(** ** Scenario B, in exact arithmetic and in binary32 *)

Lemma scenario_B_binary32 :
  fst ieee_B = inr tt
  /\ ieee_cells (snd ieee_B) 2 = Some [f32 4]
  /\ exists x, ieee_cells (snd ieee_B) 0 = Some [x]
     /\ SFltb (SFabs (SFsub 24 128 x (f32 (9 # 10)))) (f32 (1 # 1000000)) = true.
Proof.
  split; [vm_compute; reflexivity|]. split; [vm_compute; reflexivity|].
  eexists. split; [vm_compute; reflexivity|]. vm_compute. reflexivity.
Qed.


Lemma Q2R_numeral n : Q2R (n # 1) = IZR n.
Proof. unfold Q2R. simpl. field. Qed.

Lemma std_max_real (a b : R) : (a < b)%R -> @std_max R R_arith a b = b.
Proof.
  intros Hlt. unfold std_max. simpl. destruct (Rlt_dec a b); [reflexivity | contradiction].
Qed.

Lemma scenario_B_exact :
  fst exact_B = inr tt
  /\ exact_cells (snd exact_B) 2 = Some [4%R]
  /\ exists x, exact_cells (snd exact_B) 0 = Some [x]
     /\ (Rabs (x - 9 / 10) < 1 / 1000000)%R.
Proof.
  unfold exact_B.
  erewrite (@Adagrad_updateImpl_first RealMachine RealCollaborators);
    [ | reflexivity | reflexivity | reflexivity | reflexivity | reflexivity
      | reflexivity | reflexivity | simpl; lia ].
  unfold exact_cells.
  cbn -[Rplus Rminus Rmult Rdiv Rinv sqrt Q2R Rlt_dec IZR pow std_max].
  change (Q2R 0) with (Q2R (0 # 1)). change (Q2R 1) with (Q2R (1 # 1)).
  change (Q2R 2) with (Q2R (2 # 1)). rewrite !Q2R_numeral.
  replace (0 + 2 * 2)%R with (2 * 2)%R by ring.
  rewrite sqrt_square by lra.
  assert (Hmin : (Q2R (1 # 2 ^ 126) * 2 < Q2R q_1e_8)%R).
  { unfold Q2R, q_1e_8. cbn [Qnum Qden]. 
    change (Z.pos (2 ^ 126)) with 85070591730234615865843651857942052864%Z.
    lra. }
  rewrite (std_max_real _ _ Hmin).
  split; [reflexivity|]. split; [f_equal; f_equal; ring|].
  eexists. split; [reflexivity|].
  unfold Q2R, q_1e_8. cbn [Qnum Qden].
  apply Rabs_def1; lra.
Qed.

(** ** Adam in exact arithmetic, and scenario A *)

Section AdamExact.
#[local] Existing Instance RealMachine.
Context {C : @Collaborators RealMachine}.

Lemma flit_one : Q2R 1 = 1%R.
Proof. apply (Q2R_numeral 1). Qed.

Lemma flit_zero : Q2R 0 = 0%R.
Proof. apply (Q2R_numeral 0). Qed.

Lemma Adam_denom_exact (beta denom : R) :
  Adam_denom' beta denom = spec_denom beta denom.
Proof. unfold Adam_denom', spec_denom. simpl. rewrite flit_one. reflexivity. Qed.




End AdamExact.









Section Adam_claim.
#[local] Existing Instance RealMachine.
Context {C : @Collaborators RealMachine}.

End Adam_claim.

Section Adagrad_claim.
Context `{Collaborators}.

(** C4, as the code has it.  [Adagrad::updateImpl] aborts when the two
    minibatch sizes differ, and the world is the one it was called in.
    Otherwise the running sum becomes [gt + grads^2] and the parameters
    become [params - (eta / (sqrt(gt) + eps)) * grads] with the new sum,
    cell by cell, where [eps] is the larger of twice the minimum of the
    type and the configured [eps], and is stored; on the first call the sum
    is allocated, as many cells as the parameters have, and starts from
    zero.  In the scenario (eta 0.1, eps 1e-8, gradient 2, parameter 1) the
    sum becomes 4 and the parameter becomes 0.9 up to 1e-6, both in exact
    arithmetic and in IEEE binary32. *)
Theorem Adagrad_update_rule (w : World) (this : oid) (o : Optimizer)
    (s : Adagrad.state) (p g : loc) (tp tg : TensorBase.t)
    (actualMBSize refMBWords : N) :
  objs w !! this = Some o ->
  rule o = RuleAdagrad s ->
  heap w !! p = Some tp ->
  heap w !! g = Some tg ->
  length (TensorBase.data tg) = length (TensorBase.data tp) ->
  let eta := OptimizerBase.eta_ (base o) in
  let eps := Adagrad_eps' (TensorBase.type_ tp) (Adagrad.eps_ s) in
  let after :=
    Adagrad_updateImpl this (Some p) (Some g) actualMBSize refMBWords w in
  (actualMBSize <> refMBWords ->
   after
   = (inl (Abort "Adagrad does not support rational hyper-parameter adjustment"),
      w))
  /\ (actualMBSize = refMBWords ->
      (forall a lg tgt,
          Adagrad.alloc_ s = Some a ->
          Adagrad.gt_ s = Some lg ->
          heap w !! lg = Some tgt ->
          lg <> p -> lg <> g ->
          length (TensorBase.data tgt) = length (TensorBase.data tp) ->
          let gt := Adagrad_gt' (TensorBase.data tgt) (TensorBase.data tg) in
          let params' :=
            Adagrad_params' eta eps (TensorBase.data tp) gt (TensorBase.data tg) in
          after
          = (inr tt,
             {| heap := <[p := TensorBase.with_data params' tp]>
                          (<[lg := TensorBase.with_data gt tgt]> (heap w));
                allocators := allocators w;
                objs := <[this := {| base := base o;
                                     rule := RuleAdagrad (Adagrad.set_eps_ eps s) |}]>
                          (objs w);
                fs := fs w;
                stream := stream w ++ [OpElement lg [g]; OpElement p [lg; g]] |}))
      /\ (Adagrad.alloc_ s = None ->
          Adagrad.gt_ s = None ->
          (Z.of_nat (length (TensorBase.data tp)) < 2 ^ 31)%Z ->
          let n := length (TensorBase.data tp) in
          let lg := length (heap w) in
          let bytes :=
            size_mul (TensorBase.size tp) (sizeOf (TensorBase.type_ tp)) in
          let gt := Adagrad_gt' (replicate n (flit 0)) (TensorBase.data tg) in
          let params' :=
            Adagrad_params' eta eps (TensorBase.data tp) gt (TensorBase.data tg) in
          after
          = (inr tt,
             {| heap := <[p := TensorBase.with_data params' tp]>
                          (heap w ++ [TensorBase.with_data gt tp]);
                allocators := allocators w ++
                              [{| ta_backend := TensorBase.backend_ tp;
                                  ta_reserved := [bytes];
                                  ta_tensors := [lg] |}];
                objs := <[this := {| base := base o;
                                     rule := RuleAdagrad
                                       {| Adagrad.eps_ := eps;
                                          Adagrad.alloc_ := Some (length (allocators w));
                                          Adagrad.gt_ := Some lg |} |}]>
                          (objs w);
                fs := fs w;
                stream := stream w ++
                          [OpReserveExact bytes;
                           OpAllocate lg n (TensorBase.type_ tp);
                           OpSet lg; OpElement lg [g]; OpElement p [lg; g]] |})))
  /\ (fst exact_B = inr tt
      /\ exact_cells (snd exact_B) 2 = Some [4%R]
      /\ exists x, exact_cells (snd exact_B) 0 = Some [x]
                   /\ (Rabs (x - 9 / 10) < 1 / 1000000)%R)
  /\ (fst ieee_B = inr tt
      /\ ieee_cells (snd ieee_B) 2 = Some [f32 4]
      /\ exists x, ieee_cells (snd ieee_B) 0 = Some [x]
                   /\ SFltb (SFabs (SFsub 24 128 x (f32 (9 # 10))))
                            (f32 (1 # 1000000)) = true).
Proof.
  intros Ho Hr Hp Hg Hlen eta eps after. subst after.
  split; [|split; [|split]].
  - intros Hne. unfold Adagrad_updateImpl.
    apply N.eqb_neq in Hne. rewrite Hne. reflexivity.
  - intros ->. split.
    + intros a lg tgt Ha Hgt Hlg Hlp Hlgg Hlent gt params'.
      apply (Adagrad_updateImpl_run w this o s a p g lg tp tg tgt refMBWords);
        assumption.
    + intros Ha Hgt Hsmall n lg bytes gt params'.
      apply (Adagrad_updateImpl_first w this o s p g tp tg refMBWords);
        assumption.
  - exact scenario_B_exact.
  - exact scenario_B_binary32.
Qed.
End Adagrad_claim.

(** C4 as stated fails in its scenario: with eta 0.1, eps 1e-8, gradient 2
    and parameter 1 the step is [0.1 / (2 + 1e-8) * 2], about 0.1, so the
    parameter becomes about 0.9; it is more than 0.04 away from 0.95, in
    exact arithmetic and in binary32. *)
Lemma Adagrad_scenario_B_is_not_0_95 :
  (exists x, exact_cells (snd exact_B) 0 = Some [x]
             /\ (1 / 25 < Rabs (x - 95 / 100))%R)
  /\ (exists y, ieee_cells (snd ieee_B) 0 = Some [y]
                /\ SFltb (f32 (1 # 25)) (SFabs (SFsub 24 128 y (f32 (95 # 100))))
                   = true).
Proof.
  split.
  - destruct scenario_B_exact as (_ & _ & x & Hx & Hclose).
    exists x. split; [exact Hx|].
    apply Rabs_def2 in Hclose. destruct Hclose as [Hup Hlow].
    rewrite Rabs_left by lra. lra.
  - eexists. split; [vm_compute; reflexivity|]. vm_compute. reflexivity.
Qed.

(** ** The checkpoint protocol: saving *)

Section Saving.
Context `{Collaborators}.

Lemma Adam_save_run w this x s name opts gatherFn isMainProcess readM readV :
  objs w !! this = Some x ->
  rule x = RuleAdam s ->
  Forall2 (fun i lv => shard_tensor (Adam_stat Adam.mt_) w opts i = Some lv)
          (gather_local gatherFn) readM ->
  Forall2 (fun i lv => shard_tensor (Adam_stat Adam.vt_) w opts i = Some lv)
          (gather_local gatherFn) readV ->
  let vMt := gather_all gatherFn (map snd readM) in
  let vVt := gather_all gatherFn (map snd readV) in
  Adam_save this name opts gatherFn isMainProcess w =
  (inr tt,
   if isMainProcess then
     set_stream
       (stream w ++ [OpLog info "Saving Adam parameters to {}"]
        ++ gather_ops readM ++ gather_ops readV ++ [OpSaveItems name])
       (set_fs (<[name := [float_item "adam_mt" vMt; float_item "adam_vt" vVt;
                           denoms_item (Adam.denom1_ s) (Adam.denom2_ s)]]>
                  (fs w)) w)
   else
     set_stream (stream w ++ gather_ops readM ++ gather_ops readV) w).
Proof.
  intros Ho Hr HM HV vMt vVt. unfold Adam_save.
  assert (Hget : forall sel i o x t w,
             opts !! i = Some o -> objs w !! o = Some x ->
             Adam_stat sel x = Some t ->
             (o <- at_ opts i ;; opt <- as_Adam o ;; get_vector (sel opt)) w
             = get_vector t w).
  { intros sel i o y t w' Hi Hy Ht. unfold Adam_stat in Ht.
    destruct (rule y) as [| |s'] eqn:Hry; try discriminate.
    injection Ht as <-.
    erewrite bind_ok by (apply at_ok; eassumption).
    erewrite bind_ok by (eapply as_Adam_ok; eassumption). reflexivity. }
  destruct isMainProcess; simpl.
  - erewrite bind_ok by reflexivity.
    erewrite bind_ok
      by (eapply call_gather_ok with (sel := Adam_stat Adam.mt_);
          [apply Hget | exact HM]).
    erewrite bind_ok
      by (eapply call_gather_ok with (sel := Adam_stat Adam.vt_);
          [apply Hget | exact HV]).
    erewrite bind_ok by (eapply as_Adam_ok; simpl; eassumption).
    unfold io_saveItems, issue, modify, bind. simpl.
    unfold set_stream, set_fs. simpl. rewrite <- !app_assoc. reflexivity.
  - unfold ret at 1. erewrite bind_ok by reflexivity.
    erewrite bind_ok
      by (eapply call_gather_ok with (sel := Adam_stat Adam.mt_);
          [apply Hget | exact HM]).
    erewrite bind_ok
      by (eapply call_gather_ok with (sel := Adam_stat Adam.vt_);
          [apply Hget | exact HV]).
    unfold ret, set_stream. simpl. rewrite <- !app_assoc. reflexivity.
Qed.

Lemma Adagrad_save_run w this name opts gatherFn isMainProcess read :
  Forall2 (fun i lv => shard_tensor Adagrad_stat w opts i = Some lv)
          (gather_local gatherFn) read ->
  let vGt := gather_all gatherFn (map snd read) in
  Adagrad_save this name opts gatherFn isMainProcess w =
  (inr tt,
   if isMainProcess then
     set_stream
       (stream w ++ [OpLog info "Saving Adagrad parameters to {}"]
        ++ gather_ops read ++ [OpSaveItems name])
       (set_fs (<[name := [float_item "adagrad_gt" vGt]]> (fs w)) w)
   else
     set_stream
       (stream w ++ [OpLog info "Saving Adagrad parameters to {}"]
        ++ gather_ops read) w).
Proof.
  intros HG vGt. unfold Adagrad_save.
  assert (Hget : forall i o x t w,
             opts !! i = Some o -> objs w !! o = Some x ->
             Adagrad_stat x = Some t ->
             (o <- at_ opts i ;; opt <- as_Adagrad o ;;
              get_vector (Adagrad.gt_ opt)) w
             = get_vector t w).
  { intros i o y t w' Hi Hy Ht. unfold Adagrad_stat in Ht.
    destruct (rule y) as [|s'|] eqn:Hry; try discriminate.
    injection Ht as <-.
    erewrite bind_ok by (apply at_ok; eassumption).
    erewrite bind_ok by (eapply as_Adagrad_ok; eassumption). reflexivity. }
  erewrite bind_ok by reflexivity.
  erewrite bind_ok
    by (eapply call_gather_ok with (sel := Adagrad_stat); [apply Hget | exact HG]).
  destruct isMainProcess; simpl.
  - unfold io_saveItems, issue, modify, bind. simpl.
    unfold set_stream, set_fs. simpl. rewrite <- !app_assoc. reflexivity.
  - unfold ret, set_stream. simpl. rewrite <- !app_assoc. reflexivity.
Qed.

Lemma filter_gather_reads (read : list (loc * list float)) :
  filter (fun op => op = OpGather) (map (fun lv => OpGet (fst lv)) read) = [].
Proof.
  induction read as [|lv read IH]; [reflexivity|].
  simpl. rewrite filter_cons_False by discriminate. exact IH.
Qed.

Ltac count_gathers :=
  repeat first
    [ rewrite filter_app
    | rewrite filter_gather_reads
    | rewrite filter_cons_True by reflexivity
    | rewrite filter_cons_False by discriminate
    | rewrite filter_nil ];
  simpl; rewrite ?app_nil_r; reflexivity.

(** C8.  [save] of a stateful optimizer calls the gather callback once for
    each running statistic ([mt_] then [vt_] for Adam, [gt_] for Adagrad),
    whether or not the process is the main one.  A process that is not the
    main one then returns and the file system is as before.  The main one
    writes the file: the gathered vectors as float32 items and, for Adam,
    [denom1_] and [denom2_] as one float64 item of two entries. *)
Theorem save_gathers_main_writes (w : World) (this : oid) (x : Optimizer)
    (name : string) (opts : list oid) (gatherFn : GatherStateFunc)
    (isMainProcess : bool) :
  objs w !! this = Some x ->
  (forall s readM readV,
      rule x = RuleAdam s ->
      Forall2 (fun i lv => shard_tensor (Adam_stat Adam.mt_) w opts i = Some lv)
              (gather_local gatherFn) readM ->
      Forall2 (fun i lv => shard_tensor (Adam_stat Adam.vt_) w opts i = Some lv)
              (gather_local gatherFn) readV ->
      let vMt := gather_all gatherFn (map snd readM) in
      let vVt := gather_all gatherFn (map snd readV) in
      let after := save this name opts gatherFn isMainProcess w in
      fst after = inr tt
      /\ heap (snd after) = heap w
      /\ objs (snd after) = objs w
      /\ filter (fun op => op = OpGather) (stream (snd after))
         = filter (fun op => op = OpGather) (stream w) ++ [OpGather; OpGather]
      /\ (isMainProcess = false ->
          fs (snd after) = fs w
          /\ stream (snd after)
             = stream w ++ gather_ops readM ++ gather_ops readV)
      /\ (isMainProcess = true ->
          fs (snd after)
          = <[name := [float_item "adam_mt" vMt; float_item "adam_vt" vVt;
                       denoms_item (Adam.denom1_ s) (Adam.denom2_ s)]]> (fs w)
          /\ stream (snd after)
             = stream w ++ [OpLog info "Saving Adam parameters to {}"]
               ++ gather_ops readM ++ gather_ops readV ++ [OpSaveItems name]))
  /\ (forall s read,
      rule x = RuleAdagrad s ->
      Forall2 (fun i lv => shard_tensor Adagrad_stat w opts i = Some lv)
              (gather_local gatherFn) read ->
      let vGt := gather_all gatherFn (map snd read) in
      let after := save this name opts gatherFn isMainProcess w in
      fst after = inr tt
      /\ heap (snd after) = heap w
      /\ objs (snd after) = objs w
      /\ filter (fun op => op = OpGather) (stream (snd after))
         = filter (fun op => op = OpGather) (stream w) ++ [OpGather]
      /\ (isMainProcess = false ->
          fs (snd after) = fs w
          /\ stream (snd after)
             = stream w ++ [OpLog info "Saving Adagrad parameters to {}"]
               ++ gather_ops read)
      /\ (isMainProcess = true ->
          fs (snd after) = <[name := [float_item "adagrad_gt" vGt]]> (fs w)
          /\ stream (snd after)
             = stream w ++ [OpLog info "Saving Adagrad parameters to {}"]
               ++ gather_ops read ++ [OpSaveItems name])).
Proof.
  intros Ho. split.
  - intros s readM readV Hr HM HV vMt vVt after. subst after.
    unfold save. erewrite bind_ok by (apply object_ok; eassumption).
    rewrite Hr.
    rewrite (Adam_save_run _ _ _ _ name _ _ isMainProcess _ _ Ho Hr HM HV).
    destruct isMainProcess; simpl; repeat split; try discriminate;
      try reflexivity; unfold gather_ops; count_gathers.
  - intros s read Hr HG vGt after. subst after.
    unfold save. erewrite bind_ok by (apply object_ok; eassumption).
    rewrite Hr.
    rewrite (Adagrad_save_run _ this name _ _ isMainProcess _ HG).
    destruct isMainProcess; simpl; repeat split; try discriminate;
      try reflexivity; unfold gather_ops; count_gathers.
Qed.
End Saving.

(** ** The checkpoint protocol: loading *)

Section Loading.
Context `{Collaborators}.

Lemma copy_n_ok {A} n (p : list A) w :
  (N.to_nat n <= length p)%nat ->
  copy_n n p w = (inr (take (N.to_nat n) p), w).
Proof. intros Hn. unfold copy_n. rewrite bool_decide_true by assumption. reflexivity. Qed.

Lemma parse_floats_lacks n items acc :
  lacks n items -> parse_floats n items acc = acc.
Proof.
  unfold lacks, parse_floats. intros Hl. revert acc.
  induction Hl as [|it items Hit _ IH]; intros acc; [reflexivity|].
  simpl. apply String.eqb_neq in Hit. rewrite Hit. apply IH.
Qed.

Lemma Adagrad_parse_ok items acc w :
  Forall readable items ->
  foldM (fun vGt item =>
           let totalSize := Shape_elements (Item.shape item) in
           if (Item.name item =? "adagrad_gt")%string
           then copy_n totalSize (Item.as_floats (Item.bytes item))
           else ret vGt) items acc w
  = (inr (parse_floats "adagrad_gt" items acc), w).
Proof.
  intros Hall. revert acc.
  induction Hall as [|it items Hit _ IH]; intros acc; [reflexivity|].
  simpl. unfold readable in Hit.
  destruct (Item.name it =? "adagrad_gt")%string eqn:Hn.
  - rewrite orb_true_r in Hit.
    erewrite bind_ok by (apply copy_n_ok; exact Hit). apply IH.
  - erewrite bind_ok by reflexivity. apply IH.
Qed.

Lemma Adam_parse_ok items vMt vVt vDenoms w :
  Forall readable items ->
  foldM (fun (vs : list float * list float * (double * double)) item =>
           let '(vMt, vVt, vDenoms) := vs in
           let totalSize := Shape_elements (Item.shape item) in
           if (Item.name item =? "adam_mt")%string then
             vMt' <- copy_n totalSize (Item.as_floats (Item.bytes item)) ;;
             ret (vMt', vVt, vDenoms)
           else if (Item.name item =? "adam_vt")%string then
             vVt' <- copy_n totalSize (Item.as_floats (Item.bytes item)) ;;
             ret (vMt, vVt', vDenoms)
           else if (Item.name item =? "adam_denoms")%string then
             ABORT_IF (negb (totalSize =? 2)%N)
               "adam_denoms should have 2 entries" ;;
             ds <- copy_n totalSize (Item.as_doubles (Item.bytes item)) ;;
             d0 <- at_ ds 0 ;;
             d1 <- at_ ds 1 ;;
             ret (vMt, vVt, (d0, d1))
           else ret vs)
        items (vMt, vVt, vDenoms) w
  = (inr (parse_floats "adam_mt" items vMt, parse_floats "adam_vt" items vVt,
          parse_denoms items vDenoms), w).
Proof.
  intros Hall. revert vMt vVt vDenoms.
  induction Hall as [|it items Hit _ IH]; intros vMt vVt vDenoms;
    [reflexivity|].
  simpl. unfold readable in Hit.
  destruct (Item.name it =? "adam_mt")%string eqn:Hm.
  - apply String.eqb_eq in Hm. rewrite Hm in *. simpl in *.
    erewrite bind_ok
      by (erewrite bind_ok by (apply copy_n_ok; exact Hit); reflexivity).
    apply IH.
  - destruct (Item.name it =? "adam_vt")%string eqn:Hv.
    + apply String.eqb_eq in Hv. rewrite Hv in *. simpl in *.
      erewrite bind_ok
        by (erewrite bind_ok by (apply copy_n_ok; exact Hit); reflexivity).
      apply IH.
    + destruct (Item.name it =? "adam_denoms")%string eqn:Hd.
      * apply String.eqb_eq in Hd. rewrite Hd in *. simpl in Hit.
        destruct Hit as [Htwo Hlen]. rewrite Htwo in *.
        destruct (Item.as_doubles (Item.bytes it)) as [|d0 [|d1 ds]] eqn:Hds;
          simpl in Hlen; try lia.
        erewrite bind_ok; [apply IH|].
        erewrite bind_ok by reflexivity.
        erewrite bind_ok by (apply copy_n_ok; simpl; lia).
        reflexivity.
      * erewrite bind_ok by reflexivity. apply IH.
Qed.

Lemma exists_absent name w :
  fs w !! name = None -> filesystem_exists name w = (inr false, w).
Proof.
  intros Hf. unfold filesystem_exists, gets. rewrite Hf.
  rewrite bool_decide_false by (intros [? ?]; discriminate). reflexivity.
Qed.

Lemma exists_present name items w :
  fs w !! name = Some items -> filesystem_exists name w = (inr true, w).
Proof.
  intros Hf. unfold filesystem_exists, gets. rewrite Hf.
  rewrite bool_decide_true by (eexists; reflexivity). reflexivity.
Qed.

Lemma loadItems_ok name items w :
  fs w !! name = Some items -> io_loadItems name w = (inr items, w).
Proof.
  intros Hf. unfold io_loadItems.
  erewrite bind_ok by reflexivity. rewrite Hf. reflexivity.
Qed.

Lemma sizes_agree {A B} (opts : list A) (backends : list B) w :
  length opts = length backends ->
  ABORT_IF (negb (length opts =? length backends)%nat)
    "opts and backends of different sizes??" w = (inr tt, w).
Proof. intros ->. rewrite Nat.eqb_refl. reflexivity. Qed.

(** The world after [load] has logged that it loads and, when [warned],
    that it found no parameters. *)
Lemma Adagrad_load_parsed w this name opts backends scatterFn items :
  length opts = length backends ->
  fs w !! name = Some items ->
  Forall readable items ->
  parse_floats "adagrad_gt" items [] = [] ->
  Adagrad_load this name opts backends scatterFn w =
  (inr tt,
   set_stream (stream w ++
               [OpLog info "Loading Adagrad parameters from {}";
                OpLog warn "[warn] Adagrad parameters not found in .npz file"])
              w).
Proof.
  intros Hlen Hf Hread Hempty. unfold Adagrad_load.
  erewrite bind_ok by (apply sizes_agree; assumption).
  erewrite bind_ok by (eapply exists_present; eassumption). simpl.
  erewrite bind_ok by reflexivity.
  erewrite bind_ok by (apply loadItems_ok; simpl; eassumption).
  erewrite bind_ok by (apply Adagrad_parse_ok; assumption).
  rewrite Hempty. simpl. unfold LOG, issue, modify, set_stream. simpl.
  rewrite <- app_assoc. reflexivity.
Qed.

Lemma Adam_load_warns w this vDenoms0 name opts backends scatterFn items :
  length opts = length backends ->
  fs w !! name = Some items ->
  Forall readable items ->
  parse_floats "adam_mt" items [] = [] \/ parse_floats "adam_vt" items [] = [] ->
  Adam_load this vDenoms0 name opts backends scatterFn w =
  (inr tt,
   set_stream (stream w ++
               [OpLog info "Loading Adam parameters from {}";
                OpLog warn "[warn] Adam parameters not found in .npz file"])
              w).
Proof.
  intros Hlen Hf Hread Hempty. unfold Adam_load.
  erewrite bind_ok by (apply sizes_agree; assumption).
  erewrite bind_ok by (eapply exists_present; eassumption). simpl.
  erewrite bind_ok by reflexivity.
  erewrite bind_ok by (apply loadItems_ok; simpl; eassumption).
  erewrite bind_ok by (apply Adam_parse_ok; assumption).
  cbv beta iota.
  assert (Hb : empty (parse_floats "adam_mt" items [])
               || empty (parse_floats "adam_vt" items []) = true).
  { destruct Hempty as [-> | ->]; simpl; [reflexivity | apply orb_true_r]. }
  rewrite Hb. unfold LOG, issue, modify, set_stream. simpl.
  rewrite <- app_assoc. reflexivity.
Qed.

Lemma Adam_load_aborts w this vDenoms0 name opts backends scatterFn items :
  length opts = length backends ->
  fs w !! name = Some items ->
  Forall readable items ->
  parse_floats "adam_mt" items [] <> [] ->
  parse_floats "adam_vt" items [] <> [] ->
  length (parse_floats "adam_mt" items [])
  <> length (parse_floats "adam_vt" items []) ->
  Adam_load this vDenoms0 name opts backends scatterFn w =
  (inl (Abort "mt and vt have different sizes??"),
   set_stream (stream w ++ [OpLog info "Loading Adam parameters from {}"]) w).
Proof.
  intros Hlen Hf Hread Hm Hv Hne. unfold Adam_load.
  erewrite bind_ok by (apply sizes_agree; assumption).
  erewrite bind_ok by (eapply exists_present; eassumption). simpl.
  erewrite bind_ok by reflexivity.
  erewrite bind_ok by (apply loadItems_ok; simpl; eassumption).
  erewrite bind_ok by (apply Adam_parse_ok; assumption).
  cbv beta iota.
  destruct (parse_floats "adam_mt" items []) as [|m vMt]; [congruence|].
  destruct (parse_floats "adam_vt" items []) as [|v vVt]; [congruence|].
  simpl in *. apply Nat.eqb_neq in Hne. simpl in Hne. rewrite Hne. reflexivity.
Qed.

(** C7, as the code has it.  With as many optimizers as backends: [load] of
    a path that does not exist returns and the world is as before.  On a
    file that exists and whose items are readable, [Adagrad::load] without
    an "adagrad_gt" item, and [Adam::load] without an "adam_mt" or without
    an "adam_vt" item, log the warning and return, and nothing but the log
    has changed.  [Adam::load] aborts when the two vectors it parsed are
    both non-empty and differ in length; when one of them is empty it warns
    and returns, whatever the length of the other. *)
Theorem load_cold_start_warning_abort (w : World) (this : oid)
    (vDenoms0 : double * double) (name : string) (opts : list oid)
    (backends : list Backend) (scatterFn : ScatterStateFunc) :
  length opts = length backends ->
  (fs w !! name = None ->
   Adagrad_load this name opts backends scatterFn w = (inr tt, w)
   /\ Adam_load this vDenoms0 name opts backends scatterFn w = (inr tt, w))
  /\ (forall items,
        fs w !! name = Some items ->
        Forall readable items ->
        let warned rule_name :=
          set_stream
            (stream w ++
             [OpLog info ("Loading " ++ rule_name ++ " parameters from {}");
              OpLog warn ("[warn] " ++ rule_name
                          ++ " parameters not found in .npz file")]) w in
        let vMt := parse_floats "adam_mt" items [] in
        let vVt := parse_floats "adam_vt" items [] in
        (lacks "adagrad_gt" items ->
         Adagrad_load this name opts backends scatterFn w
         = (inr tt, warned "Adagrad"))
        /\ (lacks "adam_mt" items \/ lacks "adam_vt" items ->
            Adam_load this vDenoms0 name opts backends scatterFn w
            = (inr tt, warned "Adam"))
        /\ (vMt = [] \/ vVt = [] ->
            Adam_load this vDenoms0 name opts backends scatterFn w
            = (inr tt, warned "Adam"))
        /\ (vMt <> [] -> vVt <> [] -> length vMt <> length vVt ->
            Adam_load this vDenoms0 name opts backends scatterFn w
            = (inl (Abort "mt and vt have different sizes??"),
               set_stream
                 (stream w ++ [OpLog info "Loading Adam parameters from {}"])
                 w))).
Proof.
  intros Hlen. split.
  - intros Hf. split.
    + unfold Adagrad_load.
      erewrite bind_ok by (apply sizes_agree; assumption).
      erewrite bind_ok by (apply exists_absent; assumption). reflexivity.
    + unfold Adam_load.
      erewrite bind_ok by (apply sizes_agree; assumption).
      erewrite bind_ok by (apply exists_absent; assumption). reflexivity.
  - intros items Hf Hread warned vMt vVt. repeat split.
    + intros Hl. apply Adagrad_load_parsed with (items := items);
        try assumption.
      apply parse_floats_lacks, Hl.
    + intros Hl. apply Adam_load_warns with (items := items); try assumption.
      destruct Hl as [Hl | Hl]; [left | right]; apply parse_floats_lacks, Hl.
    + intros He. apply Adam_load_warns with (items := items); assumption.
    + intros Hm Hv Hne. apply Adam_load_aborts with (items := items); assumption.
Qed.
End Loading.

(** ** [OptimizerBase::update]: the minibatch sizes *)

Section Sizes.
Context `{Collaborators}.

End Sizes.

Section Examples.
#[local] Existing Instance IEEEMachine.
#[local] Existing Instance IEEECollaborators.

Lemma load_cold_start_warning_abort_witness :
  length ([0] : list oid) = length ([0] : list Backend)
  /\ Adam_load 0 (f64 0, f64 0) "absent.npz" [0] [0] scatter_one uneven_world
     = (inr tt, uneven_world).
Proof.
  split; [reflexivity|].
  destruct (load_cold_start_warning_abort uneven_world 0 (f64 0, f64 0)
              "absent.npz" [0] [0] scatter_one eq_refl) as [Hcold _].
  apply Hcold. reflexivity.
Defined.

(** C7 as stated fails: the file holds a first moment of two entries and a
    second moment of none, so the two parsed vectors differ in length, and
    [Adam::load] does not abort: it warns and returns. *)
Lemma Adam_load_uneven_lengths_returns :
  length (parse_floats "adam_mt" uneven_checkpoint [])
  <> length (parse_floats "adam_vt" uneven_checkpoint [])
  /\ Adam_load 0 (f64 0, f64 0) "model.npz.optimizer.npz" [0] [0] scatter_one
       uneven_world
     = (inr tt,
        set_stream
          [OpLog info "Loading Adam parameters from {}";
           OpLog warn "[warn] Adam parameters not found in .npz file"]
          uneven_world).
Proof. split; [vm_compute; discriminate | reflexivity]. Qed.

(** C1 on the code.  The file holds the two moments and no "adam_denoms"
    item.  After [Adam::load] the denominators are the values the cells of
    [vDenoms] happened to hold, whatever they are; with 1 in both cells
    they are 1 and 1, not 0. *)
Theorem Adam_load_legacy_denominators :
  lacks "adam_denoms" legacy_checkpoint
  /\ (forall d1 d2 : double,
        let after := Adam_load 0 (d1, d2) "model.npz.optimizer.npz" [0] [0]
                       scatter_one legacy_world in
        fst after = inr tt /\ denominators (snd after) 0 = Some (d1, d2))
  /\ denominators
       (snd (Adam_load 0 (f64 1, f64 1) "model.npz.optimizer.npz" [0] [0]
               scatter_one legacy_world)) 0
     <> Some (f64 0, f64 0).
Proof.
  split; [|split].
  - repeat constructor; discriminate.
  - intros d1 d2. vm_compute. split; reflexivity.
  - vm_compute. discriminate.
Qed.

Lemma setParams_positional_witness :
  objs legacy_world !! 0%nat = Some (fresh "adam" (RuleAdam Adam.init))
  /\ Adam.beta1_ <$> (Adam_members
        (snd (setParams 0 [f32 (8 # 10); f32 (99 # 100)] legacy_world)) 0)
     = Some (f32 (8 # 10)).
Proof.
  split; [reflexivity|].
  destruct (setParams_positional legacy_world 0
              (fresh "adam" (RuleAdam Adam.init))
              [f32 (8 # 10); f32 (99 # 100)] eq_refl)
    as (_ & _ & HAdam & _).
  destruct (HAdam Adam.init eq_refl) as [-> _]. reflexivity.
Defined.

Lemma Sgd_update_exact_witness :
  objs sgd_world !! 0%nat = Some (fresh "sgd" RuleSgd)
  /\ heap sgd_world !! 0%nat = Some (tensor float32 [1; 2]%Q)
  /\ heap sgd_world !! 1%nat = Some (tensor float32 [1 # 2; 1 # 4]%Q)
  /\ length (TensorBase.data (tensor float32 [1 # 2; 1 # 4]%Q))
     = length (TensorBase.data (tensor float32 [1; 2]%Q))
  /\ fst (Sgd_updateImpl 0 (Some 0%nat) (Some 1%nat) 7 9 sgd_world) = inr tt.
Proof.
  refine (conj eq_refl (conj eq_refl (conj eq_refl (conj eq_refl _)))).
  exact (proj1 (Sgd_update_exact sgd_world 0 (fresh "sgd" RuleSgd) 0 1
                  (tensor float32 [1; 2]%Q) (tensor float32 [1 # 2; 1 # 4]%Q)
                  7 9 eq_refl eq_refl eq_refl eq_refl)).
Defined.

Lemma save_gathers_main_writes_witness :
  objs trained_world !! 0%nat = Some (fresh "adam" (RuleAdam trained_Adam))
  /\ fs (snd (save 0 "model.npz.optimizer.npz" [0%nat] gather_one false
                trained_world)) = fs trained_world.
Proof.
  split; [reflexivity|].
  destruct (save_gathers_main_writes trained_world 0
              (fresh "adam" (RuleAdam trained_Adam))
              "model.npz.optimizer.npz" [0%nat] gather_one false eq_refl)
    as [HAdam _].
  destruct (HAdam trained_Adam
              [(0%nat, [f32 (1 # 10); f32 (2 # 10)])]
              [(1%nat, [f32 (1 # 100); f32 (4 # 100)])] eq_refl)
    as (_ & _ & _ & _ & Hother & _).
  - repeat constructor.
  - repeat constructor.
  - apply Hother. reflexivity.
Defined.


Lemma Adagrad_update_rule_witness :
  objs scenario_B !! 0%nat
  = Some {| base := New_OptimizerBase (scenario_options "adagrad" (1 # 10));
            rule := RuleAdagrad Adagrad.init |}
  /\ heap scenario_B !! 0%nat = Some (cells [1]%Q)
  /\ heap scenario_B !! 1%nat = Some (cells [2]%Q)
  /\ Adagrad_updateImpl 0 (Some 0%nat) (Some 1%nat) 3 5 scenario_B
     = (inl (Abort "Adagrad does not support rational hyper-parameter adjustment"),
        scenario_B).
Proof.
  refine (conj eq_refl (conj eq_refl (conj eq_refl _))).
  refine (proj1 (Adagrad_update_rule scenario_B 0 _ Adagrad.init 0 1
                   (cells [1]%Q) (cells [2]%Q) 3 5
                   eq_refl eq_refl eq_refl eq_refl eq_refl) _).
  discriminate.
Defined.

End Examples.

(** ** The steps of [update] *)

Lemma app_lookup_2 {A} (h k : list A) x y z :
  (h ++ x :: y :: z :: k) !! S (S (length h)) = Some z.
Proof.
  replace (h ++ x :: y :: z :: k) with ((h ++ [x; y]) ++ z :: k)
    by (rewrite <- app_assoc; reflexivity).
  apply list_lookup_middle. rewrite length_app. simpl. lia.
Qed.

Lemma app_insert_2 {A} (h k : list A) x y z v :
  <[S (S (length h)) := v]> (h ++ x :: y :: z :: k) = h ++ x :: y :: v :: k.
Proof.
  rewrite insert_app_r_alt by lia.
  replace (S (S (length h)) - length h)%nat with 2%nat by lia. reflexivity.
Qed.

Ltac lt3 :=
  repeat match goal with
  | H : ?h !! ?i = Some _ |- _ =>
      lazymatch goal with
      | _ : (i < length h)%nat |- _ => fail
      | _ => pose proof (lookup_lt_Some _ _ _ H)
      end
  end.
Ltac ne3 := first [ assumption | apply not_eq_sym; assumption | lt3; lia ].
Ltac lk3 :=
  fields2;
  repeat first
    [ eassumption
    | reflexivity
    | apply app_lookup_0
    | apply app_lookup_1
    | apply app_lookup_2
    | rewrite list_lookup_insert_ne by ne3
    | erewrite insert_lookup_same by lk3
    | apply app_lookup_old ].
Ltac norm3 := norm; rewrite ?app_insert_2.
Ltac fwd lem := erewrite bind_ok by (eapply lem; lk3); norm3.
Ltac nrm H := revert H; norm3; intros H.
Ltac known_fields H :=
  repeat match goal with
  | E : _ (base _) = _ |- _ =>
      tryif constr_eq E H then fail else rewrite E in H
  end.
Ltac fwdH H lem :=
  erewrite bind_ok in H by (eapply lem; lk3); nrm H; known_fields H.
Ltac known H :=
  match type of H with
  | ?L = Some ?x =>
      revert H;
      let E := fresh in
      (eassert (E : L = Some _) by lk3);
      intros H; rewrite E in H; injection H as <-; clear E
  end.

Section Update.
Context `{Collaborators}.

Lemma sizes_inv (refMBWords mbSize : N) msg w s w1 :
  (if (refMBWords =? 0)%N
   then ret (1%N, 1%N)
   else ABORT_IF (mbSize =? mbSizeNotProvided)%N msg ;; ret (refMBWords, mbSize)) w
  = (inr s, w1) ->
  w1 = w /\ s = (if (refMBWords =? 0)%N then (1%N, 1%N) else (refMBWords, mbSize)).
Proof.
  destruct (refMBWords =? 0)%N.
  - intros [= <- <-]. split; reflexivity.
  - unfold ABORT_IF. destruct (mbSize =? mbSizeNotProvided)%N; [discriminate|].
    intros [= <- <-]. split; reflexivity.
Qed.

(** The arena is made, reserved, and the average allocated from it. *)
Lemma average_block_run this o lp tp bytes shape ty w :
  objs w !! this = Some o -> heap w !! lp = Some tp ->
  (b <- getBackend (Some lp) ;;
   a <- New_TensorAllocator b ;;
   assign this (OptimizerBase.set_optAlloc_ a) ;;
   reserveExact a bytes ;;
   t <- allocate a shape ty ;;
   assign this (OptimizerBase.set_avg_ t)) w
  = (inr tt,
     {| heap := heap w ++
          [{| TensorBase.type_ := ty;
              TensorBase.backend_ := TensorBase.backend_ tp;
              TensorBase.data :=
                map arena_cell (seq 0 (N.to_nat (Shape_elements shape))) |}];
        allocators := allocators w ++
          [{| ta_backend := TensorBase.backend_ tp;
              ta_reserved := [bytes];
              ta_tensors := [length (heap w)] |}];
        objs := <[this :=
                  {| base := OptimizerBase.set_avg_ (Some (length (heap w)))
                               (OptimizerBase.set_optAlloc_
                                  (Some (length (allocators w))) (base o));
                     rule := rule o |}]> (objs w);
        fs := fs w;
        stream := stream w ++
          [OpReserveExact bytes;
           OpAllocate (length (heap w)) (N.to_nat (Shape_elements shape)) ty] |}).
Proof.
  intros Ho Hp. destruct w as [h al os f st]. cbn [heap objs allocators fs stream] in *.
  fwd @getBackend_ok.
  erewrite bind_ok by apply New_TensorAllocator_run. norm3.
  fwd @assign_ok. fwd @reserveExact_ok. fwd @allocate_ok.
  erewrite assign_ok by lk3. norm3. reflexivity.
Qed.

Lemma arena_block_run this o lp tp bytes w :
  objs w !! this = Some o -> heap w !! lp = Some tp ->
  (b <- getBackend (Some lp) ;;
   a <- New_TensorAllocator b ;;
   assign this (OptimizerBase.set_optAlloc_ a) ;;
   reserveExact a bytes) w
  = (inr tt,
     {| heap := heap w;
        allocators := allocators w ++
          [{| ta_backend := TensorBase.backend_ tp;
              ta_reserved := [bytes];
              ta_tensors := [] |}];
        objs := <[this :=
                  {| base := OptimizerBase.set_optAlloc_
                               (Some (length (allocators w))) (base o);
                     rule := rule o |}]> (objs w);
        fs := fs w;
        stream := stream w ++ [OpReserveExact bytes] |}).
Proof.
  intros Ho Hp. destruct w as [h al os f st]. cbn [heap objs allocators fs stream] in *.
  fwd @getBackend_ok.
  erewrite bind_ok by apply New_TensorAllocator_run. norm3.
  fwd @assign_ok. erewrite reserveExact_ok by lk3. norm3. reflexivity.
Qed.


Lemma shadow_block_inv this o lp tp shape ty w w1 :
  objs w !! this = Some o -> heap w !! lp = Some tp ->
  (optAlloc_ <- member this OptimizerBase.optAlloc_ ;;
   t <- allocate optAlloc_ shape ty ;;
   assign this (OptimizerBase.set_pm_ t) ;;
   t' <- allocate optAlloc_ shape ty ;;
   assign this (OptimizerBase.set_gd_ t') ;;
   CopyCast t (Some lp)) w = (inr tt, w1) ->
  exists n x,
    OptimizerBase.optAlloc_ (base o) = Some n
    /\ allocators w !! n = Some x
    /\ length (TensorBase.data tp) = N.to_nat (Shape_elements shape)
    /\ w1 =
       {| heap := heap w ++
            [{| TensorBase.type_ := ty;
                TensorBase.backend_ := ta_backend x;
                TensorBase.data :=
                  map (cast_value ty (TensorBase.type_ tp)) (TensorBase.data tp) |};
             {| TensorBase.type_ := ty;
                TensorBase.backend_ := ta_backend x;
                TensorBase.data :=
                  map arena_cell (seq 0 (N.to_nat (Shape_elements shape))) |}];
          allocators :=
            <[n := {| ta_backend := ta_backend x;
                      ta_reserved := ta_reserved x;
                      ta_tensors :=
                        ta_tensors x ++ [length (heap w); S (length (heap w))] |}]>
              (allocators w);
          objs := <[this :=
                    {| base := OptimizerBase.set_gd_ (Some (S (length (heap w))))
                                 (OptimizerBase.set_pm_ (Some (length (heap w)))
                                    (base o));
                       rule := rule o |}]> (objs w);
          fs := fs w;
          stream := stream w ++
            [OpAllocate (length (heap w)) (N.to_nat (Shape_elements shape)) ty;
             OpAllocate (S (length (heap w))) (N.to_nat (Shape_elements shape)) ty;
             OpCopyCast (length (heap w)) lp] |}.
Proof.
  intros Ho Hp Hu. destruct w as [h al os f st].
  cbn [heap objs allocators fs stream] in *.
  fwdH Hu @member_ok.
  apply bind_inv in Hu as (t & w0 & Hm & Hu).
  apply allocate_inv in Hm as (n & x & En & Hn & Hm). cbn [allocators] in Hn.
  rewrite En in Hm, Hu.
  rewrite (allocate_ok n x) in Hm by lk3. injection Hm as <- <-. nrm Hu.
  fwdH Hu @assign_ok. fwdH Hu @allocate_ok. fwdH Hu @assign_ok.
  apply CopyCast_inv
    in Hu as (l1 & x1 & l2 & x2 & [= <-] & [= <-] & Hl1 & Hl2 & Hlen & ->).
  cbn [heap] in Hl1, Hl2. known Hl1. known Hl2.
  cbn [TensorBase.data TensorBase.type_] in *.
  rewrite length_map, length_seq in Hlen.
  exists n, x. repeat split; try assumption. norm3. reflexivity.
Qed.

Lemma finish_inv (avg cast : bool) this lp mb w2 w' :
  (when avg
     (avg_ <- member this OptimizerBase.avg_ ;;
      pm_ <- member this OptimizerBase.pm_ ;;
      batchesSeen_ <- member this OptimizerBase.batchesSeen_ ;;
      updateAvgParams avg_ pm_ batchesSeen_ mb) ;;
   when cast
     (pm_ <- member this OptimizerBase.pm_ ;;
      CopyCast (Some lp) pm_) ;;
   b <- getBackend (Some lp) ;;
   synchronize b) w2 = (inr tt, w') ->
  allocators w' = allocators w2 /\ objs w' = objs w2 /\ fs w' = fs w2
  /\ exists ops, stream w' = stream w2 ++ ops
                 /\ finish_ops avg cast this lp mb w2 ops.
Proof.
  intros Hu.
  apply bind_inv in Hu as ([] & wa & Ha & Hu).
  apply bind_inv in Hu as ([] & wb & Hb & Hu).
  apply bind_inv in Hu as (b & ws & Hs & Hu).
  apply getBackend_inv in Hs as (l & x & [= <-] & Hl & -> & ->).
  injection Hu as <-.
  assert (Eb : objs wb = objs wa /\ allocators wb = allocators wa
               /\ fs wb = fs wa
               /\ exists ops, stream wb = stream wa ++ ops
                  /\ (if cast
                      then exists o2 lpm,
                             objs wa !! this = Some o2
                             /\ OptimizerBase.pm_ (base o2) = Some lpm
                             /\ ops = [OpCopyCast lp lpm]
                      else ops = [])).
  { destruct cast; unfold when in Hb.
    - apply bind_inv in Hb as (pm & w0 & Hm & Hb).
      apply member_inv in Hm as (o2 & Ho2 & -> & ->).
      apply CopyCast_inv
        in Hb as (l1 & x1 & l2 & x2 & [= <-] & Epm & _ & _ & _ & ->).
      repeat split. eexists. split; [reflexivity|].
      exists o2, l2. repeat split; assumption.
    - apply ret_inv in Hb as [_ ->]. repeat split.
      exists []. rewrite app_nil_r. split; reflexivity. }
  assert (Ea : objs wa = objs w2 /\ allocators wa = allocators w2
               /\ fs wa = fs w2
               /\ exists ops, stream wa = stream w2 ++ ops
                  /\ (if avg
                      then exists o2 lavg lpm,
                             objs w2 !! this = Some o2
                             /\ OptimizerBase.avg_ (base o2) = Some lavg
                             /\ OptimizerBase.pm_ (base o2) = Some lpm
                             /\ ops = [OpUpdateAvgParams lavg lpm
                                         (OptimizerBase.batchesSeen_ (base o2)) mb]
                      else ops = [])).
  { destruct avg; unfold when in Ha.
    - apply bind_inv in Ha as (av & w0 & Hm & Ha).
      apply member_inv in Hm as (o2 & Ho2 & -> & ->).
      erewrite bind_ok in Ha by (eapply member_ok; eassumption).
      erewrite bind_ok in Ha by (eapply member_ok; eassumption).
      apply updateAvgParams_inv
        in Ha as (l1 & x1 & l2 & x2 & Eavg & Epm & _ & _ & ->).
      repeat split. eexists. split; [reflexivity|].
      exists o2, l1, l2. repeat split; assumption.
    - apply ret_inv in Ha as [_ ->]. repeat split.
      exists []. rewrite app_nil_r. split; reflexivity. }
  destruct Eb as (Eo & Eal & Ef & opsb & Esb & Hopsb).
  destruct Ea as (Eo' & Eal' & Ef' & opsa & Esa & Hopsa).
  cbn [allocators objs fs stream set_stream].
  repeat split; try congruence.
  exists (opsa ++ opsb ++ [OpSynchronize (TensorBase.backend_ x)]).
  split.
  - rewrite Esb, Esa, <- !app_assoc. reflexivity.
  - exists opsa, opsb, (TensorBase.backend_ x).
    split; [reflexivity|]. split; [exact Hopsa|].
    rewrite Eo' in Hopsb. exact Hopsb.
Qed.

Ltac when_false Hm := apply ret_inv in Hm as [_ ->].
Ltac case_on t E := destruct t eqn:E; rewrite ?E in *.
Tactic Notation "case_opt" constr(t) ident(x) ident(E) := destruct t as [x|] eqn:E; rewrite ?E in *.

Ltac late Hu :=
  fwdH Hu @member_ok;
  let HD := fresh "HD" in
  apply bind_inv in Hu as ([] & ? & HD & Hu);
  let Ecs := fresh "Ecs" in
  match type of HD with
  | context [fneqb ?a ?b] => case_on (fneqb a b) Ecs
  end;
  unfold when at 1 in HD;
  [ fwdH HD @member_ok;
    let Hx := fresh "Hx" in
    apply Element1_inv in HD as (? & ? & [= <-] & Hx & ->);
    cbn [heap] in Hx; try known Hx; nrm Hu
  | when_false HD ];
  fwdH Hu @member_ok;
  let HE := fresh "HE" in
  apply bind_inv in Hu as ([] & ? & HE & Hu);
  let Eclip := fresh "Eclip" in
  match type of HE with
  | context [match ?c with Some _ => _ | None => _ end] =>
      destruct c eqn:Eclip; rewrite ?Eclip in *
  end;
  [ let Hc := fresh "Hc" in
    apply clip_inv in HE as (? & ? & [= <-] & Hc & ->);
    cbn [heap] in Hc; try known Hc; nrm Hu
  | when_false HE ];
  fwdH Hu @member_ok; fwdH Hu @member_ok;
  let Himpl := fresh "Himpl" in
  apply bind_inv in Hu as ([] & ? & Himpl & Hu);
  apply finish_inv in Hu.

Lemma reserved_insert (al : list TensorAllocator) n x y :
  al !! n = Some x -> ta_reserved y = ta_reserved x ->
  ta_reserved <$> <[n := y]> al = ta_reserved <$> al.
Proof.
  intros Hn Hy. rewrite list_fmap_insert, Hy.
  apply list_insert_id. rewrite list_lookup_fmap, Hn. reflexivity.
Qed.

Ltac heap_fact :=
  lazymatch goal with
  | |- _ <$> ?L = Some _ =>
      let E := fresh in
      (eassert (E : L = Some _) by lk3); rewrite E; reflexivity
  | |- exists x, ?L = Some x /\ _ =>
      eexists; split; [lk3 | reflexivity]
  end.

Ltac resolve :=
  repeat match goal with
  | Hc : <[_ := _]> _ !! _ = Some ?x |- _ => is_var x; known Hc
  end.

Ltac leaf Hu :=
  fields2;
  match goal with
  | Himpl : _ = (inr tt, ?w2) |- _ =>
      do 5 eexists; refine (conj _ (conj _ (conj Himpl (conj Hu _))))
  end;
  [ split; [lk3 | split; fields2; first [eassumption | reflexivity]]
  | cbn [stream regime is_null andb app]; rewrite ?app_nil_r; reflexivity
  | cbn [regime is_null andb];
    refine (conj _ (conj _ (conj _ _)));
    [ split;
      [ fields2; first [eassumption | reflexivity]
      | unfold reservations; cbn [allocators];
        first [ reflexivity
              | rewrite fmap_app; reflexivity
              | eapply reserved_insert; [eassumption | reflexivity] ] ]
    | first [ solve [intros E; discriminate E]
            | intros _; split; [reflexivity | split; [reflexivity | cbn [heap]; heap_fact]] ]
    | first [ solve [intros E; discriminate E]
            | intros _ Hne; cbn [heap]; resolve; split; heap_fact ]
    | first [ solve [intros E; discriminate E]
            | solve [intros _ E; discriminate E]
            | intros _ _; split; reflexivity ] ] ].

(** The steps of the cast branch after the arena: the master copy and the
    gradient buffer are allocated when there are none, and the gradients
    are cast. *)
Ltac cast_stage HB Hu :=
  fwdH HB @member_ok;
  let HC := fresh "HC" in
  let Egd := fresh "Egd" in
  let Hgd := fresh "Hgd" in
  let Hg' := fresh "Hg'" in
  let Hlen := fresh "Hlen" in
  apply bind_inv in HB as ([] & ? & HC & HB);
  cbn [is_null] in HC; unfold when at 1 in HC; cbv iota in HC;
  first
  [ when_false HC
  | let En := fresh "En" in
    let Hn := fresh "Hn" in
    let Hcells := fresh "Hcells" in
    eapply shadow_block_inv in HC; [|lk3|lk3];
    destruct HC as (? & ? & En & Hn & Hcells & ->);
    nrm En; nrm Hn; known_fields En; injection En as <-; try known Hn;
    nrm HB ];
  fwdH HB @member_ok;
  apply CopyCast_inv in HB as (? & ? & ? & ? & Egd & [= <-] & Hgd & Hg' & Hlen & ->);
  first [injection Egd as <- | idtac];
  nrm Hgd; nrm Hg'; try known Hgd; known Hg'; nrm Hu; known_fields Hu.

Ltac alias_stage HB Hu :=
  fwdH HB @assign_ok;
  erewrite assign_ok in HB by lk3; injection HB as <-; nrm Hu.

Lemma update_inv impl this o lp tp lg tg mbSize w w' :
  objs w !! this = Some o ->
  heap w !! lp = Some tp -> heap w !! lg = Some tg ->
  OptimizerBase_update impl this (Some lp) (Some lg) mbSize w = (inr tt, w') ->
  exists w1 w2 o1 lpm lgd,
    (objs w1 !! this = Some o1
     /\ OptimizerBase.pm_ (base o1) = Some lpm
     /\ OptimizerBase.gd_ (base o1) = Some lgd)
    /\ stream w1 = stream w ++ allocate_ops o tp (length (heap w))
                   ++ cast_ops o tp lp lg lpm lgd
                   ++ unscale_ops o lgd ++ clip_ops o lg
    /\ impl this (Some lpm) (Some lgd)
         (snd (sizes_of o mbSize)) (fst (sizes_of o mbSize)) w1 = (inr tt, w2)
    /\ (allocators w' = allocators w2 /\ objs w' = objs w2 /\ fs w' = fs w2
        /\ exists ops, stream w' = stream w2 ++ ops
             /\ finish_ops (averages o) (casts o tp) this lp
                  (snd (sizes_of o mbSize)) w2 ops)
    /\ reserved_once o tp w w1 o1
    /\ (casts o tp = false ->
        lpm = lp /\ lgd = lg
        /\ TensorBase.data <$> heap w1 !! lg
           = Some (clipped o (unscaled o (TensorBase.data tg))))
    /\ (casts o tp = true -> lgd <> lg ->
        (exists xgd,
           heap w1 !! lgd = Some xgd
           /\ TensorBase.data xgd
              = unscaled o (map (cast_value (TensorBase.type_ xgd)
                                            (TensorBase.type_ tg))
                                (TensorBase.data tg)))
        /\ TensorBase.data <$> heap w1 !! lg
           = Some (clipped o (TensorBase.data tg)))
    /\ (casts o tp = true -> OptimizerBase.pm_ (base o) = None ->
        lpm = (if averages o && is_null (OptimizerBase.optAlloc_ (base o))
               then S (length (heap w)) else length (heap w))
        /\ lgd = S lpm).
Proof.
  destruct w as [h al os f st]. unfold OptimizerBase_update.
  cbn [heap objs allocators fs stream]. intros Ho Hp Hg Hu.
  fwdH Hu @member_ok.
  apply bind_inv in Hu as (s & w0 & Hm & Hu).
  apply sizes_inv in Hm as (-> & ->). fold (sizes_of o mbSize) in Hu.
  destruct (sizes_of o mbSize) as [ref' mb'] eqn:Esz.
  fwdH Hu @type_ok. fwdH Hu @member_ok. fwdH Hu @size_ok. fwdH Hu @member_ok.
  fold (casts o tp) in Hu. fold (elements_of tp) in Hu.
  unfold averages, reserved_once, allocate_ops, cast_ops, unscale_ops, clip_ops,
    clipped, unscaled, averages.
  apply bind_inv in Hu as ([] & wA & HA & Hu).
  apply bind_inv in Hu as ([] & wB & HB & Hu).
  case_on (OptimizerBase.mvAvg_ (base o)) Eavg;
    case_opt (OptimizerBase.optAlloc_ (base o)) a Earena;
    case_on (casts o tp) Ecast;
    unfold when at 1 in HA.
  - (* averaging, arena present, cast *)
    fwdH HA @member_ok. cbn [is_null] in HA. unfold when at 1 in HA.
    when_false HA.
    fwdH HB @member_ok. cbn [is_null] in HB.
    unfold when at 1 in HB. erewrite bind_ok in HB by reflexivity.
    case_opt (OptimizerBase.pm_ (base o)) lpm Epm; cast_stage HB Hu;
      late Hu; leaf Hu.

  - (* averaging, arena present, no cast *)
    fwdH HA @member_ok. cbn [is_null] in HA. unfold when at 1 in HA.
    when_false HA. alias_stage HB Hu. late Hu; leaf Hu.
  - (* averaging, no arena yet, cast *)
    fwdH HA @member_ok. cbn [is_null] in HA. unfold when at 1 in HA.
    erewrite average_block_run in HA by lk3. injection HA as <-.
    nrm HB. nrm Hu.
    fwdH HB @member_ok. cbn [is_null] in HB.
    unfold when at 1 in HB. erewrite bind_ok in HB by reflexivity.
    case_opt (OptimizerBase.pm_ (base o)) lpm Epm; cast_stage HB Hu;
      late Hu; leaf Hu.
  - (* averaging, no arena yet, no cast *)
    fwdH HA @member_ok. cbn [is_null] in HA. unfold when at 1 in HA.
    erewrite average_block_run in HA by lk3. injection HA as <-.
    nrm HB. nrm Hu.
    alias_stage HB Hu. late Hu; leaf Hu.
  - (* no averaging, arena present, cast *)
    when_false HA.
    fwdH HB @member_ok. cbn [is_null] in HB.
    unfold when at 1 in HB. erewrite bind_ok in HB by reflexivity.
    case_opt (OptimizerBase.pm_ (base o)) lpm Epm; cast_stage HB Hu;
      late Hu; leaf Hu.
  - (* no averaging, arena present, no cast *)
    when_false HA. alias_stage HB Hu. late Hu; leaf Hu.
  - (* no averaging, no arena yet, cast *)
    when_false HA.
    fwdH HB @member_ok. cbn [is_null] in HB. unfold when at 1 in HB.
    apply bind_inv in HB as ([] & wC & HC & HB).
    erewrite arena_block_run in HC by lk3. injection HC as <-. nrm HB.
    case_opt (OptimizerBase.pm_ (base o)) lpm Epm; cast_stage HB Hu;
      late Hu; leaf Hu.
  - (* no averaging, no arena yet, no cast *)
    when_false HA. alias_stage HB Hu. late Hu; leaf Hu.
Qed.


(** *** What [update] reports *)

Lemma quiet_ret {A} (a : A) : quiet (ret a).
Proof. intros w e w' [=]. Qed.

Lemma quiet_undefined {A} what : quiet (undefined what : M A).
Proof. intros w e w' [= <- _]. eexists. reflexivity. Qed.

Lemma quiet_gets {A} (f : World -> A) : quiet (gets f).
Proof. intros w e w' [=]. Qed.

Lemma quiet_modify f : quiet (modify f).
Proof. intros w e w' [=]. Qed.

Lemma quiet_bind {A B} (m : M A) (k : A -> M B) :
  quiet m -> (forall a, quiet (k a)) -> quiet (bind m k).
Proof.
  intros Hm Hk w e w'. unfold bind.
  destruct (m w) as [[e1|a] w1] eqn:Em.
  - intros [= <- <-]. eapply Hm, Em.
  - apply Hk.
Qed.

Lemma quiet_when (c : bool) (m : M unit) : quiet m -> quiet (when c m).
Proof. intros Hm. destruct c; [exact Hm | apply quiet_ret]. Qed.

Lemma quiet_if {A} (c : bool) (m1 m2 : M A) :
  quiet m1 -> quiet m2 -> quiet (if c then m1 else m2).
Proof. intros H1 H2. destruct c; assumption. Qed.

Ltac quiet_steps :=
  repeat first
    [ apply quiet_ret | apply quiet_undefined | apply quiet_gets
    | apply quiet_modify | apply quiet_when | apply quiet_if
    | apply quiet_bind
    | match goal with
      | |- forall _ : _ * _, _ => intros [? ?]
      | |- forall _, _ => intros ?
      | |- quiet (match ?x with _ => _ end) => destruct x
      end ].

Lemma quiet_deref t : quiet (deref t).
Proof. unfold deref. quiet_steps. Qed.

Lemma quiet_member {A} this (f : OptimizerBase.state -> A) :
  quiet (member this f).
Proof. unfold member, object. quiet_steps. Qed.

Lemma quiet_assign this f : quiet (assign this f).
Proof. unfold assign. quiet_steps. Qed.

Lemma quiet_type t : quiet (type t).
Proof. unfold type. apply quiet_bind; [apply quiet_deref|]. quiet_steps. Qed.

Lemma quiet_size t : quiet (size t).
Proof. unfold size. apply quiet_bind; [apply quiet_deref|]. quiet_steps. Qed.

Lemma quiet_getBackend t : quiet (getBackend t).
Proof. unfold getBackend. apply quiet_bind; [apply quiet_deref|]. quiet_steps. Qed.

Lemma quiet_New_TensorAllocator b : quiet (New_TensorAllocator b).
Proof. unfold New_TensorAllocator. quiet_steps. Qed.

Lemma quiet_allocator a : quiet (allocator a).
Proof. unfold allocator. quiet_steps. Qed.

Lemma quiet_reserveExact a bytes : quiet (reserveExact a bytes).
Proof.
  unfold reserveExact, issue.
  apply quiet_bind; [apply quiet_allocator|]. quiet_steps.
Qed.

Lemma quiet_allocate a shape ty : quiet (allocate a shape ty).
Proof.
  unfold allocate, issue.
  apply quiet_bind; [apply quiet_allocator|]. quiet_steps.
Qed.

Lemma quiet_write_issue l v op : quiet (write l v ;; issue op).
Proof. unfold write, issue. quiet_steps. Qed.

Lemma quiet_CopyCast dst src : quiet (CopyCast dst src).
Proof.
  unfold CopyCast, write, issue.
  apply quiet_bind; [apply quiet_deref|]. intros [l x].
  apply quiet_bind; [apply quiet_deref|]. quiet_steps.
Qed.

Lemma quiet_Element1 f t : quiet (Element1 f t).
Proof.
  unfold Element1, write, issue.
  apply quiet_bind; [apply quiet_deref|]. quiet_steps.
Qed.

Lemma quiet_clip c t : quiet (clip c t).
Proof.
  unfold clip, write, issue.
  apply quiet_bind; [apply quiet_deref|]. quiet_steps.
Qed.

Lemma quiet_updateAvgParams avg pm batches mbSize :
  quiet (updateAvgParams avg pm batches mbSize).
Proof.
  unfold updateAvgParams, write, issue.
  apply quiet_bind; [apply quiet_deref|]. intros [l x].
  apply quiet_bind; [apply quiet_deref|]. quiet_steps.
Qed.

Lemma quiet_synchronize b : quiet (synchronize b).
Proof. unfold synchronize, issue. quiet_steps. Qed.

Lemma quiet_no_abort {A} (m : M A) w msg w' :
  quiet m -> m w = (inl (Abort msg), w') -> False.
Proof. intros Hm Hw. apply Hm in Hw as [what [=]]. Qed.

Lemma bind_fail_inv {A B} (m : M A) (k : A -> M B) w e w' :
  bind m k w = (inl e, w') ->
  m w = (inl e, w')
  \/ exists a w1, m w = (inr a, w1) /\ k a w1 = (inl e, w').
Proof.
  unfold bind. destruct (m w) as [[e1|a] w1].
  - intros [= -> ->]. left. reflexivity.
  - intros Hk. right. exists a, w1. split; [reflexivity | exact Hk].
Qed.

Lemma bind_abort {A B} (m : M A) (k : A -> M B) w msg w' :
  quiet m -> bind m k w = (inl (Abort msg), w') ->
  exists a w1, m w = (inr a, w1) /\ k a w1 = (inl (Abort msg), w').
Proof.
  intros Hm. unfold bind. destruct (m w) as [[e|a] w1] eqn:Em.
  - intros [= -> <-]. destruct (quiet_no_abort _ _ _ _ Hm Em).
  - intros Hk. exists a, w1. split; [reflexivity | exact Hk].
Qed.

Lemma quiet_object this : quiet (object this).
Proof. unfold object. quiet_steps. Qed.

Lemma quiet_as_Adagrad this : quiet (as_Adagrad this).
Proof. unfold as_Adagrad. apply quiet_bind; [apply quiet_object|]. quiet_steps. Qed.

Lemma quiet_as_Adam this : quiet (as_Adam this).
Proof. unfold as_Adam. apply quiet_bind; [apply quiet_object|]. quiet_steps. Qed.

Lemma quiet_assign_Adagrad this f : quiet (assign_Adagrad this f).
Proof. unfold assign_Adagrad. quiet_steps. Qed.

Lemma quiet_assign_Adam this f : quiet (assign_Adam this f).
Proof. unfold assign_Adam. quiet_steps. Qed.

Lemma quiet_memory_size t : quiet (memory_size t).
Proof. unfold memory_size. apply quiet_bind; [apply quiet_deref|]. quiet_steps. Qed.

Lemma quiet_set_value t v : quiet (set_value t v).
Proof.
  unfold set_value, write, issue.
  apply quiet_bind; [apply quiet_deref|]. quiet_steps.
Qed.

Lemma quiet_Element2 f out in1 : quiet (Element2 f out in1).
Proof.
  unfold Element2, write, issue.
  apply quiet_bind; [apply quiet_deref|]. intros [l x].
  apply quiet_bind; [apply quiet_deref|]. quiet_steps.
Qed.

Lemma quiet_Element3 f out in1 in2 : quiet (Element3 f out in1 in2).
Proof.
  unfold Element3, write, issue.
  apply quiet_bind; [apply quiet_deref|]. intros [l x].
  apply quiet_bind; [apply quiet_deref|]. intros [l1 x1].
  apply quiet_bind; [apply quiet_deref|]. quiet_steps.
Qed.

Ltac quiet_update :=
  repeat first
    [ apply quiet_member | apply quiet_object
    | apply quiet_as_Adagrad | apply quiet_as_Adam
    | apply quiet_assign_Adagrad | apply quiet_assign_Adam
    | apply quiet_memory_size | apply quiet_set_value
    | apply quiet_Element2 | apply quiet_Element3
    | progress cbv zeta | apply quiet_assign | apply quiet_type
    | apply quiet_size | apply quiet_getBackend
    | apply quiet_New_TensorAllocator | apply quiet_reserveExact
    | apply quiet_allocate | apply quiet_CopyCast | apply quiet_Element1
    | apply quiet_clip | apply quiet_updateAvgParams
    | apply quiet_synchronize | apply quiet_ret
    | apply quiet_when | apply quiet_if | apply quiet_bind
    | match goal with
      | |- forall _, _ => intros ?
      | |- quiet (match ?x with _ => _ end) => destruct x
      end ].

(** [update] reports one violation of its own, the missing minibatch size;
    any other abort is one of the rule. *)
Lemma update_abort_inv impl this params grads mbSize w msg w' :
  OptimizerBase_update impl this params grads mbSize w
  = (inl (Abort msg), w') ->
  (msg = "Using rational optimizer auto-adjustment with trainer that does not provide MB size"
   /\ mbSize = mbSizeNotProvided)
  \/ exists pm gd actual ref w1,
       impl this pm gd actual ref w1 = (inl (Abort msg), w').
Proof.
  unfold OptimizerBase_update. intros Hu.
  apply bind_abort in Hu as (r & w0 & _ & Hu); [|quiet_update].
  apply bind_fail_inv in Hu as [Hs | ([ref' mb'] & w1 & _ & Hu)].
  - left. destruct (r =? 0)%N; [discriminate|].
    unfold ABORT_IF in Hs.
    destruct (mbSize =? mbSizeNotProvided)%N eqn:Emb; [|discriminate].
    injection Hs as <- <-. split; [reflexivity|]. apply N.eqb_eq, Emb.
  - right.
    do 12 (apply bind_abort in Hu as (? & ? & _ & Hu); [|quiet_update]).
    unfold bind in Hu at 1.
    match type of Hu with
    | context [impl ?a ?b ?c ?d ?e ?f] =>
        destruct (impl a b c d e f) as [[e1|[]] w2] eqn:Ei
    end.
    + injection Hu as -> <-. do 5 eexists. exact Ei.
    + exfalso. eapply quiet_no_abort; [|exact Hu]. quiet_update.
Qed.

(** The rules report one violation: Adagrad called with two different
    sizes. *)
Lemma updateImpl_abort_inv this pm gd actual ref w msg w' :
  updateImpl this pm gd actual ref w = (inl (Abort msg), w') ->
  msg = "Adagrad does not support rational hyper-parameter adjustment".
Proof.
  unfold updateImpl. intros Hu.
  apply bind_abort in Hu as (x & w1 & _ & Hu); [|quiet_update].
  destruct (rule x).
  - exfalso. eapply quiet_no_abort; [|exact Hu].
    unfold Sgd_updateImpl. quiet_update.
  - unfold Adagrad_updateImpl in Hu.
    apply bind_fail_inv in Hu as [Ha | ([] & w2 & _ & Hu)].
    + unfold ABORT_IF in Ha.
      destruct (negb (actual =? ref)%N); [|discriminate].
      injection Ha as <- _. reflexivity.
    + exfalso. eapply quiet_no_abort; [|exact Hu]. quiet_update.
  - exfalso. eapply quiet_no_abort; [|exact Hu].
    unfold Adam_updateImpl. quiet_update.
Qed.

(** X1.  Take a call of [update] that returns, on an optimizer with a
    clipper and valid parameters and gradients.  Its operations are, in this
    order: the allocations (none when the arena and the master copy are
    there already), the casts into the type of the optimizer when the types
    differ, the reversal of cost scaling on the gradient buffer, the
    clipping of the gradients the caller gave, the rule, the average, the
    cast back, and the synchronization.  The rule is called on the master
    copy and the gradient buffer.  Without a cast those are the tensors of
    the caller, and the gradients hold the clipped unscaled values.  With a
    cast the gradient buffer holds the cast and unscaled gradients, which the
    clipping did not touch, and the gradients of the caller hold the clipped
    original values; this needs the buffer to be another tensor than the
    gradients, which it is when it was allocated in this call. *)
Theorem update_sequence impl this o c lp tp lg tg mbSize w w' :
  objs w !! this = Some o ->
  OptimizerBase.clipper_ (base o) = Some c ->
  heap w !! lp = Some tp -> heap w !! lg = Some tg ->
  OptimizerBase_update impl this (Some lp) (Some lg) mbSize w = (inr tt, w') ->
  exists w1 w2 lpm lgd ops,
    stream w1 = stream w ++ allocate_ops o tp (length (heap w))
                ++ cast_ops o tp lp lg lpm lgd
                ++ unscale_ops o lgd ++ [OpClip lg]
    /\ impl this (Some lpm) (Some lgd)
         (snd (sizes_of o mbSize)) (fst (sizes_of o mbSize)) w1 = (inr tt, w2)
    /\ stream w' = stream w2 ++ ops
    /\ finish_ops (averages o) (casts o tp) this lp
         (snd (sizes_of o mbSize)) w2 ops
    /\ (OptimizerBase.optAlloc_ (base o) <> None ->
        OptimizerBase.pm_ (base o) <> None ->
        allocate_ops o tp (length (heap w)) = [])
    /\ (casts o tp = false ->
        lpm = lp /\ lgd = lg
        /\ TensorBase.data <$> heap w1 !! lg
           = Some (clip_values c (unscaled o (TensorBase.data tg))))
    /\ (casts o tp = true ->
        OptimizerBase.pm_ (base o) = None \/ lgd <> lg ->
        (exists xgd,
           heap w1 !! lgd = Some xgd
           /\ TensorBase.data xgd
              = unscaled o (map (cast_value (TensorBase.type_ xgd)
                                            (TensorBase.type_ tg))
                                (TensorBase.data tg)))
        /\ TensorBase.data <$> heap w1 !! lg
           = Some (clip_values c (TensorBase.data tg))).
Proof.
  intros Ho Hc Hp Hg Hu.
  destruct (update_inv _ _ _ _ _ _ _ _ _ _ Ho Hp Hg Hu)
    as (w1 & w2 & o1 & lpm & lgd & _ & Hst & Himpl
        & (_ & _ & _ & ops & Hst' & Hfin) & _ & Hnc & Hca & Hfresh).
  unfold clip_ops in Hst. unfold clipped in Hnc, Hca. rewrite Hc in Hst, Hnc, Hca.
  exists w1, w2, lpm, lgd, ops.
  refine (conj Hst (conj Himpl (conj Hst' (conj Hfin (conj _ (conj Hnc _)))))).
  - intros Harena Hpm. unfold allocate_ops.
    destruct (OptimizerBase.optAlloc_ (base o)); [|contradiction].
    destruct (OptimizerBase.pm_ (base o)); [|contradiction].
    cbn [is_null]. rewrite !andb_false_r.
    destruct (regime (averages o) (casts o tp)); reflexivity.
  - intros Hcast Hother. apply Hca; [exact Hcast|].
    destruct Hother as [Hpm | Hne]; [|exact Hne].
    destruct (Hfresh Hcast Hpm) as [-> ->].
    apply lookup_lt_Some in Hg. cbn [heap] in Hg.
    destruct (averages o && is_null (OptimizerBase.optAlloc_ (base o))); lia.
Qed.

(** X2.  Take a call of [update] on valid parameters and
    gradients.  When it returns, the arena was reserved at most once: with
    an arena already there, the rule is called with the same arena and every
    allocator has the reservations it had, whatever regime the call is in;
    without one, a regime that needs an arena makes one with the single
    reservation of that regime.  After the rule [update] reserves nothing
    and keeps its arena.  No regime is ever reported: when [update] aborts,
    it is for the missing minibatch size or in the rule, and the only abort
    of the rules is the one of Adagrad for two different sizes. *)
Theorem arena_reserved_once impl this o lp tp lg tg mbSize w :
  objs w !! this = Some o ->
  heap w !! lp = Some tp -> heap w !! lg = Some tg ->
  (forall w',
     OptimizerBase_update impl this (Some lp) (Some lg) mbSize w = (inr tt, w') ->
     exists w1 w2 o1 lpm lgd,
       objs w1 !! this = Some o1
       /\ reserved_once o tp w w1 o1
       /\ impl this (Some lpm) (Some lgd)
            (snd (sizes_of o mbSize)) (fst (sizes_of o mbSize)) w1
          = (inr tt, w2)
       /\ allocators w' = allocators w2 /\ objs w' = objs w2)
  /\ (forall msg w',
        OptimizerBase_update impl this (Some lp) (Some lg) mbSize w
        = (inl (Abort msg), w') ->
        (msg = "Using rational optimizer auto-adjustment with trainer that does not provide MB size"
         /\ mbSize = mbSizeNotProvided)
        \/ exists pm gd actual ref w1,
             impl this pm gd actual ref w1 = (inl (Abort msg), w'))
  /\ (forall msg w',
        update this (Some lp) (Some lg) mbSize w = (inl (Abort msg), w') ->
        msg = "Using rational optimizer auto-adjustment with trainer that does not provide MB size"
        \/ msg = "Adagrad does not support rational hyper-parameter adjustment").
Proof.
  intros Ho Hp Hg. split; [|split].
  - intros w' Hu.
    destruct (update_inv _ _ _ _ _ _ _ _ _ _ Ho Hp Hg Hu)
      as (w1 & w2 & o1 & lpm & lgd & (Ho1 & _) & _ & Himpl
          & (Hal & Hob & _) & Hres & _).
    exists w1, w2, o1, lpm, lgd. repeat split; assumption.
  - intros msg w'. apply update_abort_inv.
  - intros msg w' Hu. apply update_abort_inv in Hu as [[-> _] | Hrule].
    + left. reflexivity.
    + destruct Hrule as (pm & gd & actual & ref & w1 & Hrule).
      right. eapply updateImpl_abort_inv, Hrule.
Qed.
End Update.

Lemma run_returns `{Machine} {A} (r : (failure + A) * World) a :
  fst r = inr a -> r = (inr a, snd r).
Proof. destruct r as [x w]. simpl. intros ->. reflexivity. Qed.


Section UpdateExamples.
#[local] Existing Instance IEEEMachine.
#[local] Existing Instance IEEECollaborators.

(** A call in another regime than the one the arena was reserved for
    returns, and the arena keeps its one reservation. *)
Lemma update_regime_change_unreported :
  fst (update 0 (Some 0%nat) (Some 1%nat) 1 mixed_world) = inr tt
  /\ regime (averages mixed_optimizer)
            (casts mixed_optimizer (tensor float32 [1; 2]%Q)) = AverageOnly
  /\ reservations after_float32_call = [[8%N]]
  /\ regime (averages mixed_optimizer)
            (casts mixed_optimizer (tensor float64 [1; 2]%Q)) = CastAndAverage
  /\ arena_bytes CastAndAverage 2 float32 = 24%N
  /\ fst (update 0 (Some 2%nat) (Some 3%nat) 1 after_float32_call) = inr tt
  /\ reservations after_float64_call = [[8%N]]
  /\ stream after_float64_call
     = (stream after_float32_call
       ++ [OpCopyCast 1 3; OpElement 1 []; OpClip 3; OpElement 0 [1%nat];
           OpUpdateAvgParams 4 0 0 1; OpCopyCast 2 0; OpSynchronize 0])%list.
Proof.
  repeat split; vm_compute; reflexivity.
Qed.

Lemma update_sequence_witness :
  objs mixed_world !! 0%nat = Some mixed_optimizer
  /\ OptimizerBase.clipper_ (base mixed_optimizer) = Some (f32 1)
  /\ heap mixed_world !! 2%nat = Some (tensor float64 [1; 2]%Q)
  /\ heap mixed_world !! 3%nat = Some (tensor float64 [1 # 2; 1 # 4]%Q)
  /\ fst (OptimizerBase_update updateImpl 0 (Some 2%nat) (Some 3%nat) 1
            mixed_world) = inr tt
  /\ exists w1 w2 lpm lgd,
       stream w1
       = [OpReserveExact 24; OpAllocate 4 2 float32; OpAllocate 5 2 float32;
          OpAllocate 6 2 float32; OpCopyCast lpm 2; OpCopyCast lgd 3;
          OpElement lgd []; OpClip 3]
       /\ updateImpl 0 (Some lpm) (Some lgd) 1 1 w1 = (inr tt, w2).
Proof.
  assert (Hrun : fst (OptimizerBase_update updateImpl 0 (Some 2%nat)
                        (Some 3%nat) 1 mixed_world) = inr tt)
    by (vm_compute; reflexivity).
  assert (Hc : OptimizerBase.clipper_ (base mixed_optimizer) = Some (f32 1))
    by (vm_compute; reflexivity).
  refine (conj eq_refl (conj Hc (conj eq_refl (conj eq_refl (conj Hrun _))))).
  destruct (update_sequence updateImpl 0 mixed_optimizer (f32 1)
              2 (tensor float64 [1; 2]%Q) 3 (tensor float64 [1 # 2; 1 # 4]%Q)
              1 mixed_world _ eq_refl Hc eq_refl eq_refl
              (run_returns
                 (OptimizerBase_update updateImpl 0 (Some 2%nat) (Some 3%nat) 1
                    mixed_world) tt Hrun))
    as (w1 & w2 & lpm & lgd & ops & Hst & Himpl & _).
  exists w1, w2, lpm, lgd. split; [|exact Himpl].
  vm_compute in Hst. exact Hst.
Defined.

Lemma arena_reserved_once_witness :
  objs after_float32_call !! 0%nat = Some averaging_optimizer
  /\ heap after_float32_call !! 2%nat = Some (tensor float64 [1; 2]%Q)
  /\ heap after_float32_call !! 3%nat = Some (tensor float64 [1 # 2; 1 # 4]%Q)
  /\ fst (OptimizerBase_update updateImpl 0 (Some 2%nat) (Some 3%nat) 1
            after_float32_call) = inr tt
  /\ exists w1 o1,
       objs w1 !! 0%nat = Some o1
       /\ reserved_once averaging_optimizer (tensor float64 [1; 2]%Q)
            after_float32_call w1 o1.
Proof.
  assert (Hrun : fst (OptimizerBase_update updateImpl 0 (Some 2%nat)
                        (Some 3%nat) 1 after_float32_call) = inr tt)
    by (vm_compute; reflexivity).
  assert (Ho : objs after_float32_call !! 0%nat = Some averaging_optimizer)
    by reflexivity.
  assert (Hp : heap after_float32_call !! 2%nat = Some (tensor float64 [1; 2]%Q))
    by reflexivity.
  assert (Hg : heap after_float32_call !! 3%nat
               = Some (tensor float64 [1 # 2; 1 # 4]%Q))
    by reflexivity.
  refine (conj Ho (conj Hp (conj Hg (conj Hrun _)))).
  destruct (proj1 (arena_reserved_once updateImpl 0 averaging_optimizer
                     2 (tensor float64 [1; 2]%Q)
                     3 (tensor float64 [1 # 2; 1 # 4]%Q)
                     1 after_float32_call Ho Hp Hg)
              _ (run_returns
                   (OptimizerBase_update updateImpl 0 (Some 2%nat) (Some 3%nat)
                      1 after_float32_call) tt Hrun))
    as (w1 & w2 & o1 & lpm & lgd & Ho1 & Hres & _).
  exists w1, o1. split; [exact Ho1 | exact Hres].
Defined.
End UpdateExamples.

(** * Further properties of the code *)

(** ** What a call keeps *)

Section Keeping.
Context `{Collaborators}.
Variable R : World -> World -> Prop.

Lemma keeps_ret {A} (a : A) : preorder R -> keeps R (ret a).
Proof. intros [Hrefl _] w. apply Hrefl. Qed.

Lemma keeps_fail {A} e : preorder R -> keeps R (fail e : M A).
Proof. intros [Hrefl _] w. apply Hrefl. Qed.

Lemma keeps_gets {A} (f : World -> A) : preorder R -> keeps R (gets f).
Proof. intros [Hrefl _] w. apply Hrefl. Qed.

Lemma keeps_bind {A B} (m : M A) (k : A -> M B) :
  preorder R -> keeps R m -> (forall a, keeps R (k a)) -> keeps R (bind m k).
Proof.
  intros [_ Htrans] Hm Hk w. unfold bind. specialize (Hm w).
  destruct (m w) as [[e|a] w1]; simpl in *; [exact Hm|].
  eapply Htrans; [exact Hm | apply Hk].
Qed.

Lemma keeps_when (c : bool) (m : M unit) :
  preorder R -> keeps R m -> keeps R (when c m).
Proof. intros HR Hm. destruct c; [exact Hm | apply keeps_ret, HR]. Qed.

Lemma keeps_if {A} (c : bool) (m1 m2 : M A) :
  keeps R m1 -> keeps R m2 -> keeps R (if c then m1 else m2).
Proof. intros H1 H2. destruct c; assumption. Qed.

Lemma keeps_ABORT_IF c msg : preorder R -> keeps R (ABORT_IF c msg).
Proof. intros HR. destruct c; [apply keeps_fail, HR | apply keeps_ret, HR]. Qed.

Lemma keeps_foldM {A S} (body : S -> A -> M S) xs s :
  preorder R -> (forall s x, keeps R (body s x)) -> keeps R (foldM body xs s).
Proof.
  intros HR Hb. revert s. induction xs as [|x xs IH]; intros s; simpl.
  - apply keeps_ret, HR.
  - apply keeps_bind; [exact HR | apply Hb | intros s'; apply IH].
Qed.

Lemma keeps_forM {A B} (body : A -> M B) xs :
  preorder R -> (forall x, keeps R (body x)) -> keeps R (forM xs body).
Proof.
  intros HR Hb. induction xs as [|x xs IH]; simpl.
  - apply keeps_ret, HR.
  - apply keeps_bind; [exact HR | apply Hb | intros y].
    apply keeps_bind; [exact HR | apply IH | intros ys; apply keeps_ret, HR].
Qed.

Lemma keeps_deref t : preorder R -> keeps R (deref t).
Proof.
  intros HR. unfold deref. destruct t; [|apply keeps_fail, HR].
  apply keeps_bind; [exact HR | apply keeps_gets, HR|]. intros h.
  destruct (h !! l); [apply keeps_ret, HR | apply keeps_fail, HR].
Qed.

Lemma keeps_object o : preorder R -> keeps R (object o).
Proof.
  intros HR. unfold object.
  apply keeps_bind; [exact HR | apply keeps_gets, HR|]. intros os.
  destruct (os !! o); [apply keeps_ret, HR | apply keeps_fail, HR].
Qed.

Lemma keeps_member {A} this (f : OptimizerBase.state -> A) :
  preorder R -> keeps R (member this f).
Proof.
  intros HR. unfold member.
  apply keeps_bind; [exact HR | apply keeps_object, HR|].
  intros x. apply keeps_ret, HR.
Qed.

Lemma keeps_as_Adam o : preorder R -> keeps R (as_Adam o).
Proof.
  intros HR. unfold as_Adam.
  apply keeps_bind; [exact HR | apply keeps_object, HR|]. intros x.
  destruct (rule x); first [apply keeps_ret, HR | apply keeps_fail, HR].
Qed.

Lemma keeps_as_Adagrad o : preorder R -> keeps R (as_Adagrad o).
Proof.
  intros HR. unfold as_Adagrad.
  apply keeps_bind; [exact HR | apply keeps_object, HR|]. intros x.
  destruct (rule x); first [apply keeps_ret, HR | apply keeps_fail, HR].
Qed.

Lemma keeps_type t : preorder R -> keeps R (type t).
Proof.
  intros HR. unfold type.
  apply keeps_bind; [exact HR | apply keeps_deref, HR|].
  intros p. apply keeps_ret, HR.
Qed.

Lemma keeps_size t : preorder R -> keeps R (size t).
Proof.
  intros HR. unfold size.
  apply keeps_bind; [exact HR | apply keeps_deref, HR|].
  intros p. apply keeps_ret, HR.
Qed.

Lemma keeps_getBackend t : preorder R -> keeps R (getBackend t).
Proof.
  intros HR. unfold getBackend.
  apply keeps_bind; [exact HR | apply keeps_deref, HR|].
  intros p. apply keeps_ret, HR.
Qed.

Lemma keeps_memory_size t : preorder R -> keeps R (memory_size t).
Proof.
  intros HR. unfold memory_size.
  apply keeps_bind; [exact HR | apply keeps_deref, HR|].
  intros p. apply keeps_ret, HR.
Qed.

Lemma keeps_at {A} (v : list A) i : preorder R -> keeps R (at_ v i).
Proof.
  intros HR. unfold at_.
  destruct (v !! i); [apply keeps_ret, HR | apply keeps_fail, HR].
Qed.

Lemma keeps_allocator a : preorder R -> keeps R (allocator a).
Proof.
  intros HR. unfold allocator. destruct a; [|apply keeps_fail, HR].
  apply keeps_bind; [exact HR | apply keeps_gets, HR|]. intros al.
  destruct (al !! n); [apply keeps_ret, HR | apply keeps_fail, HR].
Qed.
End Keeping.

Section Frame.
Context `{Collaborators}.
Variable P : oid -> Prop.

Lemma rule_kept_refl r : rule_kept r r.
Proof. destruct r; reflexivity. Qed.

Lemma rule_kept_trans r1 r2 r3 :
  rule_kept r1 r2 -> rule_kept r2 r3 -> rule_kept r1 r3.
Proof.
  destruct r1, r2, r3; simpl; try tauto. intros H12 H23. congruence.
Qed.

Lemma frame_refl w : frame P w w.
Proof.
  repeat split; try reflexivity.
  - intros j o Ho. exists o. repeat split; [exact Ho | apply rule_kept_refl].
  - intros l x Hl. exists x. repeat split. exact Hl.
Qed.

Lemma frame_trans w1 w2 w3 : frame P w1 w2 -> frame P w2 w3 -> frame P w1 w3.
Proof.
  intros (Hf & Hn & Ht & Hh) (Hf' & Hn' & Ht' & Hh').
  split; [congruence|]. split; [congruence|]. split.
  - intros j o Ho. destruct (Ht j o Ho) as (o2 & Ho2 & Hs2 & Hr2 & Hp2).
    destruct (Ht' j o2 Ho2) as (o3 & Ho3 & Hs3 & Hr3 & Hp3).
    exists o3. split; [exact Ho3|]. split; [congruence|].
    split; [eapply rule_kept_trans; eassumption|].
    intros Hj. rewrite (Hp3 Hj). apply Hp2, Hj.
  - intros l x Hl. destruct (Hh l x Hl) as (x2 & Hl2 & Hty2 & Hb2 & Hlen2).
    destruct (Hh' l x2 Hl2) as (x3 & Hl3 & Hty3 & Hb3 & Hlen3).
    exists x3. repeat split; congruence.
Qed.

Lemma frame_preorder : preorder (frame P).
Proof. split; [apply frame_refl | apply frame_trans]. Qed.

(** The ways a step changes the world. *)
Lemma frame_heap w w' :
  fs w' = fs w -> objs w' = objs w ->
  (forall l x, heap w !! l = Some x ->
     exists x', heap w' !! l = Some x'
                /\ TensorBase.type_ x' = TensorBase.type_ x
                /\ TensorBase.backend_ x' = TensorBase.backend_ x
                /\ length (TensorBase.data x') = length (TensorBase.data x)) ->
  frame P w w'.
Proof.
  intros Hf Ho Hh. split; [exact Hf|]. rewrite Ho.
  repeat split; try reflexivity; [|exact Hh].
  intros j o Hlo. exists o. repeat split; [exact Hlo | apply rule_kept_refl].
Qed.

Lemma frame_same_heap w w' :
  fs w' = fs w -> objs w' = objs w -> heap w' = heap w -> frame P w w'.
Proof.
  intros Hf Ho Hh. apply frame_heap; [exact Hf | exact Ho |].
  rewrite Hh. intros l x Hl. exists x. repeat split. exact Hl.
Qed.

Lemma frame_alter w l x v s' :
  heap w !! l = Some x ->
  length v = length (TensorBase.data x) ->
  frame P w
    (set_stream s' (set_heap (alter (TensorBase.with_data v) l (heap w)) w)).
Proof.
  intros Hl Hv. apply frame_heap; [reflexivity | reflexivity |].
  intros l' x' Hl'. simpl.
  destruct (decide (l' = l)) as [->|Hne].
  - rewrite Hl in Hl'. injection Hl' as <-.
    exists (TensorBase.with_data v x). repeat split; [|exact Hv].
    rewrite list_lookup_alter_eq, Hl. reflexivity.
  - exists x'. repeat split.
    rewrite list_lookup_alter_ne by (apply not_eq_sym; exact Hne). exact Hl'.
Qed.

Lemma frame_objs w this (g : Optimizer -> Optimizer) :
  P this ->
  (forall o, settings (base (g o)) = settings (base o)
             /\ rule_kept (rule o) (rule (g o))) ->
  frame P w (set_objs (alter g this (objs w)) w).
Proof.
  intros Hthis Hg. split; [reflexivity|]. split; [apply length_alter|]. split.
  - intros j o Ho. cbn [objs set_objs].
    destruct (decide (j = this)) as [->|Hne].
    + exists (g o). split.
      * transitivity (g <$> objs w !! this); [apply list_lookup_alter_eq|].
        rewrite Ho. reflexivity.
      * split; [apply Hg|]. split; [apply Hg|]. intros Hn. contradiction.
    + exists o. split.
      * rewrite list_lookup_alter_ne by (apply not_eq_sym; exact Hne). exact Ho.
      * split; [reflexivity|]. split; [apply rule_kept_refl | reflexivity].
  - intros l x Hl. exists x. repeat split. exact Hl.
Qed.

Lemma frame_issue op : keeps (frame P) (issue op).
Proof. intros w. apply frame_same_heap; reflexivity. Qed.

Lemma frame_assign this f :
  P this -> (forall b, settings (f b) = settings b) ->
  keeps (frame P) (assign this f).
Proof.
  intros Hthis Hf w. apply frame_objs; [exact Hthis|].
  intros o. split; [apply Hf | apply rule_kept_refl].
Qed.

Lemma frame_assign_Adagrad this f :
  P this -> keeps (frame P) (assign_Adagrad this f).
Proof.
  intros Hthis w. apply frame_objs; [exact Hthis|]. intros [b r].
  destruct r; simpl; split; reflexivity || exact I.
Qed.

Lemma frame_assign_Adam this f :
  P this ->
  (forall s, (Adam.beta1_ (f s), Adam.beta2_ (f s), Adam.eps_ (f s),
              Adam.w_ (f s), Adam.t_ (f s))
             = (Adam.beta1_ s, Adam.beta2_ s, Adam.eps_ s, Adam.w_ s,
                Adam.t_ s)) ->
  keeps (frame P) (assign_Adam this f).
Proof.
  intros Hthis Hf w. apply frame_objs; [exact Hthis|]. intros [b r].
  destruct r; simpl; split; first [reflexivity | exact I | apply Hf].
Qed.

Lemma frame_New_TensorAllocator b : keeps (frame P) (New_TensorAllocator b).
Proof. intros w. apply frame_same_heap; reflexivity. Qed.

Lemma frame_reserveExact a bytes : keeps (frame P) (reserveExact a bytes).
Proof.
  unfold reserveExact.
  apply keeps_bind;
    [apply frame_preorder | apply keeps_allocator, frame_preorder |].
  intros [n x] w. apply frame_same_heap; reflexivity.
Qed.

Lemma frame_allocate a shape ty : keeps (frame P) (allocate a shape ty).
Proof.
  unfold allocate.
  apply keeps_bind;
    [apply frame_preorder | apply keeps_allocator, frame_preorder |].
  intros [n x] w. apply frame_heap; [reflexivity | reflexivity |].
  intros l y Hl. exists y. repeat split.
  simpl. apply lookup_app_l_Some. exact Hl.
Qed.

(** A step that reads tensors, checks them and writes as many cells as the
    tensor it writes to has. *)
Lemma frame_written w l x v op :
  heap w !! l = Some x -> length v = length (TensorBase.data x) ->
  frame P w (snd ((write l v ;; issue op) w)).
Proof. intros Hl Hv. apply (frame_alter w l x v _ Hl Hv). Qed.

Lemma deref_fail t w e w1 : deref t w = (inl e, w1) -> w1 = w.
Proof.
  destruct t as [l|]; [|intros [= _ <-]; reflexivity].
  unfold deref, bind, gets, ret, undefined, fail.
  destruct (heap w !! l); [intros [=] | intros [= _ <-]; reflexivity].
Qed.

Lemma frame_deref_at {A} t (k : loc * TensorBase.t -> M A) w :
  (forall l x, heap w !! l = Some x ->
     frame P w (snd (k (l, x) w))) ->
  frame P w (snd ((p <- deref t ;; k p) w)).
Proof.
  intros Hk. unfold bind.
  destruct (deref t w) as [[e|[l x]] w1] eqn:E.
  - apply deref_fail in E as ->. apply frame_refl.
  - apply deref_inv in E as (-> & _ & E). apply Hk, E.
Qed.

Lemma frame_Element1 f out : keeps (frame P) (Element1 f out).
Proof.
  intros w. unfold Element1. apply frame_deref_at. intros l x Hl.
  apply (frame_written w l x _ _ Hl). apply length_map.
Qed.

Lemma frame_Element2 f out in1 :
  keeps (frame P) (Element2 f out in1).
Proof.
  intros w. unfold Element2. apply frame_deref_at. intros l x Hl.
  apply frame_deref_at. intros l1 x1 Hl1.
  destruct (bool_decide_reflect
              (length (TensorBase.data x1) = length (TensorBase.data x)))
    as [Hlen|Hlen]; [|apply frame_refl].
  apply (frame_written w l x _ _ Hl). rewrite length_zip_with. lia.
Qed.

Lemma frame_Element3 f out in1 in2 :
  keeps (frame P) (Element3 f out in1 in2).
Proof.
  intros w. unfold Element3. apply frame_deref_at. intros l x Hl.
  apply frame_deref_at. intros l1 x1 Hl1.
  apply frame_deref_at. intros l2 x2 Hl2.
  destruct (bool_decide_reflect
              (length (TensorBase.data x1) = length (TensorBase.data x)
               /\ length (TensorBase.data x2) = length (TensorBase.data x)))
    as [[Hlen1 Hlen2]|Hlen]; [|apply frame_refl].
  apply (frame_written w l x _ _ Hl).
  unfold zip_with3. rewrite length_zip_with, length_zip. lia.
Qed.

Lemma frame_CopyCast dst src : keeps (frame P) (CopyCast dst src).
Proof.
  intros w. unfold CopyCast. apply frame_deref_at. intros l x Hl.
  apply frame_deref_at. intros l1 x1 Hl1.
  destruct (bool_decide_reflect
              (length (TensorBase.data x1) = length (TensorBase.data x)))
    as [Hlen|Hlen]; [|apply frame_refl].
  apply (frame_written w l x _ _ Hl). rewrite length_map. exact Hlen.
Qed.

Lemma frame_clip c t : keeps (frame P) (clip c t).
Proof.
  intros w. unfold clip. apply frame_deref_at. intros l x Hl.
  apply (frame_written w l x _ _ Hl). apply clip_values_length.
Qed.

Lemma frame_updateAvgParams avg pm batches mbSize :
  keeps (frame P) (updateAvgParams avg pm batches mbSize).
Proof.
  intros w. unfold updateAvgParams. apply frame_deref_at. intros l x Hl.
  apply frame_deref_at. intros l1 x1 Hl1.
  apply (frame_written w l x _ _ Hl). apply avg_values_length.
Qed.

Lemma frame_set_value t v : keeps (frame P) (set_value t v).
Proof.
  intros w. unfold set_value. apply frame_deref_at. intros l x Hl.
  apply (frame_written w l x _ _ Hl). apply length_replicate.
Qed.

Lemma frame_synchronize b : keeps (frame P) (synchronize b).
Proof. apply frame_issue. Qed.

End Frame.

Ltac frame_step :=
  lazymatch goal with
  | |- forall _ : _ * _, _ => intros [? ?]
  | |- forall _, _ => intros ?
  | |- keeps _ (bind _ _) => apply keeps_bind; [apply frame_preorder | |]
  | |- keeps _ (when _ _) => apply keeps_when; [apply frame_preorder|]
  | |- keeps _ (if _ then _ else _) => apply keeps_if
  | |- keeps _ (match ?x with _ => _ end) => destruct x
  | |- keeps _ (ret _) => apply keeps_ret, frame_preorder
  | |- keeps _ (ABORT_IF _ _) => apply keeps_ABORT_IF, frame_preorder
  | |- keeps _ (member _ _) => apply keeps_member, frame_preorder
  | |- keeps _ (object _) => apply keeps_object, frame_preorder
  | |- keeps _ (as_Adam _) => apply keeps_as_Adam, frame_preorder
  | |- keeps _ (as_Adagrad _) => apply keeps_as_Adagrad, frame_preorder
  | |- keeps _ (type _) => apply keeps_type, frame_preorder
  | |- keeps _ (size _) => apply keeps_size, frame_preorder
  | |- keeps _ (getBackend _) => apply keeps_getBackend, frame_preorder
  | |- keeps _ (memory_size _) => apply keeps_memory_size, frame_preorder
  | |- keeps _ (issue _) => apply frame_issue
  | |- keeps _ (synchronize _) => apply frame_synchronize
  | |- keeps _ (assign _ _) =>
      apply frame_assign; [reflexivity | intros ?; reflexivity]
  | |- keeps _ (assign_Adagrad _ _) =>
      apply frame_assign_Adagrad; reflexivity
  | |- keeps _ (assign_Adam _ _) =>
      apply frame_assign_Adam; [reflexivity | intros ?; reflexivity]
  | |- keeps _ (New_TensorAllocator _) => apply frame_New_TensorAllocator
  | |- keeps _ (reserveExact _ _) => apply frame_reserveExact
  | |- keeps _ (allocate _ _ _) => apply frame_allocate
  | |- keeps _ (Element1 _ _) => apply frame_Element1
  | |- keeps _ (Element2 _ _ _) => apply frame_Element2
  | |- keeps _ (Element3 _ _ _ _) => apply frame_Element3
  | |- keeps _ (CopyCast _ _) => apply frame_CopyCast
  | |- keeps _ (clip _ _) => apply frame_clip
  | |- keeps _ (updateAvgParams _ _ _ _) => apply frame_updateAvgParams
  | |- keeps _ (set_value _ _) => apply frame_set_value
  | |- keeps _ (let _ := _ in _) => cbv zeta
  end.


Section UpdateFrame.
Context `{Collaborators}.

Lemma frame_updateImpl this params grads actual ref :
  keeps (update_frame this) (updateImpl this params grads actual ref).
Proof.
  unfold update_frame, updateImpl, Sgd_updateImpl, Adagrad_updateImpl,
    Adam_updateImpl.
  repeat frame_step.
Qed.

(** X3.  Whatever [update] does and however it ends, it writes no file, changes
    no other optimizer, keeps the settings of its own and the
    hyper-parameters of Adam, and leaves every tensor with its type, its
    backend and its number of cells. *)
Theorem update_keeps_frame this params grads mbSize w :
  update_frame this w (snd (update this params grads mbSize w)).
Proof.
  revert w. change (keeps (update_frame this) (update this params grads mbSize)).
  unfold update_frame, update, OptimizerBase_update.
  repeat frame_step. apply frame_updateImpl.
Qed.
End UpdateFrame.

(** ** The cells of a tensor *)

Section Cells.
Context `{Collaborators}.

Lemma set_vector_ok l x v w :
  heap w !! l = Some x -> TensorBase.type_ x = float32 ->
  (length v <= length (TensorBase.data x))%nat ->
  set_vector (Some l) v w =
  (inr tt, written l x (v ++ drop (length v) (TensorBase.data x)) (OpSet l) w).
Proof.
  intros Hl Hty Hlen. unfold set_vector.
  erewrite bind_ok by (apply deref_ok; eassumption). cbv beta iota.
  unfold matchOrAbort_float, ABORT_IF. rewrite Hty.
  rewrite bool_decide_false by (intros Hne; apply Hne; reflexivity).
  erewrite bind_ok by reflexivity.
  rewrite bool_decide_true by exact Hlen.
  apply write_issue_ok, Hl.
Qed.

(** X4.  [set(v)] then [get(out)]: the first [|v|] cells are those of [v], the
    others are kept; a vector longer than the tensor is a copy past its end,
    and a tensor of another type than float32 aborts both. *)
Theorem set_vector_get_vector l x v w :
  heap w !! l = Some x ->
  (TensorBase.type_ x = float32 ->
   (length v <= length (TensorBase.data x))%nat ->
   fst ((set_vector (Some l) v ;; get_vector (Some l)) w)
   = inr (v ++ drop (length v) (TensorBase.data x)))
  /\ (TensorBase.type_ x = float32 ->
      (length (TensorBase.data x) < length v)%nat ->
      set_vector (Some l) v w
      = (inl (Undefined "copy past the end of the tensor"), w))
  /\ (TensorBase.type_ x <> float32 ->
      set_vector (Some l) v w
      = (inl (Abort "Requested type and underlying type do not match"), w)
      /\ get_vector (Some l) w
         = (inl (Abort "Requested type and underlying type do not match"), w)).
Proof.
  intros Hl. split; [|split].
  - intros Hty Hlen.
    erewrite bind_ok by (apply set_vector_ok; eassumption).
    rewrite (get_vector_ok l
               (TensorBase.with_data
                  (v ++ drop (length v) (TensorBase.data x)) x));
      [reflexivity | | exact Hty].
    unfold written. cbn [heap set_stream set_heap].
    apply list_lookup_insert_eq. eapply lookup_lt_Some, Hl.
  - intros Hty Hlen. unfold set_vector.
    erewrite bind_ok by (apply deref_ok; eassumption). cbv beta iota.
    unfold matchOrAbort_float, ABORT_IF. rewrite Hty.
    rewrite bool_decide_false by (intros Hne; apply Hne; reflexivity).
    erewrite bind_ok by reflexivity.
    rewrite bool_decide_false by lia. reflexivity.
  - intros Hty. split.
    + unfold set_vector.
      erewrite bind_ok by (apply deref_ok; eassumption). cbv beta iota.
      unfold matchOrAbort_float, ABORT_IF.
      rewrite bool_decide_true by exact Hty. reflexivity.
    + unfold get_vector.
      erewrite bind_ok by (apply deref_ok; eassumption). cbv beta iota.
      unfold matchOrAbort_float, ABORT_IF.
      rewrite bool_decide_true by exact Hty. reflexivity.
Qed.

Lemma matchOrAbort_float_ok ty w :
  ty = float32 -> matchOrAbort_float ty w = (inr tt, w).
Proof.
  intros ->. unfold matchOrAbort_float, ABORT_IF.
  rewrite bool_decide_false by (intros Hne; apply Hne; reflexivity).
  reflexivity.
Qed.

Lemma matchOrAbort_float_abort ty w :
  ty <> float32 ->
  matchOrAbort_float ty w
  = (inl (Abort "Requested type and underlying type do not match"), w).
Proof.
  intros Hty. unfold matchOrAbort_float, ABORT_IF.
  rewrite bool_decide_true by exact Hty. reflexivity.
Qed.

Lemma get_at_run l x i w :
  heap w !! l = Some x -> TensorBase.type_ x = float32 ->
  get_at (Some l) i w
  = (match TensorBase.data x !! N.to_nat i with
     | Some v => inr v
     | None => inl (Undefined "read past the end of the tensor")
     end, set_stream (stream w ++ [OpGet l]) w).
Proof.
  intros Hl Hty. unfold get_at.
  erewrite bind_ok by (apply deref_ok; eassumption). cbv beta iota.
  erewrite bind_ok by (apply matchOrAbort_float_ok, Hty).
  erewrite bind_ok by reflexivity.
  destruct (TensorBase.data x !! N.to_nat i); reflexivity.
Qed.

Lemma set_at_ok l x i value w :
  heap w !! l = Some x -> TensorBase.type_ x = float32 ->
  (N.to_nat i < length (TensorBase.data x))%nat ->
  set_at (Some l) i value w
  = (inr tt, written l x (<[N.to_nat i := value]> (TensorBase.data x))
               (OpSet l) w).
Proof.
  intros Hl Hty Hi. unfold set_at.
  erewrite bind_ok by (apply deref_ok; eassumption). cbv beta iota.
  erewrite bind_ok by (apply matchOrAbort_float_ok, Hty).
  rewrite bool_decide_true by exact Hi.
  apply write_issue_ok, Hl.
Qed.

(** X5.  [set(i, value)] on a float32 tensor with a cell [i]: [get(i)] then
    returns [value], and [get(j)] of any other [j] returns or fails as
    before.  Without a cell [i] the store is past the end; on a tensor of
    another type both abort. *)
Theorem set_at_get_at l x i value w :
  heap w !! l = Some x ->
  (TensorBase.type_ x = float32 ->
   (N.to_nat i < length (TensorBase.data x))%nat ->
   fst ((set_at (Some l) i value ;; get_at (Some l) i) w) = inr value
   /\ forall j, j <> i ->
        fst ((set_at (Some l) i value ;; get_at (Some l) j) w)
        = fst (get_at (Some l) j w))
  /\ (TensorBase.type_ x = float32 ->
      (length (TensorBase.data x) <= N.to_nat i)%nat ->
      set_at (Some l) i value w
      = (inl (Undefined "write past the end of the tensor"), w))
  /\ (TensorBase.type_ x <> float32 ->
      set_at (Some l) i value w
      = (inl (Abort "Requested type and underlying type do not match"), w)
      /\ get_at (Some l) i w
         = (inl (Abort "Requested type and underlying type do not match"), w)).
Proof.
  intros Hl. split; [|split].
  - intros Hty Hi.
    assert (Hl' : forall s,
      heap (written l x (<[N.to_nat i := value]> (TensorBase.data x)) s w) !! l
      = Some (TensorBase.with_data (<[N.to_nat i := value]> (TensorBase.data x)) x)).
    { intros s. unfold written. cbn [heap set_stream set_heap].
      apply list_lookup_insert_eq. eapply lookup_lt_Some, Hl. }
    split.
    + erewrite bind_ok by (apply set_at_ok; eassumption).
      rewrite (get_at_run l _ i _ (Hl' _) Hty). cbn [fst TensorBase.data TensorBase.with_data].
      rewrite list_lookup_insert_eq by exact Hi. reflexivity.
    + intros j Hne.
      erewrite bind_ok by (apply set_at_ok; eassumption).
      rewrite (get_at_run l _ j _ (Hl' _) Hty), (get_at_run l x j w Hl Hty).
      cbn [fst TensorBase.data TensorBase.with_data].
      rewrite list_lookup_insert_ne by (intros Heq; apply Hne, N2Nat.inj; congruence).
      reflexivity.
  - intros Hty Hi. unfold set_at.
    erewrite bind_ok by (apply deref_ok; eassumption). cbv beta iota.
    erewrite bind_ok by (apply matchOrAbort_float_ok, Hty).
    rewrite bool_decide_false by lia. reflexivity.
  - intros Hty. split.
    + unfold set_at.
      erewrite bind_ok by (apply deref_ok; eassumption). cbv beta iota.
      erewrite bind_fail by (apply matchOrAbort_float_abort, Hty). reflexivity.
    + unfold get_at.
      erewrite bind_ok by (apply deref_ok; eassumption). cbv beta iota.
      erewrite bind_fail by (apply matchOrAbort_float_abort, Hty). reflexivity.
Qed.

(** X6.  [scalar()] checks the type first and the size second: a tensor of
    another type than float32 aborts for the type whatever its size, a
    float32 tensor of another size than one cell aborts as no scalar, and
    one of a single cell gives that cell. *)
Theorem scalar_checks l x w :
  heap w !! l = Some x ->
  (TensorBase.type_ x <> float32 ->
   scalar (Some l) w
   = (inl (Abort "Requested type and underlying type do not match"), w))
  /\ (TensorBase.type_ x = float32 ->
      length (TensorBase.data x) <> 1%nat ->
      scalar (Some l) w = (inl (Abort "Tensor is not a scalar"), w))
  /\ (forall v, TensorBase.type_ x = float32 ->
      TensorBase.data x = [v] ->
      scalar (Some l) w = (inr v, set_stream (stream w ++ [OpGet l]) w)).
Proof.
  intros Hl. unfold scalar. split; [|split].
  - intros Hty.
    erewrite bind_ok by (apply type_ok; eassumption).
    erewrite bind_fail by (apply matchOrAbort_float_abort, Hty). reflexivity.
  - intros Hty Hlen.
    erewrite bind_ok by (apply type_ok; eassumption).
    erewrite bind_ok by (apply matchOrAbort_float_ok, Hty).
    erewrite bind_ok by (apply size_ok; eassumption).
    unfold TensorBase.size, ABORT_IF.
    destruct (N.eqb_spec (N.of_nat (length (TensorBase.data x))) 1) as [E|E].
    + exfalso. apply Hlen. lia.
    + reflexivity.
  - intros v Hty Hv.
    erewrite bind_ok by (apply type_ok; eassumption).
    erewrite bind_ok by (apply matchOrAbort_float_ok, Hty).
    erewrite bind_ok by (apply size_ok; eassumption).
    unfold TensorBase.size. rewrite Hv. cbn [length N.of_nat].
    erewrite bind_ok by reflexivity.
    rewrite (get_at_run l x 0 w Hl Hty), Hv. reflexivity.
Qed.

Lemma foldM_map {A B S} (body : S -> B -> M S) (f : A -> B) xs s w :
  foldM body (map f xs) s w = foldM (fun s x => body s (f x)) xs s w.
Proof.
  revert s w. induction xs as [|x xs IH]; intros s w; simpl; [reflexivity|].
  unfold bind. destruct (body s (f x) w) as [[e|s'] w1]; [reflexivity|].
  apply IH.
Qed.

Lemma sparse_stores_length k v d :
  length (sparse_stores k v d) = length d.
Proof.
  revert v d. induction k as [|ki k IH]; intros [|vi v] d; simpl;
    try reflexivity.
  rewrite IH. apply length_insert.
Qed.

Lemma sparse_stores_lookup k v d j :
  Forall (fun ki => (N.to_nat ki < length d)%nat) k ->
  sparse_stores k v d !! j
  = match last_write k v j with Some y => Some y | None => d !! j end.
Proof.
  revert v d. induction k as [|ki k IH]; intros [|vi v] d Hk; simpl;
    try reflexivity.
  inversion Hk as [|? ? Hki Hk']; subst.
  rewrite IH by (rewrite length_insert; exact Hk').
  destruct (last_write k v j); [reflexivity|].
  destruct (decide (N.to_nat ki = j)) as [<-|Hne].
  - apply list_lookup_insert_eq, Hki.
  - apply list_lookup_insert_ne, Hne.
Qed.

Lemma setSparse_loop l k : forall v x w,
  heap w !! l = Some x ->
  (length k <= length v)%nat ->
  Forall (fun ki => (N.to_nat ki < length (TensorBase.data x))%nat) k ->
  foldM (fun _ i =>
           ki <- at_ k i ;;
           vi <- at_ v i ;;
           x <- deref (Some l) ;;
           if bool_decide (N.to_nat ki < length (TensorBase.data (snd x)))%nat
           then write l (<[N.to_nat ki := vi]> (TensorBase.data (snd x)))
           else undefined "write past the end of the tensor")
        (seq 0 (length k)) tt w
  = (inr tt,
     set_heap (<[l := TensorBase.with_data
                        (sparse_stores k v (TensorBase.data x)) x]> (heap w))
              w).
Proof.
  induction k as [|ki k IH]; intros v x w Hl Hlen Hk.
  - simpl. unfold ret. f_equal. destruct w as [h al os f st]. unfold set_heap.
    cbn [heap allocators objs fs stream] in *. f_equal.
    symmetry. apply list_insert_id.
    etransitivity; [exact Hl|]. destruct x; reflexivity.
  - destruct v as [|vi v]; [simpl in Hlen; lia|].
    inversion Hk as [|? ? Hki Hk']; subst.
    cbn [length seq foldM].
    unfold at_ at 1 2. cbn [lookup list_lookup].
    erewrite bind_ok; cycle 1.
    { erewrite bind_ok by reflexivity. erewrite bind_ok by reflexivity.
      erewrite bind_ok by (apply deref_ok; eassumption). cbn [snd].
      rewrite bool_decide_true by exact Hki.
      unfold write, modify. erewrite alter_insert by eassumption.
      reflexivity. }
    rewrite <- seq_shift, foldM_map.
    erewrite (IH v (TensorBase.with_data (<[N.to_nat ki := vi]> (TensorBase.data x)) x)).
    + f_equal. unfold set_heap. cbn [heap allocators objs fs stream].
      f_equal. cbn [TensorBase.data TensorBase.with_data sparse_stores TensorBase.type_ TensorBase.backend_].
      unfold TensorBase.with_data. cbn.
      apply insert_insert_same.
    + cbn [heap set_heap]. apply list_lookup_insert_eq. eapply lookup_lt_Some, Hl.
    + simpl in Hlen. lia.
    + cbn [TensorBase.data TensorBase.with_data]. rewrite length_insert. exact Hk'.
Qed.

(** X7.  [setSparse(k, v)] on a float32 tensor, with a [v[i]] for every [k[i]]
    and every [k[i]] a cell of the tensor: the call returns, the tensor
    keeps its size, a cell that is no [k[i]] keeps its value, and a cell
    that is one holds the [v[i]] of the last such [i].  A tensor of another
    type is not written. *)
Theorem setSparse_last_write l x k v w :
  heap w !! l = Some x ->
  (TensorBase.type_ x = float32 ->
   (length k <= length v)%nat ->
   Forall (fun ki => (N.to_nat ki < length (TensorBase.data x))%nat) k ->
   exists cells,
     setSparse (Some l) k v w = (inr tt, written l x cells (OpSet l) w)
     /\ length cells = length (TensorBase.data x)
     /\ forall j,
          cells !! j = match last_write k v j with
                       | Some y => Some y
                       | None => TensorBase.data x !! j
                       end)
  /\ (TensorBase.type_ x <> float32 ->
      setSparse (Some l) k v w
      = (inl (Abort "Requested type ({}) and underlying type ({}) do not match"),
         w)).
Proof.
  intros Hl. split.
  - intros Hty Hlen Hk.
    exists (sparse_stores k v (TensorBase.data x)).
    split; [|split].
    + unfold setSparse.
      erewrite bind_ok by (apply deref_ok; eassumption). cbv beta iota.
      erewrite bind_ok by (apply type_ok; eassumption).
      unfold ABORT_IF. rewrite Hty.
      rewrite bool_decide_false by (intros Hne; apply Hne; reflexivity).
      erewrite bind_ok by reflexivity.
      erewrite bind_ok by (apply setSparse_loop; eassumption).
      reflexivity.
    + apply sparse_stores_length.
    + intros j. apply sparse_stores_lookup, Hk.
  - intros Hty. unfold setSparse.
    erewrite bind_ok by (apply deref_ok; eassumption). cbv beta iota.
    erewrite bind_ok by (apply type_ok; eassumption).
    unfold ABORT_IF. rewrite bool_decide_true by exact Hty. reflexivity.
Qed.
End Cells.

Section SaveFrame.
Context `{Collaborators}.

Lemma same_state_preorder : preorder same_state.
Proof.
  split.
  - intros w. repeat split.
  - intros w1 w2 w3 (Hh & Ha & Ho) (Hh' & Ha' & Ho').
    repeat split; congruence.
Qed.

Lemma same_state_issue op : keeps same_state (issue op).
Proof. intros w. repeat split. Qed.

Lemma same_state_get_vector t : keeps same_state (get_vector t).
Proof.
  unfold get_vector.
  apply keeps_bind;
    [apply same_state_preorder | apply keeps_deref, same_state_preorder |].
  intros [l x].
  apply keeps_bind;
    [apply same_state_preorder | apply keeps_ABORT_IF, same_state_preorder |].
  intros _.
  apply keeps_bind; [apply same_state_preorder | apply same_state_issue |].
  intros _. apply keeps_ret, same_state_preorder.
Qed.

Lemma same_state_io_saveItems name items :
  keeps same_state (io_saveItems name items).
Proof. intros w. repeat split. Qed.
End SaveFrame.

Ltac same_state_step :=
  lazymatch goal with
  | |- forall _ : _ * _, _ => intros [? ?]
  | |- forall _, _ => intros ?
  | |- keeps _ (bind _ _) => apply keeps_bind; [apply same_state_preorder | |]
  | |- keeps _ (when _ _) => apply keeps_when; [apply same_state_preorder|]
  | |- keeps _ (if _ then _ else _) => apply keeps_if
  | |- keeps _ (match ?x with _ => _ end) => destruct x
  | |- keeps _ (ret _) => apply keeps_ret, same_state_preorder
  | |- keeps _ (object _) => apply keeps_object, same_state_preorder
  | |- keeps _ (as_Adam _) => apply keeps_as_Adam, same_state_preorder
  | |- keeps _ (as_Adagrad _) => apply keeps_as_Adagrad, same_state_preorder
  | |- keeps _ (at_ _ _) => apply keeps_at, same_state_preorder
  | |- keeps _ (forM _ _) => apply keeps_forM; [apply same_state_preorder|]
  | |- keeps _ (issue _) => apply same_state_issue
  | |- keeps _ (LOG _ _) => apply same_state_issue
  | |- keeps _ (get_vector _) => apply same_state_get_vector
  | |- keeps _ (io_saveItems _ _) => apply same_state_io_saveItems
  | |- keeps _ (let _ := _ in _) => cbv zeta
  end.

Section SaveTheorem.
Context `{Collaborators}.

(** X8.  [save], as the main process or not and however it ends, reads: the
    tensors, the allocators and the optimizers are what they were. *)
Theorem save_keeps_state this name opts gatherFn isMainProcess w :
  same_state w (snd (save this name opts gatherFn isMainProcess w)).
Proof.
  revert w.
  change (keeps same_state (save this name opts gatherFn isMainProcess)).
  unfold save, Adagrad_save, Adam_save, call_gather.
  repeat same_state_step.
Qed.
End SaveTheorem.

Section LoadFrame.
Context `{Collaborators}.
Variable R : World -> World -> Prop.

Lemma keeps_bind_at {A B} (v : list A) i (k : A -> M B) :
  preorder R ->
  (forall a, v !! i = Some a -> keeps R (k a)) ->
  keeps R (a <- at_ v i ;; k a).
Proof.
  intros HR Hk w. unfold bind, at_.
  destruct (v !! i) as [a|]; [apply (Hk a eq_refl) | apply HR].
Qed.

Lemma keeps_filesystem_exists name :
  preorder R -> keeps R (filesystem_exists name).
Proof. intros HR. apply keeps_gets, HR. Qed.

Lemma keeps_io_loadItems name : preorder R -> keeps R (io_loadItems name).
Proof.
  intros HR. unfold io_loadItems.
  apply keeps_bind; [exact HR | apply keeps_gets, HR |]. intros f.
  destruct (f !! name); [apply keeps_ret, HR | apply keeps_fail, HR].
Qed.

Lemma keeps_copy_n {A} n (p : list A) : preorder R -> keeps R (copy_n n p).
Proof.
  intros HR. unfold copy_n.
  destruct (bool_decide _); [apply keeps_ret, HR | apply keeps_fail, HR].
Qed.
End LoadFrame.

Section LoadFrame2.
Context `{Collaborators}.
Variable P : oid -> Prop.

Lemma frame_set_vector t v : keeps (frame P) (set_vector t v).
Proof.
  intros w. unfold set_vector. apply frame_deref_at. intros l x Hl.
  unfold matchOrAbort_float, ABORT_IF.
  destruct (bool_decide (TensorBase.type_ x <> float32));
    [apply frame_refl|].
  erewrite bind_ok by reflexivity.
  destruct (bool_decide_reflect
              (length v <= length (TensorBase.data x))%nat) as [Hlen|Hlen];
    [|apply frame_refl].
  apply (frame_written P w l x _ _ Hl).
  rewrite length_app, length_drop. lia.
Qed.
End LoadFrame2.

Ltac frame_member :=
  first [ reflexivity
        | right; reflexivity
        | left; eapply list_elem_of_lookup_2; eassumption ].

Ltac frame_step2 :=
  lazymatch goal with
  | |- forall _ : _ * _ * _, _ => intros [[? ?] ?]
  | |- forall _ : _ * _, _ => intros [? ?]
  | |- forall _, _ => intros ?
  | |- keeps _ (bind (at_ _ _) _) =>
      apply keeps_bind_at; [apply frame_preorder | intros ? ?]
  | |- keeps _ (bind _ _) => apply keeps_bind; [apply frame_preorder | |]
  | |- keeps _ (when _ _) => apply keeps_when; [apply frame_preorder|]
  | |- keeps _ (if _ then _ else _) => apply keeps_if
  | |- keeps _ (match ?x with _ => _ end) => destruct x
  | |- keeps _ (ret _) => apply keeps_ret, frame_preorder
  | |- keeps _ (ABORT_IF _ _) => apply keeps_ABORT_IF, frame_preorder
  | |- keeps _ (member _ _) => apply keeps_member, frame_preorder
  | |- keeps _ (object _) => apply keeps_object, frame_preorder
  | |- keeps _ (as_Adam _) => apply keeps_as_Adam, frame_preorder
  | |- keeps _ (as_Adagrad _) => apply keeps_as_Adagrad, frame_preorder
  | |- keeps _ (type _) => apply keeps_type, frame_preorder
  | |- keeps _ (size _) => apply keeps_size, frame_preorder
  | |- keeps _ (getBackend _) => apply keeps_getBackend, frame_preorder
  | |- keeps _ (memory_size _) => apply keeps_memory_size, frame_preorder
  | |- keeps _ (at_ _ _) => apply keeps_at, frame_preorder
  | |- keeps _ (copy_n _ _) => apply keeps_copy_n, frame_preorder
  | |- keeps _ (filesystem_exists _) =>
      apply keeps_filesystem_exists, frame_preorder
  | |- keeps _ (io_loadItems _) => apply keeps_io_loadItems, frame_preorder
  | |- keeps _ (foldM _ _ _) => apply keeps_foldM; [apply frame_preorder|]
  | |- keeps _ (issue _) => apply frame_issue
  | |- keeps _ (LOG _ _) => apply frame_issue
  | |- keeps _ (synchronize _) => apply frame_synchronize
  | |- keeps _ (assign _ _) =>
      apply frame_assign; [frame_member | intros ?; reflexivity]
  | |- keeps _ (assign_Adagrad _ _) =>
      apply frame_assign_Adagrad; frame_member
  | |- keeps _ (assign_Adam _ _) =>
      apply frame_assign_Adam; [frame_member | intros ?; reflexivity]
  | |- keeps _ (New_TensorAllocator _) => apply frame_New_TensorAllocator
  | |- keeps _ (reserveExact _ _) => apply frame_reserveExact
  | |- keeps _ (allocate _ _ _) => apply frame_allocate
  | |- keeps _ (Element1 _ _) => apply frame_Element1
  | |- keeps _ (Element2 _ _ _) => apply frame_Element2
  | |- keeps _ (Element3 _ _ _ _) => apply frame_Element3
  | |- keeps _ (CopyCast _ _) => apply frame_CopyCast
  | |- keeps _ (clip _ _) => apply frame_clip
  | |- keeps _ (updateAvgParams _ _ _ _) => apply frame_updateAvgParams
  | |- keeps _ (set_value _ _) => apply frame_set_value
  | |- keeps _ (set_vector _ _) => apply frame_set_vector
  | |- keeps _ (let _ := _ in _) => cbv zeta
  end.

Section LoadTheorem.
Context `{Collaborators}.

(** X9.  [load], however it ends, writes no file; of the optimizers it changes
    at most those of [opts] and [this], and of those neither the settings
    of the base class nor the hyper-parameters of Adam; and every tensor
    that was there keeps its type, its backend and its number of cells. *)
Theorem load_keeps_frame this vDenoms0 name opts backends scatterFn w :
  load_frame this opts w
    (snd (load this vDenoms0 name opts backends scatterFn w)).
Proof.
  revert w.
  change (keeps (load_frame this opts)
            (load this vDenoms0 name opts backends scatterFn)).
  unfold load_frame, load, Adagrad_load, Adam_load, call_scatter.
  repeat frame_step2.
Qed.

(** [resetStats], however it ends, stays in the frame of [update]. *)
Lemma resetStats_keeps_frame this w :
  update_frame this w (snd (resetStats this w)).
Proof.
  revert w. change (keeps (update_frame this) (resetStats this)).
  unfold update_frame, resetStats, Adagrad_resetStats, Adam_resetStats.
  repeat frame_step2.
Qed.
End LoadTheorem.

Section CellExamples.
#[local] Existing Instance IEEEMachine.
#[local] Existing Instance IEEECollaborators.

Lemma set_vector_get_vector_witness :
  heap sgd_world !! 0%nat = Some (tensor float32 [1; 2]%Q)
  /\ fst ((set_vector (Some 0%nat) [f32 3] ;; get_vector (Some 0%nat)) sgd_world)
     = inr ([f32 3] ++ drop 1 (TensorBase.data (tensor float32 [1; 2]%Q))).
Proof.
  split; [reflexivity|].
  refine (proj1 (set_vector_get_vector 0 (tensor float32 [1; 2]%Q) [f32 3]
                   sgd_world eq_refl) eq_refl _).
  simpl. lia.
Defined.

Lemma set_at_get_at_witness :
  heap sgd_world !! 0%nat = Some (tensor float32 [1; 2]%Q)
  /\ fst ((set_at (Some 0%nat) 1 (f32 3) ;; get_at (Some 0%nat) 1) sgd_world)
     = inr (f32 3).
Proof.
  split; [reflexivity|].
  refine (proj1 (proj1 (set_at_get_at 0 (tensor float32 [1; 2]%Q) 1 (f32 3)
                          sgd_world eq_refl) eq_refl _)).
  simpl. lia.
Defined.

Lemma scalar_checks_witness :
  heap sgd_world !! 0%nat = Some (tensor float32 [1; 2]%Q)
  /\ scalar (Some 0%nat) sgd_world
     = (inl (Abort "Tensor is not a scalar"), sgd_world).
Proof.
  split; [reflexivity|].
  refine (proj1 (proj2 (scalar_checks 0 (tensor float32 [1; 2]%Q) sgd_world
                          eq_refl)) eq_refl _).
  simpl. lia.
Defined.

Lemma setSparse_last_write_witness :
  heap sgd_world !! 0%nat = Some (tensor float32 [1; 2]%Q)
  /\ exists cells,
       setSparse (Some 0%nat) [1%N; 1%N] [f32 3; f32 4] sgd_world
       = (inr tt, written 0 (tensor float32 [1; 2]%Q) cells (OpSet 0) sgd_world)
       /\ cells !! 1%nat = Some (f32 4).
Proof.
  split; [reflexivity|].
  destruct (proj1 (setSparse_last_write 0 (tensor float32 [1; 2]%Q)
                     [1%N; 1%N] [f32 3; f32 4] sgd_world eq_refl)
              eq_refl (le_n 2))
    as (cells & Hrun & _ & Hcells).
  - repeat constructor.
  - exists cells. split; [exact Hrun|]. exact (Hcells 1%nat).
Defined.
End CellExamples.

(** ** The factory *)

Section FactoryKinds.
Context `{Collaborators}.

End FactoryKinds.

(** ** A checkpoint with malformed denominators *)

Section BadDenoms.
Context `{Collaborators}.

Lemma unchanged_preorder : preorder unchanged.
Proof.
  split; [reflexivity|]. unfold unchanged. intros w1 w2 w3 -> ->. reflexivity.
Qed.

Lemma Adam_parse_unchanged items vs :
  keeps unchanged
    (foldM (fun (vs : list float * list float * (double * double)) item =>
              let '(vMt, vVt, vDenoms) := vs in
              let totalSize := Shape_elements (Item.shape item) in
              if (Item.name item =? "adam_mt")%string then
                vMt' <- copy_n totalSize (Item.as_floats (Item.bytes item)) ;;
                ret (vMt', vVt, vDenoms)
              else if (Item.name item =? "adam_vt")%string then
                vVt' <- copy_n totalSize (Item.as_floats (Item.bytes item)) ;;
                ret (vMt, vVt', vDenoms)
              else if (Item.name item =? "adam_denoms")%string then
                ABORT_IF (negb (totalSize =? 2)%N)
                  "adam_denoms should have 2 entries" ;;
                ds <- copy_n totalSize (Item.as_doubles (Item.bytes item)) ;;
                d0 <- at_ ds 0 ;;
                d1 <- at_ ds 1 ;;
                ret (vMt, vVt, (d0, d1))
              else ret vs)
           items vs).
Proof.
  apply keeps_foldM; [apply unchanged_preorder|].
  intros [[vMt vVt] vDenoms] item. cbv zeta.
  repeat lazymatch goal with
  | |- forall _, _ => intros ?
  | |- keeps _ (bind _ _) => apply keeps_bind; [apply unchanged_preorder | |]
  | |- keeps _ (if _ then _ else _) => apply keeps_if
  | |- keeps _ (copy_n _ _) => apply keeps_copy_n, unchanged_preorder
  | |- keeps _ (ABORT_IF _ _) => apply keeps_ABORT_IF, unchanged_preorder
  | |- keeps _ (at_ _ _) => apply keeps_at, unchanged_preorder
  | |- keeps _ (ret _) => apply keeps_ret, unchanged_preorder
  end.
Qed.

Lemma Adam_parse_step_fails (vs : list float * list float * (double * double))
    item w e w1 :
  (let '(vMt, vVt, vDenoms) := vs in
   let totalSize := Shape_elements (Item.shape item) in
   if (Item.name item =? "adam_mt")%string then
     vMt' <- copy_n totalSize (Item.as_floats (Item.bytes item)) ;;
     ret (vMt', vVt, vDenoms)
   else if (Item.name item =? "adam_vt")%string then
     vVt' <- copy_n totalSize (Item.as_floats (Item.bytes item)) ;;
     ret (vMt, vVt', vDenoms)
   else if (Item.name item =? "adam_denoms")%string then
     ABORT_IF (negb (totalSize =? 2)%N)
       "adam_denoms should have 2 entries" ;;
     ds <- copy_n totalSize (Item.as_doubles (Item.bytes item)) ;;
     d0 <- at_ ds 0 ;;
     d1 <- at_ ds 1 ;;
     ret (vMt, vVt, (d0, d1))
   else ret vs) w = (inl e, w1) ->
  e = Abort "adam_denoms should have 2 entries"
  \/ e = Undefined "read past the end of the item".
Proof.
  destruct vs as [[vMt vVt] vDenoms]. cbv zeta.
  destruct (Item.name item =? "adam_mt")%string.
  { unfold bind, copy_n. destruct (bool_decide _); [discriminate|].
    intros [= <- _]. right. reflexivity. }
  destruct (Item.name item =? "adam_vt")%string.
  { unfold bind, copy_n. destruct (bool_decide _); [discriminate|].
    intros [= <- _]. right. reflexivity. }
  destruct (Item.name item =? "adam_denoms")%string; [|discriminate].
  destruct (Shape_elements (Item.shape item) =? 2)%N eqn:E.
  2:{ intros [= <- _]. left. reflexivity. }
  apply N.eqb_eq in E. rewrite E. unfold bind at 1. simpl.
  unfold bind at 1, copy_n.
  destruct (bool_decide_reflect
              (N.to_nat 2 <= length (Item.as_doubles (Item.bytes item)))%nat)
    as [Hlen|Hlen].
  2:{ intros [= <- _]. right. reflexivity. }
  destruct (Item.as_doubles (Item.bytes item)) as [|d0 [|d1 ds]];
    simpl in Hlen; try lia.
  discriminate.
Qed.

Lemma Adam_parse_bad_denoms items it : forall vs w,
  In it items ->
  Item.name it = "adam_denoms" ->
  Shape_elements (Item.shape it) <> 2%N ->
  exists e,
    foldM (fun (vs : list float * list float * (double * double)) item =>
             let '(vMt, vVt, vDenoms) := vs in
             let totalSize := Shape_elements (Item.shape item) in
             if (Item.name item =? "adam_mt")%string then
               vMt' <- copy_n totalSize (Item.as_floats (Item.bytes item)) ;;
               ret (vMt', vVt, vDenoms)
             else if (Item.name item =? "adam_vt")%string then
               vVt' <- copy_n totalSize (Item.as_floats (Item.bytes item)) ;;
               ret (vMt, vVt', vDenoms)
             else if (Item.name item =? "adam_denoms")%string then
               ABORT_IF (negb (totalSize =? 2)%N)
                 "adam_denoms should have 2 entries" ;;
               ds <- copy_n totalSize (Item.as_doubles (Item.bytes item)) ;;
               d0 <- at_ ds 0 ;;
               d1 <- at_ ds 1 ;;
               ret (vMt, vVt, (d0, d1))
             else ret vs)
          items vs w = (inl e, w)
    /\ (e = Abort "adam_denoms should have 2 entries"
        \/ e = Undefined "read past the end of the item").
Proof.
  induction items as [|item items IH]; intros vs w Hin Hname Hsize;
    [destruct Hin|].
  cbn [foldM]. unfold bind at 1.
  match goal with
  | |- context [match ?m w with _ => _ end] =>
      pose proof (Adam_parse_unchanged [item] vs w) as Hw;
      destruct (m w) as [[e|vs'] w1] eqn:Estep
  end.
  - exists e. split; [|eapply Adam_parse_step_fails; exact Estep]. f_equal.
    cbn [foldM] in Hw. unfold bind at 1 in Hw. rewrite Estep in Hw. exact Hw.
  - assert (w1 = w) as ->.
    { cbn [foldM] in Hw. unfold bind at 1 in Hw. rewrite Estep in Hw. exact Hw. }
    destruct Hin as [<-|Hin]; [|apply IH; assumption].
    exfalso. destruct vs as [[vMt vVt] vDenoms]. cbv zeta in Estep.
    rewrite Hname in Estep. cbn in Estep.
    apply N.eqb_neq in Hsize. rewrite Hsize in Estep. discriminate Estep.
Qed.

(** X11.  A checkpoint with an item "adam_denoms" of another size than two
    entries is not loaded. The call logs that it loads and fails, by the
    check of that size or, when an item before it is shorter than its shape
    says, by reading past its end; the tensors, the optimizers, the
    allocators and the files are as they were. *)
Theorem Adam_load_bad_denoms this vDenoms0 name opts backends scatterFn
    items it w :
  length opts = length backends ->
  fs w !! name = Some items ->
  In it items ->
  Item.name it = "adam_denoms" ->
  Shape_elements (Item.shape it) <> 2%N ->
  exists e,
    Adam_load this vDenoms0 name opts backends scatterFn w
    = (inl e,
       set_stream (stream w ++ [OpLog info "Loading Adam parameters from {}"])
                  w)
    /\ (e = Abort "adam_denoms should have 2 entries"
        \/ e = Undefined "read past the end of the item").
Proof.
  intros Hlen Hf Hin Hname Hsize. unfold Adam_load.
  erewrite bind_ok by (apply sizes_agree; assumption).
  erewrite bind_ok by (eapply exists_present; eassumption). simpl.
  erewrite bind_ok by reflexivity.
  erewrite bind_ok by (apply loadItems_ok; simpl; eassumption).
  edestruct (Adam_parse_bad_denoms items it) as (e & He & Hwhich);
    try eassumption.
  exists e. split; [|exact Hwhich]. erewrite bind_fail by exact He. reflexivity.
Qed.
End BadDenoms.

(** ** Successive updates of Adam *)

Section Iterate.
Context `{Collaborators}.

Lemma length_zip_with3_same {A B C D} (f : A -> B -> C -> D) xs ys zs :
  length ys = length xs -> length zs = length xs ->
  length (zip_with3 f xs ys zs) = length xs.
Proof.
  intros Hy Hz. unfold zip_with3.
  rewrite length_zip_with, length_zip_with. lia.
Qed.

Lemma Adam_allocated_step w this p g s a lm lv actualMBSize refMBWords :
  Adam_allocated w this p g s a lm lv ->
  exists w',
    Adam_updateImpl this (Some p) (Some g) actualMBSize refMBWords w
    = (inr tt, w')
    /\ Adam_allocated w' this p g (Adam_after 1 s) a lm lv
    /\ allocators w' = allocators w
    /\ length (heap w') = length (heap w)
    /\ fs w' = fs w.
Proof.
  intros (o & tp & tg & tm & tv & Ho & Hr & Ha & Hm & Hv & Hp & Hg & Hlm & Hlv
          & Hmv & Hmp & Hvp & Hmg & Hvg & Hleng & Hlenm & Hlenv).
  eexists. split.
  { eapply Adam_updateImpl_run; eassumption. }
  cbn [heap objs allocators fs]. split; [|split; [reflexivity|split]].
  - set (mt := Adam_mt' _ _ _ _). set (vt := Adam_vt' _ _ _ _).
    set (ps := Adam_params' _ _ _ _ _ _ _ _).
    assert (Hmt : length mt = length (TensorBase.data tp)).
    { unfold mt, Adam_mt'. rewrite length_zip_with_same; congruence. }
    assert (Hvt : length vt = length (TensorBase.data tp)).
    { unfold vt, Adam_vt'. rewrite length_zip_with_same; congruence. }
    assert (Hps : length ps = length (TensorBase.data tp)).
    { unfold ps, Adam_params'. rewrite length_zip_with3_same; congruence. }
    pose proof (lookup_lt_Some _ _ _ Ho) as Hthis.
    pose proof (lookup_lt_Some _ _ _ Hp) as Hpl.
    pose proof (lookup_lt_Some _ _ _ Hlm) as Hlml.
    pose proof (lookup_lt_Some _ _ _ Hlv) as Hlvl.
    exists {| base := base o; rule := RuleAdam (Adam_after 1 s) |},
           (TensorBase.with_data ps tp),
           (if decide (g = p) then TensorBase.with_data ps tp else tg),
           (TensorBase.with_data mt tm), (TensorBase.with_data vt tv).
    repeat match goal with |- _ /\ _ => split end;
      cbn [heap objs]; try assumption; try reflexivity.
    + apply list_lookup_insert_eq. assumption.
    + apply list_lookup_insert_eq. rewrite !length_insert. assumption.
    + destruct (decide (g = p)) as [->|Hgp].
      * apply list_lookup_insert_eq. rewrite !length_insert. assumption.
      * rewrite !list_lookup_insert_ne by congruence. assumption.
    + rewrite list_lookup_insert_ne, list_lookup_insert_ne by congruence.
      apply list_lookup_insert_eq. assumption.
    + rewrite list_lookup_insert_ne by congruence.
      apply list_lookup_insert_eq. rewrite length_insert. assumption.
    + destruct (decide (g = p)); cbn [TensorBase.data TensorBase.with_data];
        congruence.
    + cbn [TensorBase.data TensorBase.with_data]. congruence.
    + cbn [TensorBase.data TensorBase.with_data]. congruence.
  - rewrite !length_insert. reflexivity.
  - reflexivity.
Qed.

Lemma Adam_after_S n s : Adam_after (S n) s = Adam_after n (Adam_after 1 s).
Proof.
  unfold Adam_after. rewrite Nat.iter_succ_r. reflexivity.
Qed.

Lemma Adam_allocated_run sizes : forall w this p g s a lm lv,
  Adam_allocated w this p g s a lm lv ->
  exists w',
    Adam_updates this (Some p) (Some g) sizes w = (inr tt, w')
    /\ Adam_allocated w' this p g (Adam_after (length sizes) s) a lm lv
    /\ allocators w' = allocators w
    /\ length (heap w') = length (heap w)
    /\ fs w' = fs w.
Proof.
  induction sizes as [|[mb ref] sizes IH]; intros w this p g s a lm lv Hinv.
  - exists w. repeat split. exact Hinv.
  - destruct (Adam_allocated_step w this p g s a lm lv mb ref Hinv)
      as (w1 & Hrun & Hinv1 & Hal1 & Hlen1 & Hfs1).
    destruct (IH w1 this p g _ a lm lv Hinv1)
      as (w2 & Hrun2 & Hinv2 & Hal2 & Hlen2 & Hfs2).
    exists w2. cbn [Adam_updates length].
    erewrite bind_ok by exact Hrun. rewrite Adam_after_S.
    repeat split; try assumption; congruence.
Qed.

Lemma Adam_allocated_first w this o s p g tp tg actualMBSize refMBWords :
  objs w !! this = Some o ->
  rule o = RuleAdam s ->
  Adam.alloc_ s = None ->
  Adam.mt_ s = None ->
  heap w !! p = Some tp ->
  heap w !! g = Some tg ->
  length (TensorBase.data tg) = length (TensorBase.data tp) ->
  (Z.of_nat (length (TensorBase.data tp)) < 2 ^ 31)%Z ->
  exists w',
    Adam_updateImpl this (Some p) (Some g) actualMBSize refMBWords w
    = (inr tt, w')
    /\ Adam_allocated w' this p g
         (Adam_after 1
            (Adam.set_vt_ (Some (S (length (heap w))))
               (Adam.set_mt_ (Some (length (heap w)))
                  (Adam.set_alloc_ (Some (length (allocators w))) s))))
         (length (allocators w)) (length (heap w)) (S (length (heap w)))
    /\ allocators w'
       = allocators w ++
         [{| ta_backend := TensorBase.backend_ tp;
             ta_reserved :=
               [size_mul (size_of_Z
                            (int_mul 2 (int_of_size
                                          (N.of_nat (length (TensorBase.data tp))))))
                         (sizeOf (TensorBase.type_ tp))];
             ta_tensors := [length (heap w); S (length (heap w))] |}]
    /\ length (heap w') = S (S (length (heap w)))
    /\ fs w' = fs w.
Proof.
  intros Ho Hr Ha Hm Hp Hg Hleng Hsmall.
  eexists. split.
  { eapply Adam_updateImpl_first; eassumption. }
  cbn [heap objs allocators fs]. split; [|split; [reflexivity|split]].
  - set (mt := Adam_mt' _ _ _ _). set (vt := Adam_vt' _ _ _ _).
    set (ps := Adam_params' _ _ _ _ _ _ _ _).
    assert (Hmt : length mt = length (TensorBase.data tp)).
    { unfold mt, Adam_mt'.
      rewrite length_zip_with_same; rewrite ?length_replicate; congruence. }
    assert (Hvt : length vt = length (TensorBase.data tp)).
    { unfold vt, Adam_vt'.
      rewrite length_zip_with_same; rewrite ?length_replicate; congruence. }
    assert (Hps : length ps = length (TensorBase.data tp)).
    { unfold ps, Adam_params'. rewrite length_zip_with3_same; congruence. }
    pose proof (lookup_lt_Some _ _ _ Ho) as Hthis.
    pose proof (lookup_lt_Some _ _ _ Hp) as Hpl.
    pose proof (lookup_lt_Some _ _ _ Hg) as Hgl.
    eexists _, (TensorBase.with_data ps tp),
           (if decide (g = p) then TensorBase.with_data ps tp else tg),
           (TensorBase.with_data mt tp), (TensorBase.with_data vt tp).
    repeat match goal with |- _ /\ _ => split end;
      cbn [heap objs]; try reflexivity; try lia.
    + apply list_lookup_insert_eq. assumption.
    + reflexivity.
    + apply list_lookup_insert_eq. rewrite length_app. lia.
    + destruct (decide (g = p)) as [->|Hgp].
      * apply list_lookup_insert_eq. rewrite length_app. lia.
      * rewrite list_lookup_insert_ne by congruence.
        apply lookup_app_l_Some. assumption.
    + rewrite list_lookup_insert_ne by lia.
      rewrite lookup_app_r by lia. rewrite Nat.sub_diag. reflexivity.
    + rewrite list_lookup_insert_ne by lia.
      rewrite lookup_app_r by lia.
      replace (S (length (heap w)) - length (heap w))%nat with 1%nat by lia.
      reflexivity.
    + destruct (decide (g = p)); cbn [TensorBase.data TensorBase.with_data];
        congruence.
    + cbn [TensorBase.data TensorBase.with_data]. congruence.
    + cbn [TensorBase.data TensorBase.with_data]. congruence.
  - rewrite length_insert, length_app. simpl. lia.
  - reflexivity.
Qed.

Lemma Adam_after_denominators n s :
  Adam.denom1_ (Adam_after n s)
  = Nat.iter n (Adam_denom' (to_double (Adam.beta1_ s))) (Adam.denom1_ s)
  /\ Adam.denom2_ (Adam_after n s)
     = Nat.iter n (Adam_denom' (to_double (Adam.beta2_ s))) (Adam.denom2_ s)
  /\ Adam.beta1_ (Adam_after n s) = Adam.beta1_ s
  /\ Adam.beta2_ (Adam_after n s) = Adam.beta2_ s.
Proof.
  induction n as [|n (IH1 & IH2 & IH3 & IH4)]; [repeat split|].
  change (Adam_after (S n) s)
    with (Adam.set_denom2_
            (Adam_denom' (to_double (Adam.beta2_ (Adam_after n s)))
               (Adam.denom2_ (Adam_after n s)))
            (Adam.set_denom1_
               (Adam_denom' (to_double (Adam.beta1_ (Adam_after n s)))
                  (Adam.denom1_ (Adam_after n s)))
               (Adam_after n s))).
  cbn [Adam.set_denom1_ Adam.set_denom2_ Adam.denom1_ Adam.denom2_
       Adam.beta1_ Adam.beta2_ Nat.iter].
  rewrite IH1, IH2, IH3, IH4. repeat split.
Qed.

Lemma Adam_allocated_denominators w this p g s a lm lv :
  Adam_allocated w this p g s a lm lv ->
  denominators w this = Some (Adam.denom1_ s, Adam.denom2_ s).
Proof.
  intros (o & tp & tg & tm & tv & Ho & Hr & _).
  unfold denominators. rewrite Ho. simpl. rewrite Hr. reflexivity.
Qed.

Lemma Adam_updates_run w this o s p g tp tg sizes :
  objs w !! this = Some o ->
  rule o = RuleAdam s ->
  Adam.alloc_ s = None ->
  Adam.mt_ s = None ->
  heap w !! p = Some tp ->
  heap w !! g = Some tg ->
  length (TensorBase.data tg) = length (TensorBase.data tp) ->
  (Z.of_nat (length (TensorBase.data tp)) < 2 ^ 31)%Z ->
  sizes <> [] ->
  exists w',
    Adam_updates this (Some p) (Some g) sizes w = (inr tt, w')
    /\ allocators w'
       = allocators w ++
         [{| ta_backend := TensorBase.backend_ tp;
             ta_reserved :=
               [size_mul (size_of_Z
                            (int_mul 2 (int_of_size
                                          (N.of_nat (length (TensorBase.data tp))))))
                         (sizeOf (TensorBase.type_ tp))];
             ta_tensors := [length (heap w); S (length (heap w))] |}]
    /\ length (heap w') = S (S (length (heap w)))
    /\ denominators w' this
       = Some (Nat.iter (length sizes)
                 (Adam_denom' (to_double (Adam.beta1_ s))) (Adam.denom1_ s),
               Nat.iter (length sizes)
                 (Adam_denom' (to_double (Adam.beta2_ s))) (Adam.denom2_ s)).
Proof.
  intros Ho Hr Ha Hm Hp Hg Hleng Hsmall Hsizes.
  destruct sizes as [|[mb ref] sizes]; [congruence|].
  destruct (Adam_allocated_first w this o s p g tp tg mb ref
              Ho Hr Ha Hm Hp Hg Hleng Hsmall)
    as (w1 & Hrun1 & Hinv1 & Hal1 & Hlen1 & _).
  destruct (Adam_allocated_run sizes _ _ _ _ _ _ _ _ Hinv1)
    as (w2 & Hrun2 & Hinv2 & Hal2 & Hlen2 & _).
  exists w2. cbn [Adam_updates].
  erewrite bind_ok by exact Hrun1.
  split; [exact Hrun2|]. split; [congruence|]. split; [congruence|].
  rewrite (Adam_allocated_denominators _ _ _ _ _ _ _ _ Hinv2).
  rewrite <- Adam_after_S.
  destruct (Adam_after_denominators (S (length sizes))
              (Adam.set_vt_ (Some (S (length (heap w))))
                 (Adam.set_mt_ (Some (length (heap w)))
                    (Adam.set_alloc_ (Some (length (allocators w))) s))))
    as (-> & -> & _). reflexivity.
Qed.

(** X12.  Adam allocates on its first call only.  From an optimizer without
    allocator and moments, any number of calls on tensors of one length
    return; together they make one allocator with one reservation, for the
    two moments, and two tensors; and they leave as denominators the
    iterates of [denom -> beta * denom + (1 - beta)], one step a call,
    whatever the batch sizes and the tensors hold. *)
Theorem Adam_updates_allocate_once (w : World) (this : oid) (o : Optimizer)
    (s : Adam.state) (p g : loc) (tp tg : TensorBase.t)
    (sizes : list (N * N)) :
  objs w !! this = Some o ->
  rule o = RuleAdam s ->
  Adam.alloc_ s = None ->
  Adam.mt_ s = None ->
  heap w !! p = Some tp ->
  heap w !! g = Some tg ->
  length (TensorBase.data tg) = length (TensorBase.data tp) ->
  (Z.of_nat (length (TensorBase.data tp)) < 2 ^ 31)%Z ->
  sizes <> [] ->
  let after := Adam_updates this (Some p) (Some g) sizes w in
  fst after = inr tt
  /\ allocators (snd after)
     = allocators w ++
       [{| ta_backend := TensorBase.backend_ tp;
           ta_reserved :=
             [size_mul (size_of_Z
                          (int_mul 2 (int_of_size
                                        (N.of_nat (length (TensorBase.data tp))))))
                       (sizeOf (TensorBase.type_ tp))];
           ta_tensors := [length (heap w); S (length (heap w))] |}]
  /\ length (heap (snd after)) = S (S (length (heap w)))
  /\ denominators (snd after) this
     = Some (Nat.iter (length sizes)
               (Adam_denom' (to_double (Adam.beta1_ s))) (Adam.denom1_ s),
             Nat.iter (length sizes)
               (Adam_denom' (to_double (Adam.beta2_ s))) (Adam.denom2_ s)).
Proof.
  intros Ho Hr Ha Hm Hp Hg Hleng Hsmall Hsizes after.
  destruct (Adam_updates_run w this o s p g tp tg sizes
              Ho Hr Ha Hm Hp Hg Hleng Hsmall Hsizes)
    as (w' & Hrun & Hal & Hlen & Hden).
  subst after. rewrite Hrun. repeat split; assumption.
Qed.
End Iterate.

Section ExactDenominators.
#[local] Existing Instance RealMachine.
Context {C : @Collaborators RealMachine}.

Lemma Adam_denom_iterate (beta denom : R) n :
  Nat.iter n (Adam_denom' beta) denom = (1 - beta ^ n * (1 - denom))%R.
Proof.
  induction n as [|n IH].
  - simpl. ring.
  - rewrite Nat.iter_succ, IH, Adam_denom_exact. unfold spec_denom. simpl. ring.
Qed.

(** X13.  In exact arithmetic the denominators of Adam are the bias corrections
    of the moments: after [n] calls from denominators [d1] and [d2] they
    are [1 - beta1^n (1 - d1)] and [1 - beta2^n (1 - d2)], which from the 0
    of a new or a reset optimizer is [1 - beta1^n] and [1 - beta2^n]. *)
Theorem Adam_updates_denominators (w : World) (this : oid) (o : Optimizer)
    (s : Adam.state) (p g : loc) (tp tg : TensorBase.t)
    (sizes : list (N * N)) :
  objs w !! this = Some o ->
  rule o = RuleAdam s ->
  Adam.alloc_ s = None ->
  Adam.mt_ s = None ->
  heap w !! p = Some tp ->
  heap w !! g = Some tg ->
  length (TensorBase.data tg) = length (TensorBase.data tp) ->
  (Z.of_nat (length (TensorBase.data tp)) < 2 ^ 31)%Z ->
  let n := length sizes in
  fst (Adam_updates this (Some p) (Some g) sizes w) = inr tt
  /\ denominators (snd (Adam_updates this (Some p) (Some g) sizes w)) this
     = Some ((1 - Adam.beta1_ s ^ n * (1 - Adam.denom1_ s))%R,
             (1 - Adam.beta2_ s ^ n * (1 - Adam.denom2_ s))%R).
Proof.
  intros Ho Hr Ha Hm Hp Hg Hleng Hsmall n.
  destruct (decide (sizes = [])) as [->|Hsizes].
  - subst n. cbn [Adam_updates length]. split; [reflexivity|].
    unfold denominators. simpl. rewrite Ho. simpl. rewrite Hr.
    assert (E : forall d : R, d = (1 - 1 * (1 - d))%R) by (intros; ring).
    do 2 f_equal; apply E.
  - destruct (Adam_updates_run w this o s p g tp tg sizes
                Ho Hr Ha Hm Hp Hg Hleng Hsmall)
      as (w' & Hrun & _ & _ & Hden); [exact Hsizes|].
    rewrite Hrun. split; [reflexivity|]. cbn [snd]. rewrite Hden.
    subst n. f_equal. f_equal; apply Adam_denom_iterate.
Qed.
End ExactDenominators.

(** ** Observers that reset *)

Section Reset.
Context `{Collaborators}.

Lemma Adam_resetStats_allocated w this p g s a lm lv :
  Adam_allocated w this p g s a lm lv ->
  exists w',
    Adam_resetStats this w = (inr tt, w')
    /\ Adam_allocated w' this p g
         (Adam_reset s) a lm lv
    /\ allocators w' = allocators w
    /\ length (heap w') = length (heap w)
    /\ (forall o, objs w !! this = Some o ->
                  base <$> objs w' !! this = Some (base o))
    /\ (forall tm tv, heap w !! lm = Some tm -> heap w !! lv = Some tv ->
          TensorBase.data <$> heap w' !! lm
          = Some (replicate (length (TensorBase.data tm)) (flit 0))
          /\ TensorBase.data <$> heap w' !! lv
             = Some (replicate (length (TensorBase.data tv)) (flit 0))).
Proof.
  intros (o & tp & tg & tm & tv & Ho & Hr & Ha & Hm & Hv & Hp & Hg & Hlm & Hlv
          & Hmv & Hmp & Hvp & Hmg & Hvg & Hleng & Hlenm & Hlenv).
  destruct w as [h al os f st]. cbn [heap objs allocators fs] in *.
  pose proof (lookup_lt_Some _ _ _ Ho) as Hthis.
  pose proof (lookup_lt_Some _ _ _ Hlm) as Hlml.
  pose proof (lookup_lt_Some _ _ _ Hlv) as Hlvl.
  eexists. split.
  { unfold Adam_resetStats.
    erewrite bind_ok by (eapply as_Adam_ok; lk2).
    rewrite Hm, Hv. simpl is_null. simpl negb. unfold when.
    erewrite bind_ok by (eapply set_value_ok; lk2). norm.
    erewrite bind_ok by (eapply set_value_ok; lk2). norm.
    erewrite bind_ok by (eapply assign_Adam_ok; lk2). norm.
    erewrite assign_Adam_ok by lk2. norm. reflexivity. }
  cbn [heap objs allocators fs].
  split; [|split; [reflexivity|split; [rewrite !length_insert; reflexivity|split]]].
  - exists {| base := base o;
              rule := RuleAdam (Adam.set_denom2_ (flit 0)
                                  (Adam.set_denom1_ (flit 0) s)) |},
           tp, tg,
           (TensorBase.with_data
              (replicate (length (TensorBase.data tm)) (flit 0)) tm),
           (TensorBase.with_data
              (replicate (length (TensorBase.data tv)) (flit 0)) tv).
    repeat match goal with |- _ /\ _ => split end;
      cbn [heap objs]; try assumption; try reflexivity.
    + apply list_lookup_insert_eq. assumption.
    + rewrite !list_lookup_insert_ne by congruence. assumption.
    + rewrite !list_lookup_insert_ne by congruence. assumption.
    + rewrite list_lookup_insert_ne by congruence.
      apply list_lookup_insert_eq. assumption.
    + apply list_lookup_insert_eq. rewrite length_insert. assumption.
    + cbn [TensorBase.data TensorBase.with_data].
      rewrite length_replicate. assumption.
    + cbn [TensorBase.data TensorBase.with_data].
      rewrite length_replicate. assumption.
  - intros o' Ho'. assert (o' = o) as -> by congruence.
    rewrite list_lookup_insert_eq by assumption. reflexivity.
  - intros tm' tv' Hlm' Hlv'.
    assert (tm' = tm) as -> by congruence.
    assert (tv' = tv) as -> by congruence.
    split.
    + rewrite list_lookup_insert_ne by congruence.
      rewrite list_lookup_insert_eq by assumption. reflexivity.
    + rewrite list_lookup_insert_eq by (rewrite length_insert; assumption).
      reflexivity.
Qed.
End Reset.

Section ObserverReset.
Context `{Collaborators}.

Lemma Adam_allocated_base w this p g s a lm lv o b :
  Adam_allocated w this p g s a lm lv ->
  objs w !! this = Some o ->
  Adam_allocated
    (set_objs (<[this := {| base := b; rule := rule o |}]> (objs w)) w)
    this p g s a lm lv.
Proof.
  intros (o' & tp & tg & tm & tv & Ho' & Hr & Hrest) Ho.
  assert (o' = o) as -> by congruence.
  exists {| base := b; rule := rule o |}, tp, tg, tm, tv.
  split; [|split; [exact Hr | exact Hrest]].
  cbn [objs set_objs]. apply list_lookup_insert_eq.
  eapply lookup_lt_Some, Ho.
Qed.

Lemma resetStats_allocated w this p g s a lm lv :
  Adam_allocated w this p g s a lm lv ->
  resetStats this w = Adam_resetStats this w.
Proof.
  intros (o & tp & tg & tm & tv & Ho & Hr & _). unfold resetStats.
  erewrite bind_ok by (apply object_ok; eassumption). rewrite Hr. reflexivity.
Qed.

Lemma observers_reset_run (w : World) (this : oid) (p g : loc)
    (s : Adam.state) (a : nat) (lm lv : loc) (tm tv : TensorBase.t)
    (state : TrainingState)
    (observer : oid -> TrainingState -> M unit) :
  Adam_allocated w this p g s a lm lv ->
  heap w !! lm = Some tm ->
  heap w !! lv = Some tv ->
  state_reset state = true ->
  observer ∈ [actAfterEpoch; actAfterBatches; actAfterStalled] ->
  exists w',
    observer this state w = (inr tt, w')
    /\ Adam_allocated w' this p g
         (Adam_reset s) a lm lv
    /\ OptimizerBase.eta_ <$> (base <$> objs w' !! this)
       = Some (state_eta state)
    /\ TensorBase.data <$> heap w' !! lm
       = Some (replicate (length (TensorBase.data tm)) (flit 0))
    /\ TensorBase.data <$> heap w' !! lv
       = Some (replicate (length (TensorBase.data tv)) (flit 0))
    /\ allocators w' = allocators w
    /\ length (heap w') = length (heap w).
Proof.
  intros Hinv Hlm Hlv Hreset Hobs.
  pose proof Hinv as (o & _ & _ & _ & _ & Ho & _).
  assert (Hone : forall b,
    exists w',
      resetStats this
        (set_objs (<[this := {| base := b; rule := rule o |}]> (objs w)) w)
      = (inr tt, w')
      /\ Adam_allocated w' this p g
           (Adam_reset s) a lm lv
      /\ base <$> objs w' !! this = Some b
      /\ TensorBase.data <$> heap w' !! lm
         = Some (replicate (length (TensorBase.data tm)) (flit 0))
      /\ TensorBase.data <$> heap w' !! lv
         = Some (replicate (length (TensorBase.data tv)) (flit 0))
      /\ allocators w' = allocators w
      /\ length (heap w') = length (heap w)).
  { intros b.
    pose proof (Adam_allocated_base _ _ _ _ _ _ _ _ _ b Hinv Ho) as Hinv1.
    destruct (Adam_resetStats_allocated _ _ _ _ _ _ _ _ Hinv1)
      as (w' & Hrun & Hinv' & Hal & Hlen & Hbase & Hcells).
    exists w'. rewrite (resetStats_allocated _ _ _ _ _ _ _ _ Hinv1).
    split; [exact Hrun|]. split; [exact Hinv'|].
    split.
    { apply (Hbase {| base := b; rule := rule o |}).
      cbn [objs set_objs]. apply list_lookup_insert_eq.
      eapply lookup_lt_Some, Ho. }
    destruct (Hcells tm tv Hlm Hlv) as [Hzm Hzv].
    repeat split; assumption. }
  assert (Hdone : forall b,
    OptimizerBase.eta_ b = state_eta state ->
    forall m : M unit,
      m w = (inr tt,
             set_objs (<[this := {| base := b; rule := rule o |}]> (objs w)) w) ->
      exists w',
        (m ;; when (state_reset state) (resetStats this)) w = (inr tt, w')
        /\ Adam_allocated w' this p g
             (Adam_reset s) a lm lv
        /\ OptimizerBase.eta_ <$> (base <$> objs w' !! this)
           = Some (state_eta state)
        /\ TensorBase.data <$> heap w' !! lm
           = Some (replicate (length (TensorBase.data tm)) (flit 0))
        /\ TensorBase.data <$> heap w' !! lv
           = Some (replicate (length (TensorBase.data tv)) (flit 0))
        /\ allocators w' = allocators w
        /\ length (heap w') = length (heap w)).
  { intros b Heta m Hm.
    destruct (Hone b) as (w' & Hrun & Hinv' & Hb & Hzm & Hzv & Hal & Hlen).
    exists w'. erewrite bind_ok by exact Hm. rewrite Hreset. unfold when.
    split; [exact Hrun|]. split; [exact Hinv'|].
    split; [rewrite Hb; simpl; rewrite Heta; reflexivity|].
    repeat split; assumption. }
  repeat (apply elem_of_cons in Hobs as [->|Hobs]).
  - unfold actAfterEpoch.
    apply (Hdone (set_eta_ (state_eta state) (base o)) eq_refl).
    apply assign_ok, Ho.
  - unfold actAfterBatches.
    destruct (Hdone (set_batchesSeen_ (state_batches state)
                       (set_eta_ (state_eta state) (base o))) eq_refl
                (assign this (set_eta_ (state_eta state)) ;;
                 assign this (set_batchesSeen_ (state_batches state))))
      as (w' & Hrun & Hrest).
    + erewrite bind_ok by (apply assign_ok, Ho).
      erewrite assign_ok
        by (cbn [objs set_objs]; apply list_lookup_insert_eq;
            eapply lookup_lt_Some, Ho).
      unfold set_objs. cbn [objs heap allocators fs stream base rule].
      rewrite insert_insert_same. reflexivity.
    + exists w'. split; [|exact Hrest].
      rewrite <- Hrun. unfold bind.
      destruct (assign this (set_eta_ (state_eta state)) w) as [[e|[]] w1];
        [reflexivity|].
      destruct (assign this (set_batchesSeen_ (state_batches state)) w1)
        as [[e|[]] w2]; reflexivity.
  - unfold actAfterStalled.
    apply (Hdone (set_eta_ (state_eta state) (base o)) eq_refl).
    apply assign_ok, Ho.
  - apply elem_of_nil in Hobs. destruct Hobs.
Qed.
(** X14.  An observer that is told to reset clears the statistics of Adam and
    keeps the rest.  [actAfterEpoch], [actAfterBatches] and
    [actAfterStalled] with [state.reset] on an Adam optimizer with its
    moments return; the learning rate is the one of the state; the two
    moments are all 0 and as long as they were, in the tensors they were in;
    the denominators are 0; the hyper-parameters and the allocator are
    kept, and no memory is allocated. *)
Theorem observers_reset_statistics (w : World) (this : oid) (p g : loc)
    (s : Adam.state) (a : nat) (lm lv : loc) (tm tv : TensorBase.t)
    (state : TrainingState)
    (observer : oid -> TrainingState -> M unit) :
  Adam_allocated w this p g s a lm lv ->
  heap w !! lm = Some tm ->
  heap w !! lv = Some tv ->
  state_reset state = true ->
  observer ∈ [actAfterEpoch; actAfterBatches; actAfterStalled] ->
  let after := observer this state w in
  fst after = inr tt
  /\ OptimizerBase.eta_ <$> (base <$> objs (snd after) !! this)
     = Some (state_eta state)
  /\ Adam_members (snd after) this = Some (Adam_reset s)
  /\ TensorBase.data <$> heap (snd after) !! lm
     = Some (replicate (length (TensorBase.data tm)) (flit 0))
  /\ TensorBase.data <$> heap (snd after) !! lv
     = Some (replicate (length (TensorBase.data tv)) (flit 0))
  /\ allocators (snd after) = allocators w
  /\ length (heap (snd after)) = length (heap w).
Proof.
  intros Hinv Hlm Hlv Hreset Hobs after.
  destruct (observers_reset_run w this p g s a lm lv tm tv state observer
              Hinv Hlm Hlv Hreset Hobs)
    as (w' & Hrun & Hinv' & Heta & Hzm & Hzv & Hal & Hlen).
  subst after. rewrite Hrun. cbn [fst snd].
  split; [reflexivity|]. split; [exact Heta|]. split.
  { destruct Hinv' as (o' & _ & _ & _ & _ & Ho' & Hr' & _).
    unfold Adam_members. rewrite Ho'. simpl. rewrite Hr'. reflexivity. }
  repeat split; assumption.
Qed.
End ObserverReset.

Section ResetExact.
#[local] Existing Instance RealMachine.
Context {C : @Collaborators RealMachine}.

(** X15.  A reset restarts the bias correction.  In exact arithmetic, after an
    observer that resets and [n] calls of the rule, the denominators of
    Adam are [1 - beta1^n] and [1 - beta2^n], as those of a new optimizer
    after [n] calls, whatever they were before the reset. *)
Theorem reset_restarts_bias_correction (w : World) (this : oid) (p g : loc)
    (s : Adam.state) (a : nat) (lm lv : loc) (state : TrainingState)
    (observer : oid -> TrainingState -> M unit) (sizes : list (N * N)) :
  Adam_allocated w this p g s a lm lv ->
  state_reset state = true ->
  observer ∈ [actAfterEpoch; actAfterBatches; actAfterStalled] ->
  let n := length sizes in
  let after :=
    (observer this state ;; Adam_updates this (Some p) (Some g) sizes) w in
  fst after = inr tt
  /\ denominators (snd after) this
     = Some ((1 - Adam.beta1_ s ^ n)%R, (1 - Adam.beta2_ s ^ n)%R).
Proof.
  intros Hinv Hreset Hobs n after.
  pose proof Hinv as (_ & _ & _ & tm & tv & _ & _ & _ & _ & _ & _ & _ & Hlm
                      & Hlv & _).
  destruct (observers_reset_run w this p g s a lm lv tm tv state observer
              Hinv Hlm Hlv Hreset Hobs)
    as (w1 & Hrun1 & Hinv1 & _).
  destruct (Adam_allocated_run sizes w1 this p g _ a lm lv Hinv1)
    as (w2 & Hrun2 & Hinv2 & _).
  subst after. erewrite bind_ok by exact Hrun1. rewrite Hrun2. cbn [fst snd].
  split; [reflexivity|].
  rewrite (Adam_allocated_denominators _ _ _ _ _ _ _ _ Hinv2).
  destruct (Adam_after_denominators (length sizes) (Adam_reset s))
    as (-> & -> & _).
  assert (E : forall beta : R,
             @eq R (Nat.iter n (Adam_denom' beta) (Q2R 0)) (1 - beta ^ n)%R).
  { intros beta. rewrite Adam_denom_iterate, flit_zero. ring. }
  subst n. f_equal. f_equal; apply E.
Qed.
End ResetExact.

(** ** Checkpoints read into optimizers that have their statistics *)

Section Scatter.
Context `{Collaborators}.

Lemma slice_target_inv sel w opts c lv :
  slice_target sel w opts c = Some lv ->
  exists o x l tb,
    opts !! fst c = Some o /\ objs w !! o = Some x /\ sel x = Some (Some l)
    /\ heap w !! l = Some tb /\ TensorBase.type_ tb = float32
    /\ (length (snd c) <= length (TensorBase.data tb))%nat
    /\ lv = (l, snd c).
Proof.
  unfold slice_target, shard_tensor. intros Hs.
  destruct (opts !! fst c) as [o|] eqn:Ho; [|discriminate]. simpl in Hs.
  destruct (objs w !! o) as [x|] eqn:Hx; [|discriminate]. simpl in Hs.
  destruct (sel x) as [t|] eqn:Ht; [|discriminate]. simpl in Hs.
  destruct t as [l|]; [|discriminate]. simpl in Hs.
  destruct (heap w !! l) as [tb|] eqn:Hl; [|discriminate]. simpl in Hs.
  destruct (bool_decide_reflect (TensorBase.type_ tb = float32)) as [Hty|];
    [|discriminate].
  simpl in Hs.
  destruct (bool_decide_reflect
              (length (snd c) <= length (TensorBase.data tb))%nat)
    as [Hlen|]; [|discriminate].
  injection Hs as <-. exists o, x, l, tb. repeat split; assumption.
Qed.

Lemma same_shapes_refl h : same_shapes h h.
Proof. intros l x Hl. exists x. repeat split. exact Hl. Qed.

Lemma same_shapes_store h0 h l tb v :
  same_shapes h0 h -> h0 !! l = Some tb ->
  (length v <= length (TensorBase.data tb))%nat ->
  same_shapes h0 (alter (overwritten v) l h).
Proof.
  intros Hs Hl Hlen l' x Hl'.
  destruct (Hs l' x Hl') as (x' & Hx' & Hty & Hn).
  destruct (decide (l' = l)) as [->|Hne].
  - exists (overwritten v x'). rewrite list_lookup_alter_eq, Hx'.
    split; [reflexivity|]. split; [exact Hty|].
    assert (x = tb) as -> by congruence.
    unfold overwritten. cbn [TensorBase.data TensorBase.with_data].
    rewrite length_app, length_drop. lia.
  - exists x'. rewrite list_lookup_alter_ne by congruence.
    repeat split; assumption.
Qed.

Lemma scatter_stores_shapes sel w0 opts chunks stores :
  Forall2 (fun c lv => slice_target sel w0 opts c = Some lv) chunks stores ->
  forall h, same_shapes (heap w0) h ->
            same_shapes (heap w0) (scatter_stores stores h).
Proof.
  induction 1 as [|c lv chunks stores Hc _ IH]; intros h Hs; [exact Hs|].
  destruct (slice_target_inv _ _ _ _ _ Hc)
    as (o & x & l & tb & _ & _ & _ & Hl & _ & Hlen & ->).
  apply IH. eapply same_shapes_store; eassumption.
Qed.

Lemma scatter_loop_ok (sel : Optimizer -> option Tensor)
    (setFn : nat -> list float -> M unit) (Q : nat -> Prop) opts w0 :
  (forall i slice o x l w,
      Q i -> opts !! i = Some o -> objs w0 !! o = Some x ->
      sel x = Some (Some l) -> objs w = objs w0 ->
      setFn i slice w = set_vector (Some l) slice w) ->
  forall chunks stores,
    Forall2 (fun c lv => slice_target sel w0 opts c = Some lv) chunks stores ->
    Forall (fun c => Q (fst c)) chunks ->
    forall w, objs w = objs w0 -> same_shapes (heap w0) (heap w) ->
      foldM (fun _ c => setFn (fst c) (snd c)) chunks tt w
      = (inr tt,
         set_stream (stream w ++ map (fun lv => OpSet (fst lv)) stores)
           (set_heap (scatter_stores stores (heap w)) w)).
Proof.
  intros Hset chunks stores Hall.
  induction Hall as [|c lv chunks stores Hc _ IH]; intros HQ w Ho Hs.
  - cbn [foldM map scatter_stores foldl]. rewrite app_nil_r.
    destruct w; reflexivity.
  - apply Forall_cons in HQ as [Hq HQ].
    destruct (slice_target_inv _ _ _ _ _ Hc)
      as (o & x & l & tb & Hi & Hx & Hsel & Hl & Hty & Hlen & ->).
    destruct (Hs l tb Hl) as (tb' & Hl' & Hty' & Hn').
    cbn [foldM].
    erewrite bind_ok.
    2:{ erewrite Hset by eassumption.
        apply set_vector_ok; [exact Hl' | congruence | lia]. }
    rewrite IH; [| exact HQ | exact Ho |].
    + unfold written, set_stream, set_heap. cbn [heap stream objs fs allocators].
      cbn [scatter_stores foldl map fst snd].
      rewrite (alter_insert _ _ _ _ Hl'). unfold overwritten.
      rewrite <- app_assoc. reflexivity.
    + assert (E : heap (written l tb'
                            (snd c ++ drop (length (snd c)) (TensorBase.data tb'))
                            (OpSet l) w)
                  = alter (overwritten (snd c)) l (heap w))
        by (rewrite (alter_insert _ _ _ _ Hl'); reflexivity).
      rewrite E. eapply same_shapes_store; eassumption.
Qed.

Lemma call_scatter_ok (sel : Optimizer -> option Tensor)
    (setFn : nat -> list float -> M unit) (Q : nat -> Prop) opts
    (scatterFn : ScatterStateFunc) data stores w0 w :
  (forall i slice o x l w,
      Q i -> opts !! i = Some o -> objs w0 !! o = Some x ->
      sel x = Some (Some l) -> objs w = objs w0 ->
      setFn i slice w = set_vector (Some l) slice w) ->
  Forall2 (fun c lv => slice_target sel w0 opts c = Some lv)
          (scatterFn data) stores ->
  Forall (fun c => Q (fst c)) (scatterFn data) ->
  objs w = objs w0 -> same_shapes (heap w0) (heap w) ->
  call_scatter scatterFn data setFn w
  = (inr tt,
     set_stream (stream w ++ scatter_ops stores)
       (set_heap (scatter_stores stores (heap w)) w)).
Proof.
  intros Hset Hall HQ Ho Hs. unfold call_scatter.
  erewrite bind_ok by reflexivity.
  erewrite scatter_loop_ok; try eassumption.
  unfold scatter_ops, set_stream, set_heap. simpl.
  rewrite <- app_assoc. reflexivity.
Qed.
End Scatter.

Section Restoring.
Context `{Collaborators}.

Lemma shard_tensor_inv sel w opts i lv :
  shard_tensor sel w opts i = Some lv ->
  exists o x tb,
    opts !! i = Some o /\ objs w !! o = Some x /\ sel x = Some (Some (fst lv))
    /\ heap w !! fst lv = Some tb /\ TensorBase.type_ tb = float32
    /\ snd lv = TensorBase.data tb.
Proof.
  unfold shard_tensor. intros Hs.
  destruct (opts !! i) as [o|] eqn:Ho; [|discriminate]. simpl in Hs.
  destruct (objs w !! o) as [x|] eqn:Hx; [|discriminate]. simpl in Hs.
  destruct (sel x) as [t|] eqn:Ht; [|discriminate]. simpl in Hs.
  destruct t as [l|]; [|discriminate]. simpl in Hs.
  destruct (heap w !! l) as [tb|] eqn:Hl; [|discriminate]. simpl in Hs.
  destruct (bool_decide_reflect (TensorBase.type_ tb = float32)) as [Hty|];
    [|discriminate].
  injection Hs as <-. exists o, x, tb. repeat split; assumption.
Qed.

Lemma Adam_setFn_mt opts backends w0 i slice o x l w :
  is_Some (shard_tensor (Adam_stat Adam.vt_) w0 opts i) ->
  opts !! i = Some o -> objs w0 !! o = Some x ->
  Adam_stat Adam.mt_ x = Some (Some l) -> objs w = objs w0 ->
  (o <- at_ opts i ;;
   opt <- as_Adam o ;;
   when (is_null (Adam.mt_ opt) || is_null (Adam.vt_ opt))
     (when (is_null (Adam.alloc_ opt))
        (b <- at_ backends i ;;
         a <- New_TensorAllocator b ;;
         assign_Adam o (Adam.set_alloc_ a)) ;;
      opt <- as_Adam o ;;
      let size := N.of_nat (length slice) in
      reserveExact (Adam.alloc_ opt) (size_mul (size_mul 2 sizeof_float) size) ;;
      t <- allocate (Adam.alloc_ opt) [1; int_of_size size]%Z float32 ;;
      assign_Adam o (Adam.set_mt_ t) ;;
      t' <- allocate (Adam.alloc_ opt) [1; int_of_size size]%Z float32 ;;
      assign_Adam o (Adam.set_vt_ t')) ;;
   opt <- as_Adam o ;;
   set_vector (Adam.mt_ opt) slice) w
  = set_vector (Some l) slice w.
Proof.
  intros [lv Hv] Hi Hx Hm Ho.
  destruct (shard_tensor_inv _ _ _ _ _ Hv) as (o' & x' & _ & Hi' & Hx' & Hv' & _).
  assert (o' = o) as -> by congruence.
  assert (x' = x) as -> by congruence.
  unfold Adam_stat in Hm, Hv'.
  destruct (rule x) as [| |sx] eqn:Hr; try discriminate.
  injection Hm as Hm. injection Hv' as Hv'.
  erewrite bind_ok by (apply at_ok; eassumption).
  erewrite bind_ok by (eapply as_Adam_ok; [rewrite Ho|]; eassumption).
  rewrite Hm, Hv'. simpl is_null. simpl orb. unfold when at 1.
  erewrite bind_ok by reflexivity.
  erewrite bind_ok by (eapply as_Adam_ok; [rewrite Ho|]; eassumption).
  rewrite Hm. reflexivity.
Qed.

Lemma Adam_setFn_vt opts i slice o x l w0 w :
  opts !! i = Some o -> objs w0 !! o = Some x ->
  Adam_stat Adam.vt_ x = Some (Some l) -> objs w = objs w0 ->
  (o <- at_ opts i ;; opt <- as_Adam o ;; set_vector (Adam.vt_ opt) slice) w
  = set_vector (Some l) slice w.
Proof.
  intros Hi Hx Hv Ho. unfold Adam_stat in Hv.
  destruct (rule x) as [| |sx] eqn:Hr; try discriminate.
  injection Hv as Hv.
  erewrite bind_ok by (apply at_ok; eassumption).
  erewrite bind_ok by (eapply as_Adam_ok; [rewrite Ho|]; eassumption).
  rewrite Hv. reflexivity.
Qed.

Lemma Adam_load_warm (w : World) (this : oid) (x : Optimizer)
    (s : Adam.state) (vDenoms0 : double * double) (name : string)
    (opts : list oid) (backends : list Backend)
    (scatterFn : ScatterStateFunc) (items : list Item.t)
    (storesM storesV : list (loc * list float)) :
  objs w !! this = Some x ->
  rule x = RuleAdam s ->
  length opts = length backends ->
  fs w !! name = Some items ->
  Forall readable items ->
  let vMt := parse_floats "adam_mt" items [] in
  let vVt := parse_floats "adam_vt" items [] in
  let vDenoms := parse_denoms items vDenoms0 in
  vMt <> [] -> vVt <> [] -> length vMt = length vVt ->
  Forall2 (fun c lv => slice_target (Adam_stat Adam.mt_) w opts c = Some lv)
          (scatterFn vMt) storesM ->
  Forall (fun c => is_Some (shard_tensor (Adam_stat Adam.vt_) w opts (fst c)))
         (scatterFn vMt) ->
  Forall2 (fun c lv => slice_target (Adam_stat Adam.vt_) w opts c = Some lv)
          (scatterFn vVt) storesV ->
  load this vDenoms0 name opts backends scatterFn w =
  (inr tt,
   {| heap := scatter_stores storesV (scatter_stores storesM (heap w));
      allocators := allocators w;
      objs := <[this := {| base := base x;
                           rule := RuleAdam
                                     (Adam.set_denom2_ (snd vDenoms)
                                        (Adam.set_denom1_ (fst vDenoms) s)) |}]>
                (objs w);
      fs := fs w;
      stream := stream w ++ [OpLog info "Loading Adam parameters from {}"]
                ++ scatter_ops storesM ++ scatter_ops storesV |}).
Proof.
  intros Ho Hr Hlen Hf Hread vMt vVt vDenoms Hm Hv Hmv HM HQ HV.
  unfold load. erewrite bind_ok by (apply object_ok; eassumption). rewrite Hr.
  unfold Adam_load.
  erewrite bind_ok by (apply sizes_agree; assumption).
  erewrite bind_ok by (eapply exists_present; eassumption). simpl.
  erewrite bind_ok by reflexivity.
  erewrite bind_ok by (apply loadItems_ok; simpl; eassumption).
  erewrite bind_ok by (apply Adam_parse_ok; assumption).
  cbv beta iota. fold vMt vVt vDenoms.
  assert (Hb : empty vMt || empty vVt = false).
  { destruct vMt, vVt; simpl; congruence. }
  rewrite Hb. cbv iota. apply Nat.eqb_eq in Hmv. rewrite Hmv. simpl negb.
  erewrite bind_ok by reflexivity.
  erewrite bind_ok.
  2:{ eapply call_scatter_ok
        with (sel := Adam_stat Adam.mt_) (w0 := w)
             (Q := fun i => is_Some (shard_tensor (Adam_stat Adam.vt_) w opts i));
        [ | exact HM | exact HQ | reflexivity | apply same_shapes_refl ].
      intros i slice o y l w' Hq Hi Hy Hsel Hw'.
      eapply Adam_setFn_mt; eassumption. }
  erewrite bind_ok.
  2:{ eapply call_scatter_ok
        with (sel := Adam_stat Adam.vt_) (w0 := w) (Q := fun _ => True);
        [ | exact HV | apply Forall_forall; intros; exact I | reflexivity | ].
      - intros i slice o y l w' _ Hi Hy Hsel Hw'.
        eapply Adam_setFn_vt; eassumption.
      - eapply scatter_stores_shapes; [exact HM | apply same_shapes_refl]. }
  erewrite bind_ok by (eapply assign_Adam_ok; simpl; eassumption).
  erewrite assign_Adam_ok
    by (simpl; first [eapply insert_lookup_same; eassumption | reflexivity]).
  unfold set_stream, set_heap, set_objs. simpl.
  rewrite insert_insert_same, <- !app_assoc. reflexivity.
Qed.

Lemma Adagrad_setFn_gt opts backends i slice o x l w0 w :
  opts !! i = Some o -> objs w0 !! o = Some x ->
  Adagrad_stat x = Some (Some l) -> objs w = objs w0 ->
  (o <- at_ opts i ;;
   opt <- as_Adagrad o ;;
   when (is_null (Adagrad.gt_ opt))
     (when (is_null (Adagrad.alloc_ opt))
        (b <- at_ backends i ;;
         a <- New_TensorAllocator b ;;
         assign_Adagrad o (Adagrad.set_alloc_ a)) ;;
      opt <- as_Adagrad o ;;
      let size := N.of_nat (length slice) in
      reserveExact (Adagrad.alloc_ opt) (size_mul sizeof_float size) ;;
      t <- allocate (Adagrad.alloc_ opt) [1; int_of_size size]%Z float32 ;;
      assign_Adagrad o (Adagrad.set_gt_ t)) ;;
   opt <- as_Adagrad o ;;
   set_vector (Adagrad.gt_ opt) slice) w
  = set_vector (Some l) slice w.
Proof.
  intros Hi Hx Hg Ho. unfold Adagrad_stat in Hg.
  destruct (rule x) as [|sx|] eqn:Hr; try discriminate.
  injection Hg as Hg.
  erewrite bind_ok by (apply at_ok; eassumption).
  erewrite bind_ok by (eapply as_Adagrad_ok; [rewrite Ho|]; eassumption).
  rewrite Hg. simpl is_null. unfold when at 1.
  erewrite bind_ok by reflexivity.
  erewrite bind_ok by (eapply as_Adagrad_ok; [rewrite Ho|]; eassumption).
  rewrite Hg. reflexivity.
Qed.

Lemma Adagrad_load_warm (w : World) (this : oid) (x : Optimizer)
    (s : Adagrad.state) (vDenoms0 : double * double) (name : string)
    (opts : list oid) (backends : list Backend)
    (scatterFn : ScatterStateFunc) (items : list Item.t)
    (stores : list (loc * list float)) :
  objs w !! this = Some x ->
  rule x = RuleAdagrad s ->
  length opts = length backends ->
  fs w !! name = Some items ->
  Forall readable items ->
  let vGt := parse_floats "adagrad_gt" items [] in
  vGt <> [] ->
  Forall2 (fun c lv => slice_target Adagrad_stat w opts c = Some lv)
          (scatterFn vGt) stores ->
  load this vDenoms0 name opts backends scatterFn w =
  (inr tt,
   set_stream
     (stream w ++ [OpLog info "Loading Adagrad parameters from {}"]
      ++ scatter_ops stores)
     (set_heap (scatter_stores stores (heap w)) w)).
Proof.
  intros Ho Hr Hlen Hf Hread vGt Hg HG.
  unfold load. erewrite bind_ok by (apply object_ok; eassumption). rewrite Hr.
  unfold Adagrad_load.
  erewrite bind_ok by (apply sizes_agree; assumption).
  erewrite bind_ok by (eapply exists_present; eassumption). simpl.
  erewrite bind_ok by reflexivity.
  erewrite bind_ok by (apply loadItems_ok; simpl; eassumption).
  erewrite bind_ok by (apply Adagrad_parse_ok; assumption).
  fold vGt.
  assert (Hb : empty vGt = false) by (destruct vGt; simpl; congruence).
  rewrite Hb.
  erewrite call_scatter_ok
    with (sel := Adagrad_stat) (w0 := w) (Q := fun _ => True);
    [ | | exact HG | apply Forall_forall; intros; exact I | reflexivity
      | apply same_shapes_refl ].
  - unfold set_stream, set_heap. simpl. rewrite <- !app_assoc. reflexivity.
  - intros i slice o y l w' _ Hi Hy Hsel Hw'.
    eapply Adagrad_setFn_gt; eassumption.
Qed.
(** X16.  [load] of an Adam optimizer whose shards have their moments: the slices
    that [scatterFn] makes of the first moment of the file are stored at the
    start of the first moments of their shards, those of the second moment
    in the second moments, in the order of the slices, and the denominators
    of [this] become those of the file, or what the array held when the
    file has none.  Nothing is allocated. *)
Theorem Adam_load_restores (w : World) (this : oid) (x : Optimizer)
    (s : Adam.state) (vDenoms0 : double * double) (name : string)
    (opts : list oid) (backends : list Backend)
    (scatterFn : ScatterStateFunc) (items : list Item.t)
    (storesM storesV : list (loc * list float)) :
  objs w !! this = Some x ->
  rule x = RuleAdam s ->
  length opts = length backends ->
  fs w !! name = Some items ->
  Forall readable items ->
  let vMt := parse_floats "adam_mt" items [] in
  let vVt := parse_floats "adam_vt" items [] in
  let vDenoms := parse_denoms items vDenoms0 in
  vMt <> [] -> vVt <> [] -> length vMt = length vVt ->
  Forall2 (fun c lv => slice_target (Adam_stat Adam.mt_) w opts c = Some lv)
          (scatterFn vMt) storesM ->
  Forall (fun c => is_Some (shard_tensor (Adam_stat Adam.vt_) w opts (fst c)))
         (scatterFn vMt) ->
  Forall2 (fun c lv => slice_target (Adam_stat Adam.vt_) w opts c = Some lv)
          (scatterFn vVt) storesV ->
  let after := load this vDenoms0 name opts backends scatterFn w in
  fst after = inr tt
  /\ heap (snd after) = scatter_stores storesV (scatter_stores storesM (heap w))
  /\ Adam_members (snd after) this
     = Some (Adam.set_denom2_ (snd vDenoms) (Adam.set_denom1_ (fst vDenoms) s))
  /\ (forall o, o <> this -> objs (snd after) !! o = objs w !! o)
  /\ allocators (snd after) = allocators w
  /\ fs (snd after) = fs w.
Proof.
  intros Ho Hr Hlen Hf Hread vMt vVt vDenoms Hm Hv Hmv HM HQ HV after.
  subst after.
  rewrite (Adam_load_warm w this x s vDenoms0 name opts backends scatterFn
             items storesM storesV Ho Hr Hlen Hf Hread Hm Hv Hmv HM HQ HV).
  cbn [fst snd heap objs allocators fs].
  split; [reflexivity|]. split; [reflexivity|]. split.
  { unfold Adam_members. cbn [objs].
    rewrite list_lookup_insert_eq by (eapply lookup_lt_Some, Ho).
    reflexivity. }
  split; [|split; reflexivity].
  intros o Hne. apply list_lookup_insert_ne. congruence.
Qed.

(** X17.  [load] of an Adagrad optimizer whose shards have their sums of squared
    gradients: the slices that [scatterFn] makes of the vector of the file
    are stored at the start of the sums of their shards, in the order of
    the slices; the optimizers and the allocators are as they were. *)
Theorem Adagrad_load_restores (w : World) (this : oid) (x : Optimizer)
    (s : Adagrad.state) (vDenoms0 : double * double) (name : string)
    (opts : list oid) (backends : list Backend)
    (scatterFn : ScatterStateFunc) (items : list Item.t)
    (stores : list (loc * list float)) :
  objs w !! this = Some x ->
  rule x = RuleAdagrad s ->
  length opts = length backends ->
  fs w !! name = Some items ->
  Forall readable items ->
  let vGt := parse_floats "adagrad_gt" items [] in
  vGt <> [] ->
  Forall2 (fun c lv => slice_target Adagrad_stat w opts c = Some lv)
          (scatterFn vGt) stores ->
  let after := load this vDenoms0 name opts backends scatterFn w in
  fst after = inr tt
  /\ heap (snd after) = scatter_stores stores (heap w)
  /\ objs (snd after) = objs w
  /\ allocators (snd after) = allocators w
  /\ fs (snd after) = fs w.
Proof.
  intros Ho Hr Hlen Hf Hread vGt Hg HG after. subst after.
  rewrite (Adagrad_load_warm w this x s vDenoms0 name opts backends scatterFn
             items stores Ho Hr Hlen Hf Hread Hg HG).
  repeat split.
Qed.
End Restoring.

(** ** Checkpoints written and read back *)

Section RoundTrip.
Context `{Collaborators}.

Lemma Shape_elements_vector n :
  (Z.of_nat n < 2 ^ 31)%Z ->
  Shape_elements [1; int_of_size (N.of_nat n)]%Z = N.of_nat n.
Proof.
  intros Hn. unfold Shape_elements, int_of_size. cbn [fold_right].
  rewrite nat_N_Z.
  replace ((Z.of_nat n + 2 ^ 31) mod 2 ^ 32 - 2 ^ 31)%Z with (Z.of_nat n).
  - rewrite Z.mul_1_r, Z.mul_1_l, <- nat_N_Z. apply N2Z.id.
  - rewrite Z.mod_small by lia. lia.
Qed.

Lemma overwritten_same (x : TensorBase.t) : overwritten (TensorBase.data x) x = x.
Proof.
  unfold overwritten. rewrite drop_all, app_nil_r. destruct x; reflexivity.
Qed.

Lemma shard_tensor_same sel w w' opts i :
  objs w' = objs w -> heap w' = heap w ->
  shard_tensor sel w' opts i = shard_tensor sel w opts i.
Proof. intros Ho Hh. unfold shard_tensor. rewrite Ho, Hh. reflexivity. Qed.

Lemma gathered_targets sel w w' opts idxs read :
  objs w' = objs w -> heap w' = heap w ->
  Forall2 (fun i lv => shard_tensor sel w opts i = Some lv) idxs read ->
  Forall2 (fun c lv => slice_target sel w' opts c = Some lv)
          (zip idxs (map snd read)) read.
Proof.
  intros Ho Hh. induction 1 as [|i lv idxs read Hi _ IH]; [constructor|].
  cbn [map zip zip_with]. constructor; [|exact IH].
  unfold slice_target. cbn [fst snd].
  rewrite (shard_tensor_same _ _ _ _ _ Ho Hh), Hi.
  simpl. rewrite bool_decide_true by lia. destruct lv; reflexivity.
Qed.

Lemma gathered_shards sel w w' opts idxs read (slices : list (list float)) :
  objs w' = objs w -> heap w' = heap w ->
  Forall2 (fun i lv => shard_tensor sel w opts i = Some lv) idxs read ->
  Forall (fun c => is_Some (shard_tensor sel w' opts (fst c)))
         (zip idxs slices).
Proof.
  intros Ho Hh Hall. revert slices.
  induction Hall as [|i lv idxs read Hi _ IH]; intros [|v slices];
    try constructor.
  - simpl. rewrite (shard_tensor_same _ _ _ _ _ Ho Hh), Hi. eexists; reflexivity.
  - apply IH.
Qed.

Lemma scatter_stores_same sel w opts idxs read :
  Forall2 (fun i lv => shard_tensor sel w opts i = Some lv) idxs read ->
  scatter_stores read (heap w) = heap w.
Proof.
  induction 1 as [|i lv idxs read Hi _ IH]; [reflexivity|].
  cbn [scatter_stores foldl].
  destruct (shard_tensor_inv _ _ _ _ _ Hi)
    as (o & x & tb & _ & _ & _ & Hl & _ & Hd).
  rewrite (alter_insert _ _ _ _ Hl), Hd, overwritten_same.
  rewrite list_insert_id by exact Hl. exact IH.
Qed.

Lemma readable_float_item n (v : list float) :
  (Z.of_nat (length v) < 2 ^ 31)%Z ->
  N.to_nat (Shape_elements (Item.shape (float_item n v))) = length v.
Proof.
  intros Hv. cbn [float_item Item.shape].
  rewrite Shape_elements_vector by exact Hv. apply Nat2N.id.
Qed.

(** X18.  A checkpoint of Adam is read back as it was written.  When the main
    process saves, and [scatterFn] cuts the gathered vectors into the
    slices they were gathered from, [load] of the file returns and leaves
    every tensor, optimizer and allocator as it was before [save]: each
    shard receives its own moments and [this] its own denominators, not
    those the array started with. *)
Theorem Adam_save_load_round_trip (w : World) (this : oid) (x : Optimizer)
    (s : Adam.state) (vDenoms0 : double * double) (name : string)
    (opts : list oid) (backends : list Backend)
    (gatherFn : GatherStateFunc) (scatterFn : ScatterStateFunc)
    (readM readV : list (loc * list float)) :
  objs w !! this = Some x ->
  rule x = RuleAdam s ->
  length opts = length backends ->
  Forall2 (fun i lv => shard_tensor (Adam_stat Adam.mt_) w opts i = Some lv)
          (gather_local gatherFn) readM ->
  Forall2 (fun i lv => shard_tensor (Adam_stat Adam.vt_) w opts i = Some lv)
          (gather_local gatherFn) readV ->
  let vMt := gather_all gatherFn (map snd readM) in
  let vVt := gather_all gatherFn (map snd readV) in
  scatterFn vMt = zip (gather_local gatherFn) (map snd readM) ->
  scatterFn vVt = zip (gather_local gatherFn) (map snd readV) ->
  length vMt = length vVt ->
  (Z.of_nat (length vMt) < 2 ^ 31)%Z ->
  let saved := snd (save this name opts gatherFn true w) in
  let loaded := load this vDenoms0 name opts backends scatterFn saved in
  fst loaded = inr tt /\ same_state w (snd loaded).
Proof.
  intros Ho Hr Hlen HM HV vMt vVt HsM HsV Hmv Hsmall saved loaded.
  assert (Hsaved : saved
                   = set_stream
                       (stream w ++ [OpLog info "Saving Adam parameters to {}"]
                        ++ gather_ops readM ++ gather_ops readV
                        ++ [OpSaveItems name])
                       (set_fs (<[name := [float_item "adam_mt" vMt;
                                           float_item "adam_vt" vVt;
                                           denoms_item (Adam.denom1_ s)
                                                       (Adam.denom2_ s)]]>
                                  (fs w)) w)).
  { subst saved. unfold save.
    erewrite bind_ok by (apply object_ok; eassumption). rewrite Hr.
    rewrite (Adam_save_run _ _ _ _ name _ _ true _ _ Ho Hr HM HV).
    reflexivity. }
  subst loaded. clearbody saved.
  set (items := [float_item "adam_mt" vMt; float_item "adam_vt" vVt;
                 denoms_item (Adam.denom1_ s) (Adam.denom2_ s)]) in *.
  assert (Hf : fs saved !! name = Some items).
  { rewrite Hsaved. simpl. apply lookup_insert_eq. }
  assert (Hos : objs saved = objs w) by (rewrite Hsaved; reflexivity).
  assert (Hhs : heap saved = heap w) by (rewrite Hsaved; reflexivity).
  assert (Has : allocators saved = allocators w) by (rewrite Hsaved; reflexivity).
  assert (Ho' : objs saved !! this = Some x) by (rewrite Hos; exact Ho).
  assert (Hread : Forall readable items).
  { constructor; [|constructor; [|constructor; [|constructor]]].
    - change (N.to_nat (Shape_elements (Item.shape (float_item "adam_mt" vMt)))
              <= length vMt)%nat.
      rewrite readable_float_item by exact Hsmall. lia.
    - change (N.to_nat (Shape_elements (Item.shape (float_item "adam_vt" vVt)))
              <= length vVt)%nat.
      rewrite readable_float_item by (rewrite <- Hmv; exact Hsmall). lia.
    - change (Shape_elements [1; 2]%Z = 2%N /\ (2 <= 2)%nat).
      split; [reflexivity | lia]. }
  assert (HpM : parse_floats "adam_mt" items [] = vMt).
  { transitivity
      (take (N.to_nat (Shape_elements (Item.shape (float_item "adam_mt" vMt))))
            vMt); [reflexivity|].
    rewrite readable_float_item by exact Hsmall. apply firstn_all. }
  assert (HpV : parse_floats "adam_vt" items [] = vVt).
  { transitivity
      (take (N.to_nat (Shape_elements (Item.shape (float_item "adam_vt" vVt))))
            vVt); [reflexivity|].
    rewrite readable_float_item by (rewrite <- Hmv; exact Hsmall).
    apply firstn_all. }
  assert (HpD : parse_denoms items vDenoms0 = (Adam.denom1_ s, Adam.denom2_ s))
    by reflexivity.
  destruct (decide (vMt = [])) as [Hempty|Hfull].
  - unfold load.
    erewrite bind_ok by (apply object_ok; exact Ho').
    rewrite Hr.
    erewrite Adam_load_warns; try eassumption; [|left; congruence].
    split; [reflexivity|]. split; [exact Hhs | split; [exact Has | exact Hos]].
  - assert (Hfull' : vVt <> []).
    { intros E. apply Hfull. apply length_zero_iff_nil.
      rewrite Hmv, E. reflexivity. }
    erewrite (Adam_load_warm saved this x s vDenoms0 name opts backends
                scatterFn items readM readV);
      try eassumption; try congruence.
    + split; [reflexivity|]. unfold same_state.
      cbn [snd heap objs allocators]. rewrite Hhs, Hos, Has.
      rewrite (scatter_stores_same _ _ _ _ _ HM).
      rewrite (scatter_stores_same _ _ _ _ _ HV).
      repeat split.
      rewrite <- (list_insert_id (objs w) this x Ho) at 2. f_equal.
      destruct x as [b r]. simpl in Hr. subst r. rewrite HpD. simpl.
      destruct s; reflexivity.
    + rewrite HpM, HsM. eapply gathered_targets; eassumption.
    + rewrite HpM, HsM. eapply gathered_shards; eassumption.
    + rewrite HpV, HsV. eapply gathered_targets; eassumption.
Qed.

(** X19.  A checkpoint of Adagrad is read back as it was written: when the main
    process saves, and [scatterFn] cuts the gathered vector into the slices
    it was gathered from, [load] of the file returns and leaves every
    tensor, optimizer and allocator as it was before [save]. *)
Theorem Adagrad_save_load_round_trip (w : World) (this : oid) (x : Optimizer)
    (s : Adagrad.state) (vDenoms0 : double * double) (name : string)
    (opts : list oid) (backends : list Backend)
    (gatherFn : GatherStateFunc) (scatterFn : ScatterStateFunc)
    (read : list (loc * list float)) :
  objs w !! this = Some x ->
  rule x = RuleAdagrad s ->
  length opts = length backends ->
  Forall2 (fun i lv => shard_tensor Adagrad_stat w opts i = Some lv)
          (gather_local gatherFn) read ->
  let vGt := gather_all gatherFn (map snd read) in
  scatterFn vGt = zip (gather_local gatherFn) (map snd read) ->
  (Z.of_nat (length vGt) < 2 ^ 31)%Z ->
  let saved := snd (save this name opts gatherFn true w) in
  let loaded := load this vDenoms0 name opts backends scatterFn saved in
  fst loaded = inr tt /\ same_state w (snd loaded).
Proof.
  intros Ho Hr Hlen HG vGt Hs Hsmall saved loaded.
  assert (Hsaved : saved
                   = set_stream
                       (stream w ++ [OpLog info "Saving Adagrad parameters to {}"]
                        ++ gather_ops read ++ [OpSaveItems name])
                       (set_fs (<[name := [float_item "adagrad_gt" vGt]]>
                                  (fs w)) w)).
  { subst saved. unfold save.
    erewrite bind_ok by (apply object_ok; eassumption). rewrite Hr.
    rewrite (Adagrad_save_run _ this name _ _ true _ HG). reflexivity. }
  subst loaded. clearbody saved.
  set (items := [float_item "adagrad_gt" vGt]) in *.
  assert (Hf : fs saved !! name = Some items).
  { rewrite Hsaved. simpl. apply lookup_insert_eq. }
  assert (Hos : objs saved = objs w) by (rewrite Hsaved; reflexivity).
  assert (Hhs : heap saved = heap w) by (rewrite Hsaved; reflexivity).
  assert (Has : allocators saved = allocators w) by (rewrite Hsaved; reflexivity).
  assert (Ho' : objs saved !! this = Some x) by (rewrite Hos; exact Ho).
  assert (Hread : Forall readable items).
  { constructor; [|constructor].
    change (N.to_nat (Shape_elements (Item.shape (float_item "adagrad_gt" vGt)))
            <= length vGt)%nat.
    rewrite readable_float_item by exact Hsmall. lia. }
  assert (Hp : parse_floats "adagrad_gt" items [] = vGt).
  { transitivity
      (take (N.to_nat (Shape_elements
                         (Item.shape (float_item "adagrad_gt" vGt))))
            vGt); [reflexivity|].
    rewrite readable_float_item by exact Hsmall. apply firstn_all. }
  destruct (decide (vGt = [])) as [Hempty|Hfull].
  - unfold load.
    erewrite bind_ok by (apply object_ok; exact Ho').
    rewrite Hr.
    erewrite Adagrad_load_parsed; try eassumption; [|congruence].
    split; [reflexivity|]. split; [exact Hhs | split; [exact Has | exact Hos]].
  - erewrite (Adagrad_load_warm saved this x s vDenoms0 name opts backends
                scatterFn items read);
      try eassumption; try congruence.
    + split; [reflexivity|]. unfold same_state, set_stream, set_heap.
      cbn [snd heap objs allocators]. rewrite Hhs.
      rewrite (scatter_stores_same _ _ _ _ _ HG).
      split; [reflexivity | split; [exact Has | exact Hos]].
    + rewrite Hp, Hs. eapply gathered_targets; eassumption.
Qed.
End RoundTrip.

(** ** Checkpoints read into new optimizers *)

Section Cold.
Context `{Collaborators}.

(** X20.  [load] into a new Adam optimizer, which is its own single shard,
    allocates: one allocator on the backend of the shard, one reservation
    of [2 * sizeof(float)] bytes per entry of the first slice, and two
    float32 tensors of that many cells.  The first moment is the first
    slice.  The second moment starts with the second slice, and where that
    one is shorter the rest is what the arena held, since nothing sets it.
    The denominators are those of the file, or what the array held. *)
Theorem Adam_load_cold_restore (w : World) (this : oid) (x : Optimizer)
    (s : Adam.state) (vDenoms0 : double * double) (name : string)
    (opts : list oid) (backends : list Backend)
    (scatterFn : ScatterStateFunc) (items : list Item.t)
    (i : nat) (b : Backend) (sM sV : list float) :
  objs w !! this = Some x ->
  rule x = RuleAdam s ->
  Adam.alloc_ s = None ->
  Adam.mt_ s = None ->
  length opts = length backends ->
  opts !! i = Some this ->
  backends !! i = Some b ->
  fs w !! name = Some items ->
  Forall readable items ->
  let vMt := parse_floats "adam_mt" items [] in
  let vVt := parse_floats "adam_vt" items [] in
  let vDenoms := parse_denoms items vDenoms0 in
  vMt <> [] -> vVt <> [] -> length vMt = length vVt ->
  scatterFn vMt = [(i, sM)] ->
  scatterFn vVt = [(i, sV)] ->
  (Z.of_nat (length sM) < 2 ^ 31)%Z ->
  (length sV <= length sM)%nat ->
  let l0 := length (heap w) in
  let l1 := S (length (heap w)) in
  let a0 := length (allocators w) in
  let bytes := size_mul (size_mul 2 sizeof_float) (N.of_nat (length sM)) in
  load this vDenoms0 name opts backends scatterFn w =
  (inr tt,
   {| heap := heap w ++
              [float32_tensor b sM;
               float32_tensor b
                 (sV ++ drop (length sV)
                             (map arena_cell (seq 0 (length sM))))];
      allocators := allocators w ++
                    [{| ta_backend := b; ta_reserved := [bytes];
                        ta_tensors := [l0; l1] |}];
      objs := <[this := {| base := base x;
                           rule := RuleAdam
                                     (Adam.set_denom2_ (snd vDenoms)
                                        (Adam.set_denom1_ (fst vDenoms)
                                           (Adam.set_vt_ (Some l1)
                                              (Adam.set_mt_ (Some l0)
                                                 (Adam.set_alloc_ (Some a0)
                                                    s))))) |}]>
                (objs w);
      fs := fs w;
      stream := stream w ++
                [OpLog info "Loading Adam parameters from {}"; OpScatter;
                 OpReserveExact bytes;
                 OpAllocate l0 (length sM) float32;
                 OpAllocate l1 (length sM) float32;
                 OpSet l0; OpScatter; OpSet l1] |}).
Proof.
  intros Ho Hr Ha Hmt Hlen Hi Hb Hf Hread vMt vVt vDenoms Hm Hv Hmv HsM HsV
         Hsmall Hle l0 l1 a0 bytes.
  destruct w as [h al os f st]. fields. cbn [heap objs allocators fs] in *.
  unfold load. erewrite bind_ok by (apply object_ok; eassumption). rewrite Hr.
  unfold Adam_load.
  erewrite bind_ok by (apply sizes_agree; assumption).
  erewrite bind_ok by (eapply exists_present; eassumption). simpl.
  erewrite bind_ok by reflexivity.
  erewrite bind_ok by (apply loadItems_ok; simpl; eassumption).
  erewrite bind_ok by (apply Adam_parse_ok; assumption).
  cbv beta iota. fold vMt vVt vDenoms.
  assert (Hbb : empty vMt || empty vVt = false).
  { destruct vMt, vVt; simpl; congruence. }
  rewrite Hbb. cbv iota. apply Nat.eqb_eq in Hmv. rewrite Hmv. simpl negb.
  erewrite bind_ok by reflexivity.
  unfold call_scatter. rewrite HsM, HsV. cbn [foldM fst snd].
  erewrite bind_ok.
  2:{ erewrite bind_ok by reflexivity.
      erewrite bind_ok; [reflexivity|].
      erewrite bind_ok by (apply at_ok; eassumption).
      erewrite bind_ok by (eapply as_Adam_ok; lk2).
      rewrite Hmt. simpl is_null. simpl orb. unfold when at 1.
      erewrite bind_ok.
      2:{ rewrite Ha. simpl is_null. unfold when at 1.
          erewrite bind_ok.
          2:{ erewrite bind_ok by (apply at_ok; eassumption).
              erewrite bind_ok by apply New_TensorAllocator_run. norm.
              eapply assign_Adam_ok; lk2. }
          norm.
          erewrite bind_ok by (eapply as_Adam_ok; lk2). norm.
          erewrite bind_ok by (eapply reserveExact_ok; lk2). norm.
          erewrite bind_ok by (eapply allocate_ok; lk2). norm.
          erewrite bind_ok by (eapply assign_Adam_ok; lk2). norm.
          erewrite bind_ok by (eapply allocate_ok; lk2). norm.
          eapply assign_Adam_ok; lk2. }
      norm.
      erewrite bind_ok by (eapply as_Adam_ok; lk2). norm.
      eapply set_vector_ok; [lk2 | reflexivity |].
      norm. rewrite Shape_elements_vector by exact Hsmall.
      rewrite Nat2N.id. lia. }
  norm.
  rewrite Shape_elements_vector by exact Hsmall. rewrite Nat2N.id.
  rewrite (drop_ge (map arena_cell (seq 0 (length sM))) (length sM))
    by (rewrite length_map, length_seq; lia).
  rewrite app_nil_r.
  erewrite bind_ok.
  2:{ erewrite bind_ok by reflexivity.
      erewrite bind_ok; [reflexivity|].
      erewrite bind_ok by (apply at_ok; eassumption).
      erewrite bind_ok by (eapply as_Adam_ok; lk2). norm.
      eapply set_vector_ok; [lk2 | reflexivity |].
      norm. lia. }
  norm.
  erewrite bind_ok by (eapply assign_Adam_ok; lk2). norm.
  erewrite assign_Adam_ok by lk2. norm.
  reflexivity.
Qed.

(** X21.  [load] into a new Adagrad optimizer, which is its own single shard,
    allocates one allocator on the backend of the shard, one reservation of
    [sizeof(float)] bytes per entry of the slice and one float32 tensor,
    which holds the slice. *)
Theorem Adagrad_load_cold_restore (w : World) (this : oid) (x : Optimizer)
    (s : Adagrad.state) (vDenoms0 : double * double) (name : string)
    (opts : list oid) (backends : list Backend)
    (scatterFn : ScatterStateFunc) (items : list Item.t)
    (i : nat) (b : Backend) (slice : list float) :
  objs w !! this = Some x ->
  rule x = RuleAdagrad s ->
  Adagrad.alloc_ s = None ->
  Adagrad.gt_ s = None ->
  length opts = length backends ->
  opts !! i = Some this ->
  backends !! i = Some b ->
  fs w !! name = Some items ->
  Forall readable items ->
  let vGt := parse_floats "adagrad_gt" items [] in
  vGt <> [] ->
  scatterFn vGt = [(i, slice)] ->
  (Z.of_nat (length slice) < 2 ^ 31)%Z ->
  let l0 := length (heap w) in
  let a0 := length (allocators w) in
  let bytes := size_mul sizeof_float (N.of_nat (length slice)) in
  load this vDenoms0 name opts backends scatterFn w =
  (inr tt,
   {| heap := heap w ++
              [float32_tensor b slice];
      allocators := allocators w ++
                    [{| ta_backend := b; ta_reserved := [bytes];
                        ta_tensors := [l0] |}];
      objs := <[this := {| base := base x;
                           rule := RuleAdagrad
                                     (Adagrad.set_gt_ (Some l0)
                                        (Adagrad.set_alloc_ (Some a0) s)) |}]>
                (objs w);
      fs := fs w;
      stream := stream w ++
                [OpLog info "Loading Adagrad parameters from {}"; OpScatter;
                 OpReserveExact bytes;
                 OpAllocate l0 (length slice) float32;
                 OpSet l0] |}).
Proof.
  intros Ho Hr Ha Hgt Hlen Hi Hb Hf Hread vGt Hg Hs Hsmall l0 a0 bytes.
  destruct w as [h al os f st]. fields. cbn [heap objs allocators fs] in *.
  unfold load. erewrite bind_ok by (apply object_ok; eassumption). rewrite Hr.
  unfold Adagrad_load.
  erewrite bind_ok by (apply sizes_agree; assumption).
  erewrite bind_ok by (eapply exists_present; eassumption). simpl.
  erewrite bind_ok by reflexivity.
  erewrite bind_ok by (apply loadItems_ok; simpl; eassumption).
  erewrite bind_ok by (apply Adagrad_parse_ok; assumption).
  fold vGt.
  assert (Hbb : empty vGt = false) by (destruct vGt; simpl; congruence).
  rewrite Hbb.
  unfold call_scatter. rewrite Hs. cbn [foldM fst snd].
  erewrite bind_ok by reflexivity.
  erewrite bind_ok; [reflexivity|].
  erewrite bind_ok by (apply at_ok; eassumption).
  erewrite bind_ok by (eapply as_Adagrad_ok; lk2).
  rewrite Hgt. simpl is_null. unfold when at 1.
  erewrite bind_ok.
  2:{ rewrite Ha. simpl is_null. unfold when at 1.
      erewrite bind_ok.
      2:{ erewrite bind_ok by (apply at_ok; eassumption).
          erewrite bind_ok by apply New_TensorAllocator_run. norm.
          eapply assign_Adagrad_ok; lk2. }
      norm.
      erewrite bind_ok by (eapply as_Adagrad_ok; lk2). norm.
      erewrite bind_ok by (eapply reserveExact_ok; lk2). norm.
      erewrite bind_ok by (eapply allocate_ok; lk2). norm.
      eapply assign_Adagrad_ok; lk2. }
  norm.
  erewrite bind_ok by (eapply as_Adagrad_ok; lk2). norm.
  erewrite set_vector_ok; [ | lk2 | reflexivity | ].
  2:{ norm. rewrite Shape_elements_vector by exact Hsmall.
      rewrite Nat2N.id. lia. }
  norm.
  rewrite Shape_elements_vector by exact Hsmall. rewrite Nat2N.id.
  rewrite (drop_ge (map arena_cell (seq 0 (length slice))) (length slice))
    by (rewrite length_map, length_seq; lia).
  rewrite app_nil_r. reflexivity.
Qed.
End Cold.
(** ** Instances *)

Section RestoreInstances.
#[local] Existing Instance IEEEMachine.
#[local] Existing Instance IEEECollaborators.

Lemma Adam_load_bad_denoms_witness :
  fs malformed_world !! "model.npz.optimizer.npz" = Some malformed_checkpoint
  /\ exists e,
       Adam_load 0 (f64 0, f64 0) "model.npz.optimizer.npz" [0%nat] [0]
         scatter_one malformed_world
       = (inl e,
          set_stream
            (stream malformed_world
             ++ [OpLog info "Loading Adam parameters from {}"])
            malformed_world)
       /\ (e = Abort "adam_denoms should have 2 entries"
           \/ e = Undefined "read past the end of the item").
Proof.
  split; [reflexivity|].
  apply (Adam_load_bad_denoms 0 (f64 0, f64 0) "model.npz.optimizer.npz"
           [0%nat] [0] scatter_one malformed_checkpoint
           (float_item "adam_denoms" [f32 1]) malformed_world
           eq_refl eq_refl).
  - right. right. left. reflexivity.
  - reflexivity.
  - intros E. discriminate E.
Defined.

Lemma Adam_updates_allocate_once_witness :
  objs scenario_A !! 0%nat
  = Some {| base := New_OptimizerBase (scenario_options "adam" (1 # 100));
            rule := RuleAdam Adam.init |}
  /\ heap scenario_A !! 0%nat = Some (cells [0]%Q)
  /\ heap scenario_A !! 1%nat = Some (cells [1]%Q)
  /\ length (heap (snd (Adam_updates 0 (Some 0%nat) (Some 1%nat)
                          [(1, 1); (2, 1); (1, 1)]%N scenario_A)))
     = 4%nat.
Proof.
  refine (conj eq_refl (conj eq_refl (conj eq_refl _))).
  destruct (Adam_updates_allocate_once scenario_A 0 _ Adam.init 0 1
              (cells [0]%Q) (cells [1]%Q) [(1, 1); (2, 1); (1, 1)]%N
              eq_refl eq_refl eq_refl eq_refl eq_refl eq_refl eq_refl eq_refl)
    as (_ & _ & Hlen & _).
  - intros E. discriminate E.
  - exact Hlen.
Defined.

Lemma observers_reset_statistics_witness :
  Adam_allocated allocated_world 0 0 1 allocated_Adam 0 2 3
  /\ Adam_members (snd (actAfterBatches 0 reset_state allocated_world)) 0
     = Some (Adam_reset allocated_Adam).
Proof.
  assert (Hinv : Adam_allocated allocated_world 0 0 1 allocated_Adam 0 2 3).
  { exists (fresh "adam" (RuleAdam allocated_Adam)),
           (tensor float32 [0]%Q), (tensor float32 [1]%Q),
           (tensor float32 [1 # 10]%Q), (tensor float32 [1 # 1000]%Q).
    repeat split; try reflexivity; intros E; discriminate E. }
  split; [exact Hinv|].
  destruct (observers_reset_statistics allocated_world 0 0 1 allocated_Adam
              0 2 3 (tensor float32 [1 # 10]%Q) (tensor float32 [1 # 1000]%Q)
              reset_state actAfterBatches Hinv eq_refl eq_refl eq_refl)
    as (_ & _ & Hmem & _).
  - apply list_elem_of_further, list_elem_of_here.
  - exact Hmem.
Defined.

Lemma Adam_load_restores_witness :
  objs restart_world !! 0%nat = Some (fresh "adam" (RuleAdam trained_Adam))
  /\ fs restart_world !! "model.npz.optimizer.npz" = Some full_checkpoint
  /\ heap (snd (load 0 (f64 0, f64 0) "model.npz.optimizer.npz" [0%nat] [0]
                  scatter_one restart_world))
     = scatter_stores [(1%nat, [f32 7; f32 8])]
         (scatter_stores [(0%nat, [f32 5; f32 6])] (heap restart_world)).
Proof.
  refine (conj eq_refl (conj eq_refl _)).
  destruct (Adam_load_restores restart_world 0
              (fresh "adam" (RuleAdam trained_Adam)) trained_Adam
              (f64 0, f64 0) "model.npz.optimizer.npz" [0%nat] [0]
              scatter_one full_checkpoint
              [(0%nat, [f32 5; f32 6])] [(1%nat, [f32 7; f32 8])]
              eq_refl eq_refl eq_refl eq_refl)
    as (_ & Hheap & _).
  - repeat constructor.
  - intros E. discriminate E.
  - intros E. discriminate E.
  - reflexivity.
  - repeat constructor.
  - repeat first [constructor | eexists; reflexivity].
  - repeat constructor.
  - exact Hheap.
Defined.

Lemma Adagrad_load_restores_witness :
  objs trained_Adagrad_world !! 0%nat
  = Some (fresh "adagrad" (RuleAdagrad trained_Adagrad))
  /\ fs trained_Adagrad_world !! "model.npz.optimizer.npz"
     = Some Adagrad_checkpoint
  /\ heap (snd (load 0 (f64 0, f64 0) "model.npz.optimizer.npz" [0%nat] [0]
                  scatter_one trained_Adagrad_world))
     = scatter_stores [(0%nat, [f32 9; f32 16])] (heap trained_Adagrad_world).
Proof.
  refine (conj eq_refl (conj eq_refl _)).
  destruct (Adagrad_load_restores trained_Adagrad_world 0
              (fresh "adagrad" (RuleAdagrad trained_Adagrad)) trained_Adagrad
              (f64 0, f64 0) "model.npz.optimizer.npz" [0%nat] [0]
              scatter_one Adagrad_checkpoint [(0%nat, [f32 9; f32 16])]
              eq_refl eq_refl eq_refl eq_refl)
    as (_ & Hheap & _).
  - repeat constructor.
  - intros E. discriminate E.
  - repeat constructor.
  - exact Hheap.
Defined.

Lemma Adam_save_load_round_trip_witness :
  objs trained_world !! 0%nat = Some (fresh "adam" (RuleAdam trained_Adam))
  /\ same_state trained_world
       (snd (load 0 (f64 0, f64 0) "model.npz.optimizer.npz" [0%nat] [0]
               scatter_one
               (snd (save 0 "model.npz.optimizer.npz" [0%nat] gather_one true
                       trained_world)))).
Proof.
  split; [reflexivity|].
  destruct (Adam_save_load_round_trip trained_world 0
              (fresh "adam" (RuleAdam trained_Adam)) trained_Adam
              (f64 0, f64 0) "model.npz.optimizer.npz" [0%nat] [0]
              gather_one scatter_one
              [(0%nat, [f32 (1 # 10); f32 (2 # 10)])]
              [(1%nat, [f32 (1 # 100); f32 (4 # 100)])]
              eq_refl eq_refl eq_refl)
    as [_ Hsame].
  - repeat constructor.
  - repeat constructor.
  - reflexivity.
  - reflexivity.
  - reflexivity.
  - reflexivity.
  - exact Hsame.
Defined.

Lemma Adagrad_save_load_round_trip_witness :
  objs trained_Adagrad_world !! 0%nat
  = Some (fresh "adagrad" (RuleAdagrad trained_Adagrad))
  /\ same_state trained_Adagrad_world
       (snd (load 0 (f64 0, f64 0) "state.npz" [0%nat] [0] scatter_one
               (snd (save 0 "state.npz" [0%nat] gather_one true
                       trained_Adagrad_world)))).
Proof.
  split; [reflexivity|].
  destruct (Adagrad_save_load_round_trip trained_Adagrad_world 0
              (fresh "adagrad" (RuleAdagrad trained_Adagrad)) trained_Adagrad
              (f64 0, f64 0) "state.npz" [0%nat] [0] gather_one scatter_one
              [(0%nat, [f32 1; f32 4])] eq_refl eq_refl eq_refl)
    as [_ Hsame].
  - repeat constructor.
  - reflexivity.
  - reflexivity.
  - exact Hsame.
Defined.

Lemma Adam_load_cold_restore_witness :
  objs cold_world !! 0%nat = Some (fresh "adam" (RuleAdam Adam.init))
  /\ fs cold_world !! "model.npz.optimizer.npz" = Some full_checkpoint
  /\ fst (load 0 (f64 0, f64 0) "model.npz.optimizer.npz" [0%nat] [0]
            scatter_one cold_world) = inr tt.
Proof.
  refine (conj eq_refl (conj eq_refl _)).
  refine (f_equal fst
            (Adam_load_cold_restore cold_world 0
               (fresh "adam" (RuleAdam Adam.init)) Adam.init
               (f64 0, f64 0) "model.npz.optimizer.npz" [0%nat] [0]
               scatter_one full_checkpoint 0 0 [f32 5; f32 6] [f32 7; f32 8]
               eq_refl eq_refl eq_refl eq_refl eq_refl eq_refl eq_refl eq_refl
               _ _ _ eq_refl eq_refl eq_refl eq_refl _)).
  - repeat constructor.
  - intros E. discriminate E.
  - intros E. discriminate E.
  - simpl. lia.
Defined.

Lemma Adagrad_load_cold_restore_witness :
  objs cold_Adagrad_world !! 0%nat
  = Some (fresh "adagrad" (RuleAdagrad Adagrad.init))
  /\ fs cold_Adagrad_world !! "model.npz.optimizer.npz"
     = Some Adagrad_checkpoint
  /\ fst (load 0 (f64 0, f64 0) "model.npz.optimizer.npz" [0%nat] [0]
            scatter_one cold_Adagrad_world) = inr tt.
Proof.
  refine (conj eq_refl (conj eq_refl _)).
  refine (f_equal fst
            (Adagrad_load_cold_restore cold_Adagrad_world 0
               (fresh "adagrad" (RuleAdagrad Adagrad.init)) Adagrad.init
               (f64 0, f64 0) "model.npz.optimizer.npz" [0%nat] [0]
               scatter_one Adagrad_checkpoint 0 0 [f32 9; f32 16]
               eq_refl eq_refl eq_refl eq_refl eq_refl eq_refl eq_refl eq_refl
               _ _ eq_refl eq_refl)).
  - repeat constructor.
  - intros E. discriminate E.
Defined.
End RestoreInstances.

Section ExactInstances.
#[local] Existing Instance RealMachine.
#[local] Existing Instance RealCollaborators.

Lemma Adam_updates_denominators_witness :
  objs scenario_A !! 0%nat
  = Some {| base := New_OptimizerBase (scenario_options "adam" (1 # 100));
            rule := RuleAdam Adam.init |}
  /\ heap scenario_A !! 0%nat = Some (cells [0]%Q)
  /\ heap scenario_A !! 1%nat = Some (cells [1]%Q)
  /\ denominators
       (snd (Adam_updates 0 (Some 0%nat) (Some 1%nat) [(1, 1); (2, 1)]%N
               scenario_A)) 0
     = Some ((1 - Q2R q_0_9 ^ 2 * (1 - Q2R 0))%R,
             (1 - Q2R q_0_999 ^ 2 * (1 - Q2R 0))%R).
Proof.
  refine (conj eq_refl (conj eq_refl (conj eq_refl _))).
  exact (proj2 (Adam_updates_denominators scenario_A 0 _ Adam.init 0 1
                  (cells [0]%Q) (cells [1]%Q) [(1, 1); (2, 1)]%N
                  eq_refl eq_refl eq_refl eq_refl eq_refl eq_refl eq_refl
                  eq_refl)).
Defined.

Lemma reset_restarts_bias_correction_witness :
  Adam_allocated exact_trained_world 0 0 1 exact_trained_Adam 0 2 3
  /\ denominators
       (snd ((actAfterEpoch 0 exact_reset_state ;;
              Adam_updates 0 (Some 0%nat) (Some 1%nat) [(1, 1); (2, 1)]%N)
               exact_trained_world)) 0
     = Some ((1 - Q2R q_0_9 ^ 2)%R, (1 - Q2R q_0_999 ^ 2)%R).
Proof.
  assert (Hinv : Adam_allocated exact_trained_world 0 0 1
                   exact_trained_Adam 0 2 3).
  { exists {| base := New_OptimizerBase (scenario_options "adam" (1 # 100));
              rule := RuleAdam exact_trained_Adam |},
           (cells [0]%Q), (cells [1]%Q), (cells [1 # 10]%Q),
           (cells [1 # 1000]%Q).
    repeat split; try reflexivity; intros E; discriminate E. }
  split; [exact Hinv|].
  refine (proj2 (reset_restarts_bias_correction exact_trained_world 0 0 1
                   exact_trained_Adam 0 2 3 exact_reset_state actAfterEpoch
                   [(1, 1); (2, 1)]%N Hinv eq_refl _)).
  apply list_elem_of_here.
Defined.
End ExactInstances.

(** ** Successive updates of Adagrad *)

Section AdagradIterate.
Context `{Collaborators}.

Lemma Adagrad_gt_after_S k g :
  Adagrad_gt_after (S k) g
  = zip_with (fun _1 _2 => _1 + (_2 * _2))%fl (Adagrad_gt_after k g) g.
Proof. reflexivity. Qed.

Lemma Adagrad_allocated_step w this p g tg a lg acc n :
  Adagrad_allocated w this p g tg a lg acc ->
  exists w',
    Adagrad_updateImpl this (Some p) (Some g) n n w = (inr tt, w')
    /\ Adagrad_allocated w' this p g tg a lg
         (zip_with (fun _1 _2 => _1 + (_2 * _2))%fl acc (TensorBase.data tg))
    /\ allocators w' = allocators w
    /\ length (heap w') = length (heap w).
Proof.
  intros (o & s & tp & tgt & Ho & Hr & Ha & Hgt & Hp & Hg & Hlg & Hacc
          & Hlp & Hlgg & Hgp & Hleng & Hlena).
  subst acc. eexists. split.
  { eapply Adagrad_updateImpl_run; eassumption. }
  cbn [heap objs allocators fs].
  pose proof (lookup_lt_Some _ _ _ Ho) as Hthis.
  pose proof (lookup_lt_Some _ _ _ Hp) as Hpl.
  pose proof (lookup_lt_Some _ _ _ Hlg) as Hlgl.
  split; [|split; [reflexivity | rewrite !length_insert; reflexivity]].
  set (gt' := zip_with _ (TensorBase.data tgt) (TensorBase.data tg)).
  set (ps := zip_with3 _ _ _ _).
  assert (Hgt' : length gt' = length (TensorBase.data tp)).
  { unfold gt'. rewrite length_zip_with_same; congruence. }
  assert (Hps : length ps = length (TensorBase.data tp)).
  { unfold ps. unfold zip_with3. rewrite length_zip_with, length_zip_with. lia. }
  eexists _, _, (TensorBase.with_data ps tp), (TensorBase.with_data gt' tgt).
  split; [apply list_lookup_insert_eq; assumption|].
  split; [reflexivity|].
  split; [exact Ha|]. split; [exact Hgt|].
  cbn [heap].
  split; [apply list_lookup_insert_eq; rewrite length_insert; assumption|].
  split; [rewrite !list_lookup_insert_ne by congruence; assumption|].
  split.
  { rewrite list_lookup_insert_ne by congruence.
    apply list_lookup_insert_eq. assumption. }
  split; [reflexivity|].
  repeat split; try assumption;
    cbn [TensorBase.data TensorBase.with_data]; congruence.
Qed.

Lemma Adagrad_allocated_run sizes : forall w this p g tg a lg k,
  Adagrad_allocated w this p g tg a lg
    (Adagrad_gt_after k (TensorBase.data tg)) ->
  exists w',
    Adagrad_updates this (Some p) (Some g) sizes w = (inr tt, w')
    /\ Adagrad_allocated w' this p g tg a lg
         (Adagrad_gt_after (length sizes + k) (TensorBase.data tg))
    /\ allocators w' = allocators w
    /\ length (heap w') = length (heap w).
Proof.
  induction sizes as [|n sizes IH]; intros w this p g tg a lg k Hinv.
  - exists w. repeat split. exact Hinv.
  - destruct (Adagrad_allocated_step w this p g tg a lg _ n Hinv)
      as (w1 & Hrun & Hinv1 & Hal1 & Hlen1).
    rewrite <- Adagrad_gt_after_S in Hinv1.
    destruct (IH w1 this p g tg a lg (S k) Hinv1)
      as (w2 & Hrun2 & Hinv2 & Hal2 & Hlen2).
    exists w2. cbn [Adagrad_updates length].
    erewrite bind_ok by exact Hrun.
    replace (S (length sizes) + k)%nat with (length sizes + S k)%nat by lia.
    repeat split; try assumption; congruence.
Qed.

Lemma Adagrad_allocated_first w this o s p g tp tg n :
  objs w !! this = Some o ->
  rule o = RuleAdagrad s ->
  Adagrad.alloc_ s = None ->
  Adagrad.gt_ s = None ->
  heap w !! p = Some tp ->
  heap w !! g = Some tg ->
  g <> p ->
  length (TensorBase.data tg) = length (TensorBase.data tp) ->
  (Z.of_nat (length (TensorBase.data tp)) < 2 ^ 31)%Z ->
  exists w',
    Adagrad_updateImpl this (Some p) (Some g) n n w = (inr tt, w')
    /\ Adagrad_allocated w' this p g tg (length (allocators w))
         (length (heap w)) (Adagrad_gt_after 1 (TensorBase.data tg))
    /\ allocators w'
       = allocators w ++
         [{| ta_backend := TensorBase.backend_ tp;
             ta_reserved :=
               [size_mul (TensorBase.size tp) (sizeOf (TensorBase.type_ tp))];
             ta_tensors := [length (heap w)] |}]
    /\ length (heap w') = S (length (heap w)).
Proof.
  intros Ho Hr Ha Hgt Hp Hg Hgp Hleng Hsmall.
  eexists. split.
  { eapply Adagrad_updateImpl_first; eassumption. }
  cbn [heap objs allocators fs].
  pose proof (lookup_lt_Some _ _ _ Ho) as Hthis.
  pose proof (lookup_lt_Some _ _ _ Hp) as Hpl.
  pose proof (lookup_lt_Some _ _ _ Hg) as Hgl.
  split; [|split; [reflexivity |]].
  2:{ rewrite length_insert, length_app. simpl. lia. }
  set (gt' := zip_with _ (replicate _ _) (TensorBase.data tg)).
  set (ps := zip_with3 _ _ _ _).
  assert (Hgt' : length gt' = length (TensorBase.data tp)).
  { unfold gt'.
    rewrite length_zip_with_same; rewrite ?length_replicate; congruence. }
  assert (Hps : length ps = length (TensorBase.data tp)).
  { unfold ps, zip_with3. rewrite length_zip_with, length_zip_with. lia. }
  eexists _, _, (TensorBase.with_data ps tp), _.
  split; [apply list_lookup_insert_eq; assumption|].
  split; [reflexivity|].
  split; [reflexivity|]. split; [reflexivity|].
  cbn [heap].
  split; [apply list_lookup_insert_eq; rewrite length_app; lia|].
  split.
  { rewrite list_lookup_insert_ne by congruence.
    apply lookup_app_l_Some. assumption. }
  split.
  { rewrite list_lookup_insert_ne by lia.
    rewrite lookup_app_r by lia. rewrite Nat.sub_diag. reflexivity. }
  split.
  { cbn [TensorBase.data]. unfold gt', Adagrad_gt_after. cbn [Nat.iter].
    rewrite Hleng. reflexivity. }
  split; [lia|]. split; [lia|]. split; [assumption|].
  cbn [TensorBase.data TensorBase.with_data].
  split; [congruence|].
  rewrite Adagrad_gt_after_S, Hps.
  assert (Hzero : length (Adagrad_gt_after 0 (TensorBase.data tg))
               = length (TensorBase.data tg)) by apply length_replicate.
  rewrite length_zip_with_same; congruence.
Qed.

Lemma Adagrad_updates_run w this o s p g tp tg sizes :
  objs w !! this = Some o ->
  rule o = RuleAdagrad s ->
  Adagrad.alloc_ s = None ->
  Adagrad.gt_ s = None ->
  heap w !! p = Some tp ->
  heap w !! g = Some tg ->
  g <> p ->
  length (TensorBase.data tg) = length (TensorBase.data tp) ->
  (Z.of_nat (length (TensorBase.data tp)) < 2 ^ 31)%Z ->
  sizes <> [] ->
  exists w',
    Adagrad_updates this (Some p) (Some g) sizes w = (inr tt, w')
    /\ Adagrad_allocated w' this p g tg (length (allocators w))
         (length (heap w))
         (Adagrad_gt_after (length sizes) (TensorBase.data tg))
    /\ allocators w'
       = allocators w ++
         [{| ta_backend := TensorBase.backend_ tp;
             ta_reserved :=
               [size_mul (TensorBase.size tp) (sizeOf (TensorBase.type_ tp))];
             ta_tensors := [length (heap w)] |}]
    /\ length (heap w') = S (length (heap w)).
Proof.
  intros Ho Hr Ha Hgt Hp Hg Hgp Hleng Hsmall Hsizes.
  destruct sizes as [|n sizes]; [congruence|].
  destruct (Adagrad_allocated_first w this o s p g tp tg n
              Ho Hr Ha Hgt Hp Hg Hgp Hleng Hsmall)
    as (w1 & Hrun1 & Hinv1 & Hal1 & Hlen1).
  destruct (Adagrad_allocated_run sizes _ _ _ _ _ _ _ 1%nat Hinv1)
    as (w2 & Hrun2 & Hinv2 & Hal2 & Hlen2).
  exists w2. cbn [Adagrad_updates length].
  erewrite bind_ok by exact Hrun1.
  replace (S (length sizes)) with (length sizes + 1)%nat by lia.
  repeat split; try assumption; congruence.
Qed.

(** X22.  Adagrad allocates on its first call only and then accumulates.  From
    an optimizer without allocator and sums, any number of calls with
    parameters and gradients in two tensors of one length return; together
    they make one allocator with one reservation, of the bytes of the
    parameters, and one tensor, the sums; the gradients are not written;
    and after [n] calls each sum is 0 with the square of its gradient added
    [n] times. *)
Theorem Adagrad_updates_accumulate (w : World) (this : oid) (o : Optimizer)
    (s : Adagrad.state) (p g : loc) (tp tg : TensorBase.t)
    (sizes : list N) :
  objs w !! this = Some o ->
  rule o = RuleAdagrad s ->
  Adagrad.alloc_ s = None ->
  Adagrad.gt_ s = None ->
  heap w !! p = Some tp ->
  heap w !! g = Some tg ->
  g <> p ->
  length (TensorBase.data tg) = length (TensorBase.data tp) ->
  (Z.of_nat (length (TensorBase.data tp)) < 2 ^ 31)%Z ->
  sizes <> [] ->
  let after := Adagrad_updates this (Some p) (Some g) sizes w in
  fst after = inr tt
  /\ allocators (snd after)
     = allocators w ++
       [{| ta_backend := TensorBase.backend_ tp;
           ta_reserved :=
             [size_mul (TensorBase.size tp) (sizeOf (TensorBase.type_ tp))];
           ta_tensors := [length (heap w)] |}]
  /\ length (heap (snd after)) = S (length (heap w))
  /\ heap (snd after) !! g = Some tg
  /\ TensorBase.data <$> heap (snd after) !! length (heap w)
     = Some (Adagrad_gt_after (length sizes) (TensorBase.data tg)).
Proof.
  intros Ho Hr Ha Hgt Hp Hg Hgp Hleng Hsmall Hsizes after.
  destruct (Adagrad_updates_run w this o s p g tp tg sizes
              Ho Hr Ha Hgt Hp Hg Hgp Hleng Hsmall Hsizes)
    as (w' & Hrun & Hinv & Hal & Hlen).
  subst after. rewrite Hrun. cbn [fst snd].
  destruct Hinv as (o' & s' & tp' & tgt & _ & _ & _ & _ & _ & Hg' & Hlg
                    & Hacc & _).
  split; [reflexivity|]. split; [exact Hal|]. split; [exact Hlen|].
  split; [exact Hg'|].
  transitivity (TensorBase.data <$> Some tgt); [f_equal; exact Hlg|].
  simpl. rewrite Hacc. reflexivity.
Qed.
End AdagradIterate.

Section AdagradExact.
#[local] Existing Instance RealMachine.
Context {C : @Collaborators RealMachine}.

Lemma zip_with_map_same {A B} (f : B -> A -> B) (h : A -> B) (l : list A) :
  zip_with f (map h l) l = map (fun x => f (h x) x) l.
Proof. induction l as [|x l IH]; [reflexivity|]. simpl. rewrite IH. reflexivity. Qed.

Lemma Adagrad_gt_after_exact (k : nat) (g : list R) :
  Adagrad_gt_after k g = map (fun x => (INR k * (x * x))%R) g.
Proof.
  induction k as [|k IH].
  - change (replicate (length g) (Q2R 0)
            = map (fun x => (INR 0 * (x * x))%R) g).
    rewrite flit_zero.
    induction g as [|x g IHg]; [reflexivity|]. simpl. rewrite IHg.
    f_equal. ring.
  - rewrite Adagrad_gt_after_S, IH, zip_with_map_same.
    apply map_ext. intros x. rewrite S_INR. simpl. ring.
Qed.

(** X23.  In exact arithmetic the sums of Adagrad after [n] calls with the same
    gradients are [n] times their squares. *)
Theorem Adagrad_updates_sum_of_squares (w : World) (this : oid)
    (o : Optimizer) (s : Adagrad.state) (p g : loc) (tp tg : TensorBase.t)
    (sizes : list N) :
  objs w !! this = Some o ->
  rule o = RuleAdagrad s ->
  Adagrad.alloc_ s = None ->
  Adagrad.gt_ s = None ->
  heap w !! p = Some tp ->
  heap w !! g = Some tg ->
  g <> p ->
  length (TensorBase.data tg) = length (TensorBase.data tp) ->
  (Z.of_nat (length (TensorBase.data tp)) < 2 ^ 31)%Z ->
  sizes <> [] ->
  let after := Adagrad_updates this (Some p) (Some g) sizes w in
  fst after = inr tt
  /\ TensorBase.data <$> heap (snd after) !! length (heap w)
     = Some (map (fun x => (INR (length sizes) * (x * x))%R)
                 (TensorBase.data tg)).
Proof.
  intros Ho Hr Ha Hgt Hp Hg Hgp Hleng Hsmall Hsizes after.
  destruct (Adagrad_updates_run w this o s p g tp tg sizes
              Ho Hr Ha Hgt Hp Hg Hgp Hleng Hsmall Hsizes)
    as (w' & Hrun & Hinv & _).
  subst after. rewrite Hrun. cbn [fst snd].
  destruct Hinv as (o' & s' & tp' & tgt & _ & _ & _ & _ & _ & _ & Hlg
                    & Hacc & _).
  split; [reflexivity|].
  transitivity (TensorBase.data <$> Some tgt); [f_equal; exact Hlg|].
  simpl. rewrite Hacc. f_equal. apply Adagrad_gt_after_exact.
Qed.
End AdagradExact.

Section AdagradReset.
Context `{Collaborators}.


End AdagradReset.

Section AdagradInstances.
#[local] Existing Instance IEEEMachine.
#[local] Existing Instance IEEECollaborators.

Lemma Adagrad_updates_accumulate_witness :
  objs Adagrad_world !! 0%nat
  = Some (fresh "adagrad" (RuleAdagrad Adagrad.init))
  /\ heap Adagrad_world !! 0%nat = Some (tensor float32 [1; 2]%Q)
  /\ heap Adagrad_world !! 1%nat = Some (tensor float32 [1 # 2; 1 # 4]%Q)
  /\ TensorBase.data
     <$> heap (snd (Adagrad_updates 0 (Some 0%nat) (Some 1%nat) [3; 5]%N
                      Adagrad_world)) !! 2%nat
     = Some (Adagrad_gt_after 2
               (TensorBase.data (tensor float32 [1 # 2; 1 # 4]%Q))).
Proof.
  refine (conj eq_refl (conj eq_refl (conj eq_refl _))).
  destruct (Adagrad_updates_accumulate Adagrad_world 0 _ Adagrad.init 0 1
              (tensor float32 [1; 2]%Q) (tensor float32 [1 # 2; 1 # 4]%Q)
              [3; 5]%N eq_refl eq_refl eq_refl eq_refl eq_refl eq_refl)
    as (_ & _ & _ & _ & Hsum).
  - intros E. discriminate E.
  - reflexivity.
  - reflexivity.
  - intros E. discriminate E.
  - exact Hsum.
Defined.

End AdagradInstances.

Section AdagradExactInstances.
#[local] Existing Instance RealMachine.
#[local] Existing Instance RealCollaborators.

Lemma Adagrad_updates_sum_of_squares_witness :
  objs scenario_B !! 0%nat
  = Some {| base := New_OptimizerBase (scenario_options "adagrad" (1 # 10));
            rule := RuleAdagrad Adagrad.init |}
  /\ heap scenario_B !! 0%nat = Some (cells [1]%Q)
  /\ heap scenario_B !! 1%nat = Some (cells [2]%Q)
  /\ TensorBase.data
     <$> heap (snd (Adagrad_updates 0 (Some 0%nat) (Some 1%nat) [1; 1; 1]%N
                      scenario_B)) !! 2%nat
     = Some (map (fun x => (INR 3 * (x * x))%R) (TensorBase.data (cells [2]%Q))).
Proof.
  refine (conj eq_refl (conj eq_refl (conj eq_refl _))).
  refine (proj2 (Adagrad_updates_sum_of_squares scenario_B 0 _ Adagrad.init
                   0 1 (cells [1]%Q) (cells [2]%Q) [1; 1; 1]%N
                   eq_refl eq_refl eq_refl eq_refl eq_refl eq_refl
                   _ eq_refl eq_refl _)).
  - intros E. discriminate E.
  - intros E. discriminate E.
Defined.
End AdagradExactInstances.
